(** * JITPhone: a shallow embedding of the transformation pipeline

    The development models the string-rewriting core of the repository
    (JITEngine.js, IOSTranslator.js, the Swift and Objective-C converters
    and the JIT instruction converter) as executable Rocq functions and
    states the properties of the specification over them.

    Conventions.
    - A JavaScript string is a [string]: a sequence of code units.  The
      model covers code units below 256; [\s], [\w], [\d], [\b] and [.]
      follow ECMAScript on that range.
    - JavaScript numbers that the code uses as lengths, indices and
      counters are integers and are modelled in [Z] (or [nat] where they
      only count).
    - Regular expressions are kept in their source syntax and parsed by
      [Regex.parse]; the matcher is a backtracking matcher with the
      priorities of ECMAScript (greedy and lazy quantifiers, captures,
      backreferences, lookahead, word boundaries).
    - Code that throws returns a [Result]; objects that the code mutates
      and the clock are explicit state and inputs. *)

From Stdlib Require Import ZArith QArith Qminmax String Ascii List Lia Bool.
From stdpp Require Import gmap strings.
Import ListNotations.
Open Scope string_scope.
Set Warnings "-register-all".

(** ** Strings *)

Module Str.

Definition code (c : ascii) : N := N_of_ascii c.

Definition between (lo hi : N) (c : ascii) : bool :=
  (N.leb lo (code c) && N.leb (code c) hi)%bool.

Definition is_digit (c : ascii) : bool := between 48 57 c.

Definition is_word (c : ascii) : bool :=
  (between 97 122 c || between 65 90 c || between 48 57 c
   || N.eqb (code c) 95)%bool.

(** WhiteSpace and LineTerminator code units below 256:
    TAB, LF, VT, FF, CR, SP, NBSP. *)
Definition is_space (c : ascii) : bool :=
  (between 9 13 c || N.eqb (code c) 32 || N.eqb (code c) 160)%bool.

Definition is_line_terminator (c : ascii) : bool :=
  (N.eqb (code c) 10 || N.eqb (code c) 13)%bool.

Definition nl : string := String (ascii_of_N 10) "".
Definition dq : string := String (ascii_of_N 34) "".
Definition bslash : string := String (ascii_of_N 92) "".

Definition len (s : string) : Z := Z.of_nat (String.length s).

Fixpoint take (n : nat) (s : string) : string :=
  match n, s with
  | S k, String c r => String c (take k r)
  | _, _ => ""
  end.

Fixpoint drop (n : nat) (s : string) : string :=
  match n, s with
  | S k, String _ r => drop k r
  | _, _ => s
  end.

Fixpoint starts (p s : string) : bool :=
  match p, s with
  | "", _ => true
  | String a p', String b s' => if Ascii.eqb a b then starts p' s' else false
  | String _ _, "" => false
  end.

(** [s.startsWith(p)] *)
Definition startsWith (s p : string) : bool := starts p s.

(** [s.includes(p)] *)
Fixpoint includes (s p : string) : bool :=
  if starts p s then true
  else match s with
       | "" => false
       | String _ r => includes r p
       end.

(** [s.indexOf(p)], [-1] when absent *)
Fixpoint indexOf_from (s p : string) (i : Z) : Z :=
  if starts p s then i
  else match s with
       | "" => (-1)%Z
       | String _ r => indexOf_from r p (i + 1)
       end.
Definition indexOf (s p : string) : Z := indexOf_from s p 0.

(** [s.lastIndexOf(p)], [-1] when absent *)
Fixpoint lastIndexOf_from (s p : string) (i : Z) (found : Z) : Z :=
  let found' := if starts p s then i else found in
  match s with
  | "" => found'
  | String _ r => lastIndexOf_from r p (i + 1) found'
  end.
Definition lastIndexOf (s p : string) : Z := lastIndexOf_from s p 0 (-1).

(** [s.endsWith(p)] *)
Definition endsWith (s p : string) : bool :=
  let n := String.length s in
  let m := String.length p in
  if Nat.leb m n then String.eqb (drop (n - m) s) p else false.

Definition clamp (i : Z) (s : string) : nat :=
  Z.to_nat (Z.min (Z.max i 0) (len s)).

(** [s.substring(a, b)]: both ends clamped to [0, length], swapped when
    [a > b]. *)
Definition substring (s : string) (a b : Z) : string :=
  let a' := clamp a s in
  let b' := clamp b s in
  let lo := Nat.min a' b' in
  let hi := Nat.max a' b' in
  take (hi - lo) (drop lo s).

(** [s.substring(a)] *)
Definition substring_from (s : string) (a : Z) : string :=
  drop (clamp a s) s.

(** [s.slice(a, b)]: negative indices count from the end. *)
Definition slice (s : string) (a b : Z) : string :=
  let rel i := if (i <? 0)%Z then Z.max (len s + i) 0 else Z.min i (len s) in
  let a' := Z.to_nat (rel a) in
  let b' := Z.to_nat (rel b) in
  take (b' - a') (drop a' s).

Fixpoint trimStart (s : string) : string :=
  match s with
  | String c r => if is_space c then trimStart r else s
  | "" => ""
  end.

(** Drops the trailing white space: the result of the recursive call is
    empty exactly when the rest is all white space. *)
Fixpoint trimEnd (s : string) : string :=
  match s with
  | "" => ""
  | String c r =>
      match trimEnd r with
      | "" => if is_space c then "" else String c ""
      | r' => String c r'
      end
  end.

(** [s.trim()] *)
Definition trim (s : string) : string := trimEnd (trimStart s).

(** [s.split(sep)] for a non-empty separator: [cur] holds the piece
    being read, reversed; [skip] counts the separator characters still
    to be dropped. *)
Fixpoint rev_to (acc : string) (s : string) : string :=
  match s with
  | "" => acc
  | String c r => rev_to (String c acc) r
  end.
Definition rev (s : string) : string := rev_to "" s.

Fixpoint split_go (sep : string) (s : string) (cur : string) (skip : nat)
  : list string :=
  match skip with
  | S k => match s with
           | "" => [rev cur]
           | String _ r => split_go sep r cur k
           end
  | O =>
      match s with
      | "" => [rev cur]
      | String c r =>
          if starts sep s
          then rev cur :: split_go sep r "" (String.length sep - 1)
          else split_go sep r (String c cur) 0
      end
  end.
Definition split (s sep : string) : list string := split_go sep s "" 0.

(** [a.join(sep)] *)
Fixpoint join (sep : string) (l : list string) : string :=
  match l with
  | [] => ""
  | [x] => x
  | x :: r => x ++ sep ++ join sep r
  end.

(** The lines of a template literal *)
Definition lines (l : list string) : string := join nl l.

(** [c.repeat(n)] *)
Fixpoint repeat (s : string) (n : nat) : string :=
  match n with
  | O => ""
  | S k => s ++ repeat s k
  end.

Fixpoint concat (l : list string) : string :=
  match l with
  | [] => ""
  | x :: r => x ++ concat r
  end.

Definition last_char (s : string) (d : option ascii) : option ascii :=
  match rev s with
  | String c _ => Some c
  | "" => d
  end.

(** Decimal rendering of an integer, as [String(n)] prints an integer
    Number of magnitude below 10^21. *)
Fixpoint digits_go (fuel : nat) (n : N) (acc : string) : string :=
  match fuel with
  | O => acc
  | S f =>
      let acc' := String (ascii_of_N (48 + N.modulo n 10)) acc in
      if N.ltb n 10 then acc' else digits_go f (N.div n 10) acc'
  end.
Definition of_N (n : N) : string := digits_go (S (N.to_nat (N.log2 n))) n "".
Definition of_Z (z : Z) : string :=
  match z with
  | Z0 => "0"
  | Zpos p => of_N (Npos p)
  | Zneg p => "-" ++ of_N (Npos p)
  end.

(** The integer written by a string of decimal digits. *)
Fixpoint to_N_go (s : string) (acc : N) : N :=
  match s with
  | "" => acc
  | String c r => to_N_go r (10 * acc + (code c - 48))
  end.
Definition to_N (s : string) : N := to_N_go s 0.

End Str.

(** ** Regular expressions *)

Module Regex.

(** Members of a character class [[...]]. *)
Inductive citem : Type :=
| CChr (c : ascii)
| CRng (lo hi : ascii)
| CDigit | CWord | CSpace
| CNotDigit | CNotWord | CNotSpace.

Inductive regex : Type :=
| Eps
| Chr (c : ascii)
| Dot
| Cls (neg : bool) (items : list citem)
| WordB (neg : bool)
| Bol
| Eol
| Seq (r1 r2 : regex)
| Alt (r1 r2 : regex)
| Star (greedy : bool) (r : regex)
| Plus (greedy : bool) (r : regex)
| Opt (greedy : bool) (r : regex)
| Group (n : nat) (r : regex)
| Backref (n : nat)
| Look (neg : bool) (r : regex).

Definition citem_match (c : ascii) (it : citem) : bool :=
  match it with
  | CChr x => Ascii.eqb c x
  | CRng lo hi => Str.between (Str.code lo) (Str.code hi) c
  | CDigit => Str.is_digit c
  | CWord => Str.is_word c
  | CSpace => Str.is_space c
  | CNotDigit => negb (Str.is_digit c)
  | CNotWord => negb (Str.is_word c)
  | CNotSpace => negb (Str.is_space c)
  end.

Definition cls_match (neg : bool) (items : list citem) (c : ascii) : bool :=
  xorb neg (existsb (citem_match c) items).

(** *** Parsing the source syntax *)

Definition esc_item (e : ascii) : citem :=
  if Ascii.eqb e "d" then CDigit
  else if Ascii.eqb e "w" then CWord
  else if Ascii.eqb e "s" then CSpace
  else if Ascii.eqb e "D" then CNotDigit
  else if Ascii.eqb e "W" then CNotWord
  else if Ascii.eqb e "S" then CNotSpace
  else if Ascii.eqb e "n" then CChr (ascii_of_N 10)
  else if Ascii.eqb e "r" then CChr (ascii_of_N 13)
  else if Ascii.eqb e "t" then CChr (ascii_of_N 9)
  else CChr e.

(** The members of a class, up to the closing bracket. *)
Fixpoint p_class (s : string) (acc : list citem)
  : option (list citem * string) :=
  match s with
  | "" => None
  | String c r =>
      if Ascii.eqb c "]" then Some (List.rev acc, r)
      else if Ascii.eqb c "\" then
        match r with
        | String e r' => p_class r' (esc_item e :: acc)
        | "" => None
        end
      else
        match r with
        | String d (String hi r') =>
            if (Ascii.eqb d "-" && negb (Ascii.eqb hi "]"))%bool
            then p_class r' (CRng c hi :: acc)
            else p_class r (CChr c :: acc)
        | _ => p_class r (CChr c :: acc)
        end
  end.

Definition p_escape (e : ascii) : regex :=
  if Ascii.eqb e "b" then WordB false
  else if Ascii.eqb e "B" then WordB true
  else if (Str.between 49 57 e) then Backref (N.to_nat (Str.code e - 48))
  else match esc_item e with
       | CChr c => Chr c
       | it => Cls false [it]
       end.

(** A quantifier after an atom: [*], [+], [?], each lazy when followed
    by [?]. *)
Definition p_quant (a : regex) (s : string) : regex * string :=
  match s with
  | String q r =>
      let lazy := Str.starts "?" r in
      let r' := if lazy then Str.drop 1 r else r in
      if Ascii.eqb q "*" then (Star (negb lazy) a, r')
      else if Ascii.eqb q "+" then (Plus (negb lazy) a, r')
      else if Ascii.eqb q "?" then (Opt (negb lazy) a, r')
      else (a, s)
  | "" => (a, s)
  end.

Definition mkseq (a b : regex) : regex :=
  match b with
  | Eps => a
  | _ => Seq a b
  end.

Definition close (x : option (regex * string * nat)) (f : regex -> regex)
  : option (regex * string * nat) :=
  match x with
  | Some (r, String c rest, g) =>
      if Ascii.eqb c ")" then Some (f r, rest, g) else None
  | _ => None
  end.

(** Disjunction, alternative and atom; [g] is the index of the next
    capture group, counted by opening parentheses. *)
Fixpoint p_alt (fuel : nat) (s : string) (g : nat)
  : option (regex * string * nat) :=
  match fuel with
  | O => None
  | S f =>
      match p_seq f s g with
      | Some (r1, String c rest, g1) =>
          if Ascii.eqb c "|" then
            match p_alt f rest g1 with
            | Some (r2, rest2, g2) => Some (Alt r1 r2, rest2, g2)
            | None => None
            end
          else Some (r1, String c rest, g1)
      | other => other
      end
  end
with p_seq (fuel : nat) (s : string) (g : nat)
  : option (regex * string * nat) :=
  match fuel with
  | O => None
  | S f =>
      match s with
      | "" => Some (Eps, "", g)
      | String c _ =>
          if (Ascii.eqb c ")" || Ascii.eqb c "|")%bool then Some (Eps, s, g)
          else
            match p_atom f s g with
            | Some (a, rest, g1) =>
                let '(a', rest') := p_quant a rest in
                match p_seq f rest' g1 with
                | Some (r2, rest2, g2) => Some (mkseq a' r2, rest2, g2)
                | None => None
                end
            | None => None
            end
      end
  end
with p_atom (fuel : nat) (s : string) (g : nat)
  : option (regex * string * nat) :=
  match fuel with
  | O => None
  | S f =>
      match s with
      | "" => None
      | String c r =>
          if Ascii.eqb c "(" then
            if Str.starts "?:" r then close (p_alt f (Str.drop 2 r) g) (fun x => x)
            else if Str.starts "?=" r then close (p_alt f (Str.drop 2 r) g) (Look false)
            else if Str.starts "?!" r then close (p_alt f (Str.drop 2 r) g) (Look true)
            else close (p_alt f r (S g)) (Group g)
          else if Ascii.eqb c "[" then
            let neg := Str.starts "^" r in
            match p_class (if neg then Str.drop 1 r else r) [] with
            | Some (items, rest) => Some (Cls neg items, rest, g)
            | None => None
            end
          else if Ascii.eqb c "\" then
            match r with
            | String e r' => Some (p_escape e, r', g)
            | "" => None
            end
          else if Ascii.eqb c "." then Some (Dot, r, g)
          else if Ascii.eqb c "^" then Some (Bol, r, g)
          else if Ascii.eqb c "$" then Some (Eol, r, g)
          else Some (Chr c, r, g)
      end
  end.

(** A compiled expression: the tree, the number of capture groups and
    the flags [g] and [m]. *)
Record RegExp : Type := mkRegExp {
  ast : regex;
  ngroups : nat;
  global : bool;
  multiline : bool
}.

(** A pattern that does not parse is a [SyntaxError] in the source; no
    pattern of the repository is one, and [parse] then yields an
    expression that matches nothing. *)
Definition never : regex := Cls false [].

Definition parse (pattern flags : string) : RegExp :=
  match p_alt (3 * String.length pattern + 3) pattern 1 with
  | Some (r, "", g) =>
      mkRegExp r (g - 1) (Str.includes flags "g") (Str.includes flags "m")
  | _ => mkRegExp never 0 (Str.includes flags "g") (Str.includes flags "m")
  end.

Definition parses (pattern : string) : bool :=
  match p_alt (3 * String.length pattern + 3) pattern 1 with
  | Some (_, "", _) => true
  | _ => false
  end.

(** *** Matching *)

Definition captures : Type := list (nat * string).

Fixpoint get_cap (n : nat) (cs : captures) : option string :=
  match cs with
  | [] => None
  | (i, v) :: r => if Nat.eqb i n then Some v else get_cap n r
  end.

Definition clear_caps (gs : list nat) (cs : captures) : captures :=
  match gs with
  | [] => cs
  | _ => List.filter (fun iv => negb (existsb (Nat.eqb (fst iv)) gs)) cs
  end.

(** The capture groups inside an expression. *)
Fixpoint groups (r : regex) : list nat :=
  match r with
  | Seq a b | Alt a b => (groups a ++ groups b)%list
  | Star _ a | Plus _ a | Opt _ a | Look _ a => groups a
  | Group n a => n :: groups a
  | _ => []
  end.

(** The state of a match: the character before the current position,
    the input from the current position on, the number of characters
    consumed since the match began, and the captures. *)
Record mst : Type := MSt {
  m_prev : option ascii;
  m_rest : string;
  m_pos : nat;
  m_caps : captures
}.

Definition cont : Type := mst -> option mst.

Definition step_char (p : ascii -> bool) (k : cont) (st : mst) : option mst :=
  match m_rest st with
  | String c r =>
      if p c then k (MSt (Some c) r (S (m_pos st)) (m_caps st)) else None
  | "" => None
  end.

Definition is_word_opt (c : option ascii) : bool :=
  match c with
  | Some x => Str.is_word x
  | None => false
  end.

Definition next_char (st : mst) : option ascii :=
  match m_rest st with
  | String c _ => Some c
  | "" => None
  end.

Definition at_word_boundary (st : mst) : bool :=
  xorb (is_word_opt (m_prev st)) (is_word_opt (next_char st)).

Definition at_bol (ml : bool) (st : mst) : bool :=
  match m_prev st with
  | None => true
  | Some c => (ml && Str.is_line_terminator c)%bool
  end.

Definition at_eol (ml : bool) (st : mst) : bool :=
  match m_rest st with
  | "" => true
  | String c _ => (ml && Str.is_line_terminator c)%bool
  end.

Definition orelse (a : option mst) (b : unit -> option mst) : option mst :=
  match a with
  | Some x => Some x
  | None => b tt
  end.

(** The iterations of [r*]: an iteration that consumes nothing is
    rejected, and the captures of [r] are reset when an iteration
    begins.  [fuel] is the input at the first iteration: every
    iteration consumes a character, so the fuel outlasts the input. *)
Definition star_loop (body : cont -> cont) (greedy : bool) (k : cont)
  : string -> mst -> option mst :=
  fix loop (fuel : string) (st : mst) {struct fuel} : option mst :=
    match fuel with
    | "" => k st
    | String _ fuel' =>
        let again (_ : unit) :=
          body (fun st' =>
                  if Nat.eqb (m_pos st') (m_pos st) then None
                  else loop fuel' st') st in
        if greedy then orelse (again tt) (fun _ => k st)
        else orelse (k st) again
    end.

Definition with_caps (cs : captures) (st : mst) : mst :=
  MSt (m_prev st) (m_rest st) (m_pos st) cs.

Definition reset (gs : list nat) (st : mst) : mst :=
  with_caps (clear_caps gs (m_caps st)) st.

Definition accept : cont := fun st => Some st.

(** [m ml r k st]: match [r] at [st] and continue with [k]; the first
    success in priority order is the result. *)
Fixpoint m (ml : bool) (r : regex) (k : cont) (st : mst) {struct r}
  : option mst :=
  match r with
  | Eps => k st
  | Chr c => step_char (Ascii.eqb c) k st
  | Dot => step_char (fun x => negb (Str.is_line_terminator x)) k st
  | Cls neg items => step_char (cls_match neg items) k st
  | WordB neg => if xorb neg (at_word_boundary st) then k st else None
  | Bol => if at_bol ml st then k st else None
  | Eol => if at_eol ml st then k st else None
  | Seq r1 r2 => m ml r1 (m ml r2 k) st
  | Alt r1 r2 => orelse (m ml r1 k st) (fun _ => m ml r2 k st)
  | Star g r1 =>
      star_loop (fun k' st' => m ml r1 k' (reset (groups r1) st')) g k
        (m_rest st) st
  | Plus g r1 =>
      m ml r1
        (fun st1 =>
           star_loop (fun k' st' => m ml r1 k' (reset (groups r1) st')) g k
             (m_rest st1) st1)
        (reset (groups r1) st)
  | Opt g r1 =>
      let once (_ : unit) :=
        m ml r1
          (fun st' => if Nat.eqb (m_pos st') (m_pos st) then None else k st')
          (reset (groups r1) st) in
      if g then orelse (once tt) (fun _ => k st)
      else orelse (k st) once
  | Group n r1 =>
      m ml r1
        (fun st' =>
           k (with_caps
                ((n, Str.take (m_pos st' - m_pos st) (m_rest st)) :: m_caps st')
                st'))
        st
  | Backref n =>
      match get_cap n (m_caps st) with
      | None => k st
      | Some v =>
          if Str.starts v (m_rest st)
          then k (MSt (Str.last_char v (m_prev st))
                      (Str.drop (String.length v) (m_rest st))
                      (m_pos st + String.length v) (m_caps st))
          else None
      end
  | Look neg r1 =>
      match m ml r1 accept st with
      | Some st' => if neg then None else k (with_caps (m_caps st') st)
      | None => if neg then k st else None
      end
  end.

(** A match beginning exactly at the current position: its length and
    captures. *)
Definition match_here (rx : RegExp) (prev : option ascii) (s : string)
  : option (nat * captures) :=
  match m (multiline rx) (ast rx) accept (MSt prev s 0 []) with
  | Some st => Some (m_pos st, m_caps st)
  | None => None
  end.

(** The result of [exec]: the index and text of the match and the
    captures 1..n ([None] for a group that did not take part). *)
Record MatchResult : Type := mkMatch {
  index : nat;
  whole : string;
  caps : list (option string)
}.

Definition cap_list (n : nat) (cs : captures) : list (option string) :=
  map (fun i => get_cap i cs) (seq 1 n).

(** [m[i]] for [i >= 1]; [None] is [undefined]. *)
Definition grp (mr : MatchResult) (i : nat) : option string :=
  nth (i - 1) (caps mr) None.

(** The leftmost match at or after the current position. *)
Fixpoint search (rx : RegExp) (prev : option ascii) (s : string) (i : nat)
  : option MatchResult :=
  match match_here rx prev s with
  | Some (n, cs) => Some (mkMatch i (Str.take n s) (cap_list (ngroups rx) cs))
  | None =>
      match s with
      | "" => None
      | String c r => search rx (Some c) r (S i)
      end
  end.

(** [rx.exec(s)] from index 0, and [s.match(rx)] for [rx] without the
    [g] flag. *)
Definition exec (rx : RegExp) (s : string) : option MatchResult :=
  search rx None s 0.

(** [rx.test(s)] from index 0. *)
Definition test (rx : RegExp) (s : string) : bool :=
  match exec rx s with
  | Some _ => true
  | None => false
  end.

(** The successive matches of a global expression: after a match the
    search resumes at its end, or one character further when the match
    is empty.  [skip] counts the characters of the last match that are
    still to be passed. *)
Fixpoint scan {A : Type} (rx : RegExp) (hit : MatchResult -> A)
  (lit : ascii -> A) (prev : option ascii) (s : string) (i : nat)
  (skip : nat) : list A :=
  match skip with
  | S k =>
      match s with
      | "" => []
      | String c r => scan rx hit lit (Some c) r (S i) k
      end
  | O =>
      match match_here rx prev s with
      | Some (n, cs) =>
          let h := hit (mkMatch i (Str.take n s) (cap_list (ngroups rx) cs)) in
          match s with
          | "" => [h]
          | String c r =>
              match n with
              | O => h :: lit c :: scan rx hit lit (Some c) r (S i) 0
              | S n' => h :: scan rx hit lit (Some c) r (S i) n'
              end
          end
      | None =>
          match s with
          | "" => []
          | String c r => lit c :: scan rx hit lit (Some c) r (S i) 0
          end
      end
  end.

(** [s.match(rx)] for [rx] with the [g] flag: the matched texts ([[]]
    stands for [null]). *)
Definition match_all (rx : RegExp) (s : string) : list string :=
  concat (scan rx (fun mr => [whole mr]) (fun _ => []) None s 0 0).

(** [s.split(rx)] for an expression without capture groups.  A match
    is tried at every index [q] after the end [p] of the last separator;
    an empty match at [p] itself is passed over.  [cur] is the text
    from [p] to [q], and [skip] counts the characters of the separator
    still to be passed. *)
Fixpoint split_go (rx : RegExp) (prev : option ascii) (s : string) (cur : string)
  (skip : nat) : list string :=
  match skip with
  | S k =>
      match s with
      | "" => [cur]
      | String c r => split_go rx (Some c) r cur k
      end
  | O =>
      match s with
      | "" => [cur]
      | String c r =>
          match match_here rx prev s with
          | Some (O, _) =>
              if String.eqb cur "" then split_go rx (Some c) r (String c "") 0
              else cur :: split_go rx (Some c) r (String c "") 0
          | Some (S n, _) => cur :: split_go rx (Some c) r "" n
          | None => split_go rx (Some c) r (cur ++ String c "") 0
          end
      end
  end.

Definition split (rx : RegExp) (s : string) : list string :=
  match s with
  | "" =>
      match match_here rx None "" with
      | Some _ => []
      | None => [""]
      end
  | _ => split_go rx None s "" 0
  end.

(** *** Replacement *)

(** A replacement is computed from the match, as a callback does. *)
Definition replacer : Type := MatchResult -> string.

Definition replace_first (rx : RegExp) (f : replacer) (s : string) : string :=
  match exec rx s with
  | Some mr =>
      Str.take (index mr) s ++ f mr
        ++ Str.drop (index mr + String.length (whole mr)) s
  | None => s
  end.

Definition replace_global (rx : RegExp) (f : replacer) (s : string) : string :=
  Str.concat (scan rx f (fun c => String c "") None s 0 0).

(** [s.replace(rx, f)] *)
Definition replace_fn (rx : RegExp) (f : replacer) (s : string) : string :=
  if global rx then replace_global rx f s else replace_first rx f s.

(** The substitution of a replacement string: [$$], [$&], [$n] and
    [$nn] for an existing group; any other [$] is literal. *)
Definition digit_val (c : ascii) : nat := N.to_nat (Str.code c - 48).

Definition cap_text (mr : MatchResult) (i : nat) : string :=
  match grp mr i with
  | Some v => v
  | None => ""
  end.

Fixpoint substitute (n : nat) (mr : MatchResult) (t : string) : string :=
  match t with
  | "" => ""
  | String c r =>
      if Ascii.eqb c "$" then
        match r with
        | String d r' =>
            if Ascii.eqb d "$" then String "$" (substitute n mr r')
            else if Ascii.eqb d "&" then whole mr ++ substitute n mr r'
            else if Str.is_digit d then
              let one := digit_val d in
              match r' with
              | String e r'' =>
                  let two := 10 * one + digit_val e in
                  if (Str.is_digit e && Nat.leb 1 two && Nat.leb two n)%bool
                  then cap_text mr two ++ substitute n mr r''
                  else if (Nat.leb 1 one && Nat.leb one n)%bool
                  then cap_text mr one ++ substitute n mr r'
                  else String c (substitute n mr r)
              | "" =>
                  if (Nat.leb 1 one && Nat.leb one n)%bool
                  then cap_text mr one
                  else String c (substitute n mr r)
              end
            else String c (substitute n mr r)
        | "" => "$"
        end
      else String c (substitute n mr r)
  end.

(** [s.replace(rx, t)] for a replacement string [t] *)
Definition replace (rx : RegExp) (t : string) (s : string) : string :=
  replace_fn rx (fun mr => substitute (ngroups rx) mr t) s.

(** *** What a match can begin with, and what it always captures *)

(** [r] may match the empty string. *)
Fixpoint nullable (r : regex) : bool :=
  match r with
  | Chr _ | Dot | Cls _ _ => false
  | Seq a b => (nullable a && nullable b)%bool
  | Alt a b => (nullable a || nullable b)%bool
  | Plus _ a | Group _ a => nullable a
  | Eps | WordB _ | Bol | Eol | Star _ _ | Opt _ _ | Backref _ | Look _ _ => true
  end.

(** [c] may be the first character that [r] consumes. *)
Fixpoint first (r : regex) (c : ascii) : bool :=
  match r with
  | Chr x => Ascii.eqb x c
  | Dot => negb (Str.is_line_terminator c)
  | Cls neg items => cls_match neg items c
  | Seq a b => (first a c || (nullable a && first b c))%bool
  | Alt a b => (first a c || first b c)%bool
  | Star _ a | Plus _ a | Opt _ a | Group _ a => first a c
  | Backref _ => true
  | Eps | WordB _ | Bol | Eol | Look _ _ => false
  end.

(** The groups that are set in every match of [r]. *)
Fixpoint definite (r : regex) : list nat :=
  match r with
  | Seq a b => (definite a ++ definite b)%list
  | Plus _ a => definite a
  | Group n a => n :: definite a
  | _ => []
  end.

(** The capture groups of [r] are numbered apart. *)
Fixpoint distinct (l : list nat) : bool :=
  match l with
  | [] => true
  | x :: r => (negb (existsb (Nat.eqb x) r) && distinct r)%bool
  end.

End Regex.

(** ** Results of code that may throw *)

Inductive Result (A : Type) : Type :=
| Ok (a : A)
| Throw (message : string).
Arguments Ok {A} a.
Arguments Throw {A} message.

Definition bind {A B : Type} (x : Result A) (f : A -> Result B) : Result B :=
  match x with
  | Ok a => f a
  | Throw e => Throw e
  end.

Notation "'let!' x ':=' c1 'in' c2" := (bind c1 (fun x => c2))
  (at level 10, x name, c1 at level 100, c2 at level 200).


(** [try { body } catch (error) { throw new Error(prefix + error.message) }] *)
Definition rethrow {A : Type} (prefix : string) (body : Result A) : Result A :=
  match body with
  | Ok a => Ok a
  | Throw e => Throw (prefix ++ e)
  end.

(** ** Property lookup on an object literal *)

Module JS.

(** The property names every object literal inherits from
    [Object.prototype]. *)
Definition object_prototype_keys : list string :=
  [ "constructor"; "__defineGetter__"; "__defineSetter__"; "hasOwnProperty";
    "__lookupGetter__"; "__lookupSetter__"; "isPrototypeOf";
    "propertyIsEnumerable"; "toString"; "valueOf"; "__proto__";
    "toLocaleString" ].

Inductive Lookup (A : Type) : Type :=
| Own (a : A)
| Inherited (name : string)
| Undefined.
Arguments Own {A} a.
Arguments Inherited {A} name.
Arguments Undefined {A}.

Fixpoint assoc {A : Type} (key : string) (l : list (string * A)) : option A :=
  match l with
  | [] => None
  | (k, v) :: r => if String.eqb k key then Some v else assoc key r
  end.

(** [obj[key]] for an object literal [obj] with the given own
    properties. *)
Definition get {A : Type} (obj : list (string * A)) (key : string) : Lookup A :=
  match assoc key obj with
  | Some v => Own v
  | None =>
      if existsb (String.eqb key) object_prototype_keys
      then Inherited key
      else Undefined
  end.

(** [Object.keys(obj)] *)
Definition keys {A : Type} (obj : list (string * A)) : list string :=
  map fst obj.

End JS.

(** ** Arithmetic on Number values that are integers

    The constant folder computes [String(Number(a) op Number(b))] for
    strings of decimal digits.  A Number is a binary64 value; the values
    that arise here are integers, the infinities and NaN. *)

Module Num.

Local Open Scope Z_scope.

Inductive number : Type :=
| Fin (z : Z)
| Inf (negative : bool)
| NaN.

(** Rounding of an integer to 53 significant bits, ties to even. *)
Definition round53 (z : Z) : Z :=
  let a := Z.abs z in
  let b := Z.log2 a + 1 in
  if (b <=? 53)%Z then z
  else
    let sh := (b - 53)%Z in
    let q := Z.shiftr a sh in
    let rem := (a - Z.shiftl q sh)%Z in
    let half := Z.shiftl 1 (sh - 1) in
    let q' := if ((half <? rem) || ((rem =? half) && Z.odd q))%bool
              then (q + 1)%Z else q in
    (Z.sgn z * Z.shiftl q' sh)%Z.

Definition of_int (z : Z) : number :=
  let r := round53 z in
  if (Z.abs r >=? 2 ^ 1024)%Z then Inf (r <? 0)%Z else Fin r.

(** [Number(s)] for a string of decimal digits *)
Definition of_digits (s : string) : number := of_int (Z.of_N (Str.to_N s)).

Definition add (x y : number) : number :=
  match x, y with
  | NaN, _ | _, NaN => NaN
  | Inf a, Inf b => if Bool.eqb a b then Inf a else NaN
  | Inf a, _ | _, Inf a => Inf a
  | Fin a, Fin b => of_int (a + b)
  end.

Definition neg (x : number) : number :=
  match x with
  | Fin a => Fin (- a)
  | Inf a => Inf (negb a)
  | NaN => NaN
  end.

Definition sub (x y : number) : number := add x (neg y).

Definition sign_neg (x : number) : bool :=
  match x with
  | Fin a => (a <? 0)%Z
  | Inf a => a
  | NaN => false
  end.

Definition mul (x y : number) : number :=
  match x, y with
  | NaN, _ | _, NaN => NaN
  | Inf _, Fin 0 | Fin 0, Inf _ => NaN
  | Inf _, _ | _, Inf _ => Inf (xorb (sign_neg x) (sign_neg y))
  | Fin a, Fin b => of_int (a * b)
  end.

Fixpoint strip_zeros_rev (s : string) : string :=
  match s with
  | String c r => if Ascii.eqb c "0" then strip_zeros_rev r else s
  | "" => ""
  end.

(** The digits of [v] without its trailing zeros. *)
Definition mantissa (v : Z) : string :=
  Str.rev (strip_zeros_rev (Str.rev (Str.of_Z v))).

(** The shortest decimal [s * 10^e] whose Number value is [x], with at
    most [k] digits; among the candidates with the fewest digits the
    one nearest to [x]. *)
Fixpoint shortest (fuel : nat) (k : Z) (n : Z) (x : Z) : Z :=
  match fuel with
  | O => x
  | S f =>
      let p := (10 ^ (n - k))%Z in
      let lo := (x / p * p)%Z in
      let hi := (lo + p)%Z in
      let ok_lo := (round53 lo =? x)%Z in
      let ok_hi := (round53 hi =? x)%Z in
      if (ok_lo && ok_hi)%bool then
        if (x - lo <? hi - x)%Z then lo
        else if (hi - x <? x - lo)%Z then hi
        else if Z.even (lo / p) then lo else hi
      else if ok_lo then lo
      else if ok_hi then hi
      else shortest f (k + 1) n x
  end.

Definition ndigits (z : Z) : Z := Z.of_nat (String.length (Str.of_Z z)).

(** [String(x)] for a positive integer Number [x]. *)
Definition pos_to_string (x : Z) : string :=
  if (x <? 10 ^ 21)%Z then Str.of_Z x
  else
    let v := shortest 17 1 (ndigits x) x in
    let ds := mantissa v in
    let e := Str.of_Z (ndigits v - 1) in
    match ds with
    | String d "" => String d "" ++ "e+" ++ e
    | String d r => String d "" ++ "." ++ r ++ "e+" ++ e
    | "" => "0"
    end.

(** [String(x)] *)
Definition to_string (x : number) : string :=
  match x with
  | NaN => "NaN"
  | Inf false => "Infinity"
  | Inf true => "-Infinity"
  | Fin 0 => "0"
  | Fin (Zpos p) => pos_to_string (Zpos p)
  | Fin (Zneg p) => "-" ++ pos_to_string (Zpos p)
  end.

End Num.

(** ** MD5 (RFC 1321), as [crypto.createHash('md5')] computes it *)

Module MD5.

Local Open Scope Z_scope.

Definition mask32 (x : Z) : Z := Z.land x 0xffffffff.

Definition rotl (x : Z) (c : Z) : Z :=
  mask32 (Z.lor (Z.shiftl x c) (Z.shiftr x (32 - c))).

Definition not32 (x : Z) : Z := Z.lxor x 0xffffffff.

(** [K[i] = floor(2^32 * abs(sin(i + 1)))] *)
Definition K : list Z :=
  [
    0xd76aa478; 0xe8c7b756; 0x242070db; 0xc1bdceee;
    0xf57c0faf; 0x4787c62a; 0xa8304613; 0xfd469501;
    0x698098d8; 0x8b44f7af; 0xffff5bb1; 0x895cd7be;
    0x6b901122; 0xfd987193; 0xa679438e; 0x49b40821;
    0xf61e2562; 0xc040b340; 0x265e5a51; 0xe9b6c7aa;
    0xd62f105d; 0x02441453; 0xd8a1e681; 0xe7d3fbc8;
    0x21e1cde6; 0xc33707d6; 0xf4d50d87; 0x455a14ed;
    0xa9e3e905; 0xfcefa3f8; 0x676f02d9; 0x8d2a4c8a;
    0xfffa3942; 0x8771f681; 0x6d9d6122; 0xfde5380c;
    0xa4beea44; 0x4bdecfa9; 0xf6bb4b60; 0xbebfbc70;
    0x289b7ec6; 0xeaa127fa; 0xd4ef3085; 0x04881d05;
    0xd9d4d039; 0xe6db99e5; 0x1fa27cf8; 0xc4ac5665;
    0xf4292244; 0x432aff97; 0xab9423a7; 0xfc93a039;
    0x655b59c3; 0x8f0ccc92; 0xffeff47d; 0x85845dd1;
    0x6fa87e4f; 0xfe2ce6e0; 0xa3014314; 0x4e0811a1;
    0xf7537e82; 0xbd3af235; 0x2ad7d2bb; 0xeb86d391 ].

Definition S : list Z :=
  [ 7; 12; 17; 22; 7; 12; 17; 22; 7; 12; 17; 22; 7; 12; 17; 22;
    5; 9; 14; 20; 5; 9; 14; 20; 5; 9; 14; 20; 5; 9; 14; 20;
    4; 11; 16; 23; 4; 11; 16; 23; 4; 11; 16; 23; 4; 11; 16; 23;
    6; 10; 15; 21; 6; 10; 15; 21; 6; 10; 15; 21; 6; 10; 15; 21 ].

(** The bytes that [update(s)] hashes: the UTF-8 encoding of the code
    units of [s]. *)
Fixpoint utf8 (s : string) : list Z :=
  match s with
  | "" => []
  | String c r =>
      let n := Z.of_N (Str.code c) in
      if n <? 128 then n :: utf8 r
      else Z.lor 0xc0 (Z.shiftr n 6) :: Z.lor 0x80 (Z.land n 0x3f) :: utf8 r
  end.

Fixpoint le_bytes (n : nat) (x : Z) : list Z :=
  match n with
  | O => []
  | Datatypes.S k => Z.land x 0xff :: le_bytes k (Z.shiftr x 8)
  end.

(** Padding: the bit [1], zeros up to 56 modulo 64 bytes, and the
    length in bits as a 64-bit little-endian integer. *)
Definition pad (msg : list Z) : list Z :=
  let n := Z.of_nat (List.length msg) in
  let zeros := Z.to_nat ((55 - n) mod 64) in
  (msg ++ [0x80] ++ List.repeat 0 zeros ++ le_bytes 8 (Z.land (8 * n) 0xffffffffffffffff))%list.

Fixpoint words (fuel : nat) (bs : list Z) : list Z :=
  match fuel, bs with
  | Datatypes.S f, b0 :: b1 :: b2 :: b3 :: r =>
      (b0 + Z.shiftl b1 8 + Z.shiftl b2 16 + Z.shiftl b3 24) :: words f r
  | _, _ => []
  end.

Definition state : Type := (Z * Z * Z * Z)%type.

Definition round (M : list Z) (st : state) (i : nat) : state :=
  let '(a, b, c, d) := st in
  let iz := Z.of_nat i in
  let '(f, g) :=
    if iz <? 16 then (Z.lor (Z.land b c) (Z.land (not32 b) d), iz)
    else if iz <? 32 then
      (Z.lor (Z.land d b) (Z.land (not32 d) c), (5 * iz + 1) mod 16)
    else if iz <? 48 then (Z.lxor b (Z.lxor c d), (3 * iz + 5) mod 16)
    else (Z.lxor c (Z.lor b (not32 d)), (7 * iz) mod 16) in
  let f' := mask32 (f + a + nth i K 0 + nth (Z.to_nat g) M 0) in
  (d, mask32 (b + rotl f' (nth i S 0)), b, c).

Definition block (st : state) (M : list Z) : state :=
  let '(a0, b0, c0, d0) := st in
  let '(a, b, c, d) := fold_left (round M) (seq 0 64) st in
  (mask32 (a0 + a), mask32 (b0 + b), mask32 (c0 + c), mask32 (d0 + d)).

Fixpoint blocks (fuel : nat) (st : state) (ws : list Z) : state :=
  match fuel, ws with
  | Datatypes.S f, _ :: _ => blocks f (block st (firstn 16 ws)) (skipn 16 ws)
  | _, _ => st
  end.

Definition init : state := (0x67452301, 0xefcdab89, 0x98badcfe, 0x10325476).

Definition hex_digit (x : Z) : ascii :=
  ascii_of_N (Z.to_N (if x <? 10 then 48 + x else 87 + x)).

Fixpoint hex_bytes (bs : list Z) : string :=
  match bs with
  | [] => ""
  | b :: r => String (hex_digit (Z.shiftr b 4)) (String (hex_digit (Z.land b 15)) (hex_bytes r))
  end.

(** [crypto.createHash('md5').update(s).digest('hex')] *)
Definition hex (s : string) : string :=
  let bs := pad (utf8 s) in
  let n := List.length bs in
  let '(a, b, c, d) := blocks n init (words n bs) in
  hex_bytes (le_bytes 4 a ++ le_bytes 4 b ++ le_bytes 4 c ++ le_bytes 4 d)%list.

End MD5.

(** ** JSON.stringify on the values the cache keys are made of *)

Module Json.

Inductive t : Type :=
| Null
| Bool (b : bool)
| Num (z : Z)
| Str (s : string)
| Obj (fields : list (string * t)).

Definition hex4 (n : N) : string :=
  let d x := MD5.hex_digit (Z.of_N x) in
  String (d (N.modulo (N.div n 4096) 16))
    (String (d (N.modulo (N.div n 256) 16))
       (String (d (N.modulo (N.div n 16) 16))
          (String (d (N.modulo n 16)) ""))).

(** QuoteJSONString: the quotation mark and the reverse solidus are
    escaped, control characters are written as [\b \t \n \f \r] or
    [\u00XX], every other code unit stands for itself. *)
Fixpoint escape (s : string) : string :=
  match s with
  | "" => ""
  | String c r =>
      let n := Str.code c in
      (if N.eqb n 34 then Str.bslash ++ Str.dq
       else if N.eqb n 92 then Str.bslash ++ Str.bslash
       else if N.eqb n 8 then Str.bslash ++ "b"
       else if N.eqb n 9 then Str.bslash ++ "t"
       else if N.eqb n 10 then Str.bslash ++ "n"
       else if N.eqb n 12 then Str.bslash ++ "f"
       else if N.eqb n 13 then Str.bslash ++ "r"
       else if N.ltb n 32 then Str.bslash ++ "u" ++ hex4 n
       else String c "") ++ escape r
  end.

Definition quote (s : string) : string := Str.dq ++ escape s ++ Str.dq.

(** [JSON.stringify(v)]; numbers are integers below 10^21 in
    magnitude. *)
Fixpoint stringify (v : t) : string :=
  match v with
  | Null => "null"
  | Bool true => "true"
  | Bool false => "false"
  | Num z => Str.of_Z z
  | Str s => quote s
  | Obj fields =>
      "{" ++ Str.join ","
               (map (fun kv => quote (fst kv) ++ ":" ++ stringify (snd kv)) fields)
          ++ "}"
  end.

(** A property whose value is [undefined] is left out of the object. *)
Definition field {A : Type} (key : string) (f : A -> t) (v : option A)
  : list (string * t) :=
  match v with
  | Some x => [(key, f x)]
  | None => []
  end.

End Json.

(** [${x}] in a template literal, for a value that may be [undefined] *)
Definition tpl (x : option string) : string :=
  match x with
  | Some s => s
  | None => "undefined"
  end.

(** A property read on a value that may be [undefined] or [null] *)
Definition deref {A : Type} (x : option A) (what : string) : Result A :=
  match x with
  | Some a => Ok a
  | None => Throw ("Cannot read properties of undefined (reading '" ++ what ++ "')")
  end.

Fixpoint sequence {A : Type} (l : list (Result A)) : Result (list A) :=
  match l with
  | [] => Ok []
  | x :: r =>
      match x with
      | Throw e => Throw e
      | Ok a =>
          match sequence r with
          | Ok l' => Ok (a :: l')
          | Throw e => Throw e
          end
      end
  end.

(** [s.replace(rx, f)] for a callback [f] that may throw *)
Definition replace_try (rx : Regex.RegExp) (f : Regex.MatchResult -> Result string)
  (s : string) : Result string :=
  if Regex.global rx then
    match sequence (Regex.scan rx f (fun c => Ok (String c "")) None s 0 0) with
    | Ok pieces => Ok (Str.concat pieces)
    | Throw e => Throw e
    end
  else
    match Regex.exec rx s with
    | Some mr =>
        match f mr with
        | Ok t =>
            Ok (Str.take (Regex.index mr) s ++ t
                ++ Str.drop (Regex.index mr + String.length (Regex.whole mr)) s)
        | Throw e => Throw e
        end
    | None => Ok s
    end.

(** ** The virtual machine the engine runs scripts in

    [vm.Script] and [runInContext] belong to the host; the model takes
    their behaviour as given. *)

Module VM.

Inductive value : Type :=
| Undefined
| Null
| Boolean (b : bool)
| Number (z : Z)
| Text (s : string)
| Object (fields : list (string * value)).

(** What running a script does. *)
Inductive outcome : Type :=
| Completes (v : value)
| Uncaught (message : string)
| TimesOut.

(** What a piece of code does when it runs as the body of a function:
    it returns, throws an object with a message, throws [null], throws
    [undefined], or does not finish within the time limit. *)
Inductive behaviour : Type :=
| Returns (v : value)
| ThrowsError (message : string)
| ThrowsNull
| ThrowsUndefined
| Hangs.

Record t : Type := mk {
  (** [new vm.Script(src)]: the message of the SyntaxError, if any *)
  syntax_error : string -> option string;
  (** [script.runInContext(context, { timeout })] for a script that was
      loaded *)
  run : string -> Z -> outcome;
  (** the code of a function body, run with [input] bound, under a
      time limit *)
  body : string -> value -> Z -> behaviour
}.

Definition timeout_message (timeout : Z) : string :=
  "Script execution timed out after " ++ Str.of_Z timeout ++ "ms".

End VM.

(** ** JITEngine.js *)

Module JITEngine.

Record LevelConfig : Type := mkLevel {
  level_enableJIT : bool;
  level_optimizations : list string
}.

(** [this.optimizationLevels] *)
Definition optimizationLevels : list (string * LevelConfig) :=
  [ ("O0", mkLevel false []);
    ("O1", mkLevel true ["inline"; "const-fold"]);
    ("O2", mkLevel true ["inline"; "const-fold"; "dead-code"; "loop-opt"]);
    ("O3", mkLevel true ["inline"; "const-fold"; "dead-code"; "loop-opt";
                         "vectorize"]) ].

Definition rx_inline : Regex.RegExp := Eval vm_compute in
  Regex.parse "function\s+(\w+)\s*\([^)]*\)\s*{\s*return\s+([^;]+);\s*}" "g".

(** [inlineOptimization(code)] *)
Definition inlineOptimization (code : string) : Result string :=
  replace_try rx_inline
    (fun mr =>
       let funcName := Regex.grp mr 1 in
       let! returnExpr := deref (Regex.grp mr 2) "length" in
       if (Str.len returnExpr <? 50)%Z
       then Ok ("const " ++ tpl funcName ++ " = () => " ++ returnExpr ++ ";")
       else Ok (Regex.whole mr))
    code.

Definition rx_add : Regex.RegExp := Eval vm_compute in
  Regex.parse "\b(\d+)\s*\+\s*(\d+)\b" "g".
Definition rx_sub : Regex.RegExp := Eval vm_compute in
  Regex.parse "\b(\d+)\s*\-\s*(\d+)\b" "g".
Definition rx_mul : Regex.RegExp := Eval vm_compute in
  Regex.parse "\b(\d+)\s*\*\s*(\d+)\b" "g".

(** [Number(x)] for a capture: [undefined] gives [NaN]. *)
Definition number_of (x : option string) : Num.number :=
  match x with
  | Some s => Num.of_digits s
  | None => Num.NaN
  end.

Definition fold_with (op : Num.number -> Num.number -> Num.number)
  : Regex.replacer :=
  fun mr => Num.to_string (op (number_of (Regex.grp mr 1))
                              (number_of (Regex.grp mr 2))).

(** [constantFolding(code)] *)
Definition constantFolding (code : string) : string :=
  Regex.replace_fn rx_mul (fold_with Num.mul)
    (Regex.replace_fn rx_sub (fold_with Num.sub)
       (Regex.replace_fn rx_add (fold_with Num.add) code)).

Definition rx_dead : Regex.RegExp := Eval vm_compute in
  Regex.parse "return\s+[^;]+;\s*[\s\S]*?(?=}|$)" "g".
Definition rx_return : Regex.RegExp := Eval vm_compute in
  Regex.parse "return\s+[^;]+;" "".

(** [deadCodeElimination(code)] *)
Definition deadCodeElimination (code : string) : Result string :=
  replace_try rx_dead
    (fun mr =>
       match Regex.exec rx_return (Regex.whole mr) with
       | Some r => Ok (Regex.whole r)
       | None => Throw "Cannot read properties of null (reading '0')"
       end)
    code.

Definition rx_loop : Regex.RegExp := Eval vm_compute in
  Regex.parse "for\s*\([^)]+\)\s*{([^}]*?)}" "g".

(** [loopOptimization(code)]: the callback returns the match. *)
Definition loopOptimization (code : string) : string :=
  Regex.replace_fn rx_loop (fun mr => Regex.whole mr) code.

Definition rx_vector : Regex.RegExp := Eval vm_compute in
  Regex.parse
    "for\s*\(\s*let\s+(\w+)\s*=\s*0\s*;\s*\1\s*<\s*(\w+)\.length\s*;\s*\1\+\+\s*\)\s*{\s*(\w+)\[\1\]\s*=\s*([^;]+);\s*}"
    "g".

(** [vectorization(code)] *)
Definition vectorization (code : string) : string :=
  Regex.replace_fn rx_vector
    (fun mr =>
       let index := Regex.grp mr 1 in
       let array := Regex.grp mr 2 in
       let target := Regex.grp mr 3 in
       let operation := Regex.grp mr 4 in
       tpl target ++ " = " ++ tpl array ++ ".map((item, " ++ tpl index
         ++ ") => " ++ tpl operation ++ ");")
    code.

(** The body of the [switch] in [optimize]. *)
Definition apply_optimization (optimization : string) (code : string)
  : Result string :=
  if String.eqb optimization "inline" then inlineOptimization code
  else if String.eqb optimization "const-fold" then Ok (constantFolding code)
  else if String.eqb optimization "dead-code" then deadCodeElimination code
  else if String.eqb optimization "loop-opt" then Ok (loopOptimization code)
  else if String.eqb optimization "vectorize" then Ok (vectorization code)
  else Ok code.

Fixpoint apply_all (optimizations : list string) (code : string)
  : Result string :=
  match optimizations with
  | [] => Ok code
  | o :: r => let! code' := apply_optimization o code in apply_all r code'
  end.

(** [this.optimizationLevels[optimizationLevel].optimizations], read
    for iteration: the lookup of an unknown level is [undefined], and
    a name inherited from [Object.prototype] has no [optimizations]. *)
Definition optimizations_of (optimizationLevel : string)
  : Result (list string) :=
  match JS.get optimizationLevels optimizationLevel with
  | JS.Own opts => Ok (level_optimizations opts)
  | JS.Inherited _ => Throw "opts.optimizations is not iterable"
  | JS.Undefined =>
      Throw "Cannot read properties of undefined (reading 'optimizations')"
  end.

(** [optimize(code, optimizationLevel)] *)
Definition optimize (code : string) (optimizationLevel : string)
  : Result string :=
  let! optimizations := optimizations_of optimizationLevel in
  apply_all optimizations code.

(** [prepareForJIT(code, enableJIT)] *)
Definition prepareForJIT (code : string) (enableJIT : bool) : string :=
  if negb enableJIT then code
  else
    Str.lines
    [ "";
      "      // V8 JIT optimization hints";
      "      'use strict';";
      "      ";
      "      // Enable aggressive optimizations";
      "      function __v8OptimizationHint() {";
      "        // Force JIT compilation for hot functions";
      "        return true;";
      "      }";
      "      ";
      "      // Original code with JIT preparation";
      "      " ++ code;
      "    " ].

(** [parseCode(code)] *)
Definition parseCode (vm : VM.t) (code : string) : Result string :=
  match VM.syntax_error vm code with
  | None => Ok code
  | Some e => Throw ("Code parsing failed: " ++ e)
  end.

Definition v8Flags : list string :=
  [ "--optimize-for-size=false"; "--always-opt=true"; "--turbo-inline=true";
    "--turbo-loop-peeling=true"; "--turbo-loop-rotation=true" ].

Definition v8_script (code : string) : string :=
  Str.lines
  [ "";
    "        // Force V8 to optimize this function";
    "        function __optimizedFunction() {";
    "          return (function() {";
    "            " ++ code;
    "          })();";
    "        }";
    "        ";
    "        // Call function multiple times to trigger JIT";
    "        for (let i = 0; i < 100; i++) {";
    "          try {";
    "            __optimizedFunction();";
    "          } catch (e) {";
    "            // Ignore errors during warm-up";
    "          }";
    "        }";
    "        ";
    "        __jit_result = __optimizedFunction;";
    "      " ].

(** The function that [compileWithV8] hands back is identified by the
    script that defines it. *)
Record Compiled : Type := mkCompiled {
  compiledFunction : string;
  compiled_v8Flags : list string
}.

(** [compileWithV8(code, options)] *)
Definition compileWithV8 (vm : VM.t) (code : string) (timeout : Z)
  : Result Compiled :=
  rethrow "V8 compilation failed: "
    (let src := v8_script code in
     match VM.syntax_error vm src with
     | Some e => Throw e
     | None =>
         match VM.run vm src timeout with
         | VM.Completes _ => Ok (mkCompiled src v8Flags)
         | VM.Uncaught e => Throw e
         | VM.TimesOut => Throw (VM.timeout_message timeout)
         end
     end).

(** The options of [compile]; [None] is a property that is absent. *)
Record Options : Type := mkOptions {
  optimizationLevel : option string;
  enableJIT : option bool;
  timeout : option Z;
  cache : option bool
}.

Definition default {A : Type} (d : A) (x : option A) : A :=
  match x with
  | Some a => a
  | None => d
  end.

Definition options_json (o : Options) : Json.t :=
  Json.Obj (Json.field "optimizationLevel" Json.Str (optimizationLevel o)
            ++ Json.field "enableJIT" Json.Bool (enableJIT o)
            ++ Json.field "timeout" Json.Num (timeout o)
            ++ Json.field "cache" Json.Bool (cache o))%list.

(** [generateCacheKey(code, options)] *)
Definition generateCacheKey (code : string) (options : Options) : string :=
  let hashInput :=
    Json.stringify (Json.Obj [("code", Json.Str code);
                              ("options", options_json options)]) in
  MD5.hex hashInput.

Record Metadata : Type := mkMetadata {
  codeSize : Z;
  optimizedSize : Z;
  meta_optimizationLevel : string;
  meta_v8Flags : list string
}.

Record CompileResult : Type := mkResult {
  originalCode : string;
  optimizedCode : string;
  result_compiledFunction : string;
  optimizations : list string;
  jitEnabled : bool;
  compileTime : Q;
  metadata : Metadata
}.

Record Stats : Type := mkStats {
  totalCompilations : Z;
  cacheHits : Z;
  averageCompileTime : Q
}.

(** The engine: [this.compilationCache] and [this.stats]. *)
Record Engine : Type := mkEngine {
  compilationCache : gmap string CompileResult;
  stats : Stats
}.

(** [new JITEngine()] *)
Definition new : Engine := mkEngine ∅ (mkStats 0 0 0).

(** The body of the [try] block of [compile]; [elapsed] is what
    [process.hrtime(startTime)] returns, seconds and nanoseconds. *)
Definition compile_body (vm : VM.t) (elapsed : Z * Z) (code : string)
  (options : Options) : Result CompileResult :=
  let optimizationLevel := default "O2" (optimizationLevel options) in
  let enableJIT := default true (enableJIT options) in
  let timeout := default 30000%Z (timeout options) in
  let! parsedCode := parseCode vm code in
  let! optimizedCode := optimize parsedCode optimizationLevel in
  let jitCode := prepareForJIT optimizedCode enableJIT in
  let! compiledResult := compileWithV8 vm jitCode timeout in
  let compileTime :=
    (inject_Z (fst elapsed) * 1000 + inject_Z (snd elapsed) / 1000000)%Q in
  let! optimizations := optimizations_of optimizationLevel in
  Ok (mkResult code jitCode (compiledFunction compiledResult) optimizations
        enableJIT compileTime
        (mkMetadata (Str.len code) (Str.len jitCode) optimizationLevel
           (compiled_v8Flags compiledResult))).

(** [compile(code, options)]: the result of the promise and the engine
    afterwards. *)
Definition compile (vm : VM.t) (elapsed : Z * Z) (e : Engine) (code : string)
  (options : Options) : Result CompileResult * Engine :=
  let cache := default true (cache options) in
  let cacheKey := generateCacheKey code options in
  match (if cache then compilationCache e !! cacheKey else None) with
  | Some hit =>
      (Ok hit,
       mkEngine (compilationCache e)
         (mkStats (totalCompilations (stats e)) (cacheHits (stats e) + 1)
            (averageCompileTime (stats e))))
  | None =>
      match rethrow "JIT Compilation failed: "
              (compile_body vm elapsed code options) with
      | Ok result =>
          let total := (totalCompilations (stats e) + 1)%Z in
          (Ok result,
           mkEngine
             (if cache then <[cacheKey := result]> (compilationCache e)
              else compilationCache e)
             (mkStats total (cacheHits (stats e))
                ((averageCompileTime (stats e) + compileTime result)
                 / inject_Z total)%Q))
      | Throw err => (Throw err, e)
      end
  end.




(** [getStats()] *)
Record StatsReport : Type := mkReport {
  report_totalCompilations : Z;
  report_cacheHits : Z;
  report_averageCompileTime : Q;
  cacheSize : nat;
  cacheHitRate : Q
}.

Definition getStats (e : Engine) : StatsReport :=
  mkReport (totalCompilations (stats e)) (cacheHits (stats e))
    (averageCompileTime (stats e))
    (size (compilationCache e))
    (if (0 <? totalCompilations (stats e))%Z
     then (inject_Z (cacheHits (stats e)) / inject_Z (totalCompilations (stats e))
           * 100)%Q
     else 0%Q).

(** [clearCache()] *)
Definition clearCache (e : Engine) : Engine := mkEngine ∅ (stats e).

End JITEngine.

(** ** IOSTranslator.js *)

Module IOSTranslator.

(** [this.iosCompatibilityRules.restrictedAPIs] *)
Definition restrictedAPIs : list string :=
  [ "eval"; "Function"; "setTimeout"; "setInterval"; "XMLHttpRequest"; "fetch";
    "WebSocket" ].

(** [this.iosCompatibilityRules.jscLimitations.maxCodeSize] *)
Definition maxCodeSize : Z := 1024 * 1024.

Definition rx_hints : Regex.RegExp := Eval vm_compute in
  Regex.parse "\/\/ V8 JIT optimization hints[\s\S]*?(?=\/\/|$)" "g".
Definition rx_hint_call : Regex.RegExp := Eval vm_compute in
  Regex.parse "__v8OptimizationHint\(\);?" "g".
Definition rx_strict : Regex.RegExp := Eval vm_compute in
  Regex.parse "'use strict';?\s*" "g".

(** [removeJITOptimizations(code)] *)
Definition removeJITOptimizations (code : string) : string :=
  let cleanCode := Regex.replace rx_hints "" code in
  let cleanCode := Regex.replace rx_hint_call "" cleanCode in
  let hasStrict := Str.includes cleanCode "'use strict'" in
  let cleanCode := Regex.replace rx_strict "" cleanCode in
  if hasStrict then "'use strict';" ++ Str.nl ++ cleanCode else cleanCode.

Definition rx_arrow1 : Regex.RegExp := Eval vm_compute in
  Regex.parse "\(\s*([^)]*)\s*\)\s*=>\s*{([^}]*)}" "g".
Definition rx_arrow2 : Regex.RegExp := Eval vm_compute in
  Regex.parse "\(\s*([^)]*)\s*\)\s*=>\s*([^;,\n]+)" "g".
Definition rx_arrow3 : Regex.RegExp := Eval vm_compute in
  Regex.parse "(\w+)\s*=>\s*{([^}]*)}" "g".
Definition rx_arrow4 : Regex.RegExp := Eval vm_compute in
  Regex.parse "(\w+)\s*=>\s*([^;,\n]+)" "g".

(** [transpileArrowFunctions(code)] *)
Definition transpileArrowFunctions (code : string) : string :=
  Regex.replace rx_arrow4 "function($1) { return $2; }"
    (Regex.replace rx_arrow3 "function($1) {$2}"
       (Regex.replace rx_arrow2 "function($1) { return $2; }"
          (Regex.replace rx_arrow1 "function($1) {$2}" code))).

Definition rx_block : Regex.RegExp := Eval vm_compute in
  Regex.parse "\b(let|const)\b" "g".

(** [transpileBlockScope(code)] *)
Definition transpileBlockScope (code : string) : string :=
  Regex.replace rx_block "var" code.

Definition rx_template : Regex.RegExp := Eval vm_compute in
  Regex.parse "`([^`]*)`" "g".
Definition rx_destructure : Regex.RegExp := Eval vm_compute in
  Regex.parse "var\s*{\s*(\w+)\s*}\s*=\s*(\w+)" "g".
Definition rx_default_param : Regex.RegExp := Eval vm_compute in
  Regex.parse "function\s+(\w+)\s*\(\s*(\w+)\s*=\s*([^,)]+)" "g".

(** [transpileModernFeatures(code)] *)
Definition transpileModernFeatures (code : string) : string :=
  let transpiledCode := Regex.replace rx_template (Str.dq ++ "$1" ++ Str.dq) code in
  let transpiledCode := Regex.replace rx_destructure "var $1 = $2.$1" transpiledCode in
  Regex.replace rx_default_param
    ("function $1($2) { if (typeof $2 === " ++ Str.dq ++ "undefined" ++ Str.dq
       ++ ") $2 = $3;")
    transpiledCode.

(** [new RegExp(`\\b${api}\\b`, 'g')] *)
Definition rx_api (api : string) : Regex.RegExp :=
  Regex.parse ("\b" ++ api ++ "\b") "g".

(** The loop of [applyIOSCompatibility] over the restricted APIs. *)
Definition substitute_apis (code : string) : string :=
  fold_left (fun compatibleCode api =>
               Regex.replace (rx_api api) ("__ios_safe_" ++ api) compatibleCode)
    restrictedAPIs code.

(** [applyIOSCompatibility(code)] *)
Definition applyIOSCompatibility (code : string) : string :=
  transpileModernFeatures
    (transpileBlockScope (transpileArrowFunctions (substitute_apis code))).

(** [addPolyfills(code)] *)
Definition addPolyfills (code : string) : string :=
  Str.lines
  [ "";
    "// iOS Polyfills for JITPhone";
    "(function() {";
    "  'use strict';";
    "  ";
    "  // Safe eval replacement (limited functionality)";
    "  if (typeof __ios_safe_eval === 'undefined') {";
    "    window.__ios_safe_eval = function(code) {";
    "      console.warn('eval() is not available on iOS - code execution blocked');";
    "      return undefined;";
    "    };";
    "  }";
    "  ";
    "  // Safe Function constructor replacement";
    "  if (typeof __ios_safe_Function === 'undefined') {";
    "    window.__ios_safe_Function = function() {";
    "      console.warn('Function constructor is not available on iOS');";
    "      return function() { return undefined; };";
    "    };";
    "  }";
    "  ";
    "  // Safe setTimeout replacement (for Shortcuts context)";
    "  if (typeof __ios_safe_setTimeout === 'undefined') {";
    "    window.__ios_safe_setTimeout = function(callback, delay) {";
    "      console.warn('setTimeout is limited on iOS - executing immediately');";
    "      if (typeof callback === 'function') {";
    "        callback();";
    "      }";
    "      return 0;";
    "    };";
    "  }";
    "  ";
    "  // Promise polyfill for older iOS versions";
    "  if (typeof Promise === 'undefined') {";
    "    window.Promise = function(executor) {";
    "      var self = this;";
    "      this.state = 'pending';";
    "      this.value = undefined;";
    "      this.handlers = [];";
    "      ";
    "      function resolve(result) {";
    "        if (self.state === 'pending') {";
    "          self.state = 'fulfilled';";
    "          self.value = result;";
    "          self.handlers.forEach(handle);";
    "          self.handlers = null;";
    "        }";
    "      }";
    "      ";
    "      function reject(error) {";
    "        if (self.state === 'pending') {";
    "          self.state = 'rejected';";
    "          self.value = error;";
    "          self.handlers.forEach(handle);";
    "          self.handlers = null;";
    "        }";
    "      }";
    "      ";
    "      function handle(handler) {";
    "        if (self.state === 'pending') {";
    "          self.handlers.push(handler);";
    "        } else {";
    "          if (self.state === 'fulfilled' && typeof handler.onFulfilled === 'function') {";
    "            handler.onFulfilled(self.value);";
    "          }";
    "          if (self.state === 'rejected' && typeof handler.onRejected === 'function') {";
    "            handler.onRejected(self.value);";
    "          }";
    "        }";
    "      }";
    "      ";
    "      this.then = function(onFulfilled, onRejected) {";
    "        return new Promise(function(resolve, reject) {";
    "          handle({";
    "            onFulfilled: function(result) {";
    "              try {";
    "                resolve(onFulfilled ? onFulfilled(result) : result);";
    "              } catch (ex) {";
    "                reject(ex);";
    "              }";
    "            },";
    "            onRejected: function(error) {";
    "              try {";
    "                resolve(onRejected ? onRejected(error) : error);";
    "              } catch (ex) {";
    "                reject(ex);";
    "              }";
    "            }";
    "          });";
    "        });";
    "      };";
    "      ";
    "      try {";
    "        executor(resolve, reject);";
    "      } catch (error) {";
    "        reject(error);";
    "      }";
    "    };";
    "  }";
    "})();";
    "";
    code;
    "    " ].

(** [adaptForShortcuts(code)] *)
Definition adaptForShortcuts (code : string) : string :=
  Str.lines
  [ "";
    "// iOS Shortcuts Adaptation Layer";
    "(function() {";
    "  'use strict';";
    "  ";
    "  // Shortcuts API bridge";
    "  var shortcuts = {";
    "    run: function(shortcutName, input) {";
    "      // This would be handled by the Shortcuts app";
    "      console.log('Running shortcut:', shortcutName, 'with input:', input);";
    "      return { success: true, result: input };";
    "    },";
    "    ";
    "    ask: function(prompt) {";
    "      // Simplified - actual implementation would use Shortcuts' Ask for Input";
    "      return prompt(" ++ Str.dq ++ "Please enter: " ++ Str.dq ++ " + prompt) || " ++ Str.dq ++ Str.dq ++ ";";
    "    },";
    "    ";
    "    choose: function(options) {";
    "      // Simplified - actual implementation would use Shortcuts' Choose from Menu";
    "      return options[0] || null;";
    "    }";
    "  };";
    "  ";
    "  // Make shortcuts available globally";
    "  if (typeof window !== 'undefined') {";
    "    window.shortcuts = shortcuts;";
    "  } else {";
    "    global.shortcuts = shortcuts;";
    "  }";
    "  ";
    "  // Execute the main code";
    "  try {";
    "    " ++ code;
    "  } catch (error) {";
    "    console.error('Shortcuts execution error:', error);";
    "    return { error: error.message, success: false };";
    "  }";
    "})();";
    "    " ].

(** [adaptForWebView(code)] *)
Definition adaptForWebView (code : string) : string :=
  Str.lines
  [ "";
    "<!DOCTYPE html>";
    "<html>";
    "<head>";
    "  <meta charset=" ++ Str.dq ++ "utf-8" ++ Str.dq ++ ">";
    "  <meta name=" ++ Str.dq ++ "viewport" ++ Str.dq ++ " content=" ++ Str.dq ++ "width=device-width, initial-scale=1.0" ++ Str.dq ++ ">";
    "  <title>JITPhone WebView</title>";
    "</head>";
    "<body>";
    "  <script>";
    "    (function() {";
    "      'use strict';";
    "      ";
    "      // WebView-specific optimizations";
    "      " ++ code;
    "      ";
    "      // Post results back to native app";
    "      if (window.webkit && window.webkit.messageHandlers) {";
    "        window.webkit.messageHandlers.jitphone.postMessage({";
    "          type: 'execution_complete',";
    "          timestamp: Date.now()";
    "        });";
    "      }";
    "    })();";
    "  </script>";
    "</body>";
    "</html>";
    "    " ].

Definition rx_dom : Regex.RegExp := Eval vm_compute in
  Regex.parse "document\.|window\.|DOM" "g".

(** [adaptForJavaScriptCore(code)] *)
Definition adaptForJavaScriptCore (code : string) : string :=
  let jscCode := Regex.replace rx_dom "// DOM_REMOVED " code in
  Str.lines
  [ "";
    "// JavaScriptCore Execution Context";
    "(function(global) {";
    "  'use strict';";
    "  ";
    "  // Minimal global environment";
    "  global.console = {";
    "    log: function() { ";
    "      var args = Array.prototype.slice.call(arguments);";
    "      print('[LOG]', args.join(' '));";
    "    },";
    "    error: function() {";
    "      var args = Array.prototype.slice.call(arguments);";
    "      print('[ERROR]', args.join(' '));";
    "    }";
    "  };";
    "  ";
    "  // Execute code";
    "  " ++ jscCode;
    "  ";
    "})(this);";
    "    " ].

(** [this.adaptationStrategies] *)
Definition adaptationStrategies : list (string * (string -> string)) :=
  [ ("webview", adaptForWebView);
    ("shortcuts", adaptForShortcuts);
    ("jsc", adaptForJavaScriptCore) ].

(** What [adaptForTarget] hands on.  A strategy returns a string.  A
    target that names a member inherited from [Object.prototype] passes
    the test too, and that member is called with the strategies object
    as [this]: it returns a string, a value that is not a string (shown
    here by what a template literal prints for it), or [undefined]. *)
Inductive adapted : Type :=
| AString (s : string)
| ANonString (shown : string)
| AUndefined.

Definition inherited_call (name : string) (code : string) : Result adapted :=
  if String.eqb name "constructor" then Ok (AString code)
  else if (String.eqb name "toString" || String.eqb name "toLocaleString")%bool
  then Ok (AString "[object Object]")
  else if String.eqb name "valueOf" then Ok (ANonString "[object Object]")
  else if (String.eqb name "hasOwnProperty"
           || String.eqb name "propertyIsEnumerable")%bool
  then Ok (ANonString
             (if existsb (String.eqb code) (JS.keys adaptationStrategies)
              then "true" else "false"))
  else if String.eqb name "isPrototypeOf" then Ok (ANonString "false")
  else if (String.eqb name "__lookupGetter__"
           || String.eqb name "__lookupSetter__")%bool
  then Ok AUndefined
  else if String.eqb name "__proto__"
  then Throw "this.adaptationStrategies[target] is not a function"
  else Throw ("Object.prototype." ++ name ++ ": Expecting function").

(** [adaptForTarget(code, target)] *)
Definition adaptForTarget (code : string) (target : string) : Result adapted :=
  match JS.get adaptationStrategies target with
  | JS.Own strategy => Ok (AString (strategy code))
  | JS.Inherited name => inherited_call name code
  | JS.Undefined => Ok (AString (adaptForShortcuts code))
  end.

Definition rx_block_comment : Regex.RegExp := Eval vm_compute in
  Regex.parse "\/\*[\s\S]*?\*\/" "g".
Definition rx_line_comment : Regex.RegExp := Eval vm_compute in
  Regex.parse "\/\/.*$" "gm".
Definition rx_spaces : Regex.RegExp := Eval vm_compute in
  Regex.parse "\s+" "g".

(** The three replacements of [optimizeForIOS] under
    [options.optimizeForSize]. *)
Definition minify (code : string) : string :=
  Regex.replace rx_spaces " "
    (Regex.replace rx_line_comment ""
       (Regex.replace rx_block_comment "" code)).

(** The size check of [optimizeForIOS]. *)
Definition truncate (optimizedCode : string) : string :=
  if (Str.len optimizedCode >? maxCodeSize)%Z
  then Str.substring optimizedCode 0 (maxCodeSize - 100) ++ Str.nl ++ "// TRUNCATED"
  else optimizedCode.

(** [optimizeForIOS(code, options)] *)
Definition optimizeForIOS (code : string) (optimizeForSize : bool) : string :=
  truncate (if optimizeForSize then minify code else code).

(** [wrapForIOSExecution(code, target)] *)
Definition wrapForIOSExecution (code : string) (target : string) : string :=
  Str.lines
  [ "";
    "// JITPhone iOS Execution Wrapper";
    "(function() {";
    "  'use strict';";
    "  ";
    "  var startTime = Date.now();";
    "  var result = null;";
    "  var error = null;";
    "  ";
    "  try {";
    "    // Set up iOS-safe environment";
    "    var safeGlobal = {";
    "      Math: Math,";
    "      Date: Date,";
    "      JSON: JSON,";
    "      Array: Array,";
    "      Object: Object,";
    "      String: String,";
    "      Number: Number,";
    "      Boolean: Boolean,";
    "      console: console";
    "    };";
    "    ";
    "    // Execute in controlled context";
    "    (function() {";
    "      " ++ code;
    "    }).call(safeGlobal);";
    "    ";
    "  } catch (e) {";
    "    error = {";
    "      message: e.message,";
    "      name: e.name,";
    "      stack: e.stack";
    "    };";
    "  }";
    "  ";
    "  var executionTime = Date.now() - startTime;";
    "  ";
    "  // Return standardized result for iOS";
    "  return {";
    "    success: error === null,";
    "    result: result,";
    "    error: error,";
    "    executionTime: executionTime,";
    "    target: '" ++ target ++ "',";
    "    jitphone: true";
    "  };";
    "})();";
    "    " ].

Record Verdict : Type := mkVerdict {
  compatible : bool;
  issues : list string;
  confidence : Q
}.

(** The issue that [validateIOSCompatibility] records for a restricted
    API, if any. *)
Definition api_issue (code : string) (api : string) : list string :=
  if (Str.includes code api && negb (Str.includes code ("__ios_safe_" ++ api)))%bool
  then ["Restricted API detected: " ++ api]
  else [].

Definition size_issue (code : string) : list string :=
  if (Str.len code >? maxCodeSize)%Z then ["Code size exceeds iOS limits"] else [].

(** [Math.max(0, 1 - (issues.length * 0.2))], in exact arithmetic *)
Definition confidence_of (n : nat) : Q :=
  Qmax 0 (1 - inject_Z (Z.of_nat n) * (2 # 10))%Q.

(** [validateIOSCompatibility(code)] *)
Definition validateIOSCompatibility (code : string) : Verdict :=
  let issues := (flat_map (api_issue code) restrictedAPIs ++ size_issue code)%list in
  mkVerdict (Nat.eqb (List.length issues) 0) issues
    (confidence_of (List.length issues)).

Record Requirements : Type := mkRequirements {
  minimumIOS : string;
  requires : string;
  capabilities : list string
}.

Definition requirements : list (string * Requirements) :=
  [ ("shortcuts", mkRequirements "12.0" "shortcutsApp"
                    ["http_requests"; "user_interaction"; "file_system"]);
    ("webview", mkRequirements "9.0" "webKit"
                  ["dom_access"; "local_storage"; "http_requests"]);
    ("jsc", mkRequirements "8.0" "javaScriptCore" ["pure_javascript"]) ].

(** [getExecutionRequirements(target)]: [requirements[target] ||
    requirements.shortcuts]; an inherited member is truthy and is what
    comes back. *)
Definition getExecutionRequirements (target : string) : JS.Lookup Requirements :=
  match JS.get requirements target with
  | JS.Undefined => JS.get requirements "shortcuts"
  | found => found
  end.

(** [calculatePerformanceImpact(jitResult, translatedCode)], in exact
    arithmetic *)
Definition calculatePerformanceImpact (jitEnabled : bool)
  (translatedCode : string) : Q :=
  let jitSpeedup : Q := (if jitEnabled then 2 else 1)%Q in
  let iosOverhead : Q := (13 # 10)%Q in
  let polyfillOverhead : Q :=
    (if Str.includes translatedCode "Polyfills" then 12 # 10 else 1)%Q in
  (jitSpeedup * iosOverhead * polyfillOverhead - 1)%Q.

(** The options of [translate]; [None] is a property that is absent. *)
Record Options : Type := mkOptions {
  target : option string;
  preservePerformance : option bool;
  enablePolyfills : option bool;
  optimizeForSize : option bool
}.

Definition options_json (o : Options) : Json.t :=
  Json.Obj (Json.field "target" Json.Str (target o)
            ++ Json.field "preservePerformance" Json.Bool (preservePerformance o)
            ++ Json.field "enablePolyfills" Json.Bool (enablePolyfills o)
            ++ Json.field "optimizeForSize" Json.Bool (optimizeForSize o))%list.

(** [generateCacheKey(jitResult, options)]; [now] is [Date.now()]. *)
Definition generateCacheKey (now : Z) (optimizedCode : string)
  (options : Options) : string :=
  let hashInput :=
    Json.stringify
      (Json.Obj [("code", Json.Str optimizedCode);
                 ("options", options_json options);
                 ("timestamp", Json.Num (now / (1000 * 60 * 60)))]) in
  MD5.hex hashInput.

Record Performance : Type := mkPerformance {
  expectedSlowdown : Q;
  optimizationsPreserved : Q
}.

Record Translation : Type := mkTranslation {
  code : string;
  originalSize : Z;
  translatedSize : Z;
  adaptations : list string;
  canExecute : Verdict;
  execution_requirements : JS.Lookup Requirements;
  performance : Performance
}.

(** Step 5 of [translate] on what step 4 handed on: only a string has
    [replace] and a [length]. *)
Definition optimize_adapted (a : adapted) (optimizeForSize : bool)
  : Result string :=
  match a with
  | AString s => Ok (optimizeForIOS s optimizeForSize)
  | ANonString shown =>
      if optimizeForSize then Throw "optimizedCode.replace is not a function"
      else Ok shown
  | AUndefined =>
      Throw ("Cannot read properties of undefined (reading '"
             ++ (if optimizeForSize then "replace" else "length") ++ "')")
  end.

(** Steps 1 to 6 of [translate] and the result object. *)
Definition translate_body (optimizedCode : string) (jitEnabled : bool)
  (options : Options) : Result Translation :=
  let target := JITEngine.default "shortcuts" (target options) in
  let preservePerformance := JITEngine.default true (preservePerformance options) in
  let enablePolyfills := JITEngine.default true (enablePolyfills options) in
  let optimizeForSize := JITEngine.default false (optimizeForSize options) in
  let dejittedCode := removeJITOptimizations optimizedCode in
  let iosCompatibleCode := applyIOSCompatibility dejittedCode in
  let polyfillCode :=
    if enablePolyfills then addPolyfills iosCompatibleCode else iosCompatibleCode in
  let! targetAdaptedCode := adaptForTarget polyfillCode target in
  let! optimized := optimize_adapted targetAdaptedCode optimizeForSize in
  let wrappedCode := wrapForIOSExecution optimized target in
  Ok (mkTranslation wrappedCode (Str.len optimizedCode) (Str.len wrappedCode)
        (["jit_removal"; "ios_compatibility"]
         ++ (if enablePolyfills then ["polyfills"] else [])
         ++ [("target_" ++ target)%string; "ios_optimization"; "ios_wrapper"])%list
        (validateIOSCompatibility wrappedCode)
        (getExecutionRequirements target)
        (mkPerformance (calculatePerformanceImpact jitEnabled wrappedCode)
           (if preservePerformance then 7 # 10 else 4 # 10)%Q)).

(** [translate(jitResult, options)]: the result of the promise and the
    translation cache afterwards. *)
Definition translate (now : Z) (translationCache : gmap string Translation)
  (jitResult : JITEngine.CompileResult) (options : Options)
  : Result Translation * gmap string Translation :=
  let cacheKey :=
    generateCacheKey now (JITEngine.optimizedCode jitResult) options in
  match translationCache !! cacheKey with
  | Some hit => (Ok hit, translationCache)
  | None =>
      match rethrow "iOS translation failed: "
              (translate_body (JITEngine.optimizedCode jitResult)
                 (JITEngine.jitEnabled jitResult) options) with
      | Ok result => (Ok result, <[cacheKey := result]> translationCache)
      | Throw e => (Throw e, translationCache)
      end
  end.

End IOSTranslator.

(** ** The JIT instruction converter (JITConverter) *)

Module JITConverter.

Record Instruction : Type := mkInstruction {
  op : string;
  args : list string;
  itype : option string;
  original : option string
}.

Record FunctionIR : Type := mkFunction {
  name : option string;
  instructions : list Instruction;
  optimizations : list string
}.

Record Intermediate : Type := mkIntermediate {
  type : string;
  functions : list FunctionIR;
  intermediate_optimizations : list string;
  intermediate_metadata : list (string * Json.t)
}.

(** The options of [convert] and of the lowering functions; [None] is a
    property that is absent. *)
Record Options : Type := mkOptions {
  targetFormat : option string;
  optimizationLevel : option string;
  preserveSemantics : option bool;
  cache : option bool;
  architecture : option string;
  simdSupport : option bool
}.

Definition rx_define : Regex.RegExp := Eval vm_compute in
  Regex.parse "define\s+.*\s+@(\w+)\s*\(" "".

(** [parseIOSOptimizations(llvmLine)] *)
Definition parseIOSOptimizations (llvmLine : string) : list string :=
  ((if Str.includes llvmLine "inlinehint" then ["inline"] else [])
   ++ (if Str.includes llvmLine "optsize" then ["size"] else [])
   ++ (if Str.includes llvmLine "minsize" then ["minsize"] else []))%list.

(** The [patterns] of [parseIOSInstruction], in the order of
    [Object.entries]. *)
Definition patterns : list (string * Regex.RegExp) := Eval vm_compute in
  [ ("load", Regex.parse "(%\w+)\s*=\s*load.*?(%\w+)" "");
    ("store", Regex.parse "store.*?(%\w+).*?(%\w+)" "");
    ("add", Regex.parse "(%\w+)\s*=\s*add.*?(%\w+),\s*(%\w+)" "");
    ("call", Regex.parse "call.*?@(\w+)" "");
    ("ret", Regex.parse "ret.*?(%\w+)?" "") ].

(** [match.slice(1).filter(Boolean)]: the captures that are neither
    [undefined] nor empty. *)
Fixpoint truthy (l : list (option string)) : list string :=
  match l with
  | [] => []
  | Some "" :: r | None :: r => truthy r
  | Some s :: r => s :: truthy r
  end.

Fixpoint first_pattern (ps : list (string * Regex.RegExp)) (line : string)
  : option Instruction :=
  match ps with
  | [] => None
  | (op, pattern) :: r =>
      match Regex.exec pattern line with
      | Some mr => Some (mkInstruction op (truthy (Regex.caps mr)) (Some "llvm") (Some line))
      | None => first_pattern r line
      end
  end.

(** [parseIOSInstruction(line)] *)
Definition parseIOSInstruction (line : string) : option Instruction :=
  first_pattern patterns line.

(** One line of the loop of [convertIOSLLVM].  The functions are kept
    most recent first: [currentFunction] is the head of the list, and an
    instruction pushed to it is pushed to that element. *)
Definition ios_line (fs : list FunctionIR) (line : string) : list FunctionIR :=
  let trimmedLine := Str.trim line in
  if Str.startsWith trimmedLine "define" then
    match Regex.exec rx_define trimmedLine with
    | Some funcMatch =>
        mkFunction (Regex.grp funcMatch 1) [] (parseIOSOptimizations trimmedLine) :: fs
    | None => fs
    end
  else
    match fs with
    | currentFunction :: rest =>
        if negb (String.eqb trimmedLine "") then
          match parseIOSInstruction trimmedLine with
          | Some instruction =>
              mkFunction (name currentFunction)
                (instructions currentFunction ++ [instruction])
                (optimizations currentFunction) :: rest
          | None => fs
          end
        else fs
    | [] => fs
    end.

Definition json_bool (b : option bool) : list (string * Json.t) :=
  Json.field "preserveSemantics" Json.Bool b.

(** [convertIOSLLVM(llvmIR, options)] *)
Definition convertIOSLLVM (llvmIR : string) (options : Options) : Intermediate :=
  mkIntermediate "ios-llvm"
    (List.rev (fold_left ios_line (Str.split llvmIR Str.nl) []))
    []
    (("sourceFormat", Json.Str "ios-llvm") :: json_bool (preserveSemantics options)).

(** [parseARTMethods(artBytecode)] *)
Definition parseARTMethods (artBytecode : string) : list FunctionIR :=
  [ mkFunction (Some "methodFromART")
      [ mkInstruction "invoke-virtual" ["v0"; "method"] None None;
        mkInstruction "return-void" [] None None ]
      ["inline"; "devirtualize"] ].

(** [convertARTInstruction(instruction)]; the mapping is an object
    literal, and an operation that names an inherited member comes back
    as that member, which has no [op]. *)
Definition convertARTInstruction (instruction : Instruction) : Instruction :=
  let mapping :=
    [ ("invoke-virtual", mkInstruction "call" (args instruction) None None);
      ("return-void", mkInstruction "return" [] None None);
      ("move", mkInstruction "store" (args instruction) None None) ] in
  match JS.get mapping (op instruction) with
  | JS.Own i => i
  | JS.Inherited _ => mkInstruction "undefined" [] None None
  | JS.Undefined => mkInstruction "unknown" (args instruction) None None
  end.

(** [convertAndroidART(artBytecode, options)] *)
Definition convertAndroidART (artBytecode : string) (options : Options)
  : Intermediate :=
  mkIntermediate "android-art"
    (map (fun method =>
            mkFunction (name method)
              (map convertARTInstruction (instructions method))
              (optimizations method))
       (parseARTMethods artBytecode))
    []
    [("sourceFormat", Json.Str "android-art"); ("dalvikOptimizations", Json.Bool true)].

Definition rx_wasm_func : Regex.RegExp := Eval vm_compute in
  Regex.parse "\(func[^)]*\)" "g".

(** [parseWASMFunctions(wasmText)] *)
Definition parseWASMFunctions (wasmText : string) : list FunctionIR :=
  map (fun index =>
         mkFunction (Some ("wasmFunc" ++ Str.of_Z (Z.of_nat index)))
           [ mkInstruction "local.get" ["0"] None None;
             mkInstruction "i32.add" [] None None ]
           [])
    (seq 0 (List.length (Regex.match_all rx_wasm_func wasmText))).

(** [convertWASMInstruction(instruction)] *)
Definition convertWASMInstruction (instruction : Instruction) : Instruction :=
  let mapping :=
    [ ("local.get", mkInstruction "load" ["param" ++ tpl (nth_error (args instruction) 0)] None None);
      ("i32.add", mkInstruction "add" ["result"; "a"; "b"] None None);
      ("return", mkInstruction "return" ["result"] None None) ] in
  match JS.get mapping (op instruction) with
  | JS.Own i => i
  | JS.Inherited _ => mkInstruction "undefined" [] None None
  | JS.Undefined => mkInstruction "unknown" (args instruction) None None
  end.

(** [convertWebAssembly(wasmCode, options)] for a string *)
Definition convertWebAssembly (wasmCode : string) (options : Options)
  : Intermediate :=
  let wasmText := wasmCode in
  mkIntermediate "wasm"
    (map (fun func =>
            mkFunction (name func)
              (map convertWASMInstruction (instructions func))
              (List.filter (fun opt => Str.includes wasmText (Str.drop 5 opt))
                 ["wasm-simd"; "wasm-threads"]))
       (parseWASMFunctions wasmText))
    []
    [("sourceFormat", Json.Str "wasm");
     ("simdSupport", Json.Bool (JITEngine.default false (simdSupport options)))].

(** [parseHotSpotMethods], [parseILMethods], [parseV8Bytecode] and
    [parseAssemblyFunctions] return no method. *)
Definition parseHotSpotMethods (code : string) : list FunctionIR := [].
Definition parseILMethods (code : string) : list FunctionIR := [].
Definition parseV8Bytecode (code : string) : list FunctionIR := [].
Definition parseAssemblyFunctions (code : string) : list FunctionIR := [].

Definition unknown_instruction : Instruction := mkInstruction "unknown" [] None None.

(** [convertJavaHotSpot(hotspotCode, options)] *)
Definition convertJavaHotSpot (hotspotCode : string) (options : Options)
  : Intermediate :=
  mkIntermediate "java-hotspot"
    (map (fun method =>
            mkFunction (name method)
              (map (fun _ => unknown_instruction) (instructions method))
              ["c1"; "c2"])
       (parseHotSpotMethods hotspotCode))
    []
    [("sourceFormat", Json.Str "java-hotspot"); ("c1c2Optimizations", Json.Bool true)].

(** [convertDotNetCLR(clrIL, options)]; a method has no
    [optimizationFlags]. *)
Definition convertDotNetCLR (clrIL : string) (options : Options) : Intermediate :=
  mkIntermediate "dotnet-clr"
    (map (fun method =>
            mkFunction (name method)
              (map (fun _ => unknown_instruction) (instructions method))
              [])
       (parseILMethods clrIL))
    []
    [("sourceFormat", Json.Str "dotnet-clr"); ("ryuJITOptimizations", Json.Bool true)].

(** [convertV8Bytecode(v8Bytecode, options)] *)
Definition convertV8Bytecode (v8Bytecode : string) (options : Options)
  : Intermediate :=
  mkIntermediate "v8-bytecode"
    (map (fun func =>
            mkFunction (name func)
              (map (fun _ => unknown_instruction) (instructions func))
              (optimizations func))
       (parseV8Bytecode v8Bytecode))
    []
    [("sourceFormat", Json.Str "v8-bytecode"); ("turbofanOptimizations", Json.Bool true)].

(** [convertGenericJSEngine(bytecode, engine, options)] *)
Definition convertGenericJSEngine (bytecode : string) (engine : string)
  (options : Options) : Intermediate :=
  mkIntermediate engine [] [] [("sourceFormat", Json.Str engine)].

(** [convertSpiderMonkey] and [convertChakra] *)
Definition convertSpiderMonkey (smBytecode : string) (options : Options)
  : Intermediate := convertGenericJSEngine smBytecode "spidermonkey" options.
Definition convertChakra (chakraBytecode : string) (options : Options)
  : Intermediate := convertGenericJSEngine chakraBytecode "chakra" options.

(** [convertAssembly(assembly, options)] *)
Definition convertAssembly (assembly : string) (options : Options) : Intermediate :=
  mkIntermediate "assembly"
    (map (fun func =>
            mkFunction (name func)
              (map (fun _ => unknown_instruction) (instructions func))
              ["register-alloc"])
       (parseAssemblyFunctions assembly))
    []
    [("sourceFormat", Json.Str "assembly");
     ("architecture", Json.Str (JITEngine.default "x86_64" (architecture options)))].

(** [this.supportedFormats] *)
Definition supportedFormats : list (string * (string -> Options -> Intermediate)) :=
  [ ("ios-llvm", convertIOSLLVM);
    ("android-art", convertAndroidART);
    ("wasm", convertWebAssembly);
    ("java-hotspot", convertJavaHotSpot);
    ("dotnet-clr", convertDotNetCLR);
    ("v8-bytecode", convertV8Bytecode);
    ("spidermonkey", convertSpiderMonkey);
    ("chakra", convertChakra);
    ("assembly", convertAssembly) ].

(** [generateV8OptimizationHints(intermediate)] *)
Definition generateV8OptimizationHints (intermediate : Intermediate) : string :=
  let optimizations := flat_map optimizations (functions intermediate) in
  let has x := existsb (String.eqb x) optimizations in
  "// V8 Optimization Hints" ++ Str.nl
  ++ "'use strict';" ++ Str.nl ++ Str.nl
  ++ (if (has "inline" || has "inlining")%bool
      then "// Enable function inlining" ++ Str.nl
           ++ "function __enableInlining() { return true; }" ++ Str.nl ++ Str.nl
      else "")
  ++ (if (has "loop" || has "vectorize")%bool
      then "// Enable loop optimizations" ++ Str.nl
           ++ "function __enableLoopOpts() { return true; }" ++ Str.nl ++ Str.nl
      else "").

(** [Array.from(new Set(l))]: the first occurrence of each element *)
Fixpoint dedupe (seen : list string) (l : list string) : list string :=
  match l with
  | [] => []
  | x :: r =>
      if existsb (String.eqb x) seen then dedupe seen r
      else x :: dedupe (x :: seen) r
  end.

(** [inferParameters(instructions)] *)
Definition inferParameters (instructions : list Instruction) : list string :=
  dedupe []
    (flat_map (fun inst =>
                 if String.eqb (op inst) "load" then
                   match nth_error (args inst) 1 with
                   | Some a => if Str.startsWith a "param" then [a] else []
                   | None => []
                   end
                 else [])
       instructions).

(** [convertInstructionToJS(instruction, sourceType)] *)
Definition convertInstructionToJS (instruction : Instruction) (sourceType : string)
  : string :=
  let a i := tpl (nth_error (args instruction) i) in
  let o := op instruction in
  if String.eqb o "load" then "var " ++ a 0 ++ " = " ++ a 1 ++ ";"
  else if String.eqb o "store" then a 0 ++ " = " ++ a 1 ++ ";"
  else if String.eqb o "add" then "var " ++ a 0 ++ " = " ++ a 1 ++ " + " ++ a 2 ++ ";"
  else if String.eqb o "sub" then "var " ++ a 0 ++ " = " ++ a 1 ++ " - " ++ a 2 ++ ";"
  else if String.eqb o "mul" then "var " ++ a 0 ++ " = " ++ a 1 ++ " * " ++ a 2 ++ ";"
  else if String.eqb o "div" then "var " ++ a 0 ++ " = " ++ a 1 ++ " / " ++ a 2 ++ ";"
  else if String.eqb o "call"
  then a 0 ++ "(" ++ Str.join ", " (List.tl (args instruction)) ++ ");"
  else if String.eqb o "return"
  then "return " ++ JITEngine.default "" (nth_error (args instruction) 0) ++ ";"
  else if String.eqb o "branch" then "if (" ++ a 0 ++ ") { /* branch logic */ }"
  else if String.eqb o "loop"
  then "for (var i = 0; i < " ++ a 0 ++ "; i++) { /* loop body */ }"
  else "// Unknown instruction: " ++ o.

(** [convertFunctionToJS(func, sourceType, options)] *)
Definition convertFunctionToJS (func : FunctionIR) (sourceType : string) : string :=
  "// Function: " ++ tpl (name func) ++ " (from " ++ sourceType ++ ")" ++ Str.nl
  ++ "function " ++ tpl (name func) ++ "("
  ++ Str.join ", " (inferParameters (instructions func))
  ++ ") {" ++ Str.nl
  ++ Str.concat
       (map (fun instruction =>
               let jsInstruction := convertInstructionToJS instruction sourceType in
               if String.eqb jsInstruction "" then ""
               else "  " ++ jsInstruction ++ Str.nl)
          (instructions func))
  ++ "}"
  ++ (if Nat.ltb 0 (List.length (optimizations func))
      then Str.nl ++ "// Optimizations: " ++ Str.join ", " (optimizations func)
      else "").

(** [generatePerformanceWrapper(intermediate)] *)
Definition generatePerformanceWrapper : string :=
  Str.lines
  [ "";
    "// Performance measurement wrapper";
    "function measurePerformance(func, iterations = 1000) {";
    "  const start = process.hrtime();";
    "  for (let i = 0; i < iterations; i++) {";
    "    func();";
    "  }";
    "  const [seconds, nanoseconds] = process.hrtime(start);";
    "  return (seconds * 1000) + (nanoseconds / 1000000);";
    "}";
    "" ].

(** [consolidateOptimizations(intermediate)] *)
Definition consolidateOptimizations (intermediate : Intermediate) : list string :=
  dedupe [] (flat_map optimizations (functions intermediate)).

Record ConversionMetadata : Type := mkMetadata {
  sourceFormat : string;
  meta_targetFormat : string;
  conversionTime : Z;
  preservedOptimizations : list string
}.

Record Conversion : Type := mkConversion {
  success : bool;
  code : string;
  result_optimizations : list string;
  metadata : ConversionMetadata
}.

(** [convertToNodeJS(intermediate, options)]; [now] is [Date.now()]. *)
Definition convertToNodeJS (now : Z) (intermediate : Intermediate) : Conversion :=
  let jsCode :=
    "// Generated by JITPhone JIT Converter" ++ Str.nl
    ++ "// Source: " ++ type intermediate ++ Str.nl
    ++ "// Target: Node.js V8" ++ Str.nl ++ Str.nl
    ++ generateV8OptimizationHints intermediate
    ++ Str.concat
         (map (fun func => convertFunctionToJS func (type intermediate) ++ Str.nl ++ Str.nl)
            (functions intermediate))
    ++ generatePerformanceWrapper in
  mkConversion true jsCode (consolidateOptimizations intermediate)
    (mkMetadata (type intermediate) "nodejs" now []).

Definition options_json (o : Options) : Json.t :=
  Json.Obj (Json.field "targetFormat" Json.Str (targetFormat o)
            ++ Json.field "optimizationLevel" Json.Str (optimizationLevel o)
            ++ Json.field "preserveSemantics" Json.Bool (preserveSemantics o)
            ++ Json.field "cache" Json.Bool (cache o)
            ++ Json.field "architecture" Json.Str (architecture o)
            ++ Json.field "simdSupport" Json.Bool (simdSupport o))%list.

(** [generateCacheKey(instructions, sourceFormat, options)] *)
Definition generateCacheKey (instructions sourceFormat : string)
  (options : Options) : string :=
  MD5.hex
    (Json.stringify
       (Json.Obj [("instructions", Json.Str instructions);
                  ("sourceFormat", Json.Str sourceFormat);
                  ("options", options_json options)])).

Record Stats : Type := mkStats {
  conversions : Z;
  cacheHits : Z
}.

(** The converter: [this.conversionCache] and [this.stats]. *)
Record Converter : Type := mkConverter {
  conversionCache : gmap string Conversion;
  stats : Stats
}.

(** [new JITConverter()] *)
Definition new : Converter := mkConverter ∅ (mkStats 0 0).

(** A tag that names a member inherited from [Object.prototype] is
    truthy in [this.supportedFormats] and passes the test of [convert].
    Called with the instructions and the options, none of these members
    returns an object with [functions]; this is the message of the
    TypeError that the [try] block of [convert] then meets. *)
Definition inherited_failure (name : string) : string :=
  if String.eqb name "__proto__"
  then "this.supportedFormats[sourceFormat] is not a function"
  else if (String.eqb name "__defineGetter__" || String.eqb name "__defineSetter__")%bool
  then "Object.prototype." ++ name ++ ": Expecting function"
  else if (String.eqb name "__lookupGetter__" || String.eqb name "__lookupSetter__")%bool
  then "Cannot read properties of undefined (reading 'type')"
  else "Cannot read properties of undefined (reading 'flatMap')".

Definition unsupported (sourceFormat : string) : string :=
  "Unsupported source format: " ++ sourceFormat ++ ". Supported: "
  ++ Str.join ", " (JS.keys supportedFormats).

(** The body of the [try] block of [convert]. *)
Definition convert_body (now : Z) (instructions sourceFormat : string)
  (options : Options) : Result Conversion :=
  match JS.get supportedFormats sourceFormat with
  | JS.Own lower => Ok (convertToNodeJS now (lower instructions options))
  | JS.Inherited name => Throw (inherited_failure name)
  | JS.Undefined => Throw (unsupported sourceFormat)
  end.

(** [convert(instructions, sourceFormat, options)]: the result of the
    promise and the converter afterwards. *)
Definition convert (now : Z) (c : Converter) (instructions sourceFormat : string)
  (options : Options) : Result Conversion * Converter :=
  let cache := JITEngine.default true (cache options) in
  match JS.get supportedFormats sourceFormat with
  | JS.Undefined => (Throw (unsupported sourceFormat), c)
  | _ =>
      let cacheKey := generateCacheKey instructions sourceFormat options in
      match (if cache then conversionCache c !! cacheKey else None) with
      | Some hit =>
          (Ok hit,
           mkConverter (conversionCache c)
             (mkStats (conversions (stats c)) (cacheHits (stats c) + 1)))
      | None =>
          match rethrow "JIT conversion failed: "
                  (convert_body now instructions sourceFormat options) with
          | Ok result =>
              (Ok result,
               mkConverter
                 (if cache then <[cacheKey := result]> (conversionCache c)
                  else conversionCache c)
                 (mkStats (conversions (stats c) + 1) (cacheHits (stats c))))
          | Throw e => (Throw e, c)
          end
      end
  end.

End JITConverter.

(** ** The Swift converter (SwiftConverter) *)

Module SwiftConverter.

(** [this.typeMappings], in the order of [Object.entries] *)
Definition typeMappings : list (string * string) :=
  [ ("String", "String"); ("Int", "Number"); ("Double", "Number");
    ("Float", "Number"); ("Bool", "Boolean"); ("Array", "Array");
    ("Dictionary", "Object"); ("Set", "Set"); ("Optional", "null");
    ("Any", "any"); ("AnyObject", "Object"); ("Void", "void");
    ("nil", "null"); ("true", "true"); ("false", "false") ].

(** [this.methodMappings], in the order of [Object.entries] *)
Definition methodMappings : list (string * string) :=
  [ ("append", "push"); ("removeFirst", "shift"); ("removeLast", "pop");
    ("insert", "splice"); ("remove", "splice"); ("count", "length");
    ("isEmpty", "length === 0"); ("first", "[0]");
    ("last", "[arr.length - 1]") ].

(** One statement [jsBody = jsBody.replace(rx, replacement)] of
    [convertMethodBody], named after its line in the source. *)
Record Rule : Type := mkRule {
  label : string;
  rx : Regex.RegExp;
  replacement : string
}.

Definition rule (label pattern flags replacement : string) : Rule :=
  mkRule label (Regex.parse pattern flags) replacement.

Definition apply (r : Rule) (jsBody : string) : string :=
  Regex.replace (rx r) (replacement r) jsBody.

(** Closures, [for]-[in] loops, computed properties, error handling and
    variable declarations (lines 852 to 883). *)
Definition closure_loop_rules : list Rule := Eval vm_compute in
  [ rule "L852" "(\w+)\.map\s*{\s*\$0\s*\*\s*(\d+)\s*}" "g" "$1.map(x => x * $2)";
    rule "L853" "(\w+)\.filter\s*{\s*\$0\s*>\s*(\d+)\s*}" "g" "$1.filter(x => x > $2)";
    rule "L856" "=\s*{\s*\(([^)]*)\)\s*->\s*\w+\s+in\s+([^}]+)\s*}" "g" "= ($1) => { $2 }";
    rule "L860" "for\s+(\w+)\s+in\s+(\d+)\.\.\.?<(\w+|\d+)\s*{" "g" "for (let $1 = $2; $1 < $3; $1++) {";
    rule "L861" "for\s+(\w+)\s+in\s+(\w+)\.\.\.?<(\w+|\d+)\s*{" "g" "for (let $1 = $2; $1 < $3; $1++) {";
    rule "L864" "for\s+(\w+)\s+in\s+(\d+)\.\.\.(\w+|\d+)\s*{" "g" "for (let $1 = $2; $1 <= $3; $1++) {";
    rule "L865" "for\s+(\w+)\s+in\s+(\w+)\.\.\.(\w+|\d+)\s*{" "g" "for (let $1 = $2; $1 <= $3; $1++) {";
    rule "L868" "for\s+(\w+)\s+in\s+(\w+)\s*{" "g" "for (const $1 of $2) {";
    rule "L871" "var\s+(\w+):\s*\w+\s*{\s*return\s+([^}]+)\s*}" "g" "get $1() { return $2; }";
    rule "L874" "throws\s*->\s*(\w+)" "g" "";
    rule "L875" "throw\s+([^;\n]+)" "g" ("throw new Error(" ++ Str.dq ++ "$1" ++ Str.dq ++ ");");
    rule "L876" "do\s*{" "g" "try {";
    rule "L877" "}\s*catch\s+(\w+)\s*{" "g" ("} catch (error) { if (error.message === " ++ Str.dq ++ "$1" ++ Str.dq ++ ") {");
    rule "L880" "\blet\s+(\w+)\s*:\s*\w+\s*=\s*([^;\n]+)" "g" "const $1 = $2;";
    rule "L881" "\bvar\s+(\w+)\s*:\s*\w+\s*=\s*([^;\n]+)" "g" "let $1 = $2;";
    rule "L882" "\blet\s+(\w+)\s*=\s*([^;\n]+)" "g" "const $1 = $2;";
    rule "L883" "\bvar\s+(\w+)\s*=\s*([^;\n]+)" "g" "let $1 = $2;" ].

(** The loop over [this.typeMappings] (lines 886 to 889):
    [new RegExp(`\\b${swiftType}\\b`, 'g')] replaced by [jsType]. *)
Definition type_rules : list Rule := Eval vm_compute in
  map (fun m => rule ("L888 " ++ fst m) ("\b" ++ fst m ++ "\b") "g" (snd m))
    typeMappings.

(** String interpolation (line 892). *)
Definition interpolation_rule : list Rule := Eval vm_compute in
  [ rule "L892" (Str.dq ++ "([^" ++ Str.dq ++ "]*)\\\(([^)]+)\)([^" ++ Str.dq ++ "]*)" ++ Str.dq) "g" "`$1${$2}$3`" ].
(** Optional chaining, nil coalescing, forced unwrapping, [guard],
    [if let] and the property rewrites (lines 895 to 912). *)
Definition optional_rules : list Rule := Eval vm_compute in
  [ rule "L895" "(\w+)\?\." "g" "$1?.";
    rule "L898" "(\w+)\s*\?\?\s*([^,\n;]+)" "g" "($1 !== null && $1 !== undefined) ? $1 : $2";
    rule "L901" "(\w+)!" "g" "$1";
    rule "L904" "guard\s+([^{]+)\s+else\s*{([^}]+)}" "g" "if (!($1)) { $2 }";
    rule "L907" "if\s+let\s+(\w+)\s*=\s*([^{]+)\s*{" "g" "if (($1 = $2) !== null && $1 !== undefined) {";
    rule "L910" "(\w+)\.count" "g" "$1.length";
    rule "L911" "(\w+)\.isEmpty" "g" "($1.length === 0)";
    rule "L912" "(\w+)\.contains\s*\(\s*([^)]+)\s*\)" "g" "$1.includes($2)" ].

(** The loop over [this.methodMappings] (lines 915 to 918):
    [new RegExp(`\\.${swiftMethod}\\(`, 'g')] replaced by
    [`.${jsMethod}(`]. *)
Definition method_rules : list Rule := Eval vm_compute in
  map (fun m => rule ("L917 " ++ fst m) ("\." ++ fst m ++ "\(") "g"
                  ("." ++ snd m ++ "("))
    methodMappings.

(** [print], [self], [super], increments, control structures and statement
    termination (lines 921 to 946). *)
Definition final_rules : list Rule := Eval vm_compute in
  [ rule "L921" "print\s*\(" "g" "console.log(";
    rule "L924" "\bself\." "g" "this.";
    rule "L925" "\bself\b" "g" "this";
    rule "L928" "super\.(\w+)" "g" "super.$1";
    rule "L931" "(\w+)\s*\+\=\s*1" "g" "$1++";
    rule "L932" "(\w+)\s*-\=\s*1" "g" "$1--";
    rule "L935" "if\s+([^{]+)\s*{" "g" "if ($1) {";
    rule "L936" "while\s+([^{]+)\s*{" "g" "while ($1) {";
    rule "L937" "else\s+if\s+([^{]+)\s*{" "g" "else if ($1) {";
    rule "L940" "([^;{}\n])\n" "g" ("$1;" ++ Str.nl);
    rule "L943" "return\s+([^;\n]+)(?![;\n])" "g" "return $1;";
    rule "L946" ";;" "g" ";" ].

(** The statements of [convertMethodBody] in the order of the source. *)
Definition methodBodyRules : list Rule :=
  (closure_loop_rules ++ type_rules ++ interpolation_rule ++ optional_rules
   ++ method_rules ++ final_rules)%list.

Definition run (rules : list Rule) (jsBody : string) : string :=
  fold_left (fun s r => apply r s) rules jsBody.

(** The successive values of [jsBody]: the body, then the value after
    each statement. *)
Fixpoint trace (rules : list Rule) (jsBody : string) : list string :=
  jsBody ::
  match rules with
  | [] => []
  | r :: rest => trace rest (apply r jsBody)
  end.

(** [convertMethodBody(body)] *)
Definition convertMethodBody (body : string) : string :=
  if String.eqb body "" then "return null;"
  else
    let jsBody := run methodBodyRules body in
    if String.eqb jsBody "" then "return null;" else jsBody.

(** *** The parser

    The records below are the objects the parser builds.  A capture that
    the source stores without reading it is kept as it is, [None] for
    [undefined]. *)

Record ParameterDecl : Type := mkParameter {
  externalName : option string;
  internalName : option string;
  parameter_type : string;
  defaultValue : option string
}.

Record FunctionDecl : Type := mkFunctionDecl {
  function_name : option string;
  function_parameters : list ParameterDecl;
  returnType : string;
  function_body : string;
  function_endLine : nat
}.

Record Initializer : Type := mkInitializer {
  initializer_parameters : list ParameterDecl;
  initializer_body : string;
  initializer_endLine : nat
}.

Record Property : Type := mkProperty {
  property_name : option string;
  property_type : option string;
  isConstant : bool;
  initialValue : option string;
  getter : option string;
  setter : option string;
  property_endLine : nat
}.

Record EnumCase : Type := mkCase {
  case_name : option string;
  case_value : option string
}.

Record Closure : Type := mkClosure {
  closure_parameters : string;
  closure_line : nat
}.

Inductive ContextType : Type :=
| class | struct | enum | protocol | extension.

(** A declaration that can be the [currentContext].  [context_name] is
    [name], or [extendedType] for an extension; [protocols] is
    [inheritedProtocols] for a protocol; a list that the declaration
    does not have stays empty. *)
Record Context : Type := mkContext {
  context_type : ContextType;
  context_name : option string;
  superclass : option string;
  protocols : list string;
  rawType : option string;
  properties : list Property;
  methods : list FunctionDecl;
  initializers : list Initializer;
  cases : list EnumCase;
  requirements : list FunctionDecl
}.

(** The [result] of [parseSwift].  Its lists [classes], [structs],
    [enums], [protocols] and [extensions] hold the objects that
    [currentContext] and [contextStack] refer to and that the parser
    goes on filling; they are kept as one list, [declarations], in the
    order of creation, and an object is referred to by its index
    there. *)
Record Parsed : Type := mkParsed {
  imports : list (option string);
  declarations : list Context;
  functions : list FunctionDecl;
  variables : list Property;
  closures : list Closure;
  warnings : list string
}.

Definition is_type (t : ContextType) (c : Context) : bool :=
  match t, context_type c with
  | class, class | struct, struct | enum, enum | protocol, protocol
  | extension, extension => true
  | _, _ => false
  end.

(** [result.classes], [result.structs], ... *)
Definition of_type (t : ContextType) (p : Parsed) : list Context :=
  List.filter (is_type t) (declarations p).

(** The variables of the loop of [parseSwift]. *)
Record State : Type := mkState {
  result : Parsed;
  currentContext : option nat;
  braceDepth : Z;
  contextStack : list nat
}.

(** [x ? f(x) : d] for a capture [x]: [undefined] and the empty string
    are falsy. *)
Definition if_truthy {A : Type} (x : option string) (f : string -> A) (d : A) : A :=
  match x with
  | Some "" | None => d
  | Some s => f s
  end.

(** [a || b] for captures *)
Definition or_else (a b : option string) : option string :=
  if_truthy a Some b.

Definition rx_open : Regex.RegExp := Eval vm_compute in Regex.parse "{" "g".
Definition rx_close : Regex.RegExp := Eval vm_compute in Regex.parse "}" "g".

(** [(line.match(rx) || []).length] for a global [rx] *)
Definition count (rx : Regex.RegExp) (line : string) : Z :=
  Z.of_nat (List.length (Regex.match_all rx line)).

Definition rx_parameter : Regex.RegExp := Eval vm_compute in
  Regex.parse "(?:(\w+)\s+)?(\w+)\s*:\s*([^=]+)(?:\s*=\s*(.+))?" "".
Definition rx_simple : Regex.RegExp := Eval vm_compute in
  Regex.parse "(\w+)" "".

(** One [part] of the loop of [parseParameters] *)
Definition parseParameter (part : string) : Result (list ParameterDecl) :=
  let trimmed := Str.trim part in
  match Regex.exec rx_parameter trimmed with
  | Some mt =>
      let! type := deref (Regex.grp mt 3) "trim" in
      Ok [ mkParameter (or_else (Regex.grp mt 1) (Regex.grp mt 2)) (Regex.grp mt 2)
             (Str.trim type)
             (if_truthy (Regex.grp mt 4) (fun v => Some (Str.trim v)) None) ]
  | None =>
      match Regex.exec rx_simple trimmed with
      | Some simple =>
          Ok [ mkParameter (Regex.grp simple 1) (Regex.grp simple 1) "Any" None ]
      | None => Ok []
      end
  end.

(** [parseParameters(paramString)] *)
Definition parseParameters (paramString : option string)
  : Result (list ParameterDecl) :=
  let! paramString := deref paramString "trim" in
  if String.eqb (Str.trim paramString) "" then Ok []
  else
    let! parameters := sequence (map parseParameter (Str.split paramString ",")) in
    Ok (List.concat parameters).

Definition rx_func : Regex.RegExp := Eval vm_compute in
  Regex.parse "(?:public\s+|private\s+|internal\s+|fileprivate\s+|open\s+|static\s+|class\s+|override\s+|final\s+|mutating\s+)*func\s+(\w+)\s*\(([^)]*)\)(?:\s*->\s*([^{]+))?" "".

(** The loop of [parseFunction] over the lines after [startIndex]: the
    body and [bodyEnd]. *)
Fixpoint function_lines (rest : list string) (i : nat) (foundOpenBrace : bool)
  (braceDepth : Z) (body : string) (bodyEnd : nat) : string * nat :=
  match rest with
  | [] => (body, bodyEnd)
  | currentLine :: rest' =>
      let foundOpenBrace := (foundOpenBrace || Str.includes currentLine "{")%bool in
      if foundOpenBrace then
        let braceDepth :=
          if Str.includes currentLine "{"
          then (braceDepth + count rx_open currentLine)%Z else braceDepth in
        let braceDepth :=
          if Str.includes currentLine "}"
          then (braceDepth - count rx_close currentLine)%Z else braceDepth in
        if (braceDepth =? 0)%Z then
          let body :=
            if Str.includes currentLine "}" then
              let beforeBrace :=
                Str.substring currentLine 0 (Str.lastIndexOf currentLine "}") in
              if String.eqb (Str.trim beforeBrace) "" then body
              else body ++ beforeBrace ++ Str.nl
            else body in
          (body, i)
        else
          function_lines rest' (S i) foundOpenBrace braceDepth
            (body ++ currentLine ++ Str.nl) bodyEnd
      else function_lines rest' (S i) foundOpenBrace braceDepth body bodyEnd
  end.

(** [parseFunction(line, lines, startIndex)]; [None] is [null]. *)
Definition parseFunction (line : string) (lines : list string) (startIndex : nat)
  : Result (option FunctionDecl) :=
  match Regex.exec rx_func line with
  | None => Ok None
  | Some funcMatch =>
      let name := Regex.grp funcMatch 1 in
      let paramString := Regex.grp funcMatch 2 in
      let returnType := if_truthy (Regex.grp funcMatch 3) Str.trim "Void" in
      let! parameters := parseParameters paramString in
      let multi (foundOpenBrace : bool) (braceDepth : Z) (body : string) :=
        let '(body, bodyEnd) :=
          function_lines (skipn (S startIndex) lines) (S startIndex)
            foundOpenBrace braceDepth body startIndex in
        Ok (Some (mkFunctionDecl name parameters returnType (Str.trim body) bodyEnd)) in
      if Str.includes line "{" then
        let braceDepth := (count rx_open line - count rx_close line)%Z in
        let braceIndex := Str.indexOf line "{" in
        if negb (braceIndex =? -1)%Z then
          let samLineBody := Str.substring_from line (braceIndex + 1) in
          if (Str.includes samLineBody "}" && (braceDepth =? 0)%Z)%bool then
            let body :=
              Str.trim (Str.substring samLineBody 0 (Str.lastIndexOf samLineBody "}")) in
            Ok (Some (mkFunctionDecl name parameters returnType body startIndex))
          else multi true braceDepth (samLineBody ++ Str.nl)
        else multi true braceDepth ""
      else multi false 0%Z ""
  end.

Definition rx_init : Regex.RegExp := Eval vm_compute in
  Regex.parse "(?:public\s+|private\s+|internal\s+|convenience\s+|required\s+)*init\s*\(([^)]*)\)" "".

(** The loop of [parseInitializer] over the lines from [startIndex] on:
    the body and [bodyEnd]. *)
Fixpoint initializer_lines (rest : list string) (i : nat) (foundOpenBrace : bool)
  (bodyStart : Z) (braceDepth : Z) (body : string) (bodyEnd : nat) : string * nat :=
  match rest with
  | [] => (body, bodyEnd)
  | currentLine :: rest' =>
      let opens := Str.includes currentLine "{" in
      let bodyStart :=
        if (opens && negb foundOpenBrace)%bool then Z.of_nat i else bodyStart in
      let foundOpenBrace := (foundOpenBrace || opens)%bool in
      let braceDepth :=
        if opens then (braceDepth + count rx_open currentLine)%Z else braceDepth in
      let closes := Str.includes currentLine "}" in
      let braceDepth :=
        if closes then (braceDepth - count rx_close currentLine)%Z else braceDepth in
      if (closes && (braceDepth =? 0)%Z && foundOpenBrace)%bool then (body, i)
      else
        let body :=
          if (foundOpenBrace && (bodyStart <? Z.of_nat i)%Z)%bool
          then body ++ currentLine ++ Str.nl else body in
        initializer_lines rest' (S i) foundOpenBrace bodyStart braceDepth body bodyEnd
  end.

(** [parseInitializer(line, lines, startIndex)] *)
Definition parseInitializer (line : string) (lines : list string) (startIndex : nat)
  : Result (option Initializer) :=
  match Regex.exec rx_init line with
  | None => Ok None
  | Some initMatch =>
      let paramString := Regex.grp initMatch 1 in
      let! parameters := parseParameters paramString in
      let '(body, bodyEnd) :=
        initializer_lines (skipn startIndex lines) startIndex false (-1) 0 ""
          startIndex in
      Ok (Some (mkInitializer parameters (Str.trim body) bodyEnd))
  end.

Definition rx_prop : Regex.RegExp := Eval vm_compute in
  Regex.parse "(?:public\s+|private\s+|internal\s+|fileprivate\s+|open\s+|static\s+|lazy\s+|weak\s+|unowned\s+)*(var|let)\s+(\w+)(?:\s*:\s*([^=\n{]+))?(?:\s*=\s*([^{\n]+))?" "".

(** The variables of the loop of [parseProperty]. *)
Record Accessors : Type := mkAccessors {
  depth : Z;
  inGetter : bool;
  inSetter : bool;
  getterBody : string;
  setterBody : string;
  currentBlock : string;
  endLine : nat
}.

(** The loop of [parseProperty] over the lines from [startLine] on. *)
Fixpoint property_lines (rest : list string) (i : nat) (a : Accessors) : Accessors :=
  match rest with
  | [] => a
  | currentLine :: rest' =>
      let braceDepth :=
        if Str.includes currentLine "{"
        then (depth a + count rx_open currentLine)%Z else depth a in
      let braceDepth :=
        if Str.includes currentLine "}"
        then (braceDepth - count rx_close currentLine)%Z else braceDepth in
      let simple (a : Accessors) : Accessors :=
        if ((depth a =? 1)%Z && Str.includes currentLine "return"
            && negb (inGetter a) && negb (inSetter a))%bool then
          let a := mkAccessors (depth a) (inGetter a) (inSetter a)
                     (Str.trim currentLine) (setterBody a) (currentBlock a)
                     (endLine a) in
          match rest' with
          | next :: _ =>
              if Str.includes next "}"
              then mkAccessors (depth a) (inGetter a) (inSetter a) (getterBody a)
                     (setterBody a) (currentBlock a) (S i)
              else property_lines rest' (S i) a
          | [] => property_lines rest' (S i) a
          end
        else property_lines rest' (S i) a in
      if (String.eqb (Str.trim currentLine) "get {"
          || Str.includes currentLine "get {")%bool then
        simple (mkAccessors braceDepth true false (getterBody a) (setterBody a) ""
                  (endLine a))
      else if (String.eqb (Str.trim currentLine) "set {"
               || Str.includes currentLine "set {")%bool then
        let inGetter := false in
        let getterBody :=
          if (inGetter && String.eqb (getterBody a) "")%bool
          then Str.trim (currentBlock a) else getterBody a in
        simple (mkAccessors braceDepth inGetter true getterBody (setterBody a) ""
                  (endLine a))
      else if (braceDepth =? 0)%Z then
        mkAccessors braceDepth (inGetter a) (inSetter a)
          (if inGetter a then Str.trim (currentBlock a) else getterBody a)
          (if inGetter a then setterBody a
           else if inSetter a then Str.trim (currentBlock a) else setterBody a)
          (currentBlock a) i
      else if ((0 <? braceDepth)%Z && negb (Str.includes currentLine "get")
               && negb (Str.includes currentLine "set"))%bool then
        simple (mkAccessors braceDepth (inGetter a) (inSetter a) (getterBody a)
                  (setterBody a)
                  (if (negb (String.eqb (Str.trim currentLine) "")
                       && negb (Str.includes currentLine "{")
                       && negb (Str.includes currentLine "}"))%bool
                   then currentBlock a ++ currentLine ++ Str.nl
                   else currentBlock a)
                  (endLine a))
      else
        simple (mkAccessors braceDepth (inGetter a) (inSetter a) (getterBody a)
                  (setterBody a) (currentBlock a) (endLine a))
  end.

(** [lines[startIndex + 1]?.trim() === '{'] *)
Definition next_is_brace (lines : list string) (startIndex : nat) : bool :=
  match nth_error lines (S startIndex) with
  | Some next => String.eqb (Str.trim next) "{"
  | None => false
  end.

(** [parseProperty(line, lines, startIndex)] *)
Definition parseProperty (line : string) (lines : list string) (startIndex : nat)
  : option Property :=
  match Regex.exec rx_prop line with
  | None => None
  | Some propMatch =>
      let isConstant :=
        match Regex.grp propMatch 1 with
        | Some k => String.eqb k "let"
        | None => false
        end in
      let name := Regex.grp propMatch 2 in
      let type := if_truthy (Regex.grp propMatch 3) (fun t => Some (Str.trim t)) None in
      let initialValue :=
        if_truthy (Regex.grp propMatch 4) (fun v => Some (Str.trim v)) None in
      if (Str.includes line "{" || next_is_brace lines startIndex)%bool then
        let startLine :=
          if (negb (Str.includes line "{") && next_is_brace lines startIndex)%bool
          then S startIndex else startIndex in
        let a :=
          property_lines (skipn startLine lines) startLine
            (mkAccessors 0 false false "" "" "" startIndex) in
        Some (mkProperty name type isConstant initialValue
                (if_truthy (Some (getterBody a)) Some None)
                (if_truthy (Some (setterBody a)) Some None)
                (endLine a))
      else
        Some (mkProperty name type isConstant initialValue None None startIndex)
  end.

Definition rx_import : Regex.RegExp := Eval vm_compute in
  Regex.parse "import\s+(.+)" "".
Definition rx_class : Regex.RegExp := Eval vm_compute in
  Regex.parse "(?:public\s+|private\s+|internal\s+|open\s+|final\s+)*class\s+(\w+)(?:\s*:\s*([^{]+))?" "".
Definition rx_struct : Regex.RegExp := Eval vm_compute in
  Regex.parse "(?:public\s+|private\s+|internal\s+)*struct\s+(\w+)(?:\s*:\s*([^{]+))?" "".
Definition rx_enum : Regex.RegExp := Eval vm_compute in
  Regex.parse "(?:public\s+|private\s+|internal\s+)*enum\s+(\w+)(?:\s*:\s*([^{]+))?" "".
Definition rx_protocol : Regex.RegExp := Eval vm_compute in
  Regex.parse "(?:public\s+|private\s+|internal\s+)*protocol\s+(\w+)(?:\s*:\s*([^{]+))?" "".
Definition rx_extension : Regex.RegExp := Eval vm_compute in
  Regex.parse "extension\s+(\w+)(?:\s*:\s*([^{]+))?" "".
Definition rx_property_line : Regex.RegExp := Eval vm_compute in
  Regex.parse "^\s*(?:public\s+|private\s+|internal\s+|fileprivate\s+|open\s+)?(?:static\s+|lazy\s+|weak\s+|unowned\s+)?(?:var|let)\s+" "".
Definition rx_case : Regex.RegExp := Eval vm_compute in
  Regex.parse "case\s+(\w+)(?:\s*=\s*(.+))?" "".
Definition rx_closure : Regex.RegExp := Eval vm_compute in
  Regex.parse "\{([^}]*)\s+in" "".

(** [x.trim().split(',').map(p => p.trim())] *)
Definition trimmed_parts (x : string) : list string :=
  map Str.trim (Str.split (Str.trim x) ",").

(** A new declaration becomes the [currentContext]; it is pushed to its
    list of the result and to [contextStack]. *)
Definition open_context (c : Context) (st : State) : State :=
  let r := result st in
  let id := List.length (declarations r) in
  mkState
    (mkParsed (imports r) (declarations r ++ [c]) (functions r) (variables r)
       (closures r) (warnings r))
    (Some id) (braceDepth st) (contextStack st ++ [id]).

(** A change of the object that [currentContext] refers to. *)
Definition update_context (id : nat) (f : Context -> Context) (st : State) : State :=
  let r := result st in
  mkState
    (mkParsed (imports r)
       (match nth_error (declarations r) id with
        | Some c => firstn id (declarations r) ++ f c :: skipn (S id) (declarations r)
        | None => declarations r
        end)
       (functions r) (variables r) (closures r) (warnings r))
    (currentContext st) (braceDepth st) (contextStack st).

Definition with_result (f : Parsed -> Parsed) (st : State) : State :=
  mkState (f (result st)) (currentContext st) (braceDepth st) (contextStack st).

(** [currentContext.type], when there is a [currentContext] *)
Definition current_type (st : State) : option ContextType :=
  match currentContext st with
  | Some id => option_map context_type (nth_error (declarations (result st)) id)
  | None => None
  end.

Definition push_property (x : Property) (c : Context) : Context :=
  mkContext (context_type c) (context_name c) (superclass c) (protocols c)
    (rawType c) (properties c ++ [x]) (methods c) (initializers c) (cases c)
    (requirements c).
Definition push_method (x : FunctionDecl) (c : Context) : Context :=
  mkContext (context_type c) (context_name c) (superclass c) (protocols c)
    (rawType c) (properties c) (methods c ++ [x]) (initializers c) (cases c)
    (requirements c).
Definition push_initializer (x : Initializer) (c : Context) : Context :=
  mkContext (context_type c) (context_name c) (superclass c) (protocols c)
    (rawType c) (properties c) (methods c) (initializers c ++ [x]) (cases c)
    (requirements c).
Definition push_case (x : EnumCase) (c : Context) : Context :=
  mkContext (context_type c) (context_name c) (superclass c) (protocols c)
    (rawType c) (properties c) (methods c) (initializers c) (cases c ++ [x])
    (requirements c).
Definition push_requirement (x : FunctionDecl) (c : Context) : Context :=
  mkContext (context_type c) (context_name c) (superclass c) (protocols c)
    (rawType c) (properties c) (methods c) (initializers c) (cases c)
    (requirements c ++ [x]).

Definition push_import (x : option string) (r : Parsed) : Parsed :=
  mkParsed (imports r ++ [x]) (declarations r) (functions r) (variables r)
    (closures r) (warnings r).
Definition push_function (x : FunctionDecl) (r : Parsed) : Parsed :=
  mkParsed (imports r) (declarations r) (functions r ++ [x]) (variables r)
    (closures r) (warnings r).
Definition push_variable (x : Property) (r : Parsed) : Parsed :=
  mkParsed (imports r) (declarations r) (functions r) (variables r ++ [x])
    (closures r) (warnings r).
Definition push_closure (x : Closure) (r : Parsed) : Parsed :=
  mkParsed (imports r) (declarations r) (functions r) (variables r)
    (closures r ++ [x]) (warnings r).

(** [endLine || i] *)
Definition or_index (endLine i : nat) : nat :=
  if Nat.eqb endLine 0 then i else endLine.

(** A declaration line of one of the five kinds: the context it opens,
    if the line matches. *)
Definition declaration (rx : Regex.RegExp) (make : Regex.MatchResult -> Context)
  (line : string) (st : State) : State :=
  match Regex.exec rx line with
  | Some mt => open_context (make mt) st
  | None => st
  end.

Definition new_class (classMatch : Regex.MatchResult) : Context :=
  mkContext class (Regex.grp classMatch 1)
    (if_truthy (Regex.grp classMatch 2)
       (fun x => nth_error (Str.split (Str.trim x) ",") 0) None)
    (if_truthy (Regex.grp classMatch 2)
       (fun x => map Str.trim (List.tl (Str.split (Str.trim x) ","))) [])
    None [] [] [] [] [].
Definition new_struct (structMatch : Regex.MatchResult) : Context :=
  mkContext struct (Regex.grp structMatch 1) None
    (if_truthy (Regex.grp structMatch 2) trimmed_parts []) None [] [] [] [] [].
Definition new_enum (enumMatch : Regex.MatchResult) : Context :=
  mkContext enum (Regex.grp enumMatch 1) None []
    (if_truthy (Regex.grp enumMatch 2) (fun x => Some (Str.trim x)) None)
    [] [] [] [] [].
Definition new_protocol (protocolMatch : Regex.MatchResult) : Context :=
  mkContext protocol (Regex.grp protocolMatch 1) None
    (if_truthy (Regex.grp protocolMatch 2) trimmed_parts []) None [] [] [] [] [].
Definition new_extension (extensionMatch : Regex.MatchResult) : Context :=
  mkContext extension (Regex.grp extensionMatch 1) None
    (if_truthy (Regex.grp extensionMatch 2) trimmed_parts []) None [] [] [] [] [].

(** The end of the loop body of [parseSwift]: the brace depth, the
    context stack and the closures. *)
Definition track (line : string) (i : nat) (st : State) : Result State :=
  let st :=
    if Str.includes line "{"
    then mkState (result st) (currentContext st)
           (braceDepth st + count rx_open line) (contextStack st)
    else st in
  let st :=
    if Str.includes line "}" then
      let braceDepth := (braceDepth st - count rx_close line)%Z in
      if (braceDepth =? Z.of_nat (List.length (contextStack st)) - 1)%Z then
        let contextStack := removelast (contextStack st) in
        mkState (result st) (List.last (map Some contextStack) None) braceDepth
          contextStack
      else mkState (result st) (currentContext st) braceDepth (contextStack st)
    else st in
  if (Str.includes line "{" && Str.includes line "in")%bool then
    match Regex.exec rx_closure line with
    | Some closureMatch =>
        let! parameters := deref (Regex.grp closureMatch 1) "trim" in
        Ok (with_result (push_closure (mkClosure (Str.trim parameters) i)) st)
    | None => Ok st
    end
  else Ok st.

Definition in_class_or_struct (st : State) : option nat :=
  match current_type st, currentContext st with
  | Some class, Some id | Some struct, Some id => Some id
  | _, _ => None
  end.

(** The body of the loop of [parseSwift] for the line [lines[i]]: the
    state and the value of [i] at the end of the iteration. *)
Definition step (lines : list string) (i : nat) (line : string) (st : State)
  : Result (State * nat) :=
  if (String.eqb line "" || Str.startsWith line "//" || Str.startsWith line "/*"
      || Str.startsWith line "*")%bool then Ok (st, i)
  else if Str.startsWith line "import " then
    match Regex.exec rx_import line with
    | Some importMatch =>
        Ok (with_result (push_import (Regex.grp importMatch 1)) st, i)
    | None => Ok (st, i)
    end
  else if Str.includes line "class " then Ok (declaration rx_class new_class line st, i)
  else if Str.includes line "struct " then Ok (declaration rx_struct new_struct line st, i)
  else if Str.includes line "enum " then Ok (declaration rx_enum new_enum line st, i)
  else if Str.includes line "protocol "
  then Ok (declaration rx_protocol new_protocol line st, i)
  else if Str.includes line "extension "
  then Ok (declaration rx_extension new_extension line st, i)
  else if Str.includes line "func " then
    let! func := parseFunction line lines i in
    match func with
    | Some func =>
        let st :=
          match current_type st, currentContext st with
          | Some class, Some id | Some struct, Some id | Some extension, Some id =>
              update_context id (push_method func) st
          | Some protocol, Some id => update_context id (push_requirement func) st
          | _, _ => with_result (push_function func) st
          end in
        Ok (st, or_index (function_endLine func) i)
    | None => Ok (st, i)
    end
  else if Str.includes line "init(" then
    let! init := parseInitializer line lines i in
    match init, in_class_or_struct st with
    | Some init, Some id =>
        Ok (update_context id (push_initializer init) st,
            or_index (initializer_endLine init) i)
    | _, _ => Ok (st, i)
    end
  else if Regex.test rx_property_line line then
    match parseProperty line lines i, in_class_or_struct st with
    | Some property, Some id =>
        Ok (update_context id (push_property property) st,
            or_index (property_endLine property) i)
    | Some property, None => Ok (with_result (push_variable property) st, i)
    | None, _ => Ok (st, i)
    end
  else
    match current_type st, currentContext st with
    | Some enum, Some id =>
        if Str.includes line "case " then
          match Regex.exec rx_case line with
          | Some caseMatch =>
              Ok (update_context id
                    (push_case
                       (mkCase (Regex.grp caseMatch 1)
                          (if_truthy (Regex.grp caseMatch 2)
                             (fun v => Some (Str.trim v)) None)))
                    st, i)
          | None => Ok (st, i)
          end
        else let! st := track line i st in Ok (st, i)
    | _, _ => let! st := track line i st in Ok (st, i)
    end.

(** The loop of [parseSwift] from the index [i] on.  [fuel] bounds the
    number of iterations; [None] stands for a loop that has not ended
    within the bound. *)
Fixpoint loop (fuel : nat) (lines : list string) (i : nat) (st : State)
  : option (Result State) :=
  match nth_error lines i with
  | None => Some (Ok st)
  | Some line =>
      match fuel with
      | O => None
      | S fuel' =>
          match step lines i line st with
          | Ok (st', i') => loop fuel' lines (S i') st'
          | Throw e => Some (Throw e)
          end
      end
  end.

(** [code.split('\n').map(line => line.trim()).filter(line => line)] *)
Definition lines_of (code : string) : list string :=
  List.filter (fun line => negb (String.eqb line ""))
    (map Str.trim (Str.split code Str.nl)).

Definition empty : State :=
  mkState (mkParsed [] [] [] [] [] []) None 0 [].

(** [parseSwift(code, options)]: the loop runs for at most as many
    iterations as there are lines. *)
Definition parseSwift (code : string) : option (Result Parsed) :=
  let lines := lines_of code in
  match loop (List.length lines) lines 0 empty with
  | Some (Ok st) => Some (Ok (result st))
  | Some (Throw e) => Some (Throw e)
  | None => None
  end.

(** *** Helpers of the code generator *)

Definition rx_optional : Regex.RegExp := Eval vm_compute in
  Regex.parse "[?!]" "g".

(** [getDefaultValue(type)]; [None] is [undefined], and the empty
    string is falsy as well. *)
Definition getDefaultValue (type : option string) : string :=
  match type with
  | None | Some "" => "null"
  | Some t =>
      let cleanType := Regex.replace rx_optional "" t in
      if String.eqb cleanType "String" then "''"
      else if (String.eqb cleanType "Int" || String.eqb cleanType "Double"
               || String.eqb cleanType "Float")%bool then "0"
      else if String.eqb cleanType "Bool" then "false"
      else if String.eqb cleanType "Array" then "[]"
      else if String.eqb cleanType "Dictionary" then "{}"
      else if String.eqb cleanType "Set" then "new Set()"
      else "null"
  end.

(** [indentCode(code, spaces)] for a count of spaces that is a natural
    number; an empty line is left empty. *)
Definition indentCode (code : string) (spaces : nat) : string :=
  let indent := Str.repeat " " spaces in
  Str.join Str.nl
    (map (fun line => if String.eqb line "" then line else indent ++ line)
       (Str.split code Str.nl)).

End SwiftConverter.

(** ** ObjectiveCConverter.js: the parser *)

Module ObjectiveCConverter.

Record MethodParameter : Type := mkMethodParameter {
  label : option string;
  parameter_type : option string;
  parameter_name : option string
}.

Record Method : Type := mkMethod {
  isInstance : bool;
  returnType : option string;
  method_name : string;
  parameters : list MethodParameter;
  body : string;
  endLine : nat;
  isDeclaration : bool
}.

Record Protocol : Type := mkProtocol {
  protocol_name : option string;
  protocol_methods : list Method;
  protocol_endLine : nat
}.

Record Category : Type := mkCategory {
  className : option string;
  categoryName : option string;
  category_methods : list Method;
  category_endLine : nat
}.

Record Property : Type := mkProperty {
  attributes : string;
  property_type : string;
  property_name : option string
}.

Record ClassDecl : Type := mkClass {
  name : option string;
  superclass : option string;
  protocols : list string;
  properties : list Property;
  methods : list Method;
  isInterface : bool
}.

Record Block : Type := mkBlock {
  block_name : option string;
  block_parameters : string;
  line : nat
}.

Record VariableDecl : Type := mkVariable {
  variable_type : option string;
  variable_name : option string;
  initialValue : option string
}.

(** The [result] of [parseObjectiveC].  Nothing is ever pushed to
    [functions]: the method that would build a function is not
    defined. *)
Record Parsed : Type := mkParsed {
  imports : list (option string);
  classes : list ClassDecl;
  result_methods : list Method;
  functions : list Empty_set;
  variables : list VariableDecl;
  result_protocols : list Protocol;
  categories : list Category;
  blocks : list Block;
  warnings : list string
}.

(** The variables of the loop of [parseObjectiveC]; [currentClass] is
    the index in [result.classes] of the object it refers to. *)
Record State : Type := mkState {
  result : Parsed;
  currentClass : option nat;
  braceDepth : Z
}.

Definition rx_open : Regex.RegExp := Eval vm_compute in Regex.parse "{" "g".
Definition rx_close : Regex.RegExp := Eval vm_compute in Regex.parse "}" "g".

(** [(line.match(rx) || []).length] for a global [rx] *)
Definition count (rx : Regex.RegExp) (line : string) : Z :=
  Z.of_nat (List.length (Regex.match_all rx line)).

(** [endLine || i] *)
Definition or_index (endLine i : nat) : nat :=
  if Nat.eqb endLine 0 then i else endLine.

Definition rx_parts : Regex.RegExp := Eval vm_compute in
  Regex.parse "(?=\w+:)" "".
Definition rx_labelled : Regex.RegExp := Eval vm_compute in
  Regex.parse "(\w+):\s*\(([^)]+)\)\s*(\w+)" "".
Definition rx_unlabelled : Regex.RegExp := Eval vm_compute in
  Regex.parse "(\w+):\s*(\w+)" "".

(** One [parts[i]] of the loop of [parseMethodParameters] *)
Definition parseMethodParameter (part : string) : list MethodParameter :=
  let part := Str.trim part in
  match Regex.exec rx_labelled part with
  | Some mt =>
      [ mkMethodParameter (Regex.grp mt 1) (Regex.grp mt 2) (Regex.grp mt 3) ]
  | None =>
      match Regex.exec rx_unlabelled part with
      | Some simpleMatch =>
          [ mkMethodParameter (Regex.grp simpleMatch 1) (Some "id")
              (Regex.grp simpleMatch 2) ]
      | None => []
      end
  end.

(** [parseMethodParameters(signature)]; the loop begins at [parts[1]]. *)
Definition parseMethodParameters (signature : string) : list MethodParameter :=
  if negb (Str.includes signature ":") then []
  else flat_map parseMethodParameter (List.tl (Regex.split rx_parts signature)).

(** [extractMethodName(signature)] *)
Definition extractMethodName (signature : string) : string :=
  if negb (Str.includes signature ":") then Str.trim signature
  else
    match Str.split signature ":" with
    | first :: _ => Str.trim first
    | [] => ""
    end.

Definition rx_method : Regex.RegExp := Eval vm_compute in
  Regex.parse "^([-+])\s*\(([^)]+)\)\s*(.+)" "".

(** The loop of [parseMethod] over the lines from [startIndex] on: the
    body and [bodyEnd]. *)
Fixpoint method_lines (rest : list string) (i : nat) (foundOpenBrace : bool)
  (bodyStart : Z) (braceDepth : Z) (body : string) (bodyEnd : nat) : string * nat :=
  match rest with
  | [] => (body, bodyEnd)
  | currentLine :: rest' =>
      let opens := Str.includes currentLine "{" in
      let bodyStart :=
        if (opens && negb foundOpenBrace)%bool then Z.of_nat i else bodyStart in
      let foundOpenBrace := (foundOpenBrace || opens)%bool in
      let braceDepth :=
        if opens then (braceDepth + count rx_open currentLine)%Z else braceDepth in
      let closes := Str.includes currentLine "}" in
      let braceDepth :=
        if closes then (braceDepth - count rx_close currentLine)%Z else braceDepth in
      if (closes && (braceDepth =? 0)%Z && foundOpenBrace)%bool then (body, i)
      else
        let body :=
          if (foundOpenBrace && (bodyStart <? Z.of_nat i)%Z)%bool
          then body ++ currentLine ++ Str.nl else body in
        method_lines rest' (S i) foundOpenBrace bodyStart braceDepth body bodyEnd
  end.

(** [parseMethod(line, lines, startIndex)]; [None] is [null]. *)
Definition parseMethod (line : string) (lines : list string) (startIndex : nat)
  : Result (option Method) :=
  match Regex.exec rx_method line with
  | None => Ok None
  | Some methodMatch =>
      let isInstance :=
        match Regex.grp methodMatch 1 with
        | Some sign => String.eqb sign "-"
        | None => false
        end in
      let returnType := Regex.grp methodMatch 2 in
      let! signature := deref (Regex.grp methodMatch 3) "endsWith" in
      if Str.endsWith signature ";" then
        let signature := Str.slice signature 0 (-1) in
        Ok (Some (mkMethod isInstance returnType (Str.trim signature)
                    (parseMethodParameters signature) "" startIndex true))
      else
        let parameters := parseMethodParameters signature in
        let methodName := extractMethodName signature in
        let '(body, bodyEnd) :=
          method_lines (skipn startIndex lines) startIndex false (-1) 0 ""
            startIndex in
        Ok (Some (mkMethod isInstance returnType methodName parameters
                    (Str.trim body) bodyEnd false))
  end.

Definition rx_method_line : Regex.RegExp := Eval vm_compute in
  Regex.parse "^[-+]\s*\(" "".
Definition rx_protocol : Regex.RegExp := Eval vm_compute in
  Regex.parse "@protocol\s+(\w+)" "".
Definition rx_category : Regex.RegExp := Eval vm_compute in
  Regex.parse "@interface\s+(\w+)\s*\((\w+)\)" "".

(** The loop of [parseProtocols] over the lines after [startIndex]: the
    methods and [endLine]. *)
Fixpoint protocol_lines (lines rest : list string) (i : nat) (methods : list Method)
  (endLine : nat) : Result (list Method * nat) :=
  match rest with
  | [] => Ok (methods, endLine)
  | l :: rest' =>
      let currentLine := Str.trim l in
      if String.eqb currentLine "@end" then Ok (methods, i)
      else if Regex.test rx_method_line currentLine then
        let! method := parseMethod currentLine lines i in
        match method with
        | Some method => protocol_lines lines rest' (S i) (methods ++ [method]) endLine
        | None => protocol_lines lines rest' (S i) methods endLine
        end
      else protocol_lines lines rest' (S i) methods endLine
  end.

(** [parseProtocols(line, lines, startIndex)] *)
Definition parseProtocols (line : string) (lines : list string) (startIndex : nat)
  : Result (option Protocol) :=
  match Regex.exec rx_protocol line with
  | None => Ok None
  | Some protocolMatch =>
      let protocolName := Regex.grp protocolMatch 1 in
      let! found :=
        protocol_lines lines (skipn (S startIndex) lines) (S startIndex) []
          startIndex in
      Ok (Some (mkProtocol protocolName (fst found) (snd found)))
  end.

(** The loop of [parseCategory] from the index [i] on; a method moves
    [i] to its last line.  [fuel] bounds the number of iterations;
    [None] stands for a loop that has not ended within the bound. *)
Fixpoint category_lines (fuel : nat) (lines : list string) (i : nat)
  (methods : list Method) (endLine : nat) : option (Result (list Method * nat)) :=
  match nth_error lines i with
  | None => Some (Ok (methods, endLine))
  | Some l =>
      let currentLine := Str.trim l in
      if String.eqb currentLine "@end" then Some (Ok (methods, i))
      else
        match fuel with
        | O => None
        | S fuel' =>
            if Regex.test rx_method_line currentLine then
              match parseMethod currentLine lines i with
              | Throw e => Some (Throw e)
              | Ok (Some method) =>
                  category_lines fuel' lines (S (or_index (ObjectiveCConverter.endLine method) i))
                    (methods ++ [method]) endLine
              | Ok None => category_lines fuel' lines (S i) methods endLine
              end
            else category_lines fuel' lines (S i) methods endLine
        end
  end.

(** [parseCategory(line, lines, startIndex)] *)
Definition parseCategory (line : string) (lines : list string) (startIndex : nat)
  : option (Result (option Category)) :=
  match Regex.exec rx_category line with
  | None => Some (Ok None)
  | Some categoryMatch =>
      let className := Regex.grp categoryMatch 1 in
      let categoryName := Regex.grp categoryMatch 2 in
      match category_lines (List.length lines) lines (S startIndex) [] startIndex with
      | Some (Ok (methods, endLine)) =>
          Some (Ok (Some (mkCategory className categoryName methods endLine)))
      | Some (Throw e) => Some (Throw e)
      | None => None
      end
  end.

(** The call [this.parseFunction(line, lines, i)]: the class defines no
    such method. *)
Definition parseFunction : Result (option Empty_set) :=
  Throw "this.parseFunction is not a function".

Definition rx_import : Regex.RegExp := Eval vm_compute in
  Regex.parse ("#import\s+[<" ++ Str.dq ++ "]([^>" ++ Str.dq ++ "]+)[>" ++ Str.dq ++ "]") "".
Definition rx_interface : Regex.RegExp := Eval vm_compute in
  Regex.parse "@interface\s+(\w+)(?:\s*:\s*(\w+))?(?:\s*<([^>]+)>)?" "".
Definition rx_implementation : Regex.RegExp := Eval vm_compute in
  Regex.parse "@implementation\s+(\w+)" "".
Definition rx_property : Regex.RegExp := Eval vm_compute in
  Regex.parse "@property\s*(\([^)]*\))?\s*([^;]+)\s+(\w+)" "".
Definition rx_block : Regex.RegExp := Eval vm_compute in
  Regex.parse "(\w+)\s*=\s*\^([^{]*)\{" "".
Definition rx_function_line : Regex.RegExp := Eval vm_compute in
  Regex.parse "^\w+\s+\w+\s*\(" "".
Definition rx_variable_line : Regex.RegExp := Eval vm_compute in
  Regex.parse "^\w+\s+\*?\w+\s*[=;]" "".
Definition rx_variable : Regex.RegExp := Eval vm_compute in
  Regex.parse "^(\w+)\s+\*?(\w+)\s*(?:=\s*([^;]+))?" "".

Definition with_result (f : Parsed -> Parsed) (st : State) : State :=
  mkState (f (result st)) (currentClass st) (braceDepth st).

Definition push_import (x : option string) (r : Parsed) : Parsed :=
  mkParsed (imports r ++ [x]) (classes r) (result_methods r) (functions r)
    (variables r) (result_protocols r) (categories r) (blocks r) (warnings r).
Definition push_method (x : Method) (r : Parsed) : Parsed :=
  mkParsed (imports r) (classes r) (result_methods r ++ [x]) (functions r)
    (variables r) (result_protocols r) (categories r) (blocks r) (warnings r).
Definition push_variable (x : VariableDecl) (r : Parsed) : Parsed :=
  mkParsed (imports r) (classes r) (result_methods r) (functions r)
    (variables r ++ [x]) (result_protocols r) (categories r) (blocks r) (warnings r).
Definition push_protocol (x : Protocol) (r : Parsed) : Parsed :=
  mkParsed (imports r) (classes r) (result_methods r) (functions r)
    (variables r) (result_protocols r ++ [x]) (categories r) (blocks r) (warnings r).
Definition push_category (x : Category) (r : Parsed) : Parsed :=
  mkParsed (imports r) (classes r) (result_methods r) (functions r)
    (variables r) (result_protocols r) (categories r ++ [x]) (blocks r) (warnings r).
Definition push_block (x : Block) (r : Parsed) : Parsed :=
  mkParsed (imports r) (classes r) (result_methods r) (functions r)
    (variables r) (result_protocols r) (categories r) (blocks r ++ [x]) (warnings r).
Definition set_classes (cs : list ClassDecl) (r : Parsed) : Parsed :=
  mkParsed (imports r) cs (result_methods r) (functions r)
    (variables r) (result_protocols r) (categories r) (blocks r) (warnings r).

(** A new class becomes the [currentClass] and is pushed to
    [result.classes]. *)
Definition open_class (c : ClassDecl) (st : State) : State :=
  mkState (set_classes (classes (result st) ++ [c]) (result st))
    (Some (List.length (classes (result st)))) (braceDepth st).

(** A change of the object that [currentClass] refers to. *)
Definition update_class (id : nat) (f : ClassDecl -> ClassDecl) (st : State) : State :=
  let cs := classes (result st) in
  with_result
    (set_classes
       (match nth_error cs id with
        | Some c => firstn id cs ++ f c :: skipn (S id) cs
        | None => cs
        end))
    st.

(** [result.classes.find(c => c.name === name)]: the index of the first
    class of that name. *)
Fixpoint find_class (name : option string) (cs : list ClassDecl) (i : nat)
  : option nat :=
  match cs with
  | [] => None
  | c :: rest =>
      if decide (ObjectiveCConverter.name c = name) then Some i
      else find_class name rest (S i)
  end.

Definition class_push_property (x : Property) (c : ClassDecl) : ClassDecl :=
  mkClass (name c) (superclass c) (protocols c) (properties c ++ [x]) (methods c)
    (isInterface c).
Definition class_push_method (x : Method) (c : ClassDecl) : ClassDecl :=
  mkClass (name c) (superclass c) (protocols c) (properties c) (methods c ++ [x])
    (isInterface c).
Definition implemented (c : ClassDecl) : ClassDecl :=
  mkClass (name c) (superclass c) (protocols c) (properties c) (methods c) false.

(** [x || d] for a capture [x] *)
Definition or_default (x : option string) (d : string) : string :=
  match x with
  | Some "" | None => d
  | Some s => s
  end.

(** The end of the loop body of [parseObjectiveC]: the brace depth and
    the variable declarations. *)
Definition track (line : string) (st : State) : State :=
  let braceDepth :=
    (braceDepth st + count rx_open line - count rx_close line)%Z in
  let st := mkState (result st) (currentClass st) braceDepth in
  if ((braceDepth =? 0)%Z && Regex.test rx_variable_line line)%bool then
    match Regex.exec rx_variable line with
    | Some varMatch =>
        with_result
          (push_variable
             (mkVariable (Regex.grp varMatch 1) (Regex.grp varMatch 2)
                (Regex.grp varMatch 3)))
          st
    | None => st
    end
  else st.

(** The declaration of a class by an [@interface] line *)
Definition new_interface (interfaceMatch : Regex.MatchResult) : ClassDecl :=
  mkClass (Regex.grp interfaceMatch 1)
    (Some (or_default (Regex.grp interfaceMatch 2) "NSObject"))
    (match Regex.grp interfaceMatch 3 with
     | Some "" | None => []
     | Some ps => map Str.trim (Str.split ps ",")
     end)
    [] [] true.

(** The body of the loop of [parseObjectiveC] for the line [lines[i]]:
    the state and the value of [i] at the end of the iteration. *)
Definition step (lines : list string) (i : nat) (line : string) (st : State)
  : option (Result (State * nat)) :=
  if (String.eqb line "" || Str.startsWith line "//" || Str.startsWith line "/*"
      || Str.includes line "*")%bool then Some (Ok (st, i))
  else if (Str.startsWith line "#import" || Str.startsWith line "#include")%bool then
    match Regex.exec rx_import line with
    | Some importMatch =>
        Some (Ok (with_result (push_import (Regex.grp importMatch 1)) st, i))
    | None => Some (Ok (st, i))
    end
  else if Str.startsWith line "@protocol" then
    match parseProtocols line lines i with
    | Ok (Some protocol) =>
        Some (Ok (with_result (push_protocol protocol) st, protocol_endLine protocol))
    | Ok None => Some (Ok (st, i))
    | Throw e => Some (Throw e)
    end
  else if (Str.includes line "@interface" && Str.includes line "("
           && Str.includes line ")")%bool then
    match parseCategory line lines i with
    | Some (Ok (Some category)) =>
        Some (Ok (with_result (push_category category) st, category_endLine category))
    | Some (Ok None) => Some (Ok (st, i))
    | Some (Throw e) => Some (Throw e)
    | None => None
    end
  else if Str.startsWith line "@interface" then
    match Regex.exec rx_interface line with
    | Some interfaceMatch => Some (Ok (open_class (new_interface interfaceMatch) st, i))
    | None => Some (Ok (st, i))
    end
  else if Str.startsWith line "@implementation" then
    match Regex.exec rx_implementation line with
    | Some implMatch =>
        match find_class (Regex.grp implMatch 1) (classes (result st)) 0 with
        | Some id =>
            Some (Ok (update_class id implemented
                        (mkState (result st) (Some id) (braceDepth st)), i))
        | None =>
            Some (Ok (open_class
                        (mkClass (Regex.grp implMatch 1) (Some "NSObject") [] [] []
                           false)
                        st, i))
        end
    | None => Some (Ok (st, i))
    end
  else if String.eqb line "@end"
  then Some (Ok (mkState (result st) None (braceDepth st), i))
  else if Str.startsWith line "@property" then
    match Regex.exec rx_property line, currentClass st with
    | Some propMatch, Some id =>
        Some (let! type := deref (Regex.grp propMatch 2) "trim" in
              Ok (update_class id
                    (class_push_property
                       (mkProperty (or_default (Regex.grp propMatch 1) "")
                          (Str.trim type) (Regex.grp propMatch 3)))
                    st, i))
    | _, _ => Some (Ok (st, i))
    end
  else if Str.startsWith line "@synthesize" then Some (Ok (st, i))
  else if Regex.test rx_method_line line then
    Some (let! method := parseMethod line lines i in
          match method with
          | Some method =>
              Ok (match currentClass st with
                  | Some id => update_class id (class_push_method method) st
                  | None => with_result (push_method method) st
                  end,
                  or_index (endLine method) i)
          | None => Ok (st, i)
          end)
  else if Str.includes line "^" then
    match Regex.exec rx_block line with
    | Some blockMatch =>
        Some (let! parameters := deref (Regex.grp blockMatch 2) "trim" in
              Ok (with_result
                    (push_block (mkBlock (Regex.grp blockMatch 1)
                                   (Str.trim parameters) i))
                    st, i))
    | None => Some (Ok (st, i))
    end
  else if Regex.test rx_function_line line then
    Some (let! func := parseFunction in Ok (st, i))
  else Some (Ok (track line st, i)).

(** The loop of [parseObjectiveC] from the index [i] on, for at most
    [fuel] iterations. *)
Fixpoint loop (fuel : nat) (lines : list string) (i : nat) (st : State)
  : option (Result State) :=
  match nth_error lines i with
  | None => Some (Ok st)
  | Some line =>
      match fuel with
      | O => None
      | S fuel' =>
          match step lines i line st with
          | Some (Ok (st', i')) => loop fuel' lines (S i') st'
          | Some (Throw e) => Some (Throw e)
          | None => None
          end
      end
  end.

(** [code.split('\n').map(line => line.trim()).filter(line => line)] *)
Definition lines_of (code : string) : list string :=
  List.filter (fun line => negb (String.eqb line ""))
    (map Str.trim (Str.split code Str.nl)).

Definition empty : State :=
  mkState (mkParsed [] [] [] [] [] [] [] [] []) None 0.

(** [parseObjectiveC(code, options)]: the loop runs for at most as many
    iterations as there are lines. *)
Definition parseObjectiveC (code : string) : option (Result Parsed) :=
  let lines := lines_of code in
  match loop (List.length lines) lines 0 empty with
  | Some (Ok st) => Some (Ok (result st))
  | Some (Throw e) => Some (Throw e)
  | None => None
  end.

(** [s.toUpperCase()] and [s.toLowerCase()] on the characters below
    128, where the letters [a] to [z] and [A] to [Z] are the only ones
    that change. *)
Definition upper_char (c : ascii) : ascii :=
  if Str.between 97 122 c then ascii_of_N (Str.code c - 32) else c.
Definition lower_char (c : ascii) : ascii :=
  if Str.between 65 90 c then ascii_of_N (Str.code c + 32) else c.

Fixpoint toUpperCase (s : string) : string :=
  match s with
  | "" => ""
  | String c r => String (upper_char c) (toUpperCase r)
  end.

Fixpoint toLowerCase (s : string) : string :=
  match s with
  | "" => ""
  | String c r => String (lower_char c) (toLowerCase r)
  end.

Definition rx_camel : Regex.RegExp := Eval vm_compute in
  Regex.parse "(?:^|_)([a-z])" "g".

(** [toCamelCase(str)]; the callback reads [letter], the capture of
    [[a-z]], and [index]. *)
Definition toCamelCase (str : string) : Result string :=
  replace_try rx_camel
    (fun mr =>
       if Nat.eqb (Regex.index mr) 0
       then let! letter := deref (Regex.grp mr 1) "toLowerCase" in
            Ok (toLowerCase letter)
       else let! letter := deref (Regex.grp mr 1) "toUpperCase" in
            Ok (toUpperCase letter))
    str.

(** [indentCode(code, spaces)] for a count of spaces that is a natural
    number; an empty line is left empty. *)
Definition indentCode (code : string) (spaces : nat) : string :=
  let indent := Str.repeat " " spaces in
  Str.join Str.nl
    (map (fun line => if String.eqb line "" then line else indent ++ line)
       (Str.split code Str.nl)).

End ObjectiveCConverter.
(** * Properties *)

(** ** Facts about strings *)

Module StrFacts.

Lemma append_cons (c : ascii) (a b : string) :
  String c a ++ b = String c (a ++ b).
Proof. reflexivity. Qed.

Lemma length_append (a b : string) :
  String.length (a ++ b) = (String.length a + String.length b)%nat.
Proof. induction a as [|c a IH]; simpl; [reflexivity | now rewrite IH]. Qed.

Lemma len_append (a b : string) : Str.len (a ++ b) = (Str.len a + Str.len b)%Z.
Proof. unfold Str.len. rewrite length_append. lia. Qed.

Lemma len_nonneg (s : string) : (0 <= Str.len s)%Z.
Proof. unfold Str.len. lia. Qed.

Lemma length_take (n : nat) (s : string) :
  String.length (Str.take n s) = Nat.min n (String.length s).
Proof.
  revert s. induction n as [|n IH]; intros [|c s]; simpl; try reflexivity.
  now rewrite IH.
Qed.

Lemma length_drop (n : nat) (s : string) :
  String.length (Str.drop n s) = (String.length s - n)%nat.
Proof.
  revert s. induction n as [|n IH]; intros [|c s]; simpl; try reflexivity.
  apply IH.
Qed.

Lemma take_drop (n : nat) (s : string) : Str.take n s ++ Str.drop n s = s.
Proof.
  revert s. induction n as [|n IH]; intros [|c s]; simpl; try reflexivity.
  rewrite append_cons. f_equal. apply IH.
Qed.

Lemma append_assoc (a b c : string) : (a ++ b) ++ c = a ++ (b ++ c).
Proof.
  induction a as [|x a IH]; [reflexivity|].
  rewrite !append_cons. now rewrite IH.
Qed.

Lemma append_nil_r (a : string) : a ++ "" = a.
Proof.
  induction a as [|x a IH]; [reflexivity|].
  rewrite append_cons. now rewrite IH.
Qed.

(** [substring(0, k)] of a string at least [k] long has length [k]. *)
Lemma len_substring_prefix (s : string) (k : Z) :
  (0 <= k <= Str.len s)%Z -> Str.len (Str.substring s 0 k) = k.
Proof.
  intros Hk. unfold Str.substring, Str.clamp, Str.len in *.
  rewrite length_take, length_drop. lia.
Qed.

Lemma starts_append (p s : string) : Str.starts p (p ++ s) = true.
Proof.
  induction p as [|c p IH]; simpl; [reflexivity|].
  now rewrite Ascii.eqb_refl.
Qed.

Lemma starts_inv (p s : string) :
  Str.starts p s = true -> exists r, s = p ++ r.
Proof.
  revert s. induction p as [|c p IH]; intros s H; simpl in *.
  - now exists s.
  - destruct s as [|d s]; [discriminate|].
    destruct (Ascii.eqb_spec c d) as [->|]; [|discriminate].
    destruct (IH _ H) as [r ->]. now exists r.
Qed.

Lemma includes_intro (a p s : string) : Str.includes (a ++ p ++ s) p = true.
Proof.
  induction a as [|c a IH].
  - simpl. destruct (p ++ s) eqn:E; simpl.
    + destruct p; [reflexivity | discriminate].
    + rewrite <- E. now rewrite starts_append.
  - simpl. destruct (Str.starts p (String c (a ++ p ++ s))); [reflexivity | exact IH].
Qed.

Lemma includes_inv (s p : string) :
  Str.includes s p = true -> exists a b, s = a ++ p ++ b.
Proof.
  induction s as [|c s IH]; simpl; intros H.
  - destruct (Str.starts p "") eqn:E; [|discriminate].
    destruct (starts_inv _ _ E) as [r Hr]. exists "", r. exact Hr.
  - destruct (Str.starts p (String c s)) eqn:E.
    + destruct (starts_inv _ _ E) as [r Hr]. exists "", r. exact Hr.
    + destruct (IH H) as (a & b & ->). now exists (String c a), b.
Qed.

End StrFacts.

(** ** Facts about property lookup *)

Module JSFacts.

Lemma assoc_not_in {A : Type} (key : string) (obj : list (string * A)) :
  ~ In key (JS.keys obj) -> JS.assoc key obj = None.
Proof.
  induction obj as [|[k v] obj IH]; intros H; [reflexivity|].
  cbn [JS.assoc]. destruct (String.eqb_spec k key) as [->|_].
  - exfalso. apply H. now left.
  - apply IH. intros Hin. apply H. now right.
Qed.

Lemma assoc_in {A : Type} (key : string) (obj : list (string * A)) :
  In key (JS.keys obj) -> exists v, JS.assoc key obj = Some v.
Proof.
  induction obj as [|[k v] obj IH]; intros H; [destruct H|].
  cbn [JS.assoc]. destruct (String.eqb_spec k key) as [->|Hne].
  - now exists v.
  - destruct H as [H | H]; [contradiction|]. now apply IH.
Qed.

End JSFacts.

(** ** Facts about the matcher *)

Module RegexFacts.
Import Regex.

Lemma orelse_some (a : option mst) (b : unit -> option mst) (res : mst) :
  orelse a b = Some res -> a = Some res \/ (a = None /\ b tt = Some res).
Proof. destruct a; simpl; intros H; [left | right]; auto. Qed.

(** What the continuation of a successful match was called on: either
    the input is where it was and [r] is nullable, or the next character
    is one [r] can begin with. *)
Definition begins (r : regex) (st st' : mst) : Prop :=
  (m_rest st' = m_rest st /\ nullable r = true)
  \/ (exists c, next_char st = Some c /\ first r c = true).

Lemma step_char_first (p : ascii -> bool) (k : cont) (st res : mst) :
  step_char p k st = Some res ->
  exists st', k st' = Some res /\ exists c, next_char st = Some c /\ p c = true.
Proof.
  unfold step_char, next_char. destruct (m_rest st) as [|c r]; [discriminate|].
  destruct (p c) eqn:E; [|discriminate].
  intros H. eexists. split; [exact H|]. now exists c.
Qed.

Section Star.
Variable body : cont -> cont.
Variable r1 : regex.
Hypothesis body_next : forall k st res,
  body k st = Some res ->
  exists st', k st' = Some res /\ begins r1 st st'.

Lemma star_loop_first (g : bool) (k : cont) (fuel : string) :
  forall st res,
    star_loop body g k fuel st = Some res ->
    exists st', k st' = Some res
      /\ (m_rest st' = m_rest st
          \/ exists c, next_char st = Some c /\ first r1 c = true).
Proof.
  induction fuel as [|x fuel IH]; intros st res H; simpl in H.
  - exists st. auto.
  - assert (Hiter : forall res',
      body (fun st' => if Nat.eqb (m_pos st') (m_pos st) then None
                       else star_loop body g k fuel st') st = Some res' ->
      exists st', k st' = Some res'
        /\ (m_rest st' = m_rest st
            \/ exists c, next_char st = Some c /\ first r1 c = true)).
    { intros res' Hb. apply body_next in Hb. destruct Hb as (st1 & Hk & Hb).
      destruct (Nat.eqb (m_pos st1) (m_pos st)); [discriminate|].
      apply IH in Hk. destruct Hk as (st' & Hk & Hs).
      exists st'. split; [exact Hk|].
      destruct Hb as [[Hr _] | Hc]; [|now right].
      destruct Hs as [Hs | (c & Hn & Hf)].
      - left. congruence.
      - right. exists c. split; [|exact Hf].
        unfold next_char in *. now rewrite <- Hr. }
    destruct g.
    + apply orelse_some in H. destruct H as [H | [_ H]].
      * now apply Hiter.
      * exists st. auto.
    + apply orelse_some in H. destruct H as [H | [_ H]].
      * exists st. auto.
      * now apply Hiter.
Qed.
End Star.

Lemma next_char_reset (gs : list nat) (st : mst) :
  next_char (reset gs st) = next_char st.
Proof. reflexivity. Qed.

Lemma m_first (ml : bool) (r : regex) :
  forall k st res,
    m ml r k st = Some res ->
    exists st', k st' = Some res /\ begins r st st'.
Proof.
  unfold begins.
  induction r as [ | c | | neg items | neg | | | r1 IH1 r2 IH2 | r1 IH1 r2 IH2
                 | g r1 IH1 | g r1 IH1 | g r1 IH1 | n r1 IH1 | n | neg r1 IH1 ];
    intros k st res H; simpl in H.
  - exists st. auto.
  - apply step_char_first in H. destruct H as (st' & Hk & c' & Hn & Hp).
    exists st'. split; [exact Hk|]. right. now exists c'.
  - apply step_char_first in H. destruct H as (st' & Hk & c' & Hn & Hp).
    exists st'. split; [exact Hk|]. right. now exists c'.
  - apply step_char_first in H. destruct H as (st' & Hk & c' & Hn & Hp).
    exists st'. split; [exact Hk|]. right. now exists c'.
  - destruct (xorb neg (at_word_boundary st)); [|discriminate]. exists st. auto.
  - destruct (at_bol ml st); [|discriminate]. exists st. auto.
  - destruct (at_eol ml st); [|discriminate]. exists st. auto.
  - apply IH1 in H. destruct H as (st1 & H & B1).
    apply IH2 in H. destruct H as (st' & Hk & B2).
    exists st'. split; [exact Hk|]. simpl.
    destruct B1 as [[R1 N1] | (c & Hn & Hf)].
    + destruct B2 as [[R2 N2] | (c & Hn & Hf)].
      * left. split; [congruence|]. now rewrite N1, N2.
      * right. exists c. split.
        -- unfold next_char in *. now rewrite <- R1.
        -- rewrite N1, Hf. simpl. apply orb_true_r.
    + right. exists c. split; [exact Hn|]. now rewrite Hf.
  - apply orelse_some in H. destruct H as [H | [_ H]].
    + apply IH1 in H. destruct H as (st' & Hk & B). exists st'. split; [exact Hk|].
      simpl. destruct B as [[R N] | (c & Hn & Hf)].
      * left. split; [exact R|]. now rewrite N.
      * right. exists c. split; [exact Hn|]. now rewrite Hf.
    + apply IH2 in H. destruct H as (st' & Hk & B). exists st'. split; [exact Hk|].
      simpl. destruct B as [[R N] | (c & Hn & Hf)].
      * left. split; [exact R|]. rewrite N. apply orb_true_r.
      * right. exists c. split; [exact Hn|]. rewrite Hf. apply orb_true_r.
  - apply (star_loop_first _ r1) in H.
    + destruct H as (st' & Hk & B). exists st'. split; [exact Hk|].
      destruct B as [R | B]; [left | right]; auto.
    + intros k' st0 res0 Hb. apply IH1 in Hb. destruct Hb as (st' & Hk & B).
      exists st'. split; [exact Hk|]. exact B.
  - apply IH1 in H. destruct H as (st1 & H & B1).
    apply (star_loop_first _ r1) in H.
    + destruct H as (st' & Hk & B). exists st'. split; [exact Hk|]. simpl.
      destruct B1 as [[R1 N1] | B1]; [|right; exact B1].
      destruct B as [R | (c & Hn & Hf)].
      * left. split; [|exact N1]. rewrite R. exact R1.
      * right. exists c. split; [|exact Hf].
        unfold next_char in *. simpl in R1. now rewrite <- R1.
    + intros k' st0 res0 Hb. apply IH1 in Hb. destruct Hb as (st' & Hk & B).
      exists st'. split; [exact Hk|]. exact B.
  - assert (Hone : forall res',
      m ml r1 (fun st' => if Nat.eqb (m_pos st') (m_pos st) then None else k st')
        (reset (groups r1) st) = Some res' ->
      exists st', k st' = Some res'
        /\ (m_rest st' = m_rest st /\ true = true
            \/ exists c, next_char st = Some c /\ first r1 c = true)).
    { intros res' Hb. apply IH1 in Hb. destruct Hb as (st' & Hk & B).
      destruct (Nat.eqb (m_pos st') (m_pos st)); [discriminate|].
      exists st'. split; [exact Hk|].
      destruct B as [[R N] | B]; [left | right]; auto. }
    destruct g; apply orelse_some in H; destruct H as [H | [_ H]];
      try (now apply Hone); exists st; auto.
  - apply IH1 in H. destruct H as (st1 & H & B).
    eexists. split; [exact H|]. simpl. exact B.
  - destruct (get_cap n (m_caps st)) as [v|].
    + destruct (Str.starts v (m_rest st)) eqn:E; [|discriminate].
      destruct v as [|c v].
      * eexists. split; [exact H|]. left. simpl. auto.
      * eexists. split; [exact H|]. right.
        unfold next_char. destruct (m_rest st) as [|d rest]; [discriminate|].
        exists d. auto.
    + exists st. auto.
  - destruct (m ml r1 accept st) as [st1|]; destruct neg; try discriminate.
    + eexists. split; [exact H|]. left. simpl. auto.
    + exists st. auto.
Qed.

(** An expression that is not nullable does not match where the next
    character is one it cannot begin with, nor at the end of the
    input. *)
Lemma match_here_none (rx : RegExp) (prev : option ascii) (s : string) :
  nullable (ast rx) = false ->
  match s with
  | String c _ => first (ast rx) c = false
  | "" => True
  end ->
  match_here rx prev s = None.
Proof.
  intros Hn Hf. unfold match_here.
  destruct (m (multiline rx) (ast rx) accept (MSt prev s 0 [])) as [res|] eqn:E;
    [|reflexivity].
  apply m_first in E. destruct E as (st' & _ & [[_ N] | (c & Hc & F)]).
  - congruence.
  - unfold next_char in Hc. simpl in Hc. destruct s; [discriminate|].
    injection Hc as ->. congruence.
Qed.

End RegexFacts.

(** ** Where a match is found, and what it begins with *)

Module SearchFacts.
Import Regex.

(** The literal text that every match of [r] begins with, assertions
    apart. *)
Fixpoint literal_prefix (r : regex) : string :=
  match r with
  | Chr c => String c ""
  | Seq (Chr c) b => String c (literal_prefix b)
  | Seq (WordB _) b | Seq Bol b | Seq Eps b => literal_prefix b
  | Group _ a => literal_prefix a
  | _ => ""
  end.

Lemma m_literal_prefix (ml : bool) (r : regex) :
  forall k st res,
    m ml r k st = Some res -> Str.starts (literal_prefix r) (m_rest st) = true.
Proof.
  induction r as [ | c | | neg items | neg | | | r1 IH1 r2 IH2 | r1 IH1 r2 IH2
                 | g r1 IH1 | g r1 IH1 | g r1 IH1 | n r1 IH1 | n | neg r1 IH1 ];
    intros k st res H; try reflexivity.
  - simpl in H. unfold step_char in H.
    destruct (m_rest st) as [|d rest]; [discriminate|].
    destruct (Ascii.eqb_spec c d) as [->|]; [|discriminate].
    simpl. now rewrite Ascii.eqb_refl.
  - destruct r1; try reflexivity; simpl in H.
    + exact (IH2 _ _ _ H).
    + unfold step_char in H.
      destruct (m_rest st) as [|d rest]; [discriminate|].
      destruct (Ascii.eqb_spec c d) as [->|]; [|discriminate].
      simpl. rewrite Ascii.eqb_refl. exact (IH2 _ _ _ H).
    + destruct (xorb neg (at_word_boundary st)); [|discriminate].
      exact (IH2 _ _ _ H).
    + destruct (at_bol ml st); [|discriminate]. exact (IH2 _ _ _ H).
  - simpl in H. exact (IH1 _ _ _ H).
Qed.

Lemma match_here_literal_prefix (rx : RegExp) (prev : option ascii) (s : string)
  (x : nat * captures) :
  match_here rx prev s = Some x -> Str.starts (literal_prefix (ast rx)) s = true.
Proof.
  unfold match_here.
  destruct (m (multiline rx) (ast rx) accept (MSt prev s 0 [])) eqn:E; [|discriminate].
  intros _. exact (m_literal_prefix _ _ _ _ _ E).
Qed.

(** A match that [search] finds begins somewhere in the input. *)
Lemma search_found (rx : RegExp) (s : string) :
  forall prev i mr,
    search rx prev s i = Some mr ->
    exists a b prev' x, s = a ++ b /\ match_here rx prev' b = Some x.
Proof.
  induction s as [|c s IH]; intros prev i mr H; simpl in H.
  - destruct (match_here rx prev "") as [[n cs]|] eqn:E; [|discriminate].
    exists "", "", prev, (n, cs). auto.
  - destruct (match_here rx prev (String c s)) as [[n cs]|] eqn:E.
    + exists "", (String c s), prev, (n, cs). auto.
    + destruct (IH _ _ _ H) as (a & b & prev' & x & -> & Hm).
      exists (String c a), b, prev', x. auto.
Qed.

(** Where [rx.test(s)] holds, [s] includes the literal text that [rx]
    begins with. *)
Lemma test_includes (rx : RegExp) (s : string) :
  test rx s = true -> Str.includes s (literal_prefix (ast rx)) = true.
Proof.
  unfold test, exec. destruct (search rx None s 0) as [mr|] eqn:E; [|discriminate].
  intros _. destruct (search_found _ _ _ _ _ E) as (a & b & prev' & x & -> & Hm).
  apply match_here_literal_prefix in Hm.
  destruct (StrFacts.starts_inv _ _ Hm) as [r ->].
  apply StrFacts.includes_intro.
Qed.

End SearchFacts.

(** ** Replacement where nothing matches *)

Module ReplaceFacts.
Import Regex.

(** Every character of [s] satisfies [p]. *)
Fixpoint all (p : ascii -> bool) (s : string) : bool :=
  match s with
  | "" => true
  | String c r => (p c && all p r)%bool
  end.

(** The expression [rx] cannot match at a character of the kind [p]. *)
Definition silent_on (p : ascii -> bool) (rx : RegExp) : Prop :=
  nullable (ast rx) = false /\ forall c, p c = true -> first (ast rx) c = false.

Lemma all_append (p : ascii -> bool) (a b : string) :
  all p (a ++ b) = (all p a && all p b)%bool.
Proof.
  induction a as [|c a IH]; [reflexivity|].
  rewrite StrFacts.append_cons. simpl. rewrite IH. now rewrite andb_assoc.
Qed.

Fixpoint chars {A : Type} (lit : ascii -> A) (s : string) : list A :=
  match s with
  | "" => []
  | String c r => lit c :: chars lit r
  end.

(** The character before the position that follows [a]. *)
Fixpoint before_end (a : string) (prev : option ascii) : option ascii :=
  match a with
  | "" => prev
  | String c r => before_end r (Some c)
  end.

(** A stretch of the input on which [rx] is silent is scanned character
    by character; the scan goes on behind it. *)
Lemma scan_silent {A : Type} (p : ascii -> bool) (rx : RegExp)
  (hit : MatchResult -> A) (lit : ascii -> A) :
  silent_on p rx ->
  forall a b prev i,
    all p a = true ->
    scan rx hit lit prev (a ++ b) i 0
    = (chars lit a
       ++ scan rx hit lit (before_end a prev) b (String.length a + i) 0)%list.
Proof.
  intros [Hn Hf]. induction a as [|c a IH]; intros b prev i Ha.
  - reflexivity.
  - simpl in Ha. apply andb_prop in Ha. destruct Ha as [Hc Ha].
    rewrite StrFacts.append_cons. simpl scan.
    rewrite (RegexFacts.match_here_none rx prev (String c (a ++ b)) Hn (Hf c Hc)).
    rewrite (IH b (Some c) (S i) Ha). simpl.
    now replace (String.length a + S i)%nat with (S (String.length a + i))%nat by lia.
Qed.

Lemma scan_end_silent {A : Type} (rx : RegExp) (hit : MatchResult -> A)
  (lit : ascii -> A) (prev : option ascii) (i : nat) :
  nullable (ast rx) = false -> scan rx hit lit prev "" i 0 = [].
Proof.
  intros Hn. simpl. now rewrite (RegexFacts.match_here_none rx prev "" Hn I).
Qed.

Lemma concat_chars (s : string) :
  Str.concat (chars (fun c => String c "") s) = s.
Proof. induction s as [|c s IH]; simpl; [reflexivity | now rewrite IH]. Qed.

Lemma concat_app (a b : list string) :
  Str.concat (a ++ b) = Str.concat a ++ Str.concat b.
Proof.
  induction a as [|x a IH]; simpl; [reflexivity|].
  now rewrite IH, StrFacts.append_assoc.
Qed.

(** A global replacement leaves a string on which the expression is
    silent as it is. *)
Lemma replace_global_silent (p : ascii -> bool) (rx : RegExp) (f : replacer)
  (s : string) :
  silent_on p rx -> all p s = true -> replace_global rx f s = s.
Proof.
  intros Hs Ha. unfold replace_global.
  rewrite <- (StrFacts.append_nil_r s) at 1.
  rewrite (scan_silent p rx _ _ Hs s "" None 0 Ha).
  rewrite scan_end_silent by apply Hs.
  rewrite app_nil_r. apply concat_chars.
Qed.

Lemma replace_silent (p : ascii -> bool) (rx : RegExp) (t s : string) :
  global rx = true -> silent_on p rx -> all p s = true -> replace rx t s = s.
Proof.
  intros Hg Hs Ha. unfold replace, replace_fn. rewrite Hg.
  now apply (replace_global_silent p).
Qed.




End ReplaceFacts.

(** ** The captures of a match *)

Module CaptureFacts.
Import Regex RegexFacts.

Lemma get_cap_clear (n : nat) (gs : list nat) (cs : captures) :
  ~ In n gs -> get_cap n (clear_caps gs cs) = get_cap n cs.
Proof.
  intros Hn. destruct gs as [|g gs]; [reflexivity|].
  unfold clear_caps. set (l := g :: gs) in *. clearbody l.
  induction cs as [|[i v] cs IH]; [reflexivity|].
  cbn [List.filter fst get_cap].
  destruct (existsb (Nat.eqb i) l) eqn:E; cbn [negb].
  - apply existsb_exists in E as (x & Hx & E). apply Nat.eqb_eq in E. subst x.
    destruct (Nat.eqb_spec i n) as [->|_]; [contradiction | exact IH].
  - cbn [get_cap]. now rewrite IH.
Qed.

(** The groups that are set in every match are groups of the
    expression. *)
Lemma definite_groups (r : regex) (n : nat) :
  In n (definite r) -> In n (groups r).
Proof.
  induction r; cbn [definite groups]; intros H; try destruct H; auto.
  - apply in_app_iff in H. apply in_app_iff. tauto.
  - subst. now left.
  - right. auto.
Qed.

Lemma distinct_app (a b : list nat) :
  distinct (a ++ b) = true ->
  distinct a = true /\ distinct b = true
  /\ forall n, In n a -> ~ In n b.
Proof.
  induction a as [|x a IH]; cbn [distinct app]; intros H.
  - repeat split; auto.
  - apply andb_true_iff in H as [Hx H]. apply IH in H as (Ha & Hb & Hd).
    apply negb_true_iff in Hx.
    assert (Hnot : forall y, In y (a ++ b) -> x <> y).
    { intros y Hy ->. apply not_true_iff_false in Hx. apply Hx.
      apply existsb_exists. exists y. split; [exact Hy | apply Nat.eqb_refl]. }
    split; [|split; [exact Hb|]].
    + rewrite Ha, andb_true_r. apply negb_true_iff. apply not_true_is_false.
      intros E. apply existsb_exists in E as (y & Hy & E).
      apply Nat.eqb_eq in E. apply (Hnot y); [apply in_app_iff; now left | exact E].
    + intros n [<- | Hn] Hb'.
      * apply (Hnot x); [apply in_app_iff; now right | reflexivity].
      * now apply (Hd n).
Qed.

(** What a match does to the captures: the groups of [definite r] are
    set, and the groups outside [r] are left as they were. *)
Definition defined (r : regex) (st : mst) : Prop :=
  forall n, In n (definite r) -> get_cap n (m_caps st) <> None.

Definition framed (r : regex) (st st' : mst) : Prop :=
  forall n, ~ In n (groups r) -> get_cap n (m_caps st') = get_cap n (m_caps st).

Lemma framed_refl (r : regex) (st : mst) : framed r st st.
Proof. intros n _. reflexivity. Qed.

Lemma framed_reset (r : regex) (st : mst) : framed r st (reset (groups r) st).
Proof. intros n Hn. apply get_cap_clear, Hn. Qed.

Lemma step_char_caps (p : ascii -> bool) (k : cont) (st res : mst) :
  step_char p k st = Some res ->
  exists st', k st' = Some res /\ m_caps st' = m_caps st.
Proof.
  unfold step_char. destruct (m_rest st) as [|c r]; [discriminate|].
  destruct (p c); [|discriminate].
  intros H. eexists. split; [exact H | reflexivity].
Qed.

Section Star.
Variable body : cont -> cont.
Variable r1 : regex.
Hypothesis body_sets : forall k st res,
  body k st = Some res ->
  exists st', k st' = Some res /\ defined r1 st' /\ framed r1 st st'.

Lemma star_loop_sets (g : bool) (k : cont) (fuel : string) :
  forall st res,
    star_loop body g k fuel st = Some res ->
    exists st', k st' = Some res /\ framed r1 st st'
                /\ (defined r1 st -> defined r1 st').
Proof.
  induction fuel as [|x fuel IH]; intros st res H; simpl in H.
  - exists st. split; [exact H|]. split; [apply framed_refl | auto].
  - assert (Hiter : forall res',
      body (fun st' => if Nat.eqb (m_pos st') (m_pos st) then None
                       else star_loop body g k fuel st') st = Some res' ->
      exists st', k st' = Some res' /\ framed r1 st st'
                  /\ (defined r1 st -> defined r1 st')).
    { intros res' Hb. apply body_sets in Hb as (st1 & Hk & D1 & F1).
      destruct (Nat.eqb (m_pos st1) (m_pos st)); [discriminate|].
      apply IH in Hk as (st' & Hk & F & D).
      exists st'. split; [exact Hk|]. split.
      - intros n Hn. rewrite (F n Hn). apply F1, Hn.
      - intros _. apply D, D1. }
    destruct g; apply orelse_some in H; destruct H as [H | [_ H]];
      try (now apply Hiter);
      exists st; (split; [exact H|]); (split; [apply framed_refl | auto]).
Qed.
End Star.

Lemma get_cap_cons (n i : nat) (v : string) (cs : captures) :
  get_cap n ((i, v) :: cs) = if Nat.eqb i n then Some v else get_cap n cs.
Proof. reflexivity. Qed.

Lemma m_sets (ml : bool) (r : regex) :
  distinct (groups r) = true ->
  forall k st res,
    m ml r k st = Some res ->
    exists st', k st' = Some res /\ defined r st' /\ framed r st st'.
Proof.
  induction r as [ | c | | neg items | neg | | | r1 IH1 r2 IH2 | r1 IH1 r2 IH2
                 | g r1 IH1 | g r1 IH1 | g r1 IH1 | n r1 IH1 | n | neg r1 IH1 ];
    intros Hd k st res H; cbn [m] in H; cbn [groups] in Hd.
  - exists st. split; [exact H|]. split; [intros n [] | apply framed_refl].
  - apply step_char_caps in H as (st' & Hk & Hc). exists st'.
    split; [exact Hk|]. split; [intros n [] | intros n _; now rewrite Hc].
  - apply step_char_caps in H as (st' & Hk & Hc). exists st'.
    split; [exact Hk|]. split; [intros n [] | intros n _; now rewrite Hc].
  - apply step_char_caps in H as (st' & Hk & Hc). exists st'.
    split; [exact Hk|]. split; [intros n [] | intros n _; now rewrite Hc].
  - destruct (xorb neg (at_word_boundary st)); [|discriminate].
    exists st. split; [exact H|]. split; [intros n [] | apply framed_refl].
  - destruct (at_bol ml st); [|discriminate].
    exists st. split; [exact H|]. split; [intros n [] | apply framed_refl].
  - destruct (at_eol ml st); [|discriminate].
    exists st. split; [exact H|]. split; [intros n [] | apply framed_refl].
  - apply distinct_app in Hd as (Hd1 & Hd2 & Hdis).
    apply (IH1 Hd1) in H as (st1 & H & D1 & F1).
    apply (IH2 Hd2) in H as (st2 & Hk & D2 & F2).
    exists st2. split; [exact Hk|]. split.
    + intros n Hn. cbn [definite] in Hn. apply in_app_iff in Hn as [Hn | Hn].
      * rewrite (F2 n); [now apply D1|].
        apply Hdis. now apply definite_groups.
      * now apply D2.
    + intros n Hn. cbn [groups] in Hn. rewrite in_app_iff in Hn.
      rewrite (F2 n) by tauto. apply F1. tauto.
  - apply distinct_app in Hd as (Hd1 & Hd2 & Hdis).
    apply orelse_some in H as [H | [_ H]].
    + apply (IH1 Hd1) in H as (st' & Hk & _ & F). exists st'.
      split; [exact Hk|]. split; [intros n []|].
      intros n Hn. cbn [groups] in Hn. rewrite in_app_iff in Hn. apply F. tauto.
    + apply (IH2 Hd2) in H as (st' & Hk & _ & F). exists st'.
      split; [exact Hk|]. split; [intros n []|].
      intros n Hn. cbn [groups] in Hn. rewrite in_app_iff in Hn. apply F. tauto.
  - apply (star_loop_sets _ r1) in H.
    + destruct H as (st' & Hk & F & _). exists st'.
      split; [exact Hk|]. split; [intros n [] | exact F].
    + intros k' st0 res0 Hb. apply (IH1 Hd) in Hb as (st' & Hk & D & F).
      exists st'. split; [exact Hk|]. split; [exact D|].
      intros n Hn. rewrite (F n Hn). now apply framed_reset.
  - apply (IH1 Hd) in H as (st1 & H & D1 & F1).
    apply (star_loop_sets _ r1) in H.
    + destruct H as (st' & Hk & F & D). exists st'.
      split; [exact Hk|]. split; [exact (D D1)|].
      intros n Hn. rewrite (F n Hn), (F1 n Hn). now apply framed_reset.
    + intros k' st0 res0 Hb. apply (IH1 Hd) in Hb as (st' & Hk & D & F).
      exists st'. split; [exact Hk|]. split; [exact D|].
      intros n Hn. rewrite (F n Hn). now apply framed_reset.
  - assert (Hone : forall res',
      m ml r1 (fun st' => if Nat.eqb (m_pos st') (m_pos st) then None else k st')
        (reset (groups r1) st) = Some res' ->
      exists st', k st' = Some res' /\ defined (Opt g r1) st'
                  /\ framed (Opt g r1) st st').
    { intros res' Hb. apply (IH1 Hd) in Hb as (st' & Hk & _ & F).
      destruct (Nat.eqb (m_pos st') (m_pos st)); [discriminate|].
      exists st'. split; [exact Hk|]. split; [intros n []|].
      intros n Hn. rewrite (F n Hn). now apply framed_reset. }
    destruct g; apply orelse_some in H; destruct H as [H | [_ H]];
      try (now apply Hone);
      exists st; (split; [exact H|]); (split; [intros n [] | apply framed_refl]).
  - cbn [distinct] in Hd. apply andb_true_iff in Hd as [_ Hd].
    apply (IH1 Hd) in H as (st1 & H & D1 & F1).
    eexists. split; [exact H|]. split.
    + intros j Hj. cbn [m_caps with_caps]. rewrite get_cap_cons.
      destruct (Nat.eqb_spec n j) as [_ | Hne]; [discriminate|].
      destruct Hj as [Hj | Hj]; [contradiction|]. now apply D1.
    + intros j Hj. cbn [groups] in Hj. cbn [m_caps with_caps].
      rewrite get_cap_cons.
      destruct (Nat.eqb_spec n j) as [-> | Hne]; [exfalso; apply Hj; now left|].
      apply F1. intros Hin. apply Hj. now right.
  - destruct (get_cap n (m_caps st)) as [v|].
    + destruct (Str.starts v (m_rest st)); [|discriminate].
      eexists. split; [exact H|]. split; [intros j [] | intros j _; reflexivity].
    + exists st. split; [exact H|]. split; [intros j [] | apply framed_refl].
  - destruct (m ml r1 accept st) as [st1|] eqn:E; destruct neg; try discriminate.
    + apply (IH1 Hd) in E as (st' & Ha & _ & F). injection Ha as ->.
      eexists. split; [exact H|]. split; [intros j [] | exact F].
    + exists st. split; [exact H|]. split; [intros j [] | apply framed_refl].
Qed.

(** A group of [definite] is defined in the result of [exec]. *)
Lemma match_here_definite (rx : RegExp) (prev : option ascii) (s : string)
  (n : nat) (cs : captures) (j : nat) :
  distinct (groups (ast rx)) = true ->
  In j (definite (ast rx)) ->
  match_here rx prev s = Some (n, cs) ->
  get_cap j cs <> None.
Proof.
  intros Hd Hj. unfold match_here.
  destruct (m (multiline rx) (ast rx) accept (MSt prev s 0 [])) as [res|] eqn:E;
    [|discriminate].
  intros H. injection H as <- <-.
  apply (m_sets _ _ Hd) in E as (st' & Ha & D & _). injection Ha as ->.
  now apply D.
Qed.

Lemma grp_cap_list (i : nat) (w : string) (ng : nat) (cs : captures) (j : nat) :
  (1 <= j <= ng)%nat ->
  grp (mkMatch i w (cap_list ng cs)) j = get_cap j cs.
Proof.
  intros Hj. unfold grp, cap_list. cbn [caps].
  rewrite (nth_indep _ None (get_cap 0 cs))
    by (rewrite List.length_map, List.length_seq; lia).
  rewrite (map_nth (fun i => get_cap i cs)), seq_nth by lia. f_equal. lia.
Qed.

Lemma search_definite (rx : RegExp) (j : nat) :
  distinct (groups (ast rx)) = true ->
  In j (definite (ast rx)) ->
  (1 <= j <= ngroups rx)%nat ->
  forall s prev i mr,
    search rx prev s i = Some mr -> exists v, grp mr j = Some v.
Proof.
  intros Hd Hj Hn. induction s as [|c s IH]; intros prev i mr; cbn [search];
    destruct (match_here rx prev _) as [[n cs]|] eqn:E; intros H;
    try discriminate H.
  - injection H as <-. rewrite grp_cap_list by exact Hn.
    pose proof (match_here_definite rx prev _ n cs j Hd Hj E).
    destruct (get_cap j cs); [eauto | contradiction].
  - injection H as <-. rewrite grp_cap_list by exact Hn.
    pose proof (match_here_definite rx prev _ n cs j Hd Hj E).
    destruct (get_cap j cs); [eauto | contradiction].
  - now apply IH in H.
Qed.

(** [m[j]] is a string for every group [j] that a match of the
    expression always sets. *)
Lemma exec_definite (rx : RegExp) (j : nat) (s : string) (mr : MatchResult) :
  distinct (groups (ast rx)) = true ->
  In j (definite (ast rx)) ->
  (1 <= j <= ngroups rx)%nat ->
  exec rx s = Some mr -> exists v, grp mr j = Some v.
Proof. intros Hd Hj Hn. apply search_definite; assumption. Qed.

End CaptureFacts.

(** ** JITEngine: the optimization pipeline *)

Module JITEngineProps.
Import JITEngine.










(** C9.  Level O0 enables no pass, and [optimize(code, 'O0')] returns
    the code unchanged, for every code string. *)
Theorem optimize_O0_identity :
  optimizations_of "O0" = Ok []
  /\ forall code : string, optimize code "O0" = Ok code.
Proof. split; [reflexivity | intros code; reflexivity]. Qed.




(** *** The compile boundary *)







Definition quiet_vm : VM.t :=
  VM.mk (fun _ => None) (fun _ _ => VM.Completes VM.Undefined)
    (fun _ _ _ => VM.Returns VM.Undefined).


(** *** Repeated runs *)



(** *** The sandbox boundary *)

Definition hanging_vm : VM.t :=
  VM.mk (fun _ => None) (fun _ _ => VM.TimesOut) (fun _ _ _ => VM.Hangs).




End JITEngineProps.

(** ** IOSTranslator: the platform adapter *)

Module IOSTranslatorProps.
Import IOSTranslator.


(** *** The cache key *)


Lemma cache_key_same_hour (now1 now2 : Z) (optimizedCode : string)
  (options : Options) :
  (now1 / (1000 * 60 * 60) = now2 / (1000 * 60 * 60))%Z ->
  generateCacheKey now1 optimizedCode options
  = generateCacheKey now2 optimizedCode options.
Proof. intros H. unfold generateCacheKey. now rewrite H. Qed.



(** What [translate] computes when the key is not in the cache does not
    depend on the clock or on the cache. *)
Lemma translate_miss (now : Z) (cache : gmap string Translation)
  (jitResult : JITEngine.CompileResult) (options : Options) :
  cache !! generateCacheKey now (JITEngine.optimizedCode jitResult) options = None ->
  fst (translate now cache jitResult options)
  = rethrow "iOS translation failed: "
      (translate_body (JITEngine.optimizedCode jitResult)
         (JITEngine.jitEnabled jitResult) options).
Proof.
  intros Hl. unfold translate. rewrite Hl.
  now destruct (translate_body _ _ _).
Qed.

(** *** The compatibility verdict *)

(** The spec's words: a disallowed identifier remains un-substituted in
    the code when it stands there as a word of its own, which is what
    the substitution of [applyIOSCompatibility] looks for. *)
Definition remains_unsubstituted (api code : string) : bool :=
  Regex.test (rx_api api) code.

Definition size_only : Options := mkOptions None None None (Some true).
Definition plain_jsc : Options := mkOptions (Some "jsc") None (Some false) None.

(** C4, as stated, fails in both directions.  [eval], written with a
    comment inside, passes the substitution and is put together by the
    removal of comments; the verdict does not see it, because the
    polyfills name [__ios_safe_eval].  And [evaluate] is reported as
    [eval], though no disallowed identifier is left. *)
Lemma verdict_differs_from_unsubstituted :
  (exists t,
      translate_body "ev/**/al(1)" true size_only = Ok t
      /\ remains_unsubstituted "eval" (code t) = true
      /\ compatible (canExecute t) = true
      /\ issues (canExecute t) = []
      /\ (confidence (canExecute t) == 1)%Q)
  /\ (exists t,
         translate_body "evaluate(1)" true plain_jsc = Ok t
         /\ forallb (fun api => negb (remains_unsubstituted api (code t)))
              restrictedAPIs = true
         /\ (Str.len (code t) <=? maxCodeSize)%Z = true
         /\ compatible (canExecute t) = false
         /\ issues (canExecute t) = ["Restricted API detected: eval"]).
Proof.
  split; eexists; (split; [vm_compute; reflexivity|]); repeat split;
    vm_compute; reflexivity.
Qed.

Lemma confidence_of_values :
  Forall2 Qeq (map confidence_of [0; 1; 2; 3; 4; 5; 6; 7; 8]%nat)
    [1; 8 # 10; 6 # 10; 4 # 10; 2 # 10; 0; 0; 0; 0]%Q.
Proof. repeat constructor. Qed.

Lemma api_issue_length (code api : string) : (List.length (api_issue code api) <= 1)%nat.
Proof. unfold api_issue. destruct (_ && _)%bool; simpl; lia. Qed.

Lemma issues_bound (code : string) :
  (List.length (issues (validateIOSCompatibility code)) <= 8)%nat.
Proof.
  unfold validateIOSCompatibility, restrictedAPIs. cbn [issues flat_map].
  rewrite !length_app. cbn [List.length].
  pose proof (api_issue_length code "eval").
  pose proof (api_issue_length code "Function").
  pose proof (api_issue_length code "setTimeout").
  pose proof (api_issue_length code "setInterval").
  pose proof (api_issue_length code "XMLHttpRequest").
  pose proof (api_issue_length code "fetch").
  pose proof (api_issue_length code "WebSocket").
  assert (List.length (size_issue code) <= 1)%nat
    by (unfold size_issue; destruct (_ >? _)%Z; simpl; lia).
  lia.
Qed.

Lemma in_flat_map_issue (code api : string) (apis : list string) :
  In ("Restricted API detected: " ++ api) (flat_map (api_issue code) apis)
  <-> In api apis
      /\ Str.includes code api = true
      /\ Str.includes code ("__ios_safe_" ++ api) = false.
Proof.
  rewrite in_flat_map. split.
  - intros (x & Hx & Hin). unfold api_issue in Hin.
    destruct (Str.includes code x) eqn:E1; simpl in Hin; [|contradiction].
    destruct (Str.includes code ("__ios_safe_" ++ x)) eqn:E2; simpl in Hin;
      [contradiction|].
    destruct Hin as [Hin | []].
    assert (x = api) by (now apply (String.app_inj "Restricted API detected: ")).
    subst x. auto.
  - intros (Hin & E1 & E2). exists api. split; [exact Hin|].
    unfold api_issue. rewrite E1, E2. simpl. auto.
Qed.

Lemma api_names (api : string) :
  In api restrictedAPIs ->
  Regex.nullable (Regex.ast (rx_api api)) = false
  /\ SearchFacts.literal_prefix (Regex.ast (rx_api api)) = api.
Proof.
  intros H. simpl in H.
  repeat (destruct H as [<- | H]; [split; vm_compute; reflexivity|]).
  contradiction.
Qed.

(** C4, amended.  [compatible] is true exactly when [issues] is empty.
    A restricted API is listed exactly when the code includes its name
    as a substring and does not include [__ios_safe_] followed by the
    name anywhere; the size issue is listed exactly when the code is
    longer than the limit.  So an identifier that remains un-substituted
    is reported, with [compatible = false], whenever the code nowhere
    holds the stand-in name of that API, and [compatible] implies that
    the size is within the limit.  There are at most eight issues, and
    [confidence] is [max(0, 1 - 0.2 * issues)], in exact arithmetic. *)
Theorem verdict_characterisation (code : string) :
  let v := validateIOSCompatibility code in
  (compatible v = true <-> issues v = [])
  /\ (forall api, In api restrictedAPIs ->
        (In ("Restricted API detected: " ++ api) (issues v)
         <-> Str.includes code api = true
             /\ Str.includes code ("__ios_safe_" ++ api) = false))
  /\ (In "Code size exceeds iOS limits" (issues v) <-> (Str.len code > maxCodeSize)%Z)
  /\ (compatible v = true -> (Str.len code <= maxCodeSize)%Z)
  /\ (forall api, In api restrictedAPIs ->
        remains_unsubstituted api code = true ->
        Str.includes code ("__ios_safe_" ++ api) = false ->
        compatible v = false
        /\ In ("Restricted API detected: " ++ api) (issues v))
  /\ (List.length (issues v) <= 8)%nat
  /\ confidence v = Qmax 0 (1 - inject_Z (Z.of_nat (List.length (issues v))) * (2 # 10)).
Proof.
  cbv zeta.
  assert (Hc : compatible (validateIOSCompatibility code) = true
               <-> issues (validateIOSCompatibility code) = []).
  { unfold validateIOSCompatibility; cbn [compatible issues].
    destruct (_ ++ _)%list; simpl; split; congruence. }
  assert (Hapi : forall api, In api restrictedAPIs ->
            (In ("Restricted API detected: " ++ api)
               (issues (validateIOSCompatibility code))
             <-> Str.includes code api = true
                 /\ Str.includes code ("__ios_safe_" ++ api) = false)).
  { intros api Hin. unfold validateIOSCompatibility; cbn [issues].
    rewrite in_app_iff, in_flat_map_issue. split.
    - intros [(_ & H) | H]; [exact H|].
      unfold size_issue in H. destruct (_ >? _)%Z; simpl in H; [|contradiction].
      destruct H as [H | []]. discriminate.
    - intros H. left. split; [exact Hin | exact H]. }
  assert (Hsize : In "Code size exceeds iOS limits"
                    (issues (validateIOSCompatibility code))
                  <-> (Str.len code > maxCodeSize)%Z).
  { unfold validateIOSCompatibility; cbn [issues].
    rewrite in_app_iff. unfold size_issue. split.
    - intros [H | H].
      + apply in_flat_map in H. destruct H as (x & _ & H). unfold api_issue in H.
        destruct (_ && _)%bool; simpl in H; [|contradiction].
        destruct H as [H | []]. discriminate.
      + destruct (Str.len code >? maxCodeSize)%Z eqn:E; [lia | contradiction].
    - intros H. right.
      destruct (Str.len code >? maxCodeSize)%Z eqn:E; [simpl; auto | lia]. }
  split; [exact Hc|]. split; [exact Hapi|]. split; [exact Hsize|].
  split; [|split; [|split; [apply issues_bound | reflexivity]]].
  - intros H. apply Hc in H.
    destruct (Z_le_gt_dec (Str.len code) maxCodeSize) as [Hle | Hgt]; [exact Hle|].
    apply Hsize in Hgt. rewrite H in Hgt. contradiction.
  - intros api Hin Hr Hs.
    assert (Hi : In ("Restricted API detected: " ++ api)
                   (issues (validateIOSCompatibility code))).
    { apply Hapi; [exact Hin|]. split; [|exact Hs].
      unfold remains_unsubstituted in Hr. apply SearchFacts.test_includes in Hr.
      now rewrite (proj2 (api_names api Hin)) in Hr. }
    split; [|exact Hi].
    apply not_true_is_false. intros E.
    apply Hc in E. rewrite E in Hi. contradiction.
Qed.

End IOSTranslatorProps.

(** ** IOSTranslator: the size limit *)

Module SizeProps.
Import IOSTranslator Regex ReplaceFacts.

(** *** Templates *)

(** The text of a template before and after the place of [${code}]. *)
Definition marker : string := String (ascii_of_N 1) "".

Definition before (w : string -> string) : string :=
  Str.take (Z.to_nat (Str.indexOf (w marker) marker)) (w "").

Definition after (w : string -> string) : string :=
  Str.drop (Z.to_nat (Str.indexOf (w marker) marker)) (w "").

(** The execution wrapper adds 861 characters and the name of the
    target. *)
Lemma len_wrapForIOSExecution (c target : string) :
  Str.len (wrapForIOSExecution c target) = (Str.len c + Str.len target + 861)%Z.
Proof.
  unfold wrapForIOSExecution, Str.lines, Str.len. cbn [Str.join].
  rewrite !StrFacts.length_append. cbn [String.length Str.nl]. lia.
Qed.

(** *** A long input on which no pattern matches *)

Definition is_semi (c : ascii) : bool := Ascii.eqb c ";".

(** [n] semicolons *)
Fixpoint semis (n : nat) : string :=
  match n with
  | O => ""
  | S k => String ";" (semis k)
  end.

Lemma all_semis (n : nat) : all is_semi (semis n) = true.
Proof. induction n as [|n IH]; [reflexivity | exact IH]. Qed.

Lemma length_semis (n : nat) : String.length (semis n) = n.
Proof. induction n as [|n IH]; simpl; [reflexivity | now rewrite IH]. Qed.

Lemma before_end_semis (n : nat) :
  before_end (semis n) (Some ";"%char) = Some ";"%char.
Proof. induction n as [|n IH]; [reflexivity | exact IH]. Qed.

Lemma includes_semis (n : nat) (c : ascii) (p : string) :
  is_semi c = false -> Str.includes (semis n) (String c p) = false.
Proof.
  intros Hc. unfold is_semi in Hc.
  induction n as [|n IH]; [reflexivity|].
  cbn [semis Str.includes Str.starts]. rewrite Hc. exact IH.
Qed.

Ltac silent_semi :=
  split; [vm_compute; reflexivity
         | let c := fresh "c" in
           let H := fresh "H" in
           intros c H; apply Ascii.eqb_eq in H; subst c; vm_compute; reflexivity].

Lemma silent_pipeline (rx : RegExp) :
  In rx ([rx_hints; rx_hint_call; rx_strict; rx_arrow1; rx_arrow2; rx_arrow3;
          rx_arrow4; rx_block; rx_template; rx_destructure; rx_default_param;
          rx_dom; rx_block_comment; rx_line_comment; rx_spaces]
         ++ map rx_api restrictedAPIs)%list ->
  silent_on is_semi rx /\ global rx = true.
Proof.
  intros H. cbn [app map restrictedAPIs] in H.
  repeat (destruct H as [<- | H];
          [split; [silent_semi | vm_compute; reflexivity]|]).
  destruct H.
Qed.

Ltac pipeline rx :=
  let Hs := fresh "Hs" in
  let Hg := fresh "Hg" in
  destruct (silent_pipeline rx ltac:(cbn [app map restrictedAPIs In]; auto 30))
    as [Hs Hg].

Lemma replace_semis (rx : RegExp) (t : string) (n : nat) :
  silent_on is_semi rx -> global rx = true -> replace rx t (semis n) = semis n.
Proof.
  intros Hs Hg. apply (replace_silent is_semi); auto using all_semis.
Qed.

Lemma removeJITOptimizations_semis (n : nat) :
  removeJITOptimizations (semis n) = semis n.
Proof.
  unfold removeJITOptimizations.
  pipeline rx_hints. pipeline rx_hint_call. pipeline rx_strict.
  rewrite !replace_semis by assumption.
  now rewrite includes_semis.
Qed.

Lemma applyIOSCompatibility_semis (n : nat) :
  applyIOSCompatibility (semis n) = semis n.
Proof.
  unfold applyIOSCompatibility, transpileModernFeatures, transpileBlockScope,
    transpileArrowFunctions, substitute_apis, restrictedAPIs.
  cbn [fold_left].
  pipeline (rx_api "eval"). pipeline (rx_api "Function").
  pipeline (rx_api "setTimeout"). pipeline (rx_api "setInterval").
  pipeline (rx_api "XMLHttpRequest"). pipeline (rx_api "fetch").
  pipeline (rx_api "WebSocket").
  pipeline rx_arrow1. pipeline rx_arrow2. pipeline rx_arrow3. pipeline rx_arrow4.
  pipeline rx_block. pipeline rx_template. pipeline rx_destructure.
  pipeline rx_default_param.
  now rewrite !replace_semis by assumption.
Qed.

(** *** The long input inside the JavaScriptCore wrapper *)

Definition jsc_before : string := Eval vm_compute in before adaptForJavaScriptCore.
Definition jsc_after : string := Eval vm_compute in after adaptForJavaScriptCore.

Lemma adaptForJavaScriptCore_semis (n : nat) :
  adaptForJavaScriptCore (semis n) = jsc_before ++ semis n ++ jsc_after.
Proof.
  unfold adaptForJavaScriptCore. pipeline rx_dom.
  rewrite replace_semis by assumption.
  generalize (semis n). intros x. vm_compute. reflexivity.
Qed.

(** What a global replacement makes of the text before and of the text
    after a stretch of semicolons. *)
Definition pre_of (rx : RegExp) (t : string) (a : string) : string :=
  let r := replace rx t (a ++ ";") in
  Str.take (String.length r - 1) r.

Definition post_of (rx : RegExp) (t : string) (b : string) : string :=
  Str.drop 1 (replace rx t (";" ++ b)).

Definition piece (c : ascii) : string := String c "".

(** A global replacement works on the text before and on the text after
    a stretch of semicolons apart, when the expression is silent on
    semicolons, no match in the text before reaches beyond the first
    semicolon, and the stretch is not empty. *)
Lemma replace_around_semis (rx : RegExp) (t a a' b b' : string) (n : nat) :
  silent_on is_semi rx -> global rx = true ->
  (forall x,
      Str.concat (scan rx (fun mr => substitute (ngroups rx) mr t) piece None
                    (a ++ String ";" x) 0 0)
      = a' ++ String ";"
          (Str.concat (scan rx (fun mr => substitute (ngroups rx) mr t) piece
                         (Some ";"%char) x (S (String.length a)) 0))) ->
  (forall i,
      Str.concat (scan rx (fun mr => substitute (ngroups rx) mr t) piece
                    (Some ";"%char) b i 0) = b') ->
  replace rx t (a ++ semis (S n) ++ b) = a' ++ semis (S n) ++ b'.
Proof.
  intros Hs Hg Ha Hb. unfold replace, replace_fn, replace_global. rewrite Hg.
  change (semis (S n) ++ b) with (String ";" (semis n ++ b)).
  rewrite Ha.
  rewrite (scan_silent is_semi rx _ _ Hs (semis n) b) by apply all_semis.
  rewrite concat_app, before_end_semis, Hb.
  change (chars piece (semis n)) with (chars (fun c => String c "") (semis n)).
  now rewrite concat_chars.
Qed.

Definition jsc_before1 : string := Eval vm_compute in pre_of rx_block_comment "" jsc_before.
Definition jsc_after1 : string := Eval vm_compute in post_of rx_block_comment "" jsc_after.
Definition jsc_before2 : string := Eval vm_compute in pre_of rx_line_comment "" jsc_before1.
Definition jsc_after2 : string := Eval vm_compute in post_of rx_line_comment "" jsc_after1.
Definition jsc_before3 : string := Eval vm_compute in pre_of rx_spaces " " jsc_before2.
Definition jsc_after3 : string := Eval vm_compute in post_of rx_spaces " " jsc_after2.

Lemma minify_jsc_semis (n : nat) :
  minify (jsc_before ++ semis (S n) ++ jsc_after)
  = jsc_before3 ++ semis (S n) ++ jsc_after3.
Proof.
  unfold minify.
  pipeline rx_block_comment. pipeline rx_line_comment. pipeline rx_spaces.
  rewrite (replace_around_semis rx_block_comment "" jsc_before jsc_before1
             jsc_after jsc_after1 n Hs Hg);
    [|intros x; vm_compute; reflexivity|intros i; vm_compute; reflexivity].
  rewrite (replace_around_semis rx_line_comment "" jsc_before1 jsc_before2
             jsc_after1 jsc_after2 n Hs0 Hg0);
    [|intros x; vm_compute; reflexivity|intros i; vm_compute; reflexivity].
  rewrite (replace_around_semis rx_spaces " " jsc_before2 jsc_before3
             jsc_after2 jsc_after3 n Hs1 Hg1);
    [|intros x; vm_compute; reflexivity|intros i; vm_compute; reflexivity].
  reflexivity.
Qed.

End SizeProps.

Module SizeProps2.
Import IOSTranslator Regex ReplaceFacts SizeProps.

(** *** Truncation *)

Lemma truncate_long (s : string) :
  (Str.len s > maxCodeSize)%Z ->
  truncate s = Str.substring s 0 (maxCodeSize - 100) ++ Str.nl ++ "// TRUNCATED"
  /\ Str.len (truncate s) = (maxCodeSize - 87)%Z.
Proof.
  intros H. unfold truncate.
  destruct (Str.len s >? maxCodeSize)%Z eqn:E; [|lia].
  split; [reflexivity|].
  rewrite !StrFacts.len_append.
  rewrite StrFacts.len_substring_prefix by (unfold maxCodeSize in *; lia).
  change (Str.len Str.nl) with 1%Z. change (Str.len "// TRUNCATED") with 12%Z.
  lia.
Qed.

Lemma truncate_short (s : string) :
  (Str.len s <= maxCodeSize)%Z -> truncate s = s.
Proof.
  intros H. unfold truncate.
  destruct (Str.len s >? maxCodeSize)%Z eqn:E; [lia | reflexivity].
Qed.

(** C5, amended.  Step 5 keeps its output within the limit, whether or
    not [optimizeForSize] is set: when the code (minified first under
    [optimizeForSize]) is longer than [maxCodeSize], the output is its
    first [maxCodeSize - 100] characters followed by a line break and
    the marker [// TRUNCATED], [maxCodeSize - 87] characters in all;
    otherwise the code is left as it is.  The final output is this text
    inside the execution wrapper of step 6, which adds 861 characters
    and the name of the target. *)
Theorem optimizeForIOS_within_limit (code : string) (optimizeForSize : bool) :
  let m := if optimizeForSize then minify code else code in
  (Str.len (optimizeForIOS code optimizeForSize) <= maxCodeSize)%Z
  /\ ((Str.len m > maxCodeSize)%Z ->
      optimizeForIOS code optimizeForSize
      = Str.substring m 0 (maxCodeSize - 100) ++ Str.nl ++ "// TRUNCATED"
      /\ Str.len (optimizeForIOS code optimizeForSize) = (maxCodeSize - 87)%Z)
  /\ ((Str.len m <= maxCodeSize)%Z -> optimizeForIOS code optimizeForSize = m)
  /\ (forall target,
        Str.len (wrapForIOSExecution (optimizeForIOS code optimizeForSize) target)
        = (Str.len (optimizeForIOS code optimizeForSize) + Str.len target + 861)%Z).
Proof.
  cbv zeta. unfold optimizeForIOS.
  set (m := if optimizeForSize then minify code else code).
  split; [|split; [|split]].
  - destruct (Z_le_gt_dec (Str.len m) maxCodeSize) as [Hle | Hgt].
    + now rewrite truncate_short.
    + rewrite (proj2 (truncate_long m Hgt)). lia.
  - apply truncate_long.
  - apply truncate_short.
  - intros target. apply len_wrapForIOSExecution.
Qed.

(** *** The final output of an oversized input *)

(** 1048576 semicolons *)
Definition long_input : string := semis (S (N.to_nat 1048575)).

Definition jsc_size : Options := mkOptions (Some "jsc") None (Some false) (Some true).

Lemma translate_body_semis (n : nat) :
  exists t,
    translate_body (semis (S n)) true jsc_size = Ok t
    /\ adaptForTarget (applyIOSCompatibility (removeJITOptimizations (semis (S n))))
         "jsc"
       = Ok (AString (jsc_before ++ semis (S n) ++ jsc_after))
    /\ code t
       = wrapForIOSExecution
           (truncate (jsc_before3 ++ semis (S n) ++ jsc_after3)) "jsc".
Proof.
  unfold translate_body.
  cbn [target preservePerformance enablePolyfills optimizeForSize jsc_size
       JITEngine.default].
  rewrite removeJITOptimizations_semis, applyIOSCompatibility_semis.
  unfold adaptForTarget.
  change (JS.get adaptationStrategies "jsc") with (JS.Own adaptForJavaScriptCore).
  cbv beta iota.
  rewrite adaptForJavaScriptCore_semis.
  cbn [bind optimize_adapted]. unfold optimizeForIOS.
  rewrite minify_jsc_semis.
  eexists. split; [reflexivity|]. split; reflexivity.
Qed.

Lemma len_semis (n : nat) : Str.len (semis n) = Z.of_nat n.
Proof. unfold Str.len. now rewrite length_semis. Qed.

(** C5, as stated, fails: for an input of 1048576 semicolons, with
    [optimizeForSize] set, the adapted code exceeds the maximum, step 5
    truncates it, and the final output, the truncated text inside the
    execution wrapper, is 1049353 characters long, more than the
    maximum of 1048576. *)
Lemma truncated_output_exceeds_limit :
  exists t adapted,
    translate_body long_input true jsc_size = Ok t
    /\ optimizeForSize jsc_size = Some true
    /\ adaptForTarget (applyIOSCompatibility (removeJITOptimizations long_input))
         "jsc" = Ok (AString adapted)
    /\ (Str.len adapted > maxCodeSize)%Z
    /\ Str.len (code t) = 1049353%Z
    /\ (Str.len (code t) > maxCodeSize)%Z.
Proof.
  unfold long_input.
  assert (L : Z.of_nat (N.to_nat 1048575) = 1048575%Z) by apply N_nat_Z.
  revert L. generalize (N.to_nat 1048575). intros n L.
  destruct (translate_body_semis n) as (t & Ht & Ha & Hc).
  exists t, (jsc_before ++ semis (S n) ++ jsc_after).
  split; [exact Ht|]. split; [reflexivity|]. split; [exact Ha|].
  split.
  { rewrite !StrFacts.len_append, len_semis.
    assert (Str.len jsc_before = 407%Z) by reflexivity.
    pose proof (StrFacts.len_nonneg jsc_after).
    unfold maxCodeSize. lia. }
  assert (G : (Str.len (jsc_before3 ++ semis (S n) ++ jsc_after3) > maxCodeSize)%Z).
  { rewrite !StrFacts.len_append, len_semis.
    assert (Str.len jsc_before3 = 266%Z) by reflexivity.
    pose proof (StrFacts.len_nonneg jsc_after3).
    unfold maxCodeSize. lia. }
  assert (E : Str.len (code t) = 1049353%Z).
  { rewrite Hc, len_wrapForIOSExecution.
    rewrite (proj2 (truncate_long _ G)).
    change (Str.len "jsc") with 3%Z. unfold maxCodeSize. lia. }
  split; [exact E|]. rewrite E. unfold maxCodeSize. lia.
Qed.

End SizeProps2.

(** ** The format bridge (JITConverter) *)

Module JITConverterProps.
Import JITConverter.

(** A tag is registered when it is one of the keys of
    [this.supportedFormats]. *)
Definition registered (sourceFormat : string) : Prop :=
  In sourceFormat (JS.keys supportedFormats).

(** The registered formats whose lowering finds no function. *)
Definition stubs : list string :=
  ["java-hotspot"; "dotnet-clr"; "v8-bytecode"; "spidermonkey"; "chakra"; "assembly"].

(** The cache after a conversion that missed it. *)
Definition stored (c : Converter) (instructions sourceFormat : string)
  (options : Options) (result : Conversion) : Converter :=
  mkConverter
    (if JITEngine.default true (cache options)
     then <[generateCacheKey instructions sourceFormat options := result]>
            (conversionCache c)
     else conversionCache c)
    (mkStats (conversions (stats c) + 1) (cacheHits (stats c))).

Lemma get_registered (sourceFormat : string) :
  registered sourceFormat ->
  exists lower, JS.get supportedFormats sourceFormat = JS.Own lower.
Proof.
  intros H. apply JSFacts.assoc_in in H as [lower E].
  exists lower. unfold JS.get. now rewrite E.
Qed.

Lemma get_unregistered (sourceFormat : string) :
  ~ registered sourceFormat ->
  JS.get supportedFormats sourceFormat
  = if existsb (String.eqb sourceFormat) JS.object_prototype_keys
    then JS.Inherited sourceFormat else JS.Undefined.
Proof.
  intros H. unfold JS.get. now rewrite (JSFacts.assoc_not_in _ _ H).
Qed.

Lemma not_inherited (sourceFormat : string) :
  ~ In sourceFormat JS.object_prototype_keys ->
  existsb (String.eqb sourceFormat) JS.object_prototype_keys = false.
Proof.
  intros H. apply not_true_is_false. intros E.
  apply existsb_exists in E as (k & Hk & E).
  apply String.eqb_eq in E. now subst k.
Qed.

(** A tag that is neither registered nor inherited is refused before the
    cache key is computed, and the converter is left as it was. *)
Lemma convert_unregistered (now : Z) (c : Converter)
  (instructions sourceFormat : string) (options : Options) :
  ~ registered sourceFormat ->
  ~ In sourceFormat JS.object_prototype_keys ->
  convert now c instructions sourceFormat options
  = (Throw (unsupported sourceFormat), c).
Proof.
  intros Hr Hi. unfold convert.
  now rewrite (get_unregistered _ Hr), (not_inherited _ Hi).
Qed.

(** On a converter whose cache holds nothing under the key, a registered
    tag is lowered and converted, and the result is stored. *)
Lemma convert_own (now : Z) (c : Converter) (instructions sourceFormat : string)
  (options : Options) (lower : string -> Options -> Intermediate) :
  JS.get supportedFormats sourceFormat = JS.Own lower ->
  conversionCache c !! generateCacheKey instructions sourceFormat options = None ->
  convert now c instructions sourceFormat options
  = (Ok (convertToNodeJS now (lower instructions options)),
     stored c instructions sourceFormat options
       (convertToNodeJS now (lower instructions options))).
Proof.
  intros E Hmiss. unfold convert, convert_body, stored. rewrite E, Hmiss.
  now destruct (JITEngine.default true (cache options)).
Qed.

(** An inherited name passes the test of the format; the failure comes
    from the [try] block, after the cache has been consulted. *)
Lemma convert_inherited (now : Z) (c : Converter) (instructions sourceFormat : string)
  (options : Options) :
  In sourceFormat JS.object_prototype_keys ->
  conversionCache c !! generateCacheKey instructions sourceFormat options = None ->
  convert now c instructions sourceFormat options
  = (Throw ("JIT conversion failed: " ++ inherited_failure sourceFormat), c).
Proof.
  intros Hin Hmiss.
  assert (E : JS.get supportedFormats sourceFormat = JS.Inherited sourceFormat).
  { cbv [In JS.object_prototype_keys] in Hin.
    repeat (destruct Hin as [<- | Hin]; [reflexivity|]). destruct Hin. }
  unfold convert, convert_body. rewrite E, Hmiss.
  now destruct (JITEngine.default true (cache options)).
Qed.

Lemma stubs_registered (sourceFormat : string) :
  In sourceFormat stubs ->
  exists lower,
    JS.get supportedFormats sourceFormat = JS.Own lower
    /\ forall instructions options, functions (lower instructions options) = [].
Proof.
  intros H. cbv [In stubs] in H.
  repeat (destruct H as [<- | H];
          [eexists; split; [reflexivity | intros; reflexivity]|]).
  destruct H.
Qed.

(** C7.  [convert] refuses at once, with the converter unchanged, every
    tag that is neither a registered format nor a name inherited from
    [Object.prototype]; the registered formats that lower to no function
    are converted without error, the result holding no function.  A tag
    such as [toString], which is not registered, is not refused at
    once: it passes the test of the format, and the conversion fails
    inside the [try] block with the message of a TypeError behind
    [JIT conversion failed: ], not with [Unsupported source format]. *)
Theorem convert_inherited_tag_not_refused :
  (forall now c instructions sourceFormat options,
      ~ registered sourceFormat ->
      ~ In sourceFormat JS.object_prototype_keys ->
      convert now c instructions sourceFormat options
      = (Throw (unsupported sourceFormat), c))
  /\ (forall sourceFormat now instructions options,
         In sourceFormat stubs ->
         registered sourceFormat
         /\ exists lower,
             JS.get supportedFormats sourceFormat = JS.Own lower
             /\ functions (lower instructions options) = []
             /\ convert now new instructions sourceFormat options
                = (Ok (convertToNodeJS now (lower instructions options)),
                   stored new instructions sourceFormat options
                     (convertToNodeJS now (lower instructions options))))
  /\ (forall now instructions options,
         ~ registered "toString"
         /\ convert now new instructions "toString" options
            = (Throw "JIT conversion failed: Cannot read properties of undefined (reading 'flatMap')",
               new)
         /\ unsupported "toString"
            = "Unsupported source format: toString. Supported: ios-llvm, android-art, wasm, java-hotspot, dotnet-clr, v8-bytecode, spidermonkey, chakra, assembly").
Proof.
  split; [|split].
  - intros. now apply convert_unregistered.
  - intros sourceFormat now instructions options H.
    split.
    { cbv [In stubs] in H. unfold registered. cbn.
      repeat (destruct H as [<- | H]; [tauto|]). destruct H. }
    destruct (stubs_registered _ H) as (lower & E & F).
    exists lower. split; [exact E|]. split; [apply F|].
    apply convert_own; [exact E | apply lookup_empty].
  - intros now instructions options. split; [|split].
    + unfold registered. cbn. intros H.
      repeat (destruct H as [H | H]; [discriminate H|]). destruct H.
    + apply (convert_inherited now new instructions "toString" options).
      * cbn. tauto.
      * apply lookup_empty.
    + reflexivity.
Qed.

End JITConverterProps.

(** ** Replacement of whole words *)

Module WordFacts.
Import Regex ReplaceFacts.

(** The characters of [s] that are not word characters, in order. *)
Fixpoint delimiters (s : string) : string :=
  match s with
  | "" => ""
  | String c r => if Str.is_word c then delimiters r else String c (delimiters r)
  end.

Lemma delimiters_append (a b : string) :
  delimiters (a ++ b) = delimiters a ++ delimiters b.
Proof.
  induction a as [|c a IH]; [reflexivity|].
  rewrite StrFacts.append_cons. cbn [delimiters].
  destruct (Str.is_word c); [exact IH|].
  now rewrite StrFacts.append_cons, IH.
Qed.

Lemma delimiters_word (s : string) : all Str.is_word s = true -> delimiters s = "".
Proof.
  induction s as [|c s IH]; [reflexivity|]. cbn [all delimiters].
  intros H. apply andb_prop in H as [-> H]. now apply IH.
Qed.

(** An expression made of characters and word-boundary assertions, and
    the text it matches. *)
Fixpoint literal (r : regex) : bool :=
  match r with
  | Eps | Chr _ | WordB _ => true
  | Seq a b => (literal a && literal b)%bool
  | _ => false
  end.

Fixpoint text (r : regex) : string :=
  match r with
  | Chr c => String c ""
  | Seq a b => text a ++ text b
  | _ => ""
  end.

Lemma m_literal (ml : bool) (r : regex) :
  literal r = true ->
  forall k st res,
    m ml r k st = Some res ->
    exists st', k st' = Some res
                /\ m_rest st = text r ++ m_rest st'
                /\ m_pos st' = (m_pos st + String.length (text r))%nat.
Proof.
  induction r as [ | c | | neg items | neg | | | r1 IH1 r2 IH2 | r1 IH1 r2 IH2
                 | g r1 IH1 | g r1 IH1 | g r1 IH1 | n r1 IH1 | n | neg r1 IH1 ];
    intros Hl k st res H; try discriminate Hl; cbn [m] in H.
  - exists st. cbn [text String.length]. repeat split; [exact H | lia].
  - unfold step_char in H. destruct (m_rest st) as [|d rest] eqn:E; [discriminate|].
    destruct (Ascii.eqb_spec c d) as [->|]; [|discriminate].
    eexists. split; [exact H|]. cbn [text m_rest m_pos String.length].
    split; [reflexivity | lia].
  - destruct (xorb neg (at_word_boundary st)); [|discriminate].
    exists st. cbn [text String.length]. repeat split; [exact H | lia].
  - cbn [literal] in Hl. apply andb_prop in Hl as [Hl1 Hl2].
    apply (IH1 Hl1) in H as (st1 & H & R1 & P1).
    apply (IH2 Hl2) in H as (st2 & Hk & R2 & P2).
    exists st2. split; [exact Hk|]. cbn [text]. split.
    + now rewrite R1, R2, StrFacts.append_assoc.
    + rewrite P2, P1, StrFacts.length_append. lia.
Qed.

Lemma match_here_literal (rx : RegExp) (prev : option ascii) (s : string)
  (n : nat) (cs : captures) :
  literal (ast rx) = true ->
  match_here rx prev s = Some (n, cs) ->
  n = String.length (text (ast rx)) /\ exists rest, s = text (ast rx) ++ rest.
Proof.
  intros Hl. unfold match_here.
  destruct (m (multiline rx) (ast rx) accept (MSt prev s 0 [])) as [res|] eqn:E;
    [|discriminate].
  intros H. injection H as <- <-.
  apply (m_literal _ _ Hl) in E as (st' & Ha & R & P). injection Ha as ->.
  cbn [m_rest m_pos] in R, P. split; [exact P | eauto].
Qed.

Lemma drop_append (a b : string) : Str.drop (String.length a) (a ++ b) = b.
Proof. induction a as [|c a IH]; [reflexivity | exact IH]. Qed.

(** A global replacement of a literal word by a word leaves the
    delimiters of the input in place. *)
Section Words.
Variable rx : RegExp.
Variable f : replacer.
Hypothesis rx_literal : literal (ast rx) = true.
Hypothesis rx_word : all Str.is_word (text (ast rx)) = true.
Hypothesis f_word : forall mr, all Str.is_word (f mr) = true.

Lemma scan_delimiters (s : string) :
  forall prev i skip,
    (skip <= String.length s)%nat ->
    delimiters (Str.concat (scan rx f (fun c => String c "") prev s i skip))
    = delimiters (Str.drop skip s).
Proof.
  induction s as [|c r IH]; intros prev i skip Hs.
  - destruct skip; [|cbn in Hs; lia]. cbn [scan Str.drop].
    destruct (match_here rx prev "") as [[n cs]|]; [|reflexivity].
    cbn [Str.concat]. rewrite delimiters_append, delimiters_word by apply f_word.
    reflexivity.
  - destruct skip as [|k].
    + cbn [scan Str.drop].
      destruct (match_here rx prev (String c r)) as [[n cs]|] eqn:E.
      * destruct (match_here_literal _ _ _ _ _ rx_literal E) as [-> [rest Hr]].
        destruct (text (ast rx)) as [|d w] eqn:Et.
        -- cbn [String.length Str.concat].
           rewrite delimiters_append, delimiters_word by apply f_word.
           cbn [append]. change (String c "" ++ ?x) with (String c x).
           cbn [delimiters]. rewrite (IH (Some c) (S i) 0%nat) by lia.
           reflexivity.
        -- cbn [String.length Str.concat].
           rewrite delimiters_append, delimiters_word by apply f_word.
           rewrite StrFacts.append_cons in Hr. injection Hr as -> ->.
           cbn [append]. rewrite (IH (Some d) (S i) (String.length w)).
           2:{ rewrite StrFacts.length_append. lia. }
           rewrite drop_append. cbn [all] in rx_word.
           apply andb_prop in rx_word as [Hd Hw]. cbn [delimiters]. rewrite Hd.
           now rewrite delimiters_append, (delimiters_word w Hw).
      * cbn [Str.concat]. change (String c "" ++ ?x) with (String c x).
        cbn [delimiters]. now rewrite (IH (Some c) (S i) 0%nat) by lia.
    + cbn [scan Str.drop]. apply IH. cbn in Hs. lia.
Qed.

Lemma replace_global_delimiters (s : string) :
  delimiters (replace_global rx f s) = delimiters s.
Proof. unfold replace_global. now rewrite scan_delimiters by lia. Qed.
End Words.

(** A replacement string without [$] is substituted as it is. *)
Lemma substitute_plain (n : nat) (mr : MatchResult) (t : string) :
  all (fun c => negb (Ascii.eqb c "$")) t = true -> substitute n mr t = t.
Proof.
  induction t as [|c t IH]; [reflexivity|]. cbn [all substitute].
  intros H. apply andb_prop in H as [Hc H].
  apply negb_true_iff in Hc. rewrite Hc. now rewrite IH.
Qed.

End WordFacts.

(** ** The method-body rewrite of the Swift converter *)

Module SwiftConverterProps.
Import SwiftConverter.

Lemma run_app (rules1 rules2 : list Rule) (jsBody : string) :
  run (rules1 ++ rules2) jsBody = run rules2 (run rules1 jsBody).
Proof. apply fold_left_app. Qed.

Lemma trace_app (rules1 rules2 : list Rule) (jsBody : string) :
  nth (List.length rules1) (trace (rules1 ++ rules2) jsBody) ""
  = run rules1 jsBody.
Proof.
  revert jsBody. induction rules1 as [|r rules1 IH]; intros jsBody.
  - now destruct rules2.
  - cbn [List.length app trace nth]. apply IH.
Qed.

(** A statement that replaces a literal word by a word. *)
Definition word_rule (r : Rule) : bool :=
  (WordFacts.literal (Regex.ast (rx r))
   && ReplaceFacts.all Str.is_word (WordFacts.text (Regex.ast (rx r)))
   && Regex.global (rx r)
   && ReplaceFacts.all (fun c => negb (Ascii.eqb c "$")) (replacement r)
   && ReplaceFacts.all Str.is_word (replacement r))%bool.

Lemma apply_delimiters (r : Rule) (jsBody : string) :
  word_rule r = true ->
  WordFacts.delimiters (apply r jsBody) = WordFacts.delimiters jsBody.
Proof.
  unfold word_rule. intros H.
  apply andb_prop in H as [H Hw]. apply andb_prop in H as [H Hd].
  apply andb_prop in H as [H Hg]. apply andb_prop in H as [Hl Ht].
  unfold apply, Regex.replace, Regex.replace_fn. rewrite Hg.
  apply WordFacts.replace_global_delimiters; [exact Hl | exact Ht |].
  intros mr. now rewrite WordFacts.substitute_plain.
Qed.

Lemma run_delimiters (rules : list Rule) :
  forallb word_rule rules = true ->
  forall jsBody,
    WordFacts.delimiters (run rules jsBody) = WordFacts.delimiters jsBody.
Proof.
  induction rules as [|r rules IH]; intros H jsBody; [reflexivity|].
  cbn [forallb] in H. apply andb_prop in H as [Hr H].
  unfold run. cbn [fold_left]. fold (run rules (apply r jsBody)).
  now rewrite (IH H), apply_delimiters.
Qed.

(** The substitution of the type names leaves every character that is
    not a word character where it was: quotes, backslashes and
    parentheses among them. *)
Lemma type_rules_delimiters (jsBody : string) :
  WordFacts.delimiters (run type_rules jsBody) = WordFacts.delimiters jsBody.
Proof. apply run_delimiters. vm_compute. reflexivity. Qed.

(** The position of a statement among the statements of
    [convertMethodBody]. *)
Fixpoint position (l : string) (rules : list Rule) : option nat :=
  match rules with
  | [] => None
  | r :: rest =>
      if String.eqb (label r) l then Some 0%nat
      else option_map S (position l rest)
  end.

(** A body with the type name [nil] inside an interpolated expression:
    [let s = "is nil: \(x == nil)"]. *)
Definition nil_in_interpolation : string :=
  "let s = " ++ Str.dq ++ "is nil: \(x == nil)" ++ Str.dq.

(** C8, counterexample.  The statement that rewrites the type name
    [nil] is the 30th of [convertMethodBody] and the one that rewrites
    the interpolation delimiters the 33rd.  On the body
    [let s = "is nil: \(x == nil)"] the value of [jsBody] after the loop
    over the type names has [null] for [nil] inside the embedded
    expression while the delimiters are still those of Swift; they are
    rewritten by the next statement. *)
Lemma type_names_rewritten_before_delimiters :
  position "L888 nil" methodBodyRules = Some 29%nat
  /\ position "L892" methodBodyRules = Some 32%nat
  /\ run closure_loop_rules nil_in_interpolation
     = "const s = " ++ Str.dq ++ "is nil: \(x == nil)" ++ Str.dq ++ ";"
  /\ run type_rules (run closure_loop_rules nil_in_interpolation)
     = "const s = " ++ Str.dq ++ "is null: \(x == null)" ++ Str.dq ++ ";"
  /\ run interpolation_rule
       (run type_rules (run closure_loop_rules nil_in_interpolation))
     = "const s = `is null: ${x == null}`;"
  /\ convertMethodBody nil_in_interpolation
     = "const s = `is null: ${x == null}`;".
Proof. repeat split; vm_compute; reflexivity. Qed.

(** C8, amended.  [convertMethodBody] rewrites a body in this order:
    the closure, loop and declaration statements, then the type names,
    then the interpolation delimiters, then the remaining statements.
    The value of [jsBody] when the interpolation statement runs is the
    one the type-name loop has produced; that loop replaces whole words
    by words, also inside an interpolated expression, and leaves every
    other character, the delimiters of the interpolation among them,
    where it was.  The result is that of the last statement, or
    [return null;] for an empty body or result. *)
Theorem convertMethodBody_order (body : string) :
  let typed := run type_rules (run closure_loop_rules body) in
  let interpolated := run interpolation_rule typed in
  let jsBody :=
    run final_rules (run method_rules (run optional_rules interpolated)) in
  nth 32 (trace methodBodyRules body) "" = typed
  /\ nth 33 (trace methodBodyRules body) "" = interpolated
  /\ WordFacts.delimiters typed
     = WordFacts.delimiters (run closure_loop_rules body)
  /\ Forall (fun r => exists i, position (label r) methodBodyRules = Some i
                                /\ (17 <= i < 32)%nat) type_rules
  /\ position "L892" methodBodyRules = Some 32%nat
  /\ convertMethodBody body
     = if (String.eqb body "" || String.eqb jsBody "")%bool
       then "return null;" else jsBody.
Proof.
  cbv zeta. split; [|split; [|split; [|split; [|split]]]].
  - unfold methodBodyRules. rewrite app_assoc.
    change 32%nat with (List.length (closure_loop_rules ++ type_rules)).
    now rewrite trace_app, run_app.
  - unfold methodBodyRules. rewrite app_assoc, app_assoc.
    change 33%nat
      with (List.length ((closure_loop_rules ++ type_rules) ++ interpolation_rule)).
    now rewrite trace_app, !run_app.
  - apply type_rules_delimiters.
  - repeat constructor; eexists; (split; [vm_compute; reflexivity | lia]).
  - vm_compute. reflexivity.
  - unfold convertMethodBody, methodBodyRules.
    rewrite !run_app.
    now destruct (String.eqb body "").
Qed.

End SwiftConverterProps.

(** ** Repeated runs of the pipeline *)

Module PipelineProps.




End PipelineProps.

(** ** The Swift parser *)

Module SwiftParserProps.
Import SwiftConverter CaptureFacts.

Lemma sequence_ok {A : Type} (l : list (Result A)) :
  Forall (fun x => exists a, x = Ok a) l -> exists l', sequence l = Ok l'.
Proof.
  induction 1 as [|x l [a ->] _ [l' IH]]; cbn [sequence]; [eauto|].
  rewrite IH. eauto.
Qed.

Lemma parseParameter_ok (part : string) : exists ps, parseParameter part = Ok ps.
Proof.
  unfold parseParameter.
  destruct (Regex.exec rx_parameter (Str.trim part)) as [mt|] eqn:E.
  - destruct (exec_definite rx_parameter 3 (Str.trim part) mt) as [v Hv];
      [reflexivity | cbn; tauto | cbn; lia | exact E |].
    rewrite Hv. cbn [deref bind]. eauto.
  - destruct (Regex.exec rx_simple (Str.trim part)); eauto.
Qed.

Lemma parseParameters_ok (paramString : string) :
  exists ps, parseParameters (Some paramString) = Ok ps.
Proof.
  unfold parseParameters. cbn [deref bind].
  destruct (String.eqb (Str.trim paramString) ""); [eauto|].
  destruct (sequence_ok (map parseParameter (Str.split paramString ","))) as [l Hl].
  { apply Forall_map, Forall_forall. intros part _. apply parseParameter_ok. }
  rewrite Hl. cbn [bind]. eauto.
Qed.

(** *** Where a declaration ends *)

Lemma function_lines_end (rest : list string) :
  forall i found depth body bodyEnd,
    snd (function_lines rest i found depth body bodyEnd) = bodyEnd
    \/ (i <= snd (function_lines rest i found depth body bodyEnd))%nat.
Proof.
  induction rest as [|l rest IH]; intros i found depth body bodyEnd;
    cbn [function_lines]; [now left|].
  destruct (found || Str.includes l "{")%bool.
  - match goal with |- context [Z.eqb ?d 0] => destruct (Z.eqb d 0) end.
    + right. cbn [snd]. lia.
    + match goal with |- context [function_lines rest (S i) ?f ?d ?b ?e] =>
        destruct (IH (S i) f d b e) as [-> | H] end; [now left | right; lia].
  - match goal with |- context [function_lines rest (S i) ?f ?d ?b ?e] =>
      destruct (IH (S i) f d b e) as [-> | H] end; [now left | right; lia].
Qed.

Lemma initializer_lines_end (rest : list string) :
  forall i found bodyStart depth body bodyEnd,
    snd (initializer_lines rest i found bodyStart depth body bodyEnd) = bodyEnd
    \/ (i <= snd (initializer_lines rest i found bodyStart depth body bodyEnd))%nat.
Proof.
  induction rest as [|l rest IH]; intros i found bodyStart depth body bodyEnd;
    cbn [initializer_lines]; [now left|].
  match goal with |- context [if ?c then (body, i) else _] => destruct c end.
  - right. cbn [snd]. lia.
  - match goal with |- context [initializer_lines rest (S i) ?f ?s ?d ?b ?e] =>
      destruct (IH (S i) f s d b e) as [-> | H] end; [now left | right; lia].
Qed.

Lemma property_lines_end (rest : list string) :
  forall i a,
    endLine (property_lines rest i a) = endLine a
    \/ (i <= endLine (property_lines rest i a))%nat.
Proof.
  induction rest as [|l rest IH]; intros i a; cbn [property_lines]; [now left|].
  assert (Hsimple : forall a',
    endLine a' = endLine a ->
    let r :=
      if ((depth a' =? 1)%Z && Str.includes l "return"
          && negb (inGetter a') && negb (inSetter a'))%bool then
        let a0 := mkAccessors (depth a') (inGetter a') (inSetter a')
                    (Str.trim l) (setterBody a') (currentBlock a') (endLine a') in
        match rest with
        | next :: _ =>
            if Str.includes next "}"
            then mkAccessors (depth a0) (inGetter a0) (inSetter a0) (getterBody a0)
                   (setterBody a0) (currentBlock a0) (S i)
            else property_lines rest (S i) a0
        | [] => property_lines rest (S i) a0
        end
      else property_lines rest (S i) a' in
    endLine r = endLine a \/ (i <= endLine r)%nat).
  { intros a' Ha'. cbv zeta.
    destruct ((depth a' =? 1)%Z && Str.includes l "return"
              && negb (inGetter a') && negb (inSetter a'))%bool.
    - destruct rest as [|next rest'].
      + left. cbn [property_lines endLine]. exact Ha'.
      + destruct (Str.includes next "}").
        * right. cbn [endLine]. lia.
        * match goal with |- context [property_lines ?r (S i) ?x] =>
            destruct (IH (S i) x) as [E | H] end;
            [left; rewrite E; exact Ha' | right; lia].
    - destruct (IH (S i) a') as [E | H]; [left; congruence | right; lia]. }
  destruct (String.eqb (Str.trim l) "get {" || Str.includes l "get {")%bool;
    [apply Hsimple; reflexivity|].
  destruct (String.eqb (Str.trim l) "set {" || Str.includes l "set {")%bool;
    [apply Hsimple; reflexivity|].
  match goal with |- context [if Z.eqb ?d 0 then _ else _] => destruct (Z.eqb d 0) end;
    [right; cbn [endLine]; lia|].
  match goal with |- context [if ?c then _ else _] => destruct c end;
    apply Hsimple; reflexivity.
Qed.

(** *** What the functions of the parser return *)

Lemma parseFunction_ok (line : string) (lines : list string) (startIndex : nat) :
  exists func,
    parseFunction line lines startIndex = Ok func
    /\ forall f, func = Some f -> (startIndex <= function_endLine f)%nat.
Proof.
  unfold parseFunction.
  destruct (Regex.exec rx_func line) as [funcMatch|] eqn:E.
  2:{ exists None. split; [reflexivity | discriminate]. }
  destruct (exec_definite rx_func 2 line funcMatch) as [paramString Hp];
    [reflexivity | cbn; tauto | cbn; lia | exact E |].
  rewrite Hp. destruct (parseParameters_ok paramString) as [parameters ->].
  cbn [bind].
  assert (Hmulti : forall found depth body,
    exists func,
      (let '(body, bodyEnd) :=
         function_lines (skipn (S startIndex) lines) (S startIndex) found depth
           body startIndex in
       Ok (Some (mkFunctionDecl (Regex.grp funcMatch 1) parameters
                   (if_truthy (Regex.grp funcMatch 3) Str.trim "Void")
                   (Str.trim body) bodyEnd))) = Ok func
      /\ forall f, func = Some f -> (startIndex <= function_endLine f)%nat).
  { intros found depth body.
    pose proof (function_lines_end (skipn (S startIndex) lines) (S startIndex)
                  found depth body startIndex) as H.
    destruct (function_lines _ _ _ _ _ _) as [body' bodyEnd]. cbn [snd] in H.
    eexists. split; [reflexivity|].
    intros f Hf. injection Hf as <-. cbn [function_endLine]. lia. }
  destruct (Str.includes line "{"); [|apply Hmulti].
  destruct (negb (Str.indexOf line "{" =? -1)%Z); [|apply Hmulti].
  match goal with |- context [if ?c then _ else _] => destruct c end;
    [|apply Hmulti].
  eexists. split; [reflexivity|].
  intros f Hf. injection Hf as <-. cbn [function_endLine]. lia.
Qed.

Lemma parseInitializer_ok (line : string) (lines : list string) (startIndex : nat) :
  exists init,
    parseInitializer line lines startIndex = Ok init
    /\ forall x, init = Some x -> (startIndex <= initializer_endLine x)%nat.
Proof.
  unfold parseInitializer.
  destruct (Regex.exec rx_init line) as [initMatch|] eqn:E.
  2:{ exists None. split; [reflexivity | discriminate]. }
  destruct (exec_definite rx_init 1 line initMatch) as [paramString Hp];
    [reflexivity | cbn; tauto | cbn; lia | exact E |].
  rewrite Hp. destruct (parseParameters_ok paramString) as [parameters ->].
  cbn [bind].
  pose proof (initializer_lines_end (skipn startIndex lines) startIndex false
                (-1) 0 "" startIndex) as H.
  destruct (initializer_lines _ _ _ _ _ _ _) as [body bodyEnd]. cbn [snd] in H.
  eexists. split; [reflexivity|].
  intros x Hx. injection Hx as <-. cbn [initializer_endLine]. lia.
Qed.

Lemma parseProperty_end (line : string) (lines : list string) (startIndex : nat)
  (property : Property) :
  parseProperty line lines startIndex = Some property ->
  (startIndex <= property_endLine property)%nat.
Proof.
  unfold parseProperty.
  destruct (Regex.exec rx_prop line) as [propMatch|]; [|discriminate].
  destruct (Str.includes line "{" || next_is_brace lines startIndex)%bool.
  - intros H. injection H as <-. cbn [property_endLine].
    match goal with |- context [property_lines ?r ?i ?a] =>
      destruct (property_lines_end r i a) as [-> | H] end.
    + cbn [endLine]. lia.
    + destruct (negb (Str.includes line "{") && next_is_brace lines startIndex)%bool;
        lia.
  - intros H. injection H as <-. cbn [property_endLine]. lia.
Qed.

Lemma swift_or_index_le (endLine i : nat) : (i <= endLine -> i <= or_index endLine i)%nat.
Proof. unfold or_index. destruct (Nat.eqb endLine 0); lia. Qed.

(** *** The loop of [parseSwift] *)

(** What an iteration keeps: the loop goes forward, and nothing is added
    to the warnings. *)
Definition advances (i : nat) (st : State) (r : Result (State * nat)) : Prop :=
  exists st' i', r = Ok (st', i') /\ (i <= i')%nat
                 /\ warnings (result st') = warnings (result st).

Lemma swift_advances_here (i : nat) (st st' : State) :
  warnings (result st') = warnings (result st) -> advances i st (Ok (st', i)).
Proof. intros H. exists st', i. auto. Qed.

Lemma warnings_declaration (rx : Regex.RegExp) (make : Regex.MatchResult -> Context)
  (line : string) (st : State) :
  warnings (result (declaration rx make line st)) = warnings (result st).
Proof. unfold declaration. now destruct (Regex.exec rx line). Qed.

Lemma track_ok (line : string) (i : nat) (st : State) :
  exists st', track line i st = Ok st'
              /\ warnings (result st') = warnings (result st).
Proof.
  unfold track.
  set (st1 := if Str.includes line "{" then _ else st).
  assert (H1 : warnings (result st1) = warnings (result st)).
  { unfold st1. now destruct (Str.includes line "{"). }
  set (st2 := if Str.includes line "}" then _ else st1).
  assert (H2 : warnings (result st2) = warnings (result st)).
  { unfold st2. destruct (Str.includes line "}"); [|exact H1].
    match goal with |- context [if ?c then _ else _] => destruct c end; exact H1. }
  clearbody st2. clear st1 H1.
  destruct (Str.includes line "{" && Str.includes line "in")%bool; [|eauto].
  destruct (Regex.exec rx_closure line) as [closureMatch|] eqn:E; [|eauto].
  destruct (exec_definite rx_closure 1 line closureMatch) as [v Hv];
    [reflexivity | cbn; tauto | cbn; lia | exact E |].
  rewrite Hv. cbn [deref bind]. eexists. split; [reflexivity | exact H2].
Qed.

Lemma swift_step_ok (lines : list string) (i : nat) (line : string) (st : State) :
  advances i st (step lines i line st).
Proof.
  unfold step.
  repeat match goal with
  | |- advances _ _ (Ok (_, i)) => apply swift_advances_here
  | |- warnings (result (declaration _ _ _ _)) = _ => apply warnings_declaration
  | |- warnings _ = warnings _ => reflexivity
  | |- advances _ _ (if ?c then _ else _) => destruct c
  | |- advances _ _ (match Regex.exec ?rx ?l with _ => _ end) =>
      destruct (Regex.exec rx l)
  end.
  - destruct (parseFunction_ok line lines i) as (func & -> & Hf). cbn [bind].
    destruct func as [func|]; [|now apply swift_advances_here].
    eexists _, _. split; [reflexivity|]. split.
    + apply swift_or_index_le. now apply Hf.
    + destruct (current_type st) as [[]|]; destruct (currentContext st);
        reflexivity.
  - destruct (parseInitializer_ok line lines i) as (init & -> & Hi). cbn [bind].
    destruct init as [init|]; [|now apply swift_advances_here].
    destruct (in_class_or_struct st); [|now apply swift_advances_here].
    eexists _, _. split; [reflexivity|]. split; [|reflexivity].
    apply swift_or_index_le. now apply Hi.
  - destruct (parseProperty line lines i) as [property|] eqn:E;
      [|now apply swift_advances_here].
    destruct (in_class_or_struct st); [|now apply swift_advances_here].
    eexists _, _. split; [reflexivity|]. split; [|reflexivity].
    apply swift_or_index_le. now apply (parseProperty_end line lines).
  - assert (Ht : advances i st (let! st0 := track line i st in Ok (st0, i))).
    { destruct (track_ok line i st) as (st' & -> & Hw). cbn [bind].
      now apply swift_advances_here. }
    destruct (current_type st) as [[]|]; try exact Ht;
      destruct (currentContext st); try exact Ht.
    destruct (Str.includes line "case "); [|exact Ht].
    destruct (Regex.exec rx_case line); now apply swift_advances_here.
Qed.

Lemma swift_loop_total (lines : list string) (fuel : nat) :
  forall i st,
    (List.length lines <= i + fuel)%nat ->
    exists st', loop fuel lines i st = Some (Ok st')
                /\ warnings (result st') = warnings (result st).
Proof.
  induction fuel as [|fuel IH]; intros i st Hf.
  - assert (E : nth_error lines i = None) by (apply nth_error_None; lia).
    cbn [loop]. rewrite E. eauto.
  - cbn [loop]. destruct (nth_error lines i) as [line|]; [|eauto].
    destruct (swift_step_ok lines i line st) as (st1 & i1 & -> & Hi & Hw).
    destruct (IH (S i1) st1) as (st' & -> & Hw'); [lia|].
    exists st'. split; [reflexivity | congruence].
Qed.

(** [parseSwift] returns on every text, and its result has no
    warning. *)
Lemma parseSwift_total (code : string) :
  exists parsed, parseSwift code = Some (Ok parsed) /\ warnings parsed = [].
Proof.
  unfold parseSwift.
  destruct (swift_loop_total (lines_of code) (List.length (lines_of code)) 0 empty)
    as (st & -> & Hw); [lia|].
  exists (result st). split; [reflexivity | exact Hw].
Qed.

End SwiftParserProps.

(** ** The Objective-C parser *)

Module ObjectiveCParserProps.
Import ObjectiveCConverter CaptureFacts.

Lemma objc_or_index_le (endLine i : nat) : (i <= endLine -> i <= or_index endLine i)%nat.
Proof. unfold or_index. destruct (Nat.eqb endLine 0); lia. Qed.

Lemma method_lines_end (rest : list string) :
  forall i found bodyStart depth body bodyEnd,
    snd (method_lines rest i found bodyStart depth body bodyEnd) = bodyEnd
    \/ (i <= snd (method_lines rest i found bodyStart depth body bodyEnd))%nat.
Proof.
  induction rest as [|l rest IH]; intros i found bodyStart depth body bodyEnd;
    cbn [method_lines]; [now left|].
  match goal with |- context [if ?c then (body, i) else _] => destruct c end.
  - right. cbn [snd]. lia.
  - match goal with |- context [method_lines rest (S i) ?f ?s ?d ?b ?e] =>
      destruct (IH (S i) f s d b e) as [-> | H] end; [now left | right; lia].
Qed.

Lemma parseMethod_ok (line : string) (lines : list string) (startIndex : nat) :
  exists method,
    parseMethod line lines startIndex = Ok method
    /\ forall x, method = Some x -> (startIndex <= endLine x)%nat.
Proof.
  unfold parseMethod.
  destruct (Regex.exec rx_method line) as [methodMatch|] eqn:E.
  2:{ exists None. split; [reflexivity | discriminate]. }
  destruct (exec_definite rx_method 3 line methodMatch) as [signature Hs];
    [reflexivity | cbn; tauto | cbn; lia | exact E |].
  rewrite Hs. cbn [deref bind].
  destruct (Str.endsWith signature ";").
  - eexists. split; [reflexivity|].
    intros x Hx. injection Hx as <-. cbn [endLine]. lia.
  - pose proof (method_lines_end (skipn startIndex lines) startIndex false
                  (-1) 0 "" startIndex) as H.
    destruct (method_lines _ _ _ _ _ _ _) as [body bodyEnd]. cbn [snd] in H.
    eexists. split; [reflexivity|].
    intros x Hx. injection Hx as <-. cbn [endLine]. lia.
Qed.

Lemma protocol_lines_ok (lines rest : list string) :
  forall i methods endLine,
    exists found,
      protocol_lines lines rest i methods endLine = Ok found
      /\ (snd found = endLine \/ (i <= snd found)%nat).
Proof.
  induction rest as [|l rest IH]; intros i methods endLine; cbn [protocol_lines].
  - eexists. split; [reflexivity | now left].
  - destruct (String.eqb (Str.trim l) "@end").
    { eexists. split; [reflexivity | right; cbn [snd]; lia]. }
    assert (Hnext : forall ms,
      exists found,
        protocol_lines lines rest (S i) ms endLine = Ok found
        /\ (snd found = endLine \/ (i <= snd found)%nat)).
    { intros ms. destruct (IH (S i) ms endLine) as (found & -> & H).
      exists found. split; [reflexivity|]. destruct H; [now left | right; lia]. }
    destruct (Regex.test rx_method_line (Str.trim l)); [|apply Hnext].
    destruct (parseMethod_ok (Str.trim l) lines i) as (method & -> & _).
    cbn [bind]. destruct method; apply Hnext.
Qed.

Lemma parseProtocols_ok (line : string) (lines : list string) (startIndex : nat) :
  exists protocol,
    parseProtocols line lines startIndex = Ok protocol
    /\ forall x, protocol = Some x -> (startIndex <= protocol_endLine x)%nat.
Proof.
  unfold parseProtocols.
  destruct (Regex.exec rx_protocol line) as [protocolMatch|].
  2:{ exists None. split; [reflexivity | discriminate]. }
  destruct (protocol_lines_ok lines (skipn (S startIndex) lines) (S startIndex) []
              startIndex) as (found & -> & H).
  cbn [bind]. eexists. split; [reflexivity|].
  intros x Hx. injection Hx as <-. cbn [protocol_endLine]. lia.
Qed.

Lemma category_lines_ok (lines : list string) (fuel : nat) :
  forall i methods endLine,
    (List.length lines <= i + fuel)%nat ->
    exists found,
      category_lines fuel lines i methods endLine = Some (Ok found)
      /\ (snd found = endLine \/ (i <= snd found)%nat).
Proof.
  induction fuel as [|fuel IH]; intros i methods endLine Hf.
  - assert (E : nth_error lines i = None) by (apply nth_error_None; lia).
    cbn [category_lines]. rewrite E. eexists. split; [reflexivity | now left].
  - cbn [category_lines]. destruct (nth_error lines i) as [l|].
    2:{ eexists. split; [reflexivity | now left]. }
    destruct (String.eqb (Str.trim l) "@end").
    { eexists. split; [reflexivity | right; cbn [snd]; lia]. }
    assert (Hnext : forall j ms,
      (i <= j)%nat ->
      exists found,
        category_lines fuel lines (S j) ms endLine = Some (Ok found)
        /\ (snd found = endLine \/ (i <= snd found)%nat)).
    { intros j ms Hj. destruct (IH (S j) ms endLine) as (found & -> & H); [lia|].
      exists found. split; [reflexivity|]. destruct H; [now left | right; lia]. }
    destruct (Regex.test rx_method_line (Str.trim l)); [|now apply Hnext].
    destruct (parseMethod_ok (Str.trim l) lines i) as (method & -> & Hm).
    destruct method as [method|]; [|now apply Hnext].
    apply Hnext. apply objc_or_index_le. now apply Hm.
Qed.

Lemma parseCategory_ok (line : string) (lines : list string) (startIndex : nat) :
  exists category,
    parseCategory line lines startIndex = Some (Ok category)
    /\ forall x, category = Some x -> (startIndex <= category_endLine x)%nat.
Proof.
  unfold parseCategory.
  destruct (Regex.exec rx_category line) as [categoryMatch|].
  2:{ exists None. split; [reflexivity | discriminate]. }
  destruct (category_lines_ok lines (List.length lines) (S startIndex) []
              startIndex) as ([methods endLine] & -> & H); [lia|].
  eexists. split; [reflexivity|].
  intros x Hx. injection Hx as <-. cbn [category_endLine]. cbn [snd] in H. lia.
Qed.

(** *** The loop of [parseObjectiveC] *)

Definition missing : string := "this.parseFunction is not a function".

(** An iteration goes forward and adds nothing to the warnings. *)
Definition advances (i : nat) (st : State) (r : option (Result (State * nat)))
  : Prop :=
  exists st' i', r = Some (Ok (st', i')) /\ (i <= i')%nat
                 /\ warnings (result st') = warnings (result st).

Lemma objc_advances_here (i : nat) (st st' : State) :
  warnings (result st') = warnings (result st) ->
  advances i st (Some (Ok (st', i))).
Proof. intros H. exists st', i. auto. Qed.

Lemma warnings_update_class (id : nat) (f : ClassDecl -> ClassDecl) (st : State) :
  warnings (result (update_class id f st)) = warnings (result st).
Proof. reflexivity. Qed.

Lemma warnings_track (line : string) (st : State) :
  warnings (result (track line st)) = warnings (result st).
Proof.
  unfold track.
  match goal with |- context [if ?c then _ else _] => destruct c end;
    [|reflexivity].
  now destruct (Regex.exec rx_variable line).
Qed.

(** An iteration either goes forward or, on a line that has the form
    of a function, fails on the call of the missing method. *)
Lemma objc_step_ok (lines : list string) (i : nat) (line : string) (st : State) :
  advances i st (step lines i line st)
  \/ (step lines i line st = Some (Throw missing)
      /\ Regex.test rx_function_line line = true).
Proof.
  unfold step.
  repeat match goal with
  | |- advances _ _ (Some (Ok (_, i))) \/ _ => left; apply objc_advances_here
  | |- warnings (result (track _ _)) = _ => apply warnings_track
  | |- warnings _ = warnings _ => reflexivity
  | |- advances _ _ (if ?c then _ else _) \/ _ => destruct c eqn:?
  | |- advances _ _ (match Regex.exec ?rx ?l with _ => _ end) \/ _ =>
      destruct (Regex.exec rx l) eqn:?
  | |- advances _ _ (match find_class ?n ?cs ?k with _ => _ end) \/ _ =>
      destruct (find_class n cs k)
  | |- advances _ _ (match currentClass ?s with _ => _ end) \/ _ =>
      destruct (currentClass s) eqn:?
  end.
  - left. destruct (parseProtocols_ok line lines i) as (protocol & -> & Hp).
    destruct protocol as [protocol|]; [|now apply objc_advances_here].
    eexists _, _. split; [reflexivity|]. split; [now apply Hp | reflexivity].
  - left. destruct (parseCategory_ok line lines i) as (category & -> & Hc).
    destruct category as [category|]; [|now apply objc_advances_here].
    eexists _, _. split; [reflexivity|]. split; [now apply Hc | reflexivity].
  - left.
    match goal with E : Regex.exec rx_property line = Some ?mt |- _ =>
      destruct (exec_definite rx_property 2 line mt) as [v Hv];
        [reflexivity | cbn; tauto | cbn; lia | exact E |] end.
    rewrite Hv. cbn [deref bind]. now apply objc_advances_here.
  - left. destruct (parseMethod_ok line lines i) as (method & -> & Hm).
    cbn [bind]. destruct method as [method|]; [|now apply objc_advances_here].
    eexists _, _. split; [reflexivity|]. split.
    + apply objc_or_index_le. now apply Hm.
    + now destruct (currentClass st).
  - left.
    match goal with E : Regex.exec rx_block line = Some ?mt |- _ =>
      destruct (exec_definite rx_block 2 line mt) as [v Hv];
        [reflexivity | cbn; tauto | cbn; lia | exact E |] end.
    rewrite Hv. cbn [deref bind]. now apply objc_advances_here.
  - right. split; reflexivity.
Qed.

Lemma objc_loop_total (lines : list string) (fuel : nat) :
  forall i st,
    (List.length lines <= i + fuel)%nat ->
    (exists st', loop fuel lines i st = Some (Ok st')
                 /\ warnings (result st') = warnings (result st))
    \/ (loop fuel lines i st = Some (Throw missing)
        /\ Exists (fun line => Regex.test rx_function_line line = true) lines).
Proof.
  induction fuel as [|fuel IH]; intros i st Hf.
  - assert (E : nth_error lines i = None) by (apply nth_error_None; lia).
    cbn [loop]. rewrite E. eauto.
  - cbn [loop]. destruct (nth_error lines i) as [line|] eqn:E; [|eauto].
    destruct (objc_step_ok lines i line st) as [(st1 & i1 & -> & Hi & Hw) | [-> Ht]].
    + destruct (IH (S i1) st1) as [(st' & -> & Hw') | [-> Hex]]; [lia | |].
      * left. exists st'. split; [reflexivity | congruence].
      * right. split; [reflexivity | exact Hex].
    + right. split; [reflexivity|].
      apply List.Exists_exists. exists line. split; [|exact Ht].
      eapply nth_error_In, E.
Qed.

(** [parseObjectiveC] returns a result without warnings, or it fails on
    the call of the missing method, which needs a line that has the
    form of a function. *)
Lemma parseObjectiveC_total (code : string) :
  (exists parsed,
      parseObjectiveC code = Some (Ok parsed) /\ warnings parsed = [])
  \/ (parseObjectiveC code = Some (Throw missing)
      /\ Exists (fun line => Regex.test rx_function_line line = true)
           (lines_of code)).
Proof.
  unfold parseObjectiveC.
  destruct (objc_loop_total (lines_of code) (List.length (lines_of code)) 0 empty)
    as [(st & -> & Hw) | [-> Hex]]; [lia | |].
  - left. exists (result st). split; [reflexivity | exact Hw].
  - right. split; [reflexivity | exact Hex].
Qed.

End ObjectiveCParserProps.

(** ** The parsers and malformed input *)

Module ParserProps.

(** C6, counterexample.  A truncated Swift function declaration and an
    Objective-C [@interface] line without a name are skipped: each
    parser returns its empty result, and the list of warnings in it is
    empty. *)
Lemma malformed_input_leaves_no_warning :
  SwiftConverter.parseSwift "func broken("
  = Some (Ok (SwiftConverter.mkParsed [] [] [] [] [] []))
  /\ SwiftConverter.warnings (SwiftConverter.mkParsed [] [] [] [] [] []) = []
  /\ ObjectiveCConverter.parseObjectiveC "@interface"
     = Some (Ok (ObjectiveCConverter.mkParsed [] [] [] [] [] [] [] [] []))
  /\ ObjectiveCConverter.warnings
       (ObjectiveCConverter.mkParsed [] [] [] [] [] [] [] [] []) = [].
Proof. repeat split; vm_compute; reflexivity. Qed.

(** A line that has the form of a function makes [parseObjectiveC]
    call [this.parseFunction], which the class does not define. *)
Lemma standalone_function_throws :
  ObjectiveCConverter.parseObjectiveC "int main(void) {"
  = Some (Throw "this.parseFunction is not a function").
Proof. vm_compute. reflexivity. Qed.

(** C6, amended.  [parseSwift] returns a result for every text, and so
    does [parseObjectiveC] for every text none of whose lines has the
    form of a standalone function; neither throws there, and the list
    of warnings of the result is empty: a line that is not recognised
    is skipped and not recorded. *)
Theorem parsers_return_without_warnings :
  (forall code,
      exists parsed,
        SwiftConverter.parseSwift code = Some (Ok parsed)
        /\ SwiftConverter.warnings parsed = [])
  /\ (forall code,
         Forall (fun line =>
                   Regex.test ObjectiveCConverter.rx_function_line line = false)
           (ObjectiveCConverter.lines_of code) ->
         exists parsed,
           ObjectiveCConverter.parseObjectiveC code = Some (Ok parsed)
           /\ ObjectiveCConverter.warnings parsed = []).
Proof.
  split.
  - apply SwiftParserProps.parseSwift_total.
  - intros code Hno.
    destruct (ObjectiveCParserProps.parseObjectiveC_total code)
      as [H | [_ Hex]]; [exact H|].
    apply List.Exists_exists in Hex as (line & Hin & Ht).
    rewrite List.Forall_forall in Hno. rewrite (Hno line Hin) in Ht.
    discriminate Ht.
Qed.

Definition circle : string :=
  Str.lines
  [ "@interface Circle : NSObject";
    "@property double radius;";
    "- (double)area;";
    "@end";
    "@implementation Circle";
    "- (double)area {";
    "  return 3.14;";
    "}";
    "@end" ].

(** C6, witness: an interface and an implementation with one method. *)
Lemma parsers_return_without_warnings_witness :
  Forall (fun line => Regex.test ObjectiveCConverter.rx_function_line line = false)
    (ObjectiveCConverter.lines_of circle)
  /\ exists parsed,
      ObjectiveCConverter.parseObjectiveC circle = Some (Ok parsed)
      /\ ObjectiveCConverter.warnings parsed = [].
Proof.
  assert (H : Forall (fun line =>
                        Regex.test ObjectiveCConverter.rx_function_line line = false)
                (ObjectiveCConverter.lines_of circle)).
  { apply List.Forall_forall. intros line Hin.
    vm_compute in Hin.
    repeat (destruct Hin as [<- | Hin]; [vm_compute; reflexivity|]).
    destruct Hin. }
  split; [exact H|].
  exact (proj2 parsers_return_without_warnings circle H).
Defined.

End ParserProps.

(** * Further properties *)

(** ** JITEngine: the compilation cache and the statistics *)

Module EngineCacheProps.
Import JITEngine.

(** The engine after a hit in the cache: one more hit, and nothing
    else. *)
Definition after_hit (e : Engine) : Engine :=
  mkEngine (compilationCache e)
    (mkStats (totalCompilations (stats e)) (cacheHits (stats e) + 1)
       (averageCompileTime (stats e))).

(** A result that [compile] has returned with the cache enabled is
    returned again, as it is, by the next [compile] of the same code
    and options, whatever the virtual machine and the clock: the engine
    counts a hit and is otherwise left as it was.  With [cache: false]
    the cache is neither read nor written. *)
Theorem compile_again_from_cache :
  (forall (vm vm' : VM.t) (elapsed elapsed' : Z * Z) (e e1 : Engine)
          (code : string) (options : Options) (r1 : CompileResult),
      default true (cache options) = true ->
      compile vm elapsed e code options = (Ok r1, e1) ->
      compile vm' elapsed' e1 code options = (Ok r1, after_hit e1))
  /\ (forall (vm : VM.t) (elapsed : Z * Z) (e : Engine) (code : string)
             (options : Options),
         default true (cache options) = false ->
         fst (compile vm elapsed e code options)
         = rethrow "JIT Compilation failed: " (compile_body vm elapsed code options)
         /\ compilationCache (snd (compile vm elapsed e code options))
            = compilationCache e).
Proof.
  split.
  - intros vm vm' elapsed elapsed' e e1 code options r1 Hc. unfold compile.
    rewrite Hc.
    destruct (compilationCache e !! generateCacheKey code options) as [hit|] eqn:Hl.
    + intros H. injection H as <- <-. cbn [compilationCache]. now rewrite Hl.
    + destruct (rethrow _ _) as [res|]; [|discriminate].
      intros H. injection H as <- <-. cbn [compilationCache].
      now rewrite lookup_insert_eq.
  - intros vm elapsed e code options Hc. unfold compile. rewrite Hc.
    now destruct (rethrow _ _).
Qed.

(** The code [1 + 2] compiled twice, the second time on a machine on
    which nothing finishes. *)
Lemma compile_again_from_cache_witness :
  exists r1 e1,
    default true (cache (mkOptions None None None None)) = true
    /\ compile JITEngineProps.quiet_vm (0, 1500000)%Z new "1 + 2"
         (mkOptions None None None None) = (Ok r1, e1)
    /\ compile JITEngineProps.hanging_vm (7, 0)%Z e1 "1 + 2"
         (mkOptions None None None None) = (Ok r1, after_hit e1).
Proof.
  destruct (compile JITEngineProps.quiet_vm (0, 1500000)%Z new "1 + 2"
              (mkOptions None None None None)) as [[r1|msg] e1] eqn:Hc;
    [|vm_compute in Hc; discriminate Hc].
  exists r1, e1. split; [reflexivity|]. split; [reflexivity|].
  exact (proj1 compile_again_from_cache JITEngineProps.quiet_vm
           JITEngineProps.hanging_vm (0, 1500000)%Z (7, 0)%Z new e1 "1 + 2"
           (mkOptions None None None None) r1 eq_refl Hc).
Defined.

(** An engine in use: a new engine after any number of calls of
    [compile] and [clearCache]. *)
Inductive in_use : Engine -> Prop :=
| in_use_new : in_use new
| in_use_compile (vm : VM.t) (elapsed : Z * Z) (e : Engine) (code : string)
    (options : Options) :
    in_use e -> in_use (snd (compile vm elapsed e code options))
| in_use_clear (e : Engine) : in_use e -> in_use (clearCache e).

Lemma in_use_counts (e : Engine) :
  in_use e ->
  (Z.of_nat (size (compilationCache e)) <= totalCompilations (stats e))%Z
  /\ (0 <= cacheHits (stats e))%Z.
Proof.
  induction 1 as [|vm elapsed e code options He [IH1 IH2]|e He [IH1 IH2]].
  - cbn. rewrite map_size_empty. lia.
  - unfold compile.
    destruct (if default true (cache options)
              then compilationCache e !! generateCacheKey code options
              else None) as [hit|]; [cbn; lia|].
    destruct (rethrow _ _) as [res|]; cbn [snd compilationCache stats
      totalCompilations cacheHits]; [|lia].
    split; [|lia].
    destruct (default true (cache options)); [|lia].
    rewrite map_size_insert.
    destruct (compilationCache e !! generateCacheKey code options); cbn; lia.
  - cbn. rewrite map_size_empty. lia.
Qed.

(** The statistics of an engine in use: the cache never holds more
    entries than compilations were counted, the hit count and the hit
    rate are not negative, and before the first counted compilation the
    rate is zero and the cache empty. *)
Theorem stats_of_engine_in_use (e : Engine) :
  in_use e ->
  (Z.of_nat (cacheSize (getStats e)) <= report_totalCompilations (getStats e))%Z
  /\ (0 <= report_cacheHits (getStats e))%Z
  /\ (0 <= cacheHitRate (getStats e))%Q
  /\ (report_totalCompilations (getStats e) = 0%Z ->
      cacheSize (getStats e) = 0%nat /\ cacheHitRate (getStats e) = 0%Q).
Proof.
  intros H. destruct (in_use_counts e H) as [Hs Hh].
  unfold getStats. cbn [cacheSize report_totalCompilations report_cacheHits
                         cacheHitRate].
  split; [exact Hs|]. split; [exact Hh|]. split.
  - destruct (0 <? totalCompilations (stats e))%Z eqn:E; [|apply Qle_refl].
    apply Z.ltb_lt in E.
    apply Qmult_le_0_compat; [|discriminate].
    apply Qle_shift_div_l.
    + unfold Qlt. cbn. lia.
    + rewrite Qmult_0_l. unfold Qle. cbn. lia.
  - intros H0. rewrite H0 in *. split; [lia | reflexivity].
Qed.

Lemma stats_of_engine_in_use_witness :
  in_use (clearCache (snd (compile JITEngineProps.quiet_vm (0, 1500000)%Z new
                             "1 + 2" (mkOptions None None None None))))
  /\ (0 <= report_cacheHits
             (getStats (clearCache (snd (compile JITEngineProps.quiet_vm
                (0, 1500000)%Z new "1 + 2" (mkOptions None None None None))))))%Z.
Proof.
  assert (H : in_use (clearCache (snd (compile JITEngineProps.quiet_vm
                (0, 1500000)%Z new "1 + 2" (mkOptions None None None None))))).
  { apply in_use_clear, in_use_compile, in_use_new. }
  split; [exact H|].
  exact (proj1 (proj2 (stats_of_engine_in_use _ H))).
Defined.

End EngineCacheProps.

(** ** What a match consumes and captures *)

Module RunFacts.
Import Regex RegexFacts.

(** The text [w] is one that a match of [r] can consume: it is empty
    and [r] is nullable, or it begins with a character [r] can begin
    with. *)
Definition headed (r : regex) (w : string) : Prop :=
  match w with
  | "" => nullable r = true
  | String c _ => first r c = true
  end.

(** A captured text begins with a character of the kind [p]. *)
Definition head_in (p : ascii -> bool) (v : string) : Prop :=
  match v with
  | "" => False
  | String c _ => p c = true
  end.

Definition caps_in (p : ascii -> bool) (cs : captures) : Prop :=
  forall n v, get_cap n cs = Some v -> head_in p v.

(** Every group of [r] consumes at least one character, and begins
    with a character of the kind [p]. *)
Fixpoint group_heads (p : ascii -> bool) (r : regex) : Prop :=
  match r with
  | Seq a b | Alt a b => group_heads p a /\ group_heads p b
  | Star _ a | Plus _ a | Opt _ a | Look _ a => group_heads p a
  | Group _ a =>
      nullable a = false /\ (forall c, first a c = true -> p c = true)
      /\ group_heads p a
  | _ => True
  end.

(** [st'] is [st] after the text [w]. *)
Definition after (st st' : mst) (w : string) : Prop :=
  m_rest st = w ++ m_rest st'
  /\ m_pos st' = (m_pos st + String.length w)%nat.

Lemma after_refl (st : mst) : after st st "".
Proof. split; [reflexivity | cbn; lia]. Qed.

Lemma after_trans (st1 st2 st3 : mst) (w1 w2 : string) :
  after st1 st2 w1 -> after st2 st3 w2 -> after st1 st3 (w1 ++ w2).
Proof.
  intros [R1 P1] [R2 P2]. split.
  - now rewrite R1, R2, StrFacts.append_assoc.
  - rewrite P2, P1, StrFacts.length_append. lia.
Qed.

Lemma take_append (a b : string) : Str.take (String.length a) (a ++ b) = a.
Proof.
  induction a as [|c a IH]; [now destruct b|].
  rewrite StrFacts.append_cons. cbn [String.length Str.take]. now rewrite IH.
Qed.

Lemma get_cap_cleared (n : nat) (gs : list nat) (cs : captures) :
  In n gs -> get_cap n (clear_caps gs cs) = None.
Proof.
  intros Hn. destruct gs as [|g gs]; [destruct Hn|].
  unfold clear_caps. set (l := g :: gs) in *. clearbody l.
  induction cs as [|[i x] cs IH]; [reflexivity|].
  cbn [List.filter fst].
  destruct (existsb (Nat.eqb i) l) eqn:E; cbn [negb]; [exact IH|].
  cbn [get_cap]. destruct (Nat.eqb_spec i n) as [->|_]; [|exact IH].
  exfalso. apply not_true_iff_false in E. apply E.
  apply existsb_exists. exists n. split; [exact Hn | apply Nat.eqb_refl].
Qed.

Lemma get_cap_clear_some (n : nat) (gs : list nat) (cs : captures) (v : string) :
  get_cap n (clear_caps gs cs) = Some v -> get_cap n cs = Some v.
Proof.
  destruct (in_dec Nat.eq_dec n gs) as [Hin | Hout].
  - now rewrite get_cap_cleared.
  - now rewrite CaptureFacts.get_cap_clear.
Qed.

Lemma caps_in_reset (p : ascii -> bool) (gs : list nat) (st : mst) :
  caps_in p (m_caps st) -> caps_in p (m_caps (reset gs st)).
Proof. intros H n v Hv. apply (H n). now apply get_cap_clear_some in Hv. Qed.

(** The outcome of a match: the continuation was called after a text
    that the expression can consume, and the captures that were set
    hold the text their group consumed. *)
Definition outcome (p : ascii -> bool) (r : regex) (k : cont) (st res : mst)
  : Prop :=
  exists st' w,
    k st' = Some res /\ after st st' w /\ headed r w
    /\ (group_heads p r -> caps_in p (m_caps st) -> caps_in p (m_caps st')).

Lemma step_char_outcome (p : ascii -> bool) (q : ascii -> bool) (r : regex)
  (k : cont) (st res : mst) :
  (forall c, q c = true -> first r c = true) ->
  step_char q k st = Some res -> outcome p r k st res.
Proof.
  intros Hq. unfold step_char.
  destruct (m_rest st) as [|c rest] eqn:E; [discriminate|].
  destruct (q c) eqn:Ec; [|discriminate].
  intros H. eexists. exists (String c ""). split; [exact H|]. split; [|split].
  - split; cbn [m_rest m_pos String.length]; [exact E | lia].
  - apply Hq, Ec.
  - auto.
Qed.

Definition headed_star (r1 : regex) (w : string) : Prop :=
  match w with
  | "" => True
  | String c _ => first r1 c = true
  end.

Section Star.
Variable p : ascii -> bool.
Variable body : cont -> cont.
Variable r1 : regex.
Variable G : Prop.
Hypothesis body_outcome : forall k st res,
  body k st = Some res ->
  exists st' w,
    k st' = Some res /\ after st st' w /\ headed r1 w
    /\ (G -> caps_in p (m_caps st) -> caps_in p (m_caps st')).

Lemma star_loop_outcome (g : bool) (k : cont) (fuel : string) :
  forall st res,
    star_loop body g k fuel st = Some res ->
    exists st' w,
      k st' = Some res /\ after st st' w /\ headed_star r1 w
      /\ (G -> caps_in p (m_caps st) -> caps_in p (m_caps st')).
Proof.
  induction fuel as [|x fuel IH]; intros st res H; simpl in H.
  - exists st, "". split; [exact H|]. split; [apply after_refl|]. split; [exact I | auto].
  - assert (Hiter : forall res',
      body (fun st' => if Nat.eqb (m_pos st') (m_pos st) then None
                       else star_loop body g k fuel st') st = Some res' ->
      exists st' w,
        k st' = Some res' /\ after st st' w /\ headed_star r1 w
        /\ (G -> caps_in p (m_caps st) -> caps_in p (m_caps st'))).
    { intros res' Hb. apply body_outcome in Hb as (st1 & w1 & Hk & A1 & H1 & C1).
      destruct (Nat.eqb_spec (m_pos st1) (m_pos st)) as [|Hne]; [discriminate|].
      apply IH in Hk as (st' & w2 & Hk & A2 & H2 & C2).
      exists st', (w1 ++ w2). split; [exact Hk|].
      split; [exact (after_trans _ _ _ _ _ A1 A2)|]. split; [|auto].
      destruct w1 as [|c w1].
      - exfalso. apply Hne. destruct A1 as [_ A1]. cbn in A1. lia.
      - exact H1. }
    destruct g; apply orelse_some in H; destruct H as [H | [_ H]];
      try (now apply Hiter);
      exists st, ""; (split; [exact H|]); (split; [apply after_refl|]);
      (split; [exact I | auto]).
Qed.
End Star.

Lemma headed_seq (r1 r2 : regex) (w1 w2 : string) :
  headed r1 w1 -> headed r2 w2 -> headed (Seq r1 r2) (w1 ++ w2).
Proof.
  destruct w1 as [|c w1]; [destruct w2 as [|c w2]|];
    simpl; intros H1 H2.
  - now rewrite H1, H2.
  - rewrite H1, H2. apply orb_true_r.
  - now rewrite H1.
Qed.

Lemma headed_plus (g : bool) (r1 : regex) (w1 w2 : string) :
  headed r1 w1 -> headed_star r1 w2 -> headed (Plus g r1) (w1 ++ w2).
Proof.
  destruct w1 as [|c w1]; [destruct w2 as [|c w2]|];
    simpl; auto.
Qed.

(** What a successful match has consumed and captured. *)
Lemma m_run (p : ascii -> bool) (ml : bool) (r : regex) :
  forall k st res, m ml r k st = Some res -> outcome p r k st res.
Proof.
  induction r as [ | c | | neg items | neg | | | r1 IH1 r2 IH2 | r1 IH1 r2 IH2
                 | g r1 IH1 | g r1 IH1 | g r1 IH1 | n r1 IH1 | n | neg r1 IH1 ];
    intros k st res H; cbn [m] in H.
  - exists st, "". split; [exact H|]. split; [apply after_refl|]. split; [reflexivity | auto].
  - apply (step_char_outcome p _ (Chr c)) in H; [exact H | auto].
  - apply (step_char_outcome p _ Dot) in H; [exact H | auto].
  - apply (step_char_outcome p _ (Cls neg items)) in H; [exact H | auto].
  - destruct (xorb neg (at_word_boundary st)); [|discriminate].
    exists st, "". split; [exact H|]. split; [apply after_refl|]. split; [reflexivity | auto].
  - destruct (at_bol ml st); [|discriminate].
    exists st, "". split; [exact H|]. split; [apply after_refl|]. split; [reflexivity | auto].
  - destruct (at_eol ml st); [|discriminate].
    exists st, "". split; [exact H|]. split; [apply after_refl|]. split; [reflexivity | auto].
  - apply IH1 in H as (st1 & w1 & H & A1 & H1 & C1).
    apply IH2 in H as (st2 & w2 & Hk & A2 & H2 & C2).
    exists st2, (w1 ++ w2). split; [exact Hk|].
    split; [exact (after_trans _ _ _ _ _ A1 A2)|].
    split; [now apply headed_seq|].
    intros [G1 G2] Hc. auto.
  - apply orelse_some in H as [H | [_ H]].
    + apply IH1 in H as (st' & w & Hk & A & Hh & C).
      exists st', w. split; [exact Hk|]. split; [exact A|]. split.
      * unfold headed in *. destruct w; cbn [nullable first]; now rewrite Hh.
      * intros [G1 G2]. auto.
    + apply IH2 in H as (st' & w & Hk & A & Hh & C).
      exists st', w. split; [exact Hk|]. split; [exact A|]. split.
      * unfold headed in *. destruct w; cbn [nullable first]; rewrite Hh;
          apply orb_true_r.
      * intros [G1 G2]. auto.
  - apply (star_loop_outcome p _ r1 (group_heads p r1)) in H.
    + destruct H as (st' & w & Hk & A & Hh & C).
      exists st', w. split; [exact Hk|]. split; [exact A|]. split; [|exact C].
      unfold headed. now destruct w.
    + intros k' st0 res0 Hb. apply IH1 in Hb as (st' & w & Hk & A & Hh & C).
      exists st', w. split; [exact Hk|]. split; [exact A|]. split; [exact Hh|].
      intros G Hc. apply (C G). now apply caps_in_reset.
  - apply IH1 in H as (st1 & w1 & H & A1 & H1 & C1).
    apply (star_loop_outcome p _ r1 (group_heads p r1)) in H.
    + destruct H as (st' & w2 & Hk & A2 & H2 & C2).
      exists st', (w1 ++ w2). split; [exact Hk|].
      split; [exact (after_trans _ _ _ _ _ A1 A2)|].
      split; [now apply headed_plus|].
      intros G Hc. apply (C2 G), (C1 G). now apply caps_in_reset.
    + intros k' st0 res0 Hb. apply IH1 in Hb as (st' & w & Hk & A & Hh & C).
      exists st', w. split; [exact Hk|]. split; [exact A|]. split; [exact Hh|].
      intros G Hc. apply (C G). now apply caps_in_reset.
  - assert (Hone : forall res',
      m ml r1 (fun st' => if Nat.eqb (m_pos st') (m_pos st) then None else k st')
        (reset (groups r1) st) = Some res' ->
      outcome p (Opt g r1) k st res').
    { intros res' Hb. apply IH1 in Hb as (st' & w & Hk & A & Hh & C).
      destruct (Nat.eqb (m_pos st') (m_pos st)); [discriminate|].
      exists st', w. split; [exact Hk|]. split; [exact A|]. split.
      - unfold headed in *. now destruct w.
      - intros G Hc. apply (C G). now apply caps_in_reset. }
    destruct g; apply orelse_some in H; destruct H as [H | [_ H]];
      try (now apply Hone);
      exists st, ""; (split; [exact H|]); (split; [apply after_refl|]);
      (split; [reflexivity | auto]).
  - apply IH1 in H as (st1 & w & H & A & Hh & C).
    eexists. exists w. split; [exact H|]. split; [exact A|]. split.
    + unfold headed in *. now destruct w.
    + intros (Gn & Gf & G) Hc j v. cbn [m_caps with_caps].
      rewrite CaptureFacts.get_cap_cons.
      destruct (Nat.eqb n j); [|apply (C G Hc)].
      intros E. injection E as <-.
      destruct A as [R P]. rewrite P, R.
      replace (m_pos st + String.length w - m_pos st)%nat with (String.length w) by lia.
      rewrite take_append. unfold headed in Hh. destruct w as [|c w].
      * congruence.
      * apply Gf, Hh.
  - destruct (get_cap n (m_caps st)) as [v|].
    + destruct (Str.starts v (m_rest st)) eqn:E; [|discriminate].
      apply StrFacts.starts_inv in E as [rest E].
      eexists. exists v. split; [exact H|]. split; [|split].
      * split; cbn [m_rest m_pos]; [|reflexivity].
        rewrite E. now rewrite WordFacts.drop_append.
      * unfold headed. now destruct v.
      * auto.
    + exists st, "". split; [exact H|]. split; [apply after_refl|].
      split; [reflexivity | auto].
  - destruct (m ml r1 accept st) as [st1|] eqn:E; destruct neg; try discriminate.
    + apply IH1 in E as (st' & w & Ha & _ & _ & C). injection Ha as ->.
      eexists. exists "". split; [exact H|]. split; [|split].
      * split; cbn [m_rest m_pos with_caps]; [reflexivity | cbn; lia].
      * reflexivity.
      * intros G Hc. cbn [m_caps with_caps]. auto.
    + exists st, "". split; [exact H|]. split; [apply after_refl|].
      split; [reflexivity | auto].
Qed.

(** The length and the captures of a match at the current position. *)
Lemma match_here_run (p : ascii -> bool) (rx : RegExp) (prev : option ascii)
  (s : string) (n : nat) (cs : captures) :
  match_here rx prev s = Some (n, cs) ->
  (n <= String.length s)%nat
  /\ headed (ast rx) (Str.take n s)
  /\ (group_heads p (ast rx) -> caps_in p cs).
Proof.
  unfold match_here.
  destruct (m (multiline rx) (ast rx) accept (MSt prev s 0 [])) as [res|] eqn:E;
    [|discriminate].
  intros H. injection H as <- <-.
  apply (m_run p) in E as (st' & w & Ha & [R P] & Hh & C). injection Ha as ->.
  cbn [m_rest m_pos] in R, P. rewrite P, R. cbn [Nat.add].
  rewrite take_append, StrFacts.length_append.
  split; [lia|]. split; [exact Hh|].
  intros G. apply (C G). intros j v Hv. discriminate Hv.
Qed.

(** A match of an expression that is not nullable is not empty. *)
Lemma match_here_positive (rx : RegExp) (prev : option ascii) (s : string)
  (n : nat) (cs : captures) :
  nullable (ast rx) = false ->
  match_here rx prev s = Some (n, cs) -> (0 < n)%nat.
Proof.
  intros Hn H.
  destruct (match_here_run (fun _ => true) _ _ _ _ _ H) as (Hl & Hh & _).
  destruct n as [|n]; [|lia]. exfalso.
  unfold headed in Hh. cbn [Str.take] in Hh.
  destruct s; cbn in Hh; congruence.
Qed.

Definition cap_in (p : ascii -> bool) (c : option string) : Prop :=
  match c with
  | Some v => head_in p v
  | None => True
  end.

Lemma cap_list_in (p : ascii -> bool) (ng : nat) (cs : captures) :
  caps_in p cs -> Forall (cap_in p) (cap_list ng cs).
Proof.
  intros H. unfold cap_list. apply List.Forall_forall. intros c Hc.
  apply in_map_iff in Hc as (j & <- & _). unfold cap_in.
  destruct (get_cap j cs) as [v|] eqn:E; [|exact I]. now apply (H j).
Qed.

Lemma search_caps (p : ascii -> bool) (rx : RegExp) :
  group_heads p (ast rx) ->
  forall s prev i mr,
    search rx prev s i = Some mr -> Forall (cap_in p) (caps mr).
Proof.
  intros G. induction s as [|c s IH]; intros prev i mr; cbn [search];
    destruct (match_here rx prev _) as [[n cs]|] eqn:E; intros H;
    try discriminate H.
  - injection H as <-. cbn [caps]. apply cap_list_in.
    now apply (match_here_run p _ _ _ _ _ E).
  - injection H as <-. cbn [caps]. apply cap_list_in.
    now apply (match_here_run p _ _ _ _ _ E).
  - now apply IH in H.
Qed.

(** Every capture of [rx.exec(s)] that is set begins with a character
    of the kind its group begins with. *)
Lemma exec_caps (p : ascii -> bool) (rx : RegExp) (s : string) (mr : MatchResult) :
  group_heads p (ast rx) -> exec rx s = Some mr -> Forall (cap_in p) (caps mr).
Proof. intros G. now apply search_caps. Qed.

End RunFacts.

(** ** JITConverter: lowering and code generation *)

Module ConverterProps.
Import JITConverter.

(** *** Sets of names *)

Lemma dedupe_spec (l : list string) :
  forall seen,
    List.NoDup (dedupe seen l)
    /\ forall x, In x (dedupe seen l) <-> In x l /\ ~ In x seen.
Proof.
  induction l as [|y l IH]; intros seen; cbn [dedupe].
  - split; [constructor|]. intros x. cbn. tauto.
  - destruct (existsb (String.eqb y) seen) eqn:E.
    + apply existsb_exists in E as (z & Hz & E). apply String.eqb_eq in E. subst z.
      destruct (IH seen) as [Hn Hi]. split; [exact Hn|].
      intros x. rewrite Hi. cbn. split; [tauto|].
      intros [[<- | Hx] Hs]; [contradiction | tauto].
    + assert (Hy : ~ In y seen).
      { intros Hy. apply not_true_iff_false in E. apply E.
        apply existsb_exists. exists y. split; [exact Hy | apply String.eqb_refl]. }
      destruct (IH (y :: seen)) as [Hn Hi]. split.
      * constructor; [|exact Hn]. rewrite Hi. cbn. tauto.
      * intros x. cbn [In]. rewrite Hi. cbn [In]. split.
        -- intros [<- | [Hx Hs]]; [tauto|]. split; [tauto|]. tauto.
        -- intros [[<- | Hx] Hs]; [tauto|].
           destruct (String.eqb_spec y x) as [-> | Hne]; [tauto|]. right. tauto.
Qed.

(** [consolidateOptimizations] lists every optimization of a function
    of the module once, and nothing else; [inferParameters] lists once
    every second argument of a [load] that begins with [param], and
    nothing else. *)
Theorem names_are_listed_once :
  (forall intermediate : Intermediate,
      List.NoDup (consolidateOptimizations intermediate)
      /\ forall x,
          In x (consolidateOptimizations intermediate)
          <-> exists f, In f (functions intermediate) /\ In x (optimizations f))
  /\ (forall instructions : list Instruction,
         List.NoDup (inferParameters instructions)
         /\ forall x,
             In x (inferParameters instructions)
             <-> exists inst,
                 In inst instructions /\ op inst = "load"
                 /\ nth_error (args inst) 1 = Some x
                 /\ Str.startsWith x "param" = true).
Proof.
  split.
  - intros intermediate. unfold consolidateOptimizations.
    destruct (dedupe_spec (flat_map optimizations (functions intermediate)) [])
      as [Hn Hi].
    split; [exact Hn|]. intros x. rewrite Hi, in_flat_map. cbn. tauto.
  - intros instructions. unfold inferParameters.
    match goal with |- context [dedupe [] ?l] =>
      destruct (dedupe_spec l []) as [Hn Hi] end.
    split; [exact Hn|]. intros x. rewrite Hi, in_flat_map. cbn [In]. split.
    + intros [(inst & Hin & Hx) _]. exists inst. split; [exact Hin|].
      destruct (String.eqb_spec (op inst) "load") as [Ho|]; [|destruct Hx].
      destruct (nth_error (args inst) 1) as [a|]; [|destruct Hx].
      destruct (Str.startsWith a "param") eqn:Hp; [|destruct Hx].
      destruct Hx as [<- | []]. auto.
    + intros (inst & Hin & Ho & Ha & Hp). split; [|tauto].
      exists inst. split; [exact Hin|].
      rewrite Ho, Ha, Hp. cbn. now left.
Qed.

(** *** Lowering of LLVM IR *)

Definition percent : ascii -> bool := Ascii.eqb "%".

Definition llvm_ops : list string := ["load"; "store"; "add"; "call"; "ret"].

(** An instruction as [parseIOSInstruction] builds it. *)
Definition lowered_instruction (i : Instruction) : Prop :=
  In (op i) llvm_ops
  /\ (op i = "load" -> Forall (RunFacts.head_in percent) (args i)).

Definition lowered_function (f : FunctionIR) : Prop :=
  (exists n, name f = Some n) /\ Forall lowered_instruction (instructions f).

Lemma truthy_in (p : ascii -> bool) (l : list (option string)) :
  Forall (RunFacts.cap_in p) l -> Forall (RunFacts.head_in p) (truthy l).
Proof.
  induction 1 as [|c l Hc Hl IH]; [constructor|].
  destruct c as [[|a v]|]; cbn [truthy]; try exact IH.
  constructor; [exact Hc | exact IH].
Qed.

Lemma parseIOSInstruction_lowered (line : string) (i : Instruction) :
  parseIOSInstruction line = Some i -> lowered_instruction i.
Proof.
  unfold parseIOSInstruction, patterns. cbn [first_pattern].
  destruct (Regex.exec _ line) as [mr|] eqn:E.
  { intros H. injection H as <-. split; [cbn; tauto|]. intros _. cbn [args].
    apply truthy_in. apply (RunFacts.exec_caps percent _ _ _) in E; [exact E|].
    cbn. repeat split; intros c; cbn; rewrite ?orb_false_r; auto. }
  clear E.
  repeat (destruct (Regex.exec _ line) as [mr|];
          [intros H; injection H as <-; split; [cbn; tauto | discriminate]|]).
  discriminate.
Qed.

Lemma ios_line_lowered (fs : list FunctionIR) (line : string) :
  Forall lowered_function fs -> Forall lowered_function (ios_line fs line).
Proof.
  intros H. unfold ios_line.
  destruct (Str.startsWith (Str.trim line) "define").
  - destruct (Regex.exec rx_define (Str.trim line)) as [funcMatch|] eqn:E;
      [|exact H].
    constructor; [|exact H]. split; [|constructor]. cbn [name].
    apply (CaptureFacts.exec_definite rx_define 1) in E;
      [exact E | reflexivity | cbn; tauto | cbn; lia].
  - destruct fs as [|currentFunction rest]; [exact H|].
    destruct (negb (String.eqb (Str.trim line) "")); [|exact H].
    destruct (parseIOSInstruction (Str.trim line)) as [instruction|] eqn:E;
      [|exact H].
    inversion H as [|? ? [Hn Hi] Hr]; subst.
    constructor; [|exact Hr]. split; [exact Hn|]. cbn [instructions].
    apply Forall_app. split; [exact Hi|].
    constructor; [|constructor]. now apply parseIOSInstruction_lowered in E.
Qed.

Lemma fold_ios_line_lowered (lines : list string) :
  forall fs,
    Forall lowered_function fs ->
    Forall lowered_function (fold_left ios_line lines fs).
Proof.
  induction lines as [|line lines IH]; intros fs H; [exact H|].
  cbn [fold_left]. apply IH. now apply ios_line_lowered.
Qed.

Lemma starts_param (a : string) :
  RunFacts.head_in percent a -> Str.startsWith a "param" = false.
Proof.
  destruct a as [|c a]; [intros []|]. unfold RunFacts.head_in, percent.
  intros H. apply Ascii.eqb_eq in H. now subst c.
Qed.

Lemma inferParameters_lowered (l : list Instruction) :
  Forall lowered_instruction l -> inferParameters l = [].
Proof.
  intros H. unfold inferParameters.
  match goal with |- dedupe [] ?x = [] => assert (E : x = []) end; [|now rewrite E].
  induction H as [|i l [_ Hi] Hl IH]; [reflexivity|].
  cbn [flat_map]. rewrite IH, app_nil_r.
  destruct (String.eqb_spec (op i) "load") as [Ho|]; [|reflexivity].
  destruct (nth_error (args i) 1) as [a|] eqn:Ea; [|reflexivity].
  apply nth_error_In in Ea.
  pose proof (proj1 (List.Forall_forall _ _) (Hi Ho) a Ea) as Ha.
  now rewrite (starts_param a Ha).
Qed.

(** The lines that open a function, and the name they give it. *)
Definition opens_function (line : string) : bool :=
  (Str.startsWith (Str.trim line) "define"
   && Regex.test rx_define (Str.trim line))%bool.

Definition function_name (line : string) : option string :=
  match Regex.exec rx_define (Str.trim line) with
  | Some funcMatch => Regex.grp funcMatch 1
  | None => None
  end.

Lemma ios_line_names (fs : list FunctionIR) (line : string) :
  map name (ios_line fs line)
  = if opens_function line then function_name line :: map name fs
    else map name fs.
Proof.
  unfold ios_line, opens_function, function_name, Regex.test.
  destruct (Str.startsWith (Str.trim line) "define"); cbn [andb].
  - now destruct (Regex.exec rx_define (Str.trim line)).
  - destruct fs as [|currentFunction rest]; [reflexivity|].
    destruct (negb (String.eqb (Str.trim line) "")); [|reflexivity].
    now destruct (parseIOSInstruction (Str.trim line)).
Qed.

Lemma fold_ios_line_names (lines : list string) :
  forall fs,
    map name (fold_left ios_line lines fs)
    = (List.rev (map function_name (List.filter opens_function lines))
       ++ map name fs)%list.
Proof.
  induction lines as [|line lines IH]; intros fs; [reflexivity|].
  cbn [fold_left List.filter]. rewrite IH, ios_line_names.
  destruct (opens_function line); [|reflexivity].
  cbn [map List.rev]. now rewrite <- app_assoc.
Qed.

(** [convertIOSLLVM] makes one function for each line that opens one,
    in the order of the lines, and each has a name.  Its instructions
    are [load], [store], [add], [call] and [ret] only; no operand of a
    [load] begins with [param], so that no parameter is inferred and the
    function is rendered with an empty parameter list; and a [ret],
    for which [convertInstructionToJS] has no case, is rendered as a
    comment. *)
Theorem llvm_functions_take_no_parameter (llvmIR : string) (options : Options) :
  let fs := functions (convertIOSLLVM llvmIR options) in
  map name fs
  = map function_name (List.filter opens_function (Str.split llvmIR Str.nl))
  /\ Forall
       (fun f =>
          (exists n, name f = Some n)
          /\ inferParameters (instructions f) = []
          /\ Forall
               (fun i =>
                  In (op i) ["load"; "store"; "add"; "call"; "ret"]
                  /\ (op i = "ret" ->
                      convertInstructionToJS i "ios-llvm"
                      = "// Unknown instruction: ret"))
               (instructions f))
       fs.
Proof.
  cbv zeta. unfold convertIOSLLVM. cbn [functions]. split.
  - rewrite map_rev, fold_ios_line_names. cbn [map].
    now rewrite app_nil_r, rev_involutive.
  - apply List.Forall_rev.
    assert (H : Forall lowered_function
                  (fold_left ios_line (Str.split llvmIR Str.nl) []))
      by (apply fold_ios_line_lowered; constructor).
    revert H. apply List.Forall_impl. intros f [Hn Hi].
    split; [exact Hn|]. split; [now apply inferParameters_lowered|].
    revert Hi. apply List.Forall_impl. intros i [Ho _]. split; [exact Ho|].
    intros E. unfold convertInstructionToJS. now rewrite E.
Qed.

(** *** Lowering of WebAssembly text *)

(** Whatever the module, [convertWebAssembly] gives one function for
    each match of [(func ...)], and every one of them is rendered with
    no parameter and with the same two statements: the [local.get] as
    a declaration of [param0] with the value [undefined], the
    [i32.add] as the sum of [a] and [b]. *)
Theorem wasm_functions_are_fixed (wasmCode : string) (options : Options) :
  let fs := functions (convertWebAssembly wasmCode options) in
  List.length fs = List.length (Regex.match_all rx_wasm_func wasmCode)
  /\ Forall
       (fun f =>
          inferParameters (instructions f) = []
          /\ map (fun i => convertInstructionToJS i "wasm") (instructions f)
             = ["var param0 = undefined;"; "var result = a + b;"])
       fs.
Proof.
  cbv zeta. unfold convertWebAssembly, parseWASMFunctions. cbn [functions].
  split; [now rewrite !List.length_map, List.length_seq|].
  apply List.Forall_forall. intros f Hf.
  apply in_map_iff in Hf as (g & <- & Hg).
  apply in_map_iff in Hg as (index & <- & _).
  cbn [instructions map]. split; reflexivity.
Qed.

(** *** The optimization hints *)

(** The optimizations that the lowering functions attach to a
    function. *)
Definition attached : list string :=
  ["inline"; "size"; "minsize"; "devirtualize"; "wasm-simd"; "wasm-threads"].

Definition attached_only (fs : list FunctionIR) : Prop :=
  Forall (fun f => Forall (fun o => In o attached) (optimizations f)) fs.

Lemma parseIOSOptimizations_attached (llvmLine : string) :
  Forall (fun o => In o attached) (parseIOSOptimizations llvmLine).
Proof.
  unfold parseIOSOptimizations.
  destruct (Str.includes llvmLine "inlinehint");
    destruct (Str.includes llvmLine "optsize");
    destruct (Str.includes llvmLine "minsize");
    cbn [app];
    repeat (apply List.Forall_cons; [cbv [In attached]; tauto|]);
    apply List.Forall_nil.
Qed.

Lemma ios_line_attached (fs : list FunctionIR) (line : string) :
  attached_only fs -> attached_only (ios_line fs line).
Proof.
  unfold attached_only. intros H. unfold ios_line.
  destruct (Str.startsWith (Str.trim line) "define").
  - destruct (Regex.exec rx_define (Str.trim line)); [|exact H].
    constructor; [apply parseIOSOptimizations_attached | exact H].
  - destruct fs as [|currentFunction rest]; [exact H|].
    destruct (negb (String.eqb (Str.trim line) "")); [|exact H].
    destruct (parseIOSInstruction (Str.trim line)); [|exact H].
    inversion H; subst. now constructor.
Qed.

Lemma fold_ios_line_attached (lines : list string) :
  forall fs, attached_only fs -> attached_only (fold_left ios_line lines fs).
Proof.
  induction lines as [|line lines IH]; intros fs H; [exact H|].
  cbn [fold_left]. apply IH. now apply ios_line_attached.
Qed.

Lemma lowerings_attached :
  Forall (fun entry =>
            forall instructions options,
              attached_only (functions (snd entry instructions options)))
    supportedFormats.
Proof.
  unfold supportedFormats.
  repeat (apply List.Forall_cons; [intros instructions options; cbn [snd]|]);
    try (apply List.Forall_nil).
  - unfold convertIOSLLVM. cbn [functions]. apply List.Forall_rev.
    apply fold_ios_line_attached. constructor.
  - unfold convertAndroidART, parseARTMethods. cbn [functions map optimizations].
    apply List.Forall_cons; [|apply List.Forall_nil].
    repeat (apply List.Forall_cons; [cbv [In attached]; tauto|]). apply List.Forall_nil.
  - unfold convertWebAssembly, parseWASMFunctions. cbn [functions].
    apply List.Forall_forall. intros f Hf.
    apply in_map_iff in Hf as (g & <- & _). cbn [optimizations].
    apply List.Forall_forall. intros o Ho.
    apply filter_In in Ho as [Ho _]. unfold attached. cbn in Ho |- *. tauto.
Qed.

Lemma has_not_attached (x : string) (fs : list FunctionIR) :
  attached_only fs -> ~ In x attached ->
  existsb (String.eqb x) (flat_map optimizations fs) = false.
Proof.
  intros H Hx. apply not_true_is_false. intros E.
  apply existsb_exists in E as (o & Ho & E). apply String.eqb_eq in E. subst o.
  apply in_flat_map in Ho as (f & Hf & Ho).
  apply Hx.
  apply (proj1 (List.Forall_forall _ _) (proj1 (List.Forall_forall _ _) H f Hf) x Ho).
Qed.

(** The hints without and with the inlining block. *)
Definition hints_plain : string :=
  generateV8OptimizationHints (mkIntermediate "" [] [] []).
Definition hints_inline : string :=
  generateV8OptimizationHints
    (mkIntermediate "" [mkFunction None [] ["inline"]] [] []).

(** Whatever the registered format and the instructions, the lowering
    attaches to its functions none of the optimizations [inlining],
    [loop] and [vectorize] that [generateV8OptimizationHints] looks
    for: the block that enables the loop optimizations is never
    generated, and the block that enables inlining is generated
    exactly when a function carries [inline]. *)
Theorem loop_hints_are_never_generated :
  Forall (fun entry =>
            forall instructions options,
              let intermediate := snd entry instructions options in
              Forall (fun o => In o attached)
                (consolidateOptimizations intermediate)
              /\ generateV8OptimizationHints intermediate
                 = if existsb (String.eqb "inline")
                        (consolidateOptimizations intermediate)
                   then hints_inline else hints_plain)
    supportedFormats.
Proof.
  generalize lowerings_attached. apply List.Forall_impl.
  intros [tag lower] H instructions options. cbn [snd] in *. cbv zeta.
  specialize (H instructions options).
  assert (Hc : forall x,
             In x (consolidateOptimizations (lower instructions options))
             <-> In x (flat_map optimizations (functions (lower instructions options)))).
  { intros x. unfold consolidateOptimizations.
    rewrite (proj2 (dedupe_spec _ [])). cbn [In]. tauto. }
  split.
  - apply List.Forall_forall. intros o Ho. apply Hc in Ho.
    apply in_flat_map in Ho as (f & Hf & Ho).
    apply (proj1 (List.Forall_forall _ _) (proj1 (List.Forall_forall _ _) H f Hf) o Ho).
  - unfold generateV8OptimizationHints.
    rewrite (has_not_attached "inlining" _ H), (has_not_attached "loop" _ H),
      (has_not_attached "vectorize" _ H)
      by (cbv [In attached]; intros E;
          repeat (destruct E as [E | E]; [discriminate E|]); destruct E).
    rewrite orb_false_r. cbn [orb].
    assert (Hi : existsb (String.eqb "inline")
                   (consolidateOptimizations (lower instructions options))
                 = existsb (String.eqb "inline")
                     (flat_map optimizations (functions (lower instructions options)))).
    { apply eq_true_iff_eq. rewrite !existsb_exists. split.
      - intros (o & Ho & E). exists o. split; [|exact E]. now apply Hc.
      - intros (o & Ho & E). exists o. split; [|exact E]. now apply Hc. }
    rewrite Hi. clear Hi.
    destruct (existsb (String.eqb "inline")
                (flat_map optimizations (functions (lower instructions options))));
      reflexivity.
Qed.

(** *** The options of a conversion *)

Lemma assoc_own {A : Type} (obj : list (string * A)) (key : string) (v : A) :
  JS.assoc key obj = Some v -> In (key, v) obj.
Proof.
  induction obj as [|[k x] obj IH]; [discriminate|]. cbn [JS.assoc].
  destruct (String.eqb_spec k key) as [->|_].
  - intros H. injection H as ->. now left.
  - intros H. right. now apply IH.
Qed.

Lemma lowering_ignores_options (sourceFormat : string)
  (lower : string -> Options -> Intermediate) :
  JS.get supportedFormats sourceFormat = JS.Own lower ->
  forall instructions options options',
    type (lower instructions options) = type (lower instructions options')
    /\ functions (lower instructions options)
       = functions (lower instructions options').
Proof.
  unfold JS.get. destruct (JS.assoc sourceFormat supportedFormats) as [v|] eqn:E.
  - intros H. injection H as ->. apply assoc_own in E.
    unfold supportedFormats in E. cbv [In] in E.
    intros instructions options options'.
    repeat (destruct E as [E | E];
            [injection E as _ <-; split; reflexivity|]).
    destruct E.
  - destruct (existsb _ _); discriminate.
Qed.

(** The code that [convert] returns does not depend on the options:
    [targetFormat], [optimizationLevel], [preserveSemantics],
    [architecture] and [simdSupport] reach at most the metadata of the
    intermediate form, which [convertToNodeJS] does not read.  Two calls
    on a new converter that differ in their options only return the same
    result, or fail with the same message. *)
Theorem options_do_not_change_the_conversion
  (now : Z) (instructions sourceFormat : string) (options options' : Options) :
  convert_body now instructions sourceFormat options
  = convert_body now instructions sourceFormat options'
  /\ fst (convert now new instructions sourceFormat options)
     = fst (convert now new instructions sourceFormat options').
Proof.
  assert (H : convert_body now instructions sourceFormat options
              = convert_body now instructions sourceFormat options').
  { unfold convert_body.
    destruct (JS.get supportedFormats sourceFormat) as [lower|name|] eqn:E.
    - destruct (lowering_ignores_options _ _ E instructions options options')
        as [Ht Hf].
      unfold convertToNodeJS, generateV8OptimizationHints, consolidateOptimizations.
      rewrite Ht, Hf. reflexivity.
    - reflexivity.
    - reflexivity. }
  split; [exact H|]. unfold convert. rewrite H.
  assert (Hmiss : forall o : Options,
             (if JITEngine.default true (cache o)
              then conversionCache new !! generateCacheKey instructions sourceFormat o
              else None) = None).
  { intros o. destruct (JITEngine.default true (cache o)); [|reflexivity].
    apply lookup_empty. }
  destruct (JS.get supportedFormats sourceFormat) as [lower|name|].
  - rewrite !Hmiss. destruct (rethrow _ _); cbn [fst]; reflexivity.
  - rewrite !Hmiss. destruct (rethrow _ _); cbn [fst]; reflexivity.
  - reflexivity.
Qed.

(** *** The formats that read their input *)

(** The formats whose lowering does not look at the instructions. *)
Definition input_blind : list string :=
  [ "android-art"; "java-hotspot"; "dotnet-clr"; "v8-bytecode"; "spidermonkey";
    "chakra"; "assembly" ].

Definition code_length (r : Result Conversion) : nat :=
  match r with
  | Ok c => String.length (code c)
  | Throw _ => 0
  end.

(** Seven of the nine registered formats are converted without a look
    at the instructions: for each of them [convert] builds the same
    code from every input.  Only [ios-llvm] and [wasm] read what they
    are given. *)
Theorem only_two_formats_read_the_input (now : Z) :
  (forall sourceFormat instructions instructions' options options',
      In sourceFormat input_blind ->
      convert_body now instructions sourceFormat options
      = convert_body now instructions' sourceFormat options')
  /\ (forall sourceFormat,
         In sourceFormat (JS.keys supportedFormats) ->
         ~ In sourceFormat input_blind ->
         exists instructions instructions' options,
           convert_body now instructions sourceFormat options
           <> convert_body now instructions' sourceFormat options).
Proof.
  split.
  - intros sourceFormat instructions instructions' options options' H.
    cbv [In input_blind] in H.
    repeat (destruct H as [<- | H]; [reflexivity|]). destruct H.
  - intros sourceFormat H N. cbv [In JS.keys map fst supportedFormats] in H.
    destruct H as [<- | H].
    { exists "", ("define void @f() {" ++ Str.nl ++ "}"),
        (mkOptions None None None None None None).
      intros E. apply (f_equal code_length) in E. vm_compute in E.
      discriminate E. }
    destruct H as [<- | H]; [exfalso; apply N; cbv; tauto|].
    destruct H as [<- | H].
    { exists "", "(func)", (mkOptions None None None None None None).
      intros E. apply (f_equal code_length) in E. vm_compute in E.
      discriminate E. }
    exfalso. apply N. cbv [In input_blind].
    repeat (destruct H as [<- | H]; [tauto|]). destruct H.
Qed.

(** *** The cache of conversions *)

(** With the cache in use, a conversion that [convert] has returned is
    returned again, as it was stored and with the time of the first
    conversion, by the next call with the same instructions, format
    and options, whatever the clock says then; the call counts one
    cache hit and no conversion.  A call that fails leaves the
    converter as it was. *)
Theorem convert_again_from_cache :
  (forall now now' c c1 instructions sourceFormat options result,
      JITEngine.default true (cache options) = true ->
      convert now c instructions sourceFormat options = (Ok result, c1) ->
      convert now' c1 instructions sourceFormat options
      = (Ok result,
         mkConverter (conversionCache c1)
           (mkStats (conversions (stats c1)) (cacheHits (stats c1) + 1))))
  /\ (forall now c instructions sourceFormat options e c1,
         convert now c instructions sourceFormat options = (Throw e, c1) ->
         c1 = c).
Proof.
  split.
  - intros now now' c c1 instructions sourceFormat options result Hc H.
    assert (Hhit : JS.get supportedFormats sourceFormat <> JS.Undefined
                   /\ conversionCache c1
                        !! generateCacheKey instructions sourceFormat options
                      = Some result).
    { unfold convert in H. rewrite Hc in H.
      destruct (JS.get supportedFormats sourceFormat) eqn:E;
        try discriminate H; (split; [discriminate|]);
        destruct (conversionCache c !! _) as [hit|] eqn:Eh;
        try (injection H as <- <-; exact Eh);
        destruct (rethrow _ _) as [r|]; try discriminate H;
        injection H as <- <-; cbn [conversionCache]; apply lookup_insert_eq. }
    destruct Hhit as [Hg Hl]. unfold convert. rewrite Hc, Hl.
    now destruct (JS.get supportedFormats sourceFormat).
  - intros now c instructions sourceFormat options e c1 H.
    unfold convert in H.
    destruct (JS.get supportedFormats sourceFormat);
      try (now injection H as _ <-);
      destruct (if JITEngine.default true (cache options) then _ else _);
      try discriminate H;
      destruct (rethrow _ _); try discriminate H; now injection H as _ <-.
Qed.

(** A module of one function converted twice, an hour apart. *)
Lemma convert_again_from_cache_witness :
  exists r c1,
    convert 1000 new "(module (func))" "wasm"
      (mkOptions None None None None None None) = (Ok r, c1)
    /\ convert 3601000 c1 "(module (func))" "wasm"
         (mkOptions None None None None None None)
       = (Ok r,
          mkConverter (conversionCache c1)
            (mkStats (conversions (stats c1)) (cacheHits (stats c1) + 1))).
Proof.
  destruct (convert 1000 new "(module (func))" "wasm"
              (mkOptions None None None None None None)) as [[r|e] c1] eqn:E;
    [|vm_compute in E; discriminate E].
  exists r, c1. split; [reflexivity|].
  exact (proj1 convert_again_from_cache 1000%Z 3601000%Z new c1 "(module (func))"
           "wasm" (mkOptions None None None None None None) r eq_refl E).
Defined.

End ConverterProps.

(** ** Replacement of whole words, word by word *)

Module WordMapFacts.
Import Regex ReplaceFacts WordFacts.

(** The tokens of a text: its maximal runs of word characters, and its
    other characters one by one. *)
Definition starts_word (s : string) : bool :=
  match s with
  | String c _ => Str.is_word c
  | "" => false
  end.

Fixpoint tokens (s : string) : list string :=
  match s with
  | "" => []
  | String c r =>
      if Str.is_word c then
        match tokens r with
        | t :: ts =>
            if starts_word r then String c t :: ts else String c "" :: t :: ts
        | [] => [String c ""]
        end
      else String c "" :: tokens r
  end.

(** [map_words g s]: the text [s] with every token [t] replaced by
    [g t]. *)
Definition map_words (g : string -> string) (s : string) : string :=
  Str.concat (map g (tokens s)).

(** The word a text begins with, and what follows it. *)
Fixpoint word_prefix (s : string) : string :=
  match s with
  | String c r => if Str.is_word c then String c (word_prefix r) else ""
  | "" => ""
  end.

Fixpoint after_word (s : string) : string :=
  match s with
  | String c r => if Str.is_word c then after_word r else s
  | "" => ""
  end.

Lemma word_prefix_after (s : string) : word_prefix s ++ after_word s = s.
Proof.
  induction s as [|c s IH]; [reflexivity|]. cbn [word_prefix after_word].
  destruct (Str.is_word c); [|reflexivity].
  rewrite StrFacts.append_cons. now rewrite IH.
Qed.

Lemma word_prefix_word (s : string) : all Str.is_word (word_prefix s) = true.
Proof.
  induction s as [|c s IH]; [reflexivity|]. cbn [word_prefix].
  destruct (Str.is_word c) eqn:E; [|reflexivity]. cbn [all]. now rewrite E.
Qed.

Lemma after_word_starts (s : string) : starts_word (after_word s) = false.
Proof.
  induction s as [|c s IH]; [reflexivity|]. cbn [after_word].
  destruct (Str.is_word c) eqn:E; [exact IH|]. exact E.
Qed.

Lemma tokens_word (r : string) :
  forall c,
    Str.is_word c = true ->
    tokens (String c r)
    = word_prefix (String c r) :: tokens (after_word (String c r)).
Proof.
  induction r as [|d r IH]; intros c Hc.
  - cbn. now rewrite Hc.
  - cbn [tokens word_prefix after_word]. rewrite Hc.
    cbn [starts_word]. destruct (Str.is_word d) eqn:Ed.
    + specialize (IH d Ed). cbn [tokens word_prefix after_word] in IH.
      rewrite Ed in IH. rewrite IH. reflexivity.
    + cbn [tokens]. now rewrite Ed.
Qed.

Lemma tokens_other (c : ascii) (r : string) :
  Str.is_word c = false -> tokens (String c r) = String c "" :: tokens r.
Proof. intros Hc. cbn [tokens]. now rewrite Hc. Qed.

(** *** The match of a literal expression, decided *)

Fixpoint lit_ok (r : regex) (prev : option ascii) (s : string) : bool :=
  match r with
  | Eps => true
  | Chr c =>
      match s with
      | String d _ => Ascii.eqb c d
      | "" => false
      end
  | WordB neg => xorb neg (xorb (is_word_opt prev) (starts_word s))
  | Seq a b =>
      (lit_ok a prev s
       && lit_ok b (before_end (text a) prev)
            (Str.drop (String.length (text a)) s))%bool
  | _ => false
  end.

Definition lit_next (r : regex) (st : mst) : mst :=
  MSt (before_end (text r) (m_prev st))
      (Str.drop (String.length (text r)) (m_rest st))
      (m_pos st + String.length (text r)) (m_caps st).

Lemma before_end_append (a b : string) :
  forall prev, before_end (a ++ b) prev = before_end b (before_end a prev).
Proof.
  induction a as [|c a IH]; intros prev; [reflexivity|].
  rewrite StrFacts.append_cons. cbn [before_end]. apply IH.
Qed.

Lemma drop_add (a b : nat) :
  forall s, Str.drop (a + b) s = Str.drop b (Str.drop a s).
Proof.
  induction a as [|a IH]; intros s; [reflexivity|].
  destruct s as [|c s]; [now destruct b|]. cbn [Nat.add Str.drop]. apply IH.
Qed.

Lemma lit_next_seq (r1 r2 : regex) (st : mst) :
  lit_next r2 (lit_next r1 st) = lit_next (Seq r1 r2) st.
Proof.
  unfold lit_next. cbn [m_prev m_rest m_pos m_caps text].
  rewrite before_end_append, StrFacts.length_append, drop_add.
  f_equal. lia.
Qed.

Lemma m_lit (ml : bool) (r : regex) :
  literal r = true ->
  forall k st,
    m ml r k st
    = if lit_ok r (m_prev st) (m_rest st) then k (lit_next r st) else None.
Proof.
  induction r as [ | c | | neg items | neg | | | r1 IH1 r2 IH2 | r1 IH1 r2 IH2
                 | g r1 IH1 | g r1 IH1 | g r1 IH1 | n r1 IH1 | n | neg r1 IH1 ];
    intros Hl k st; try discriminate Hl; cbn [m lit_ok].
  - unfold lit_next. destruct st as [pv rest pos cs].
    cbn [text String.length before_end Str.drop m_prev m_rest m_pos m_caps].
    now rewrite Nat.add_0_r.
  - unfold step_char, lit_next. destruct st as [pv rest pos cs].
    cbn [text String.length before_end m_prev m_rest m_pos m_caps].
    destruct rest as [|d rest]; [reflexivity|].
    destruct (Ascii.eqb_spec c d) as [->|]; [|reflexivity].
    cbn [Str.drop]. now rewrite Nat.add_1_r.
  - unfold at_word_boundary, lit_next. destruct st as [pv rest pos cs].
    cbn [text String.length before_end Str.drop m_prev m_rest m_pos m_caps].
    rewrite Nat.add_0_r.
    replace (is_word_opt (next_char (MSt pv rest pos cs))) with (starts_word rest)
      by now destruct rest.
    reflexivity.
  - cbn [literal] in Hl. apply andb_prop in Hl as [Hl1 Hl2].
    rewrite (IH1 Hl1). destruct (lit_ok r1 (m_prev st) (m_rest st)); [|reflexivity].
    rewrite (IH2 Hl2). cbn [andb]. unfold lit_next at 1 2.
    cbn [m_prev m_rest]. now rewrite lit_next_seq.
Qed.

(** The expression of a whole word: [\b], the characters of the word,
    [\b]. *)
Fixpoint chars_ast (w : string) : regex :=
  match w with
  | "" => WordB false
  | String c "" => Seq (Chr c) (WordB false)
  | String c r => Seq (Chr c) (chars_ast r)
  end.

Definition word_ast (w : string) : regex := Seq (WordB false) (chars_ast w).

Lemma chars_ast_cons (c d : ascii) (r : string) :
  chars_ast (String c (String d r)) = Seq (Chr c) (chars_ast (String d r)).
Proof. reflexivity. Qed.

Lemma chars_ast_literal (w : string) : literal (chars_ast w) = true.
Proof.
  induction w as [|c w IH]; [reflexivity|].
  destruct w as [|d w]; [reflexivity|]. rewrite chars_ast_cons. cbn [literal].
  now rewrite IH.
Qed.

Lemma chars_ast_text (w : string) : text (chars_ast w) = w.
Proof.
  induction w as [|c w IH]; [reflexivity|].
  destruct w as [|d w]; [reflexivity|]. rewrite chars_ast_cons. cbn [text].
  now rewrite IH.
Qed.

(** After the characters of a word the expression asks for the end of
    a word. *)
Lemma chars_ast_ok (w : string) :
  forall c prev s,
    all Str.is_word (String c w) = true ->
    lit_ok (chars_ast (String c w)) prev s
    = (Str.starts (String c w) s
       && negb (starts_word (Str.drop (String.length (String c w)) s)))%bool.
Proof.
  induction w as [|d w IH]; intros c prev s Hw.
  - cbn [chars_ast lit_ok text String.length before_end Str.starts].
    cbn [all] in Hw. apply andb_prop in Hw as [Hc _].
    destruct s as [|e s]; [reflexivity|].
    destruct (Ascii.eqb c e); [|reflexivity].
    cbn [append String.length Str.drop is_word_opt]. rewrite Hc.
    now destruct (starts_word s).
  - rewrite chars_ast_cons. cbn [lit_ok text String.length append].
    change (all Str.is_word (String c (String d w)))
      with (Str.is_word c && all Str.is_word (String d w))%bool in Hw.
    apply andb_prop in Hw as [Hc Hw].
    destruct s as [|e s]; [reflexivity|].
    cbn [Str.starts]. destruct (Ascii.eqb c e); [|reflexivity].
    cbn [andb before_end]. change (Str.drop 1 (String e s)) with s.
    rewrite (IH d (Some c) s Hw). reflexivity.
Qed.

Lemma word_prefix_is (w : string) :
  all Str.is_word w = true ->
  forall s,
    (Str.starts w s && negb (starts_word (Str.drop (String.length w) s)))%bool
    = String.eqb (word_prefix s) w.
Proof.
  induction w as [|c w IH]; intros Hw s.
  - cbn [Str.starts String.length Str.drop andb].
    destruct s as [|d s]; [reflexivity|]. cbn [starts_word word_prefix].
    now destruct (Str.is_word d).
  - cbn [all] in Hw. apply andb_prop in Hw as [Hc Hw].
    destruct s as [|d s]; [reflexivity|].
    cbn [Str.starts String.length Str.drop word_prefix].
    destruct (Ascii.eqb_spec c d) as [<-|Hne].
    + rewrite Hc. cbn [String.eqb]. rewrite Ascii.eqb_refl. now apply IH.
    + destruct (Str.is_word d); [|reflexivity]. cbn [String.eqb].
      destruct (Ascii.eqb_spec d c) as [->|_]; [contradiction | reflexivity].
Qed.

(** The expression of a word matches where a word begins, when that
    word is the one it names. *)
Lemma word_ast_ok (w : string) (prev : option ascii) (s : string) :
  w <> "" -> all Str.is_word w = true ->
  lit_ok (word_ast w) prev s
  = (negb (is_word_opt prev) && String.eqb (word_prefix s) w)%bool.
Proof.
  intros Hne Hw. destruct w as [|c w]; [contradiction|].
  unfold word_ast. cbn [lit_ok text String.length before_end Str.drop].
  rewrite (chars_ast_ok w c prev s Hw), (word_prefix_is _ Hw).
  cbn [xorb]. destruct (String.eqb_spec (word_prefix s) (String c w)) as [E|_].
  - rewrite andb_true_r.
    assert (Hs : starts_word s = true).
    { destruct s as [|d s]; [discriminate E|]. cbn [word_prefix] in E.
      cbn [starts_word]. now destruct (Str.is_word d). }
    rewrite Hs. now destruct (is_word_opt prev).
  - now rewrite !andb_false_r.
Qed.

Lemma match_here_word (rx : RegExp) (w : string) (prev : option ascii) (s : string) :
  ast rx = word_ast w -> w <> "" -> all Str.is_word w = true ->
  match_here rx prev s
  = if (negb (is_word_opt prev) && String.eqb (word_prefix s) w)%bool
    then Some (String.length w, []) else None.
Proof.
  intros Ha Hne Hw. unfold match_here. rewrite Ha.
  rewrite m_lit by (cbn [word_ast literal]; apply chars_ast_literal).
  cbn [m_prev m_rest]. rewrite (word_ast_ok w prev s Hne Hw).
  destruct (negb (is_word_opt prev) && String.eqb (word_prefix s) w)%bool;
    [|reflexivity].
  unfold accept, lit_next.
  cbn [m_pos m_caps word_ast text]. now rewrite chars_ast_text.
Qed.

(** *** A global replacement of a word, token by token *)

Definition rename (w y : string) (t : string) : string :=
  if String.eqb t w then y else t.

(** The text with the word [w] renamed, and the same from inside a
    word that has begun. *)
Definition renamed (w y s : string) : string := map_words (rename w y) s.
Definition resumed (w y s : string) : string :=
  word_prefix s ++ renamed w y (after_word s).

Section Rename.
Variable rx : RegExp.
Variable f : replacer.
Variables w y : string.
Hypothesis rx_word : ast rx = word_ast w.
Hypothesis w_word : all Str.is_word w = true.
Hypothesis w_some : w <> "".
Hypothesis f_y : forall mr, f mr = y.

Lemma outer_word (c : ascii) (r : string) :
  Str.is_word c = true ->
  renamed w y (String c r)
  = rename w y (word_prefix (String c r)) ++ renamed w y (after_word (String c r)).
Proof.
  intros Hc. unfold renamed, map_words. now rewrite (tokens_word r c Hc).
Qed.

Lemma outer_other (c : ascii) (r : string) :
  Str.is_word c = false -> renamed w y (String c r) = String c (renamed w y r).
Proof.
  intros Hc. unfold renamed, map_words. rewrite (tokens_other c r Hc).
  cbn [map Str.concat]. unfold rename at 1.
  destruct (String.eqb_spec (String c "") w) as [E|_]; [|reflexivity].
  exfalso. rewrite <- E in w_word. cbn [all] in w_word.
  rewrite Hc in w_word. discriminate w_word.
Qed.

Lemma inner_word (c : ascii) (r : string) :
  Str.is_word c = true -> resumed w y (String c r) = String c (resumed w y r).
Proof. intros Hc. unfold resumed. cbn [word_prefix after_word]. now rewrite Hc. Qed.

Lemma inner_other (s : string) : starts_word s = false -> resumed w y s = renamed w y s.
Proof.
  intros Hs. unfold resumed. destruct s as [|c s]; [reflexivity|].
  cbn [starts_word] in Hs. cbn [word_prefix after_word]. now rewrite Hs.
Qed.

Lemma take_word_prefix (r : string) :
  Str.take (String.length (word_prefix r)) r = word_prefix r.
Proof.
  rewrite <- (word_prefix_after r) at 2. apply RunFacts.take_append.
Qed.

Lemma drop_word_prefix (r : string) :
  Str.drop (String.length (word_prefix r)) r = after_word r.
Proof.
  rewrite <- (word_prefix_after r) at 2. apply drop_append.
Qed.

Lemma length_word_prefix (r : string) :
  (String.length (word_prefix r) <= String.length r)%nat.
Proof.
  rewrite <- (word_prefix_after r) at 2. rewrite StrFacts.length_append. lia.
Qed.

Lemma scan_words (s : string) :
  forall prev i k,
    all Str.is_word (Str.take k s) = true ->
    (k <= String.length s)%nat ->
    Str.concat (scan rx f (fun c => String c "") prev s i k)
    = match k with
      | O => if is_word_opt prev then resumed w y s else renamed w y s
      | S _ => resumed w y (Str.drop k s)
      end.
Proof.
  induction s as [|c r IH]; intros prev i k Hk Hl.
  - destruct k as [|k]; [|cbn in Hl; lia]. cbn [scan].
    rewrite (match_here_word rx w prev "" rx_word w_some w_word).
    cbn [word_prefix].
    replace (String.eqb "" w) with false
      by (symmetry; apply String.eqb_neq; congruence).
    rewrite andb_false_r. now destruct (is_word_opt prev).
  - destruct k as [|k].
    + cbn [scan].
      rewrite (match_here_word rx w prev (String c r) rx_word w_some w_word).
      destruct (is_word_opt prev) eqn:Ep; cbn [negb andb].
      * cbn [Str.concat]. rewrite (IH (Some c) (S i) 0%nat) by (cbn; auto; lia).
        cbn [is_word_opt]. destruct (Str.is_word c) eqn:Ec.
        -- now rewrite inner_word.
        -- rewrite inner_other by (cbn; exact Ec). now rewrite outer_other.
      * destruct (String.eqb_spec (word_prefix (String c r)) w) as [E|Hne].
        -- assert (Hc : Str.is_word c = true).
           { cbn [word_prefix] in E. destruct (Str.is_word c); [reflexivity|].
             now subst w. }
           cbn [word_prefix] in E. rewrite Hc in E.
           replace (String.length w) with (S (String.length (word_prefix r)))
             by (now rewrite <- E).
           cbn [Str.concat].
           assert (H1 : all Str.is_word
                          (Str.take (String.length (word_prefix r)) r) = true)
             by (rewrite take_word_prefix; apply word_prefix_word).
           rewrite (IH (Some c) (S i) _ H1 (length_word_prefix r)).
           rewrite f_y, (outer_word c r Hc). unfold rename.
           cbn [word_prefix after_word]. rewrite Hc, E, String.eqb_refl.
           f_equal.
           destruct (String.length (word_prefix r)) eqn:El.
           ++ cbn [is_word_opt]. rewrite Hc.
              rewrite <- (drop_word_prefix r), El. cbn [Str.drop].
              apply inner_other.
              rewrite <- (after_word_starts r), <- (drop_word_prefix r), El.
              reflexivity.
           ++ rewrite <- El, drop_word_prefix.
              apply inner_other, after_word_starts.
        -- cbn [Str.concat]. rewrite (IH (Some c) (S i) 0%nat) by (cbn; auto; lia).
           cbn [is_word_opt]. destruct (Str.is_word c) eqn:Ec.
           ++ rewrite (outer_word c r Ec). unfold rename.
              replace (String.eqb (word_prefix (String c r)) w) with false
                by (symmetry; now apply String.eqb_neq).
              change (String c "" ++ resumed w y r) with (String c (resumed w y r)).
              rewrite <- (inner_word c r Ec). reflexivity.
           ++ now rewrite outer_other.
    + cbn [scan]. cbn [Str.take all] in Hk. apply andb_prop in Hk as [Hc Hk].
      rewrite (IH (Some c) (S i) k Hk) by (cbn in Hl; lia).
      cbn [Str.drop]. destruct k as [|k]; [|reflexivity].
      cbn [is_word_opt]. now rewrite Hc.
Qed.

Lemma replace_global_word (s : string) :
  replace_global rx f s = map_words (rename w y) s.
Proof.
  unfold replace_global.
  now rewrite (scan_words s None 0%nat 0%nat) by (cbn; auto; lia).
Qed.
End Rename.

(** [s.replace(/\bw\b/g, y)] replaces the tokens of [s] that are the
    word [w] by [y], and no other. *)
Lemma replace_word (rx : RegExp) (w y s : string) :
  ast rx = word_ast w -> global rx = true ->
  w <> "" -> all Str.is_word w = true ->
  all (fun c => negb (Ascii.eqb c "$")) y = true ->
  replace rx y s = map_words (rename w y) s.
Proof.
  intros Ha Hg Hne Hw Hy. unfold replace, replace_fn. rewrite Hg.
  apply replace_global_word; auto.
  intros mr. now apply substitute_plain.
Qed.

(** *** Replacements of words, one after the other *)

(** A word: a text of word characters that is not empty. *)
Definition is_wordtok (t : string) : bool :=
  (negb (String.eqb t "") && all Str.is_word t)%bool.

(** [g] maps words to words and leaves the other characters alone. *)
Definition word_map (g : string -> string) : Prop :=
  (forall t, is_wordtok t = true -> is_wordtok (g t) = true)
  /\ (forall c, Str.is_word c = false -> g (String c "") = String c "").

Lemma is_wordtok_cons (t : string) :
  is_wordtok t = true ->
  exists c r, t = String c r /\ Str.is_word c = true /\ all Str.is_word r = true.
Proof.
  unfold is_wordtok. destruct t as [|c r]; [discriminate|].
  cbn [String.eqb negb andb all]. intros H. apply andb_prop in H as [Hc Hr].
  now exists c, r.
Qed.

Lemma word_prefix_app (u z : string) :
  all Str.is_word u = true -> starts_word z = false ->
  word_prefix (u ++ z) = u /\ after_word (u ++ z) = z.
Proof.
  intros Hu Hz. induction u as [|c u IH].
  - destruct z as [|d z]; [now split|]. cbn [starts_word] in Hz.
    simpl. now rewrite Hz.
  - cbn [all] in Hu. apply andb_prop in Hu as [Hc Hu].
    rewrite StrFacts.append_cons. cbn [word_prefix after_word]. rewrite Hc.
    destruct (IH Hu) as [-> ->]. now split.
Qed.

Lemma tokens_app_word (u z : string) :
  is_wordtok u = true -> starts_word z = false ->
  tokens (u ++ z) = u :: tokens z.
Proof.
  intros Hu Hz. destruct (is_wordtok_cons u Hu) as (c & r & -> & Hc & Hr).
  assert (Hw : all Str.is_word (String c r) = true) by (cbn [all]; now rewrite Hc).
  destruct (word_prefix_app (String c r) z Hw Hz) as [E1 E2].
  rewrite StrFacts.append_cons in *. rewrite (tokens_word _ c Hc).
  now rewrite E1, E2.
Qed.

Lemma map_words_word (g : string -> string) (c : ascii) (r : string) :
  Str.is_word c = true ->
  map_words g (String c r)
  = g (word_prefix (String c r)) ++ map_words g (after_word (String c r)).
Proof. intros Hc. unfold map_words. now rewrite (tokens_word r c Hc). Qed.

Lemma map_words_other (g : string -> string) (c : ascii) (r : string) :
  word_map g -> Str.is_word c = false ->
  map_words g (String c r) = String c (map_words g r).
Proof.
  intros [_ Hg] Hc. unfold map_words. rewrite (tokens_other c r Hc).
  cbn [map Str.concat]. now rewrite (Hg c Hc).
Qed.

Lemma map_words_starts (g : string -> string) (z : string) :
  word_map g -> starts_word z = false -> starts_word (map_words g z) = false.
Proof.
  intros Hg Hz. destruct z as [|c z]; [reflexivity|]. cbn [starts_word] in Hz.
  now rewrite (map_words_other g c z Hg Hz).
Qed.

Lemma length_after_word (c : ascii) (r : string) :
  (String.length (after_word (String c r)) <= String.length r)%nat
  \/ Str.is_word c = false.
Proof.
  destruct (Str.is_word c) eqn:Hc; [left | now right].
  cbn [after_word]. rewrite Hc.
  rewrite <- (word_prefix_after r) at 2. rewrite StrFacts.length_append. lia.
Qed.

(** The tokens of a text rewritten word by word are the rewritten
    tokens. *)
Lemma tokens_map_words (g : string -> string) :
  word_map g ->
  forall s, tokens (map_words g s) = map g (tokens s).
Proof.
  intros Hg s.
  assert (H : forall n s, (String.length s <= n)%nat ->
                          tokens (map_words g s) = map g (tokens s)).
  { clear s. induction n as [|n IH]; intros s Hl.
    - destruct s; [reflexivity | cbn in Hl; lia].
    - destruct s as [|c r]; [reflexivity|].
      destruct (Str.is_word c) eqn:Hc.
      + rewrite (map_words_word g c r Hc), (tokens_word r c Hc). cbn [map].
        rewrite tokens_app_word.
        * f_equal. apply IH.
          destruct (length_after_word c r) as [Hle | Hf]; [|congruence].
          cbn in Hl. lia.
        * apply Hg. unfold is_wordtok. rewrite word_prefix_word.
          cbn [word_prefix]. now rewrite Hc.
        * apply map_words_starts; [exact Hg | apply after_word_starts].
      + rewrite (map_words_other g c r Hg Hc), !(tokens_other _ _ Hc). cbn [map].
        rewrite (proj2 Hg c Hc). f_equal. apply IH. cbn in Hl. lia. }
  now apply (H (String.length s)).
Qed.

Lemma map_words_compose (g1 g2 : string -> string) (s : string) :
  word_map g1 ->
  map_words g2 (map_words g1 s) = map_words (fun t => g2 (g1 t)) s.
Proof.
  intros H1. unfold map_words at 1 3. rewrite (tokens_map_words g1 H1).
  now rewrite map_map.
Qed.

Lemma word_map_rename (w y : string) :
  is_wordtok w = true -> is_wordtok y = true -> word_map (rename w y).
Proof.
  intros Hw Hy. split.
  - intros t Ht. unfold rename. now destruct (String.eqb t w).
  - intros c Hc. unfold rename.
    destruct (String.eqb_spec (String c "") w) as [E|_]; [|reflexivity].
    exfalso. rewrite <- E in Hw. unfold is_wordtok in Hw. cbn in Hw.
    rewrite Hc in Hw. discriminate Hw.
Qed.

Lemma word_map_compose (g1 g2 : string -> string) :
  word_map g1 -> word_map g2 -> word_map (fun t => g2 (g1 t)).
Proof.
  intros [W1 D1] [W2 D2]. split.
  - intros t Ht. auto.
  - intros c Hc. now rewrite D1, D2.
Qed.

Lemma word_map_id : word_map (fun t => t).
Proof. split; auto. Qed.

Lemma map_words_id (s : string) : map_words (fun t => t) s = s.
Proof.
  assert (H : forall n s, (String.length s <= n)%nat ->
                          map_words (fun t => t) s = s).
  { clear s. induction n as [|n IH]; intros s Hl.
    - destruct s; [reflexivity | cbn in Hl; lia].
    - destruct s as [|c r]; [reflexivity|].
      destruct (Str.is_word c) eqn:Hc.
      + rewrite (map_words_word _ c r Hc). rewrite IH.
        * apply word_prefix_after.
        * destruct (length_after_word c r) as [Hle | Hf]; [|congruence].
          cbn in Hl. lia.
      + rewrite (map_words_other _ c r word_map_id Hc). f_equal. apply IH.
        cbn in Hl. lia. }
  now apply (H (String.length s)).
Qed.

(** The renamings of a list, applied in its order. *)
Definition rename_all (l : list (string * string)) (t : string) : string :=
  fold_left (fun u kv => rename (fst kv) (snd kv) u) l t.

Definition renaming (kv : string * string) : Prop :=
  is_wordtok (fst kv) = true /\ is_wordtok (snd kv) = true.

Lemma fold_map_words (l : list (string * string)) :
  Forall renaming l ->
  forall g s,
    word_map g ->
    fold_left (fun acc kv => map_words (rename (fst kv) (snd kv)) acc) l
      (map_words g s)
    = map_words (fun t => rename_all l (g t)) s.
Proof.
  induction 1 as [|kv l [Hk Hv] Hl IH]; intros g s Hg; [reflexivity|].
  cbn [fold_left]. rewrite (map_words_compose g _ s Hg).
  rewrite (IH (fun t => rename (fst kv) (snd kv) (g t)) s).
  - reflexivity.
  - apply word_map_compose; [exact Hg | now apply word_map_rename].
Qed.

(** Renamings applied one after the other to a text rewrite each of
    its tokens, one after the other. *)
Lemma fold_rename (l : list (string * string)) (s : string) :
  Forall renaming l ->
  fold_left (fun acc kv => map_words (rename (fst kv) (snd kv)) acc) l s
  = map_words (rename_all l) s.
Proof.
  intros Hl. rewrite <- (map_words_id s) at 1.
  now rewrite (fold_map_words l Hl _ s word_map_id).
Qed.

(** The word a table gives for a token, the token itself when the
    table has no entry for it. *)
Definition lookup_word (l : list (string * string)) (t : string) : string :=
  match JS.assoc t l with
  | Some v => v
  | None => t
  end.

(** No word of the table is a key further down. *)
Fixpoint chain_free (l : list (string * string)) : bool :=
  match l with
  | [] => true
  | (k, v) :: r =>
      (negb (existsb (String.eqb v) (JS.keys r)) && chain_free r)%bool
  end.

Lemma rename_all_other (l : list (string * string)) (t : string) :
  existsb (String.eqb t) (JS.keys l) = false -> rename_all l t = t.
Proof.
  unfold rename_all. induction l as [|[k v] l IH]; intros H; [reflexivity|].
  cbn [JS.keys map fst existsb] in H. apply orb_false_elim in H as [Hk H].
  cbn [fold_left fst snd]. unfold rename at 2. rewrite Hk. now apply IH.
Qed.

Lemma rename_all_lookup (l : list (string * string)) (t : string) :
  chain_free l = true -> rename_all l t = lookup_word l t.
Proof.
  unfold lookup_word. induction l as [|[k v] l IH]; intros H; [reflexivity|].
  cbn [chain_free] in H. apply andb_prop in H as [Hv H].
  apply negb_true_iff in Hv.
  change (rename_all ((k, v) :: l) t) with (rename_all l (rename k v t)).
  cbn [JS.assoc]. unfold rename. rewrite (String.eqb_sym k t).
  destruct (String.eqb t k).
  - now apply rename_all_other.
  - now apply IH.
Qed.

Lemma assoc_value {A : Type} (l : list (string * A)) (t : string) (v : A) :
  JS.assoc t l = Some v -> exists k, In (k, v) l /\ k = t.
Proof.
  induction l as [|[k x] l IH]; [discriminate|]. cbn [JS.assoc].
  destruct (String.eqb_spec k t) as [->|_].
  - intros H. injection H as ->. exists t. split; [now left | reflexivity].
  - intros H. destruct (IH H) as (k' & Hin & E). exists k'. split; [now right | exact E].
Qed.

Lemma lookup_word_map (l : list (string * string)) :
  Forall renaming l -> word_map (lookup_word l).
Proof.
  intros Hl. split.
  - intros t Ht. unfold lookup_word.
    destruct (JS.assoc t l) as [v|] eqn:E; [|exact Ht].
    apply assoc_value in E as (k & Hin & _).
    apply (proj1 (List.Forall_forall _ _) Hl) in Hin. apply Hin.
  - intros c Hc. unfold lookup_word.
    destruct (JS.assoc (String c "") l) as [v|] eqn:E; [|reflexivity].
    apply assoc_value in E as (k & Hin & ->).
    apply (proj1 (List.Forall_forall _ _) Hl) in Hin. destruct Hin as [Hk _].
    unfold is_wordtok in Hk. cbn in Hk. rewrite Hc in Hk. discriminate Hk.
Qed.

End WordMapFacts.

(** ** IOSTranslator: restricted names and targets *)

Module TranslatorProps.
Import IOSTranslator WordMapFacts.

(** The name a token is given by [applyIOSCompatibility]. *)
Definition safe_name (t : string) : string :=
  if existsb (String.eqb t) restrictedAPIs then "__ios_safe_" ++ t else t.

Definition api_renamings : list (string * string) :=
  map (fun api => (api, "__ios_safe_" ++ api)) restrictedAPIs.

Lemma api_step (api s : string) :
  In api restrictedAPIs ->
  Regex.replace (rx_api api) ("__ios_safe_" ++ api) s
  = map_words (rename api ("__ios_safe_" ++ api)) s.
Proof.
  intros H. cbv [In restrictedAPIs] in H.
  repeat (destruct H as [<- | H];
          [apply replace_word; [vm_compute; reflexivity | reflexivity
                               | discriminate | reflexivity | reflexivity]|]).
  destruct H.
Qed.

Lemma fold_api_step (l : list string) :
  (forall api, In api l -> In api restrictedAPIs) ->
  forall s,
    fold_left (fun compatibleCode api =>
                 Regex.replace (rx_api api) ("__ios_safe_" ++ api) compatibleCode)
      l s
    = fold_left (fun acc kv => map_words (rename (fst kv) (snd kv)) acc)
        (map (fun api => (api, "__ios_safe_" ++ api)) l) s.
Proof.
  induction l as [|api l IH]; intros Hl s; [reflexivity|].
  cbn [fold_left map fst snd]. rewrite api_step by (apply Hl; now left).
  apply IH. intros a Ha. apply Hl. now right.
Qed.

Lemma rename_all_apis (t : string) : rename_all api_renamings t = safe_name t.
Proof.
  unfold rename_all, api_renamings, safe_name, restrictedAPIs.
  cbn [map fold_left fst snd existsb]. unfold rename.
  repeat match goal with
         | |- context [String.eqb t ?k] =>
             destruct (String.eqb_spec t k) as [->|_];
             [vm_compute; reflexivity|]; cbn [orb]; cbv iota
         end.
  reflexivity.
Qed.

Lemma safe_name_word_map : word_map safe_name.
Proof.
  split.
  - intros t Ht. unfold safe_name.
    destruct (existsb (String.eqb t) restrictedAPIs); [|exact Ht].
    unfold is_wordtok in *. apply andb_prop in Ht as [_ Ht].
    rewrite !StrFacts.append_cons. cbn [String.eqb negb andb ReplaceFacts.all].
    exact Ht.
  - intros c Hc. unfold safe_name.
    destruct (existsb (String.eqb (String c "")) restrictedAPIs) eqn:E;
      [|reflexivity].
    apply existsb_exists in E as (api & Hin & E). apply String.eqb_eq in E.
    subst api. cbv [In restrictedAPIs] in Hin.
    repeat (destruct Hin as [Hin | Hin]; [discriminate Hin|]). destruct Hin.
Qed.

Lemma safe_name_not_api (t : string) : ~ In (safe_name t) restrictedAPIs.
Proof.
  unfold safe_name.
  destruct (existsb (String.eqb t) restrictedAPIs) eqn:E.
  - cbv [In restrictedAPIs]. intros H.
    repeat (destruct H as [H | H]; [discriminate H|]). destruct H.
  - intros H. apply not_true_iff_false in E. apply E.
    apply existsb_exists. exists t. split; [exact H | apply String.eqb_refl].
Qed.

Lemma safe_name_twice (t : string) : safe_name (safe_name t) = safe_name t.
Proof.
  unfold safe_name at 1.
  destruct (existsb (String.eqb (safe_name t)) restrictedAPIs) eqn:E;
    [|reflexivity].
  apply existsb_exists in E as (api & Hin & E). apply String.eqb_eq in E.
  subst api. now apply safe_name_not_api in Hin.
Qed.

(** The loop of [applyIOSCompatibility] over the restricted names
    rewrites the code token by token: a maximal run of word characters
    that is one of the seven restricted names gets the prefix
    [__ios_safe_], every other token is left as it is.  No restricted
    name stands as a word in the result, and a second pass changes
    nothing. *)
Theorem substitute_apis_by_token (code : string) :
  substitute_apis code = map_words safe_name code
  /\ Forall (fun t => ~ In t restrictedAPIs) (tokens (substitute_apis code))
  /\ substitute_apis (substitute_apis code) = substitute_apis code.
Proof.
  assert (E : forall s, substitute_apis s = map_words safe_name s).
  { intros s. unfold substitute_apis. rewrite fold_api_step by auto.
    fold api_renamings. rewrite fold_rename.
    - unfold map_words. f_equal. apply map_ext, rename_all_apis.
    - unfold api_renamings, restrictedAPIs. cbn [map].
      repeat constructor. }
  split; [apply E|]. split.
  - rewrite E, (tokens_map_words _ safe_name_word_map).
    apply List.Forall_forall. intros t Ht.
    apply in_map_iff in Ht as (u & <- & _). apply safe_name_not_api.
  - rewrite !E, (map_words_compose _ _ _ safe_name_word_map).
    unfold map_words. f_equal. apply map_ext, safe_name_twice.
Qed.

(** The options with another target. *)
Definition with_target (options : Options) (t : string) : Options :=
  mkOptions (Some t) (preservePerformance options) (enablePolyfills options)
    (optimizeForSize options).

Lemma get_unknown {A : Type} (obj : list (string * A)) (key : string) :
  ~ In key (JS.keys obj) -> ~ In key JS.object_prototype_keys ->
  JS.get obj key = JS.Undefined.
Proof.
  intros Hk Hp. unfold JS.get.
  now rewrite (JSFacts.assoc_not_in _ _ Hk), (JITConverterProps.not_inherited _ Hp).
Qed.

(** A target that is neither [webview], [shortcuts] nor [jsc], nor a
    name that object literals inherit, is translated as [shortcuts] is:
    the translation succeeds, the code inside the wrapper and the
    execution requirements are those of [shortcuts], and only the
    wrapper and the list of adaptations name the target that was
    asked for. *)
Theorem unknown_target_is_shortcuts (unknown : string) :
  ~ In unknown (JS.keys adaptationStrategies) ->
  ~ In unknown JS.object_prototype_keys ->
  forall optimizedCode jitEnabled options,
    exists body t t',
      translate_body optimizedCode jitEnabled (with_target options unknown) = Ok t
      /\ translate_body optimizedCode jitEnabled (with_target options "shortcuts")
         = Ok t'
      /\ code t = wrapForIOSExecution body unknown
      /\ code t' = wrapForIOSExecution body "shortcuts"
      /\ execution_requirements t = execution_requirements t'
      /\ In ("target_" ++ unknown) (adaptations t).
Proof.
  intros Hk Hp optimizedCode jitEnabled options.
  assert (Ha : forall c, adaptForTarget c unknown = Ok (AString (adaptForShortcuts c))).
  { intros c. unfold adaptForTarget. now rewrite (get_unknown _ _ Hk Hp). }
  assert (Hs : forall c, adaptForTarget c "shortcuts"
                         = Ok (AString (adaptForShortcuts c))) by reflexivity.
  assert (Hr : getExecutionRequirements unknown = getExecutionRequirements "shortcuts").
  { assert (Hk' : ~ In unknown (JS.keys requirements)) by (cbn in *; tauto).
    unfold getExecutionRequirements at 1. now rewrite (get_unknown _ _ Hk' Hp). }
  unfold translate_body.
  cbn [target with_target preservePerformance enablePolyfills optimizeForSize
       JITEngine.default].
  rewrite Ha, Hs. cbn [bind optimize_adapted].
  eexists. eexists. eexists. split; [reflexivity|]. split; [reflexivity|].
  cbn [code execution_requirements adaptations].
  split; [reflexivity|]. split; [reflexivity|]. split; [exact Hr|].
  apply in_app_iff. right. apply in_app_iff. right. now left.
Qed.

(** The target [android]. *)
Lemma unknown_target_is_shortcuts_witness :
  exists body t t',
    translate_body "var a = 1;" false
      (with_target (mkOptions None None (Some false) None) "android") = Ok t
    /\ translate_body "var a = 1;" false
         (with_target (mkOptions None None (Some false) None) "shortcuts") = Ok t'
    /\ code t = wrapForIOSExecution body "android"
    /\ code t' = wrapForIOSExecution body "shortcuts"
    /\ execution_requirements t = execution_requirements t'.
Proof.
  assert (Hk : ~ In "android" (JS.keys adaptationStrategies)).
  { cbn. intros H. repeat (destruct H as [H | H]; [discriminate H|]). destruct H. }
  assert (Hp : ~ In "android" JS.object_prototype_keys).
  { cbn. intros H. repeat (destruct H as [H | H]; [discriminate H|]). destruct H. }
  destruct (unknown_target_is_shortcuts "android" Hk Hp "var a = 1;" false
              (mkOptions None None (Some false) None))
    as (body & t & t' & Ht & Ht' & Hc & Hc' & Hr & _).
  exists body, t, t'. repeat split; assumption.
Defined.

(** The figure that [translate] reports as [expectedSlowdown] is
    never below 0.3 and never above 2.12, and for the same translated
    code it is larger when the result was compiled with the JIT enabled
    than when it was not. *)
Theorem expected_slowdown_bounds (jitEnabled : bool) (translatedCode : string) :
  (3 # 10 <= calculatePerformanceImpact jitEnabled translatedCode)%Q
  /\ (calculatePerformanceImpact jitEnabled translatedCode <= 212 # 100)%Q
  /\ (calculatePerformanceImpact false translatedCode
      < calculatePerformanceImpact true translatedCode)%Q.
Proof.
  unfold calculatePerformanceImpact.
  destruct jitEnabled; destruct (Str.includes translatedCode "Polyfills");
    repeat split; vm_compute; congruence.
Qed.

End TranslatorProps.

(** ** SwiftConverter: the type names of a method body *)

Module SwiftTypeProps.
Import SwiftConverter WordMapFacts.

(** [this.typeMappings[t]] for a token that is a Swift type name, the
    token itself otherwise. *)
Definition jsType (t : string) : string := lookup_word typeMappings t.

(** The type names that are mapped to another word. *)
Definition rewritten_types : list string :=
  ["Int"; "Double"; "Float"; "Bool"; "Dictionary"; "Optional"; "Any";
   "AnyObject"; "Void"; "nil"].

Lemma word_no_dollar (y : string) :
  ReplaceFacts.all Str.is_word y = true ->
  ReplaceFacts.all (fun c => negb (Ascii.eqb c "$")) y = true.
Proof.
  induction y as [|c y IH]; [reflexivity|]. cbn [ReplaceFacts.all].
  intros H. apply andb_prop in H as [Hc Hy]. rewrite (IH Hy), andb_true_r.
  destruct (Ascii.eqb_spec c "$") as [->|]; [discriminate Hc | reflexivity].
Qed.

(** A statement that replaces the word [fst kv] by the word [snd kv]. *)
Definition renames (r : Rule) (kv : string * string) : Prop :=
  Regex.ast (rx r) = word_ast (fst kv) /\ Regex.global (rx r) = true
  /\ replacement r = snd kv.

Lemma run_renamings (rules : list Rule) (l : list (string * string)) :
  Forall2 renames rules l -> Forall renaming l ->
  forall s,
    run rules s
    = fold_left (fun acc kv => map_words (rename (fst kv) (snd kv)) acc) l s.
Proof.
  unfold run. induction 1 as [|r kv rules l (Ha & Hg & Hr) Hrest IH];
    intros Hl s; [reflexivity|].
  inversion Hl as [|? ? [Hk Hv] Hl']; subst. cbn [fold_left].
  rewrite (IH Hl'). f_equal. unfold apply. rewrite Hr.
  unfold is_wordtok in Hk, Hv.
  apply andb_prop in Hk as [Hk1 Hk2]. apply andb_prop in Hv as [_ Hv2].
  apply replace_word; auto.
  - intros E. rewrite E in Hk1. discriminate Hk1.
  - now apply word_no_dollar.
Qed.

Lemma type_rules_rename : Forall2 renames type_rules typeMappings.
Proof.
  unfold type_rules, typeMappings.
  repeat (constructor; [repeat split; reflexivity|]). constructor.
Qed.

Lemma typeMappings_renaming : Forall renaming typeMappings.
Proof. unfold typeMappings. repeat (constructor; [split; reflexivity|]). constructor. Qed.

Lemma rename_all_types (t : string) : rename_all typeMappings t = jsType t.
Proof. now apply rename_all_lookup. Qed.

Lemma jsType_word_map : word_map jsType.
Proof. apply lookup_word_map, typeMappings_renaming. Qed.

Lemma jsType_not_rewritten (t : string) : ~ In (jsType t) rewritten_types.
Proof.
  unfold jsType, lookup_word, typeMappings. cbn [JS.assoc].
  repeat match goal with
         | |- context [String.eqb ?k t] =>
             destruct (String.eqb_spec k t) as [<-|?];
             [cbv [In rewritten_types]; intros H;
              repeat (destruct H as [H | H]; [discriminate H|]); destruct H|]
         end.
  cbv [In rewritten_types]. intros H.
  repeat (destruct H as [H | H]; [congruence|]). destruct H.
Qed.

(** The loop of [convertMethodBody] over the type mappings rewrites
    the body token by token: a maximal run of word characters that is
    a Swift type name of the table is replaced by its JavaScript name,
    wherever it stands, and every other token is left as it is.  No
    type name that the table maps to another word stands as a word in
    the result. *)
Theorem type_names_by_token (jsBody : string) :
  run type_rules jsBody = map_words jsType jsBody
  /\ Forall (fun t => ~ In t rewritten_types) (tokens (run type_rules jsBody)).
Proof.
  assert (E : run type_rules jsBody = map_words jsType jsBody).
  { rewrite (run_renamings _ _ type_rules_rename typeMappings_renaming).
    rewrite (fold_rename _ _ typeMappings_renaming).
    unfold map_words. f_equal. apply map_ext, rename_all_types. }
  split; [exact E|].
  rewrite E, (tokens_map_words _ jsType_word_map).
  apply List.Forall_forall. intros t Ht.
  apply in_map_iff in Ht as (u & <- & _). apply jsType_not_rewritten.
Qed.

End SwiftTypeProps.

(** ** The texts an expression matches *)

Module LangFacts.
Import Regex RegexFacts RunFacts.

(** The texts an expression can consume, the assertions left aside: an
    assertion consumes nothing, a back reference anything. *)
Fixpoint lang (r : regex) (w : string) : Prop :=
  match r with
  | Eps | WordB _ | Bol | Eol | Look _ _ => w = ""
  | Chr c => w = String c ""
  | Dot => exists c, w = String c "" /\ Str.is_line_terminator c = false
  | Cls neg items => exists c, w = String c "" /\ cls_match neg items c = true
  | Seq a b => exists w1 w2, w = w1 ++ w2 /\ lang a w1 /\ lang b w2
  | Alt a b => lang a w \/ lang b w
  | Star _ a =>
      exists ws, w = Str.concat ws /\ Forall (fun x => lang a x /\ x <> "") ws
  | Plus _ a =>
      exists w1 ws,
        w = w1 ++ Str.concat ws /\ lang a w1
        /\ Forall (fun x => lang a x /\ x <> "") ws
  | Opt _ a => w = "" \/ (lang a w /\ w <> "")
  | Group _ a => lang a w
  | Backref _ => True
  end.

(** An expression without assertions and back references. *)
Fixpoint simple (r : regex) : bool :=
  match r with
  | Eps | Chr _ | Dot | Cls _ _ => true
  | Seq a b | Alt a b => (simple a && simple b)%bool
  | Star _ a | Plus _ a | Opt _ a | Group _ a => simple a
  | WordB _ | Bol | Eol | Look _ _ | Backref _ => false
  end.

Lemma step_char_lang (q : ascii -> bool) (k : cont) (st res : mst) :
  step_char q k st = Some res ->
  exists st' c,
    k st' = Some res /\ after st st' (String c "") /\ q c = true.
Proof.
  unfold step_char. destruct (m_rest st) as [|c rest] eqn:E; [discriminate|].
  destruct (q c) eqn:Ec; [|discriminate].
  intros H. eexists. exists c. split; [exact H|]. split; [|exact Ec].
  split; cbn [m_rest m_pos String.length]; [exact E | lia].
Qed.

Section Star.
Variable body : cont -> cont.
Variable r1 : regex.
Hypothesis body_lang : forall k st res,
  body k st = Some res ->
  exists st' w, k st' = Some res /\ after st st' w /\ lang r1 w.

Lemma star_loop_lang (g : bool) (k : cont) (fuel : string) :
  forall st res,
    star_loop body g k fuel st = Some res ->
    exists st' ws,
      k st' = Some res /\ after st st' (Str.concat ws)
      /\ Forall (fun x => lang r1 x /\ x <> "") ws.
Proof.
  induction fuel as [|x fuel IH]; intros st res H; simpl in H.
  - exists st, []. split; [exact H|]. split; [apply after_refl | constructor].
  - assert (Hiter : forall res',
      body (fun st' => if Nat.eqb (m_pos st') (m_pos st) then None
                       else star_loop body g k fuel st') st = Some res' ->
      exists st' ws,
        k st' = Some res' /\ after st st' (Str.concat ws)
        /\ Forall (fun x => lang r1 x /\ x <> "") ws).
    { intros res' Hb. apply body_lang in Hb as (st1 & w1 & Hk & A1 & L1).
      destruct (Nat.eqb_spec (m_pos st1) (m_pos st)) as [|Hne]; [discriminate|].
      apply IH in Hk as (st' & ws & Hk & A2 & L2).
      exists st', (w1 :: ws). split; [exact Hk|].
      split; [exact (after_trans _ _ _ _ _ A1 A2)|].
      constructor; [|exact L2]. split; [exact L1|].
      intros ->. apply Hne. destruct A1 as [_ A1]. cbn in A1. lia. }
    destruct g; apply orelse_some in H; destruct H as [H | [_ H]];
      try (now apply Hiter);
      exists st, []; (split; [exact H|]);
      (split; [apply after_refl | constructor]).
Qed.
End Star.

Lemma after_reset (gs : list nat) (st st' : mst) (w : string) :
  after (reset gs st) st' w -> after st st' w.
Proof. auto. Qed.

(** A successful match has consumed a text of the expression. *)
Lemma m_sound (ml : bool) (r : regex) :
  forall k st res,
    m ml r k st = Some res ->
    exists st' w, k st' = Some res /\ after st st' w /\ lang r w.
Proof.
  induction r as [ | c | | neg items | neg | | | r1 IH1 r2 IH2 | r1 IH1 r2 IH2
                 | g r1 IH1 | g r1 IH1 | g r1 IH1 | n r1 IH1 | n | neg r1 IH1 ];
    intros k st res H; cbn [m] in H; cbn [lang].
  - exists st, "". split; [exact H|]. split; [apply after_refl | reflexivity].
  - apply step_char_lang in H as (st' & d & Hk & A & Hd).
    apply Ascii.eqb_eq in Hd. subst d. now exists st', (String c "").
  - apply step_char_lang in H as (st' & d & Hk & A & Hd).
    exists st', (String d ""). split; [exact Hk|]. split; [exact A|].
    exists d. split; [reflexivity|]. now apply negb_true_iff in Hd.
  - apply step_char_lang in H as (st' & d & Hk & A & Hd).
    exists st', (String d ""). split; [exact Hk|]. split; [exact A|]. now exists d.
  - destruct (xorb neg (at_word_boundary st)); [|discriminate].
    exists st, "". split; [exact H|]. split; [apply after_refl | reflexivity].
  - destruct (at_bol ml st); [|discriminate].
    exists st, "". split; [exact H|]. split; [apply after_refl | reflexivity].
  - destruct (at_eol ml st); [|discriminate].
    exists st, "". split; [exact H|]. split; [apply after_refl | reflexivity].
  - apply IH1 in H as (st1 & w1 & H & A1 & L1).
    apply IH2 in H as (st2 & w2 & Hk & A2 & L2).
    exists st2, (w1 ++ w2). split; [exact Hk|].
    split; [exact (after_trans _ _ _ _ _ A1 A2)|]. now exists w1, w2.
  - apply orelse_some in H as [H | [_ H]].
    + apply IH1 in H as (st' & w & Hk & A & L). exists st', w. auto.
    + apply IH2 in H as (st' & w & Hk & A & L). exists st', w. auto.
  - apply (star_loop_lang _ r1) in H.
    + destruct H as (st' & ws & Hk & A & L). exists st', (Str.concat ws).
      split; [exact Hk|]. split; [exact A|]. now exists ws.
    + intros k' st0 res0 Hb. apply IH1 in Hb as (st' & w & Hk & A & L).
      exists st', w. auto.
  - apply IH1 in H as (st1 & w1 & H & A1 & L1).
    apply (star_loop_lang _ r1) in H.
    + destruct H as (st' & ws & Hk & A2 & L2).
      exists st', (w1 ++ Str.concat ws). split; [exact Hk|].
      split; [exact (after_trans _ _ _ _ _ (after_reset _ _ _ _ A1) A2)|].
      now exists w1, ws.
    + intros k' st0 res0 Hb. apply IH1 in Hb as (st' & w & Hk & A & L).
      exists st', w. auto.
  - assert (Hone : forall res',
      m ml r1 (fun st' => if Nat.eqb (m_pos st') (m_pos st) then None else k st')
        (reset (groups r1) st) = Some res' ->
      exists st' w, k st' = Some res' /\ after st st' w
                    /\ (w = "" \/ (lang r1 w /\ w <> ""))).
    { intros res' Hb. apply IH1 in Hb as (st' & w & Hk & A & L).
      destruct (Nat.eqb_spec (m_pos st') (m_pos st)) as [|Hne]; [discriminate|].
      exists st', w. split; [exact Hk|]. split; [exact A|]. right.
      split; [exact L|]. intros ->. apply Hne. destruct A as [_ A]. cbn in A. lia. }
    destruct g; apply orelse_some in H; destruct H as [H | [_ H]];
      try (now apply Hone);
      exists st, ""; (split; [exact H|]); (split; [apply after_refl | now left]).
  - apply IH1 in H as (st1 & w & H & A & L).
    eexists. exists w. split; [exact H|]. split; [exact A | exact L].
  - destruct (get_cap n (m_caps st)) as [v|].
    + destruct (Str.starts v (m_rest st)) eqn:E; [|discriminate].
      apply StrFacts.starts_inv in E as [rest E].
      eexists. exists v. split; [exact H|]. split; [|exact I].
      split; cbn [m_rest m_pos]; [|reflexivity].
      rewrite E. now rewrite WordFacts.drop_append.
    + exists st, "". split; [exact H|]. split; [apply after_refl | exact I].
  - destruct (m ml r1 accept st) as [st1|] eqn:E; destruct neg; try discriminate.
    + eexists. exists "". split; [exact H|]. split; [|reflexivity].
      split; cbn [m_rest m_pos with_caps]; [reflexivity | cbn; lia].
    + exists st, "". split; [exact H|]. split; [apply after_refl | reflexivity].
Qed.

Lemma drop_add_length (a t : string) (n : nat) :
  Str.drop (String.length a + n) (a ++ t) = Str.drop n t.
Proof.
  induction a as [|c a IH]; [reflexivity|].
  rewrite StrFacts.append_cons. cbn [String.length Nat.add Str.drop]. exact IH.
Qed.

(** The continuation succeeds wherever the input is [rest], [n]
    characters into the match. *)
Definition accepts (k : cont) (rest : string) (n : nat) : Prop :=
  forall st', m_rest st' = rest -> m_pos st' = n -> k st' <> None.

Lemma orelse_left (a : option mst) (b : unit -> option mst) :
  a <> None -> orelse a b <> None.
Proof. now destruct a. Qed.

Lemma orelse_right (a : option mst) (b : unit -> option mst) :
  b tt <> None -> orelse a b <> None.
Proof. destruct a; [discriminate | auto]. Qed.

Lemma step_char_complete (q : ascii -> bool) (k : cont) (st : mst) (c : ascii)
  (rest : string) :
  q c = true -> m_rest st = String c rest ->
  accepts k rest (m_pos st + 1) ->
  step_char q k st <> None.
Proof.
  intros Hq Hr Hk. unfold step_char. rewrite Hr, Hq.
  apply Hk; cbn [m_rest m_pos]; [reflexivity | lia].
Qed.

Section StarComplete.
Variable body : cont -> cont.
Variable r1 : regex.
Hypothesis body_complete : forall w k st rest,
  lang r1 w -> m_rest st = w ++ rest ->
  accepts k rest (m_pos st + String.length w) ->
  body k st <> None.

Lemma star_loop_complete (g : bool) (k : cont) (ws : list string) :
  Forall (fun x => lang r1 x /\ x <> "") ws ->
  forall fuel st rest,
    m_rest st = Str.concat ws ++ rest ->
    (String.length (m_rest st) <= String.length fuel)%nat ->
    accepts k rest (m_pos st + String.length (Str.concat ws)) ->
    star_loop body g k fuel st <> None.
Proof.
  induction 1 as [|x ws [Lx Hx] Hws IH]; intros fuel st rest Hr Hf Hk.
  - cbn [Str.concat String.length] in *.
    assert (Hst : k st <> None) by (apply Hk; [exact Hr | lia]).
    destruct fuel as [|y fuel]; [exact Hst|]. simpl.
    destruct g; [now apply orelse_right | now apply orelse_left].
  - cbn [Str.concat] in *. rewrite StrFacts.append_assoc in Hr.
    destruct fuel as [|y fuel].
    { exfalso. rewrite Hr in Hf. destruct x; [congruence | simpl in Hf; lia]. }
    assert (Hagain :
      body (fun st' => if Nat.eqb (m_pos st') (m_pos st) then None
                       else star_loop body g k fuel st') st <> None).
    { apply (body_complete x _ st (Str.concat ws ++ rest) Lx Hr).
      intros st1 Hr1 Hp1.
      destruct (Nat.eqb_spec (m_pos st1) (m_pos st)) as [E|_].
      { exfalso. destruct x; [congruence | simpl in Hp1; lia]. }
      apply (IH fuel st1 rest Hr1).
      - rewrite Hr, StrFacts.length_append in Hf. rewrite Hr1.
        destruct x; [congruence | simpl in Hf; simpl; lia].
      - intros st2 Hr2 Hp2. apply Hk; [exact Hr2|].
        rewrite Hp2, Hp1, StrFacts.length_append. lia. }
    simpl. destruct g; [now apply orelse_left | now apply orelse_right].
Qed.
End StarComplete.

(** An expression without assertions matches wherever the input
    begins with one of its texts and the continuation accepts what
    follows. *)
Lemma m_complete (ml : bool) (r : regex) :
  simple r = true ->
  forall w k st rest,
    lang r w -> m_rest st = w ++ rest ->
    accepts k rest (m_pos st + String.length w) ->
    m ml r k st <> None.
Proof.
  induction r as [ | c | | neg items | neg | | | r1 IH1 r2 IH2 | r1 IH1 r2 IH2
                 | g r1 IH1 | g r1 IH1 | g r1 IH1 | n r1 IH1 | n | neg r1 IH1 ];
    intros Hs w k st rest L Hr Hk; try discriminate Hs; cbn [m]; cbn [lang] in L.
  - subst w. apply Hk; [exact Hr | cbn; lia].
  - subst w. apply (step_char_complete _ k st c rest);
      [apply Ascii.eqb_refl | exact Hr | exact Hk].
  - destruct L as (d & -> & Hd).
    apply (step_char_complete _ k st d rest);
      [now rewrite Hd | exact Hr | exact Hk].
  - destruct L as (d & -> & Hd).
    apply (step_char_complete _ k st d rest); [exact Hd | exact Hr | exact Hk].
  - cbn [simple] in Hs. apply andb_prop in Hs as [Hs1 Hs2].
    destruct L as (w1 & w2 & -> & L1 & L2).
    rewrite StrFacts.append_assoc in Hr.
    apply (IH1 Hs1 w1 _ st (w2 ++ rest) L1 Hr).
    intros st1 Hr1 Hp1. apply (IH2 Hs2 w2 k st1 rest L2 Hr1).
    intros st2 Hr2 Hp2. apply Hk; [exact Hr2|].
    rewrite Hp2, Hp1, StrFacts.length_append. lia.
  - cbn [simple] in Hs. apply andb_prop in Hs as [Hs1 Hs2].
    destruct L as [L | L].
    + apply orelse_left. now apply (IH1 Hs1 w k st rest).
    + apply orelse_right. now apply (IH2 Hs2 w k st rest).
  - cbn [simple] in Hs. destruct L as (ws & -> & L).
    apply (star_loop_complete _ r1) with (ws := ws) (rest := rest); auto.
    intros x k' st0 rest0 Lx Hr0 Hk0.
    now apply (IH1 Hs x k' (reset (groups r1) st0) rest0).
  - cbn [simple] in Hs. destruct L as (w1 & ws & -> & L1 & L).
    rewrite StrFacts.append_assoc in Hr.
    apply (IH1 Hs w1 _ (reset (groups r1) st) (Str.concat ws ++ rest) L1 Hr).
    intros st1 Hr1 Hp1.
    apply (star_loop_complete _ r1) with (ws := ws) (rest := rest); auto.
    + intros x k' st0 rest0 Lx Hr0 Hk0.
      now apply (IH1 Hs x k' (reset (groups r1) st0) rest0).
    + intros st2 Hr2 Hp2. apply Hk; [exact Hr2|].
      rewrite Hp2, Hp1, StrFacts.length_append. cbn [reset with_caps m_pos]. lia.
  - cbn [simple] in Hs. destruct L as [-> | [L Hw]].
    + assert (Hst : k st <> None) by (apply Hk; [exact Hr | cbn; lia]).
      destruct g; [now apply orelse_right | now apply orelse_left].
    + assert (Honce :
        m ml r1 (fun st' => if Nat.eqb (m_pos st') (m_pos st) then None else k st')
          (reset (groups r1) st) <> None).
      { apply (IH1 Hs w _ (reset (groups r1) st) rest L Hr).
        intros st1 Hr1 Hp1. cbn [reset with_caps m_pos] in Hp1.
        destruct (Nat.eqb_spec (m_pos st1) (m_pos st)) as [E|_].
        - exfalso. destruct w; [congruence | simpl in Hp1; lia].
        - now apply Hk. }
      destruct g; [now apply orelse_left | now apply orelse_right].
  - cbn [simple] in Hs.
    apply (IH1 Hs w _ st rest L Hr).
    intros st1 Hr1 Hp1. now apply Hk.
Qed.

(** The elements of a sequence, in order. *)
Fixpoint chain (r : regex) : list regex :=
  match r with
  | Seq a b => a :: chain b
  | _ => [r]
  end.

Fixpoint lang_chain (l : list regex) (w : string) : Prop :=
  match l with
  | [] => w = ""
  | a :: l' => exists w1 w2, w = w1 ++ w2 /\ lang a w1 /\ lang_chain l' w2
  end.

Lemma lang_chain_iff (r : regex) (w : string) : lang r w <-> lang_chain (chain r) w.
Proof.
  revert w.
  assert (Hone : forall r w, lang r w <-> lang_chain [r] w).
  { intros r0 w. cbn [lang_chain]. split.
    - intros L. exists w, "". now rewrite StrFacts.append_nil_r.
    - intros (w1 & w2 & -> & L & ->). now rewrite StrFacts.append_nil_r. }
  induction r; intros w; try apply Hone.
  cbn [chain lang lang_chain]. split.
  - intros (w1 & w2 & -> & L1 & L2). exists w1, w2. rewrite <- IHr2. auto.
  - intros (w1 & w2 & -> & L1 & L2). exists w1, w2. rewrite IHr2. auto.
Qed.

Lemma lang_chain_app (l1 l2 : list regex) (w : string) :
  lang_chain (l1 ++ l2) w ->
  exists u v, w = u ++ v /\ lang_chain l1 u /\ lang_chain l2 v.
Proof.
  revert w. induction l1 as [|a l1 IH]; intros w; cbn [app lang_chain].
  - intros L. now exists "", w.
  - intros (w1 & w2 & -> & La & L). apply IH in L as (u & v & -> & Lu & Lv).
    exists (w1 ++ u), v. rewrite StrFacts.append_assoc. split; [reflexivity|].
    split; [|exact Lv]. now exists w1, u.
Qed.

(** The text of a match at the current position is a text of the
    expression. *)
Lemma match_here_lang (rx : RegExp) (prev : option ascii) (s : string)
  (n : nat) (cs : captures) :
  match_here rx prev s = Some (n, cs) -> lang (ast rx) (Str.take n s).
Proof.
  unfold match_here.
  destruct (m (multiline rx) (ast rx) accept (MSt prev s 0 [])) as [res|] eqn:E;
    [|discriminate].
  intros H. injection H as <- <-.
  apply m_sound in E as (st' & w & Ha & [R P] & L). injection Ha as ->.
  cbn [m_rest m_pos] in R, P. rewrite P, R. cbn [Nat.add].
  now rewrite take_append.
Qed.

(** An expression without assertions is found in every text that
    begins with one of its texts. *)
Lemma exec_complete (rx : RegExp) (u v : string) :
  simple (ast rx) = true -> lang (ast rx) u ->
  exists mr, exec rx (u ++ v) = Some mr.
Proof.
  intros Hs L.
  assert (H : match_here rx None (u ++ v) <> None).
  { unfold match_here.
    destruct (m (multiline rx) (ast rx) accept (MSt None (u ++ v) 0 [])) eqn:E;
      [discriminate|].
    exfalso. revert E.
    apply (m_complete _ _ Hs u accept _ v L); [reflexivity|].
    intros st' _ _. discriminate. }
  unfold exec. destruct (u ++ v) as [|c s]; cbn [search];
    destruct (match_here rx None _) as [[n cs]|]; try contradiction; eauto.
Qed.

End LangFacts.

(** ** JITEngine: the optimization passes never fail *)

Module EngineTotalProps.
Import JITEngine Regex.

(** What holds of every piece of a scan holds of the pieces that come
    from a match and of those that come from a character. *)
Lemma scan_Forall {A : Type} (Q : A -> Prop) (rx : RegExp)
  (hit : MatchResult -> A) (lit : ascii -> A) :
  (forall prev s i n cs,
      match_here rx prev s = Some (n, cs) ->
      Q (hit (mkMatch i (Str.take n s) (cap_list (ngroups rx) cs)))) ->
  (forall c, Q (lit c)) ->
  forall s prev i skip, Forall Q (scan rx hit lit prev s i skip).
Proof.
  intros Hhit Hlit. induction s as [|c r IH]; intros prev i skip.
  - destruct skip; cbn [scan]; [|constructor].
    destruct (match_here rx prev "") as [[n cs]|] eqn:E; [|constructor].
    constructor; [apply (Hhit _ _ _ _ _ E) | constructor].
  - destruct skip as [|k]; cbn [scan]; [|apply IH].
    destruct (match_here rx prev (String c r)) as [[n cs]|] eqn:E.
    + destruct n as [|n'].
      * constructor; [apply (Hhit _ _ _ _ _ E)|]. constructor; [apply Hlit | apply IH].
      * constructor; [apply (Hhit _ _ _ _ _ E) | apply IH].
    + constructor; [apply Hlit | apply IH].
Qed.

Lemma sequence_all_ok {A : Type} (l : list (Result A)) :
  Forall (fun x => exists a, x = Ok a) l -> exists l', sequence l = Ok l'.
Proof.
  induction 1 as [|x l [a ->] _ [l' IH]]; cbn [sequence]; [eauto|].
  rewrite IH. eauto.
Qed.

(** A global replacement whose callback succeeds on every match
    succeeds. *)
Lemma replace_try_ok (rx : RegExp) (f : MatchResult -> Result string) (s : string) :
  global rx = true ->
  (forall prev t i n cs,
      match_here rx prev t = Some (n, cs) ->
      exists a, f (mkMatch i (Str.take n t) (cap_list (ngroups rx) cs)) = Ok a) ->
  exists out, replace_try rx f s = Ok out.
Proof.
  intros Hg Hf. unfold replace_try. rewrite Hg.
  destruct (sequence_all_ok
              (scan rx f (fun c => Ok (String c "")) None s 0 0)) as [l' E].
  - apply scan_Forall; [exact Hf | eauto].
  - rewrite E. eauto.
Qed.

(** The callback of [inlineOptimization] reads the length of the
    second capture, which every match sets. *)
Lemma inlineOptimization_ok (code : string) :
  exists out, inlineOptimization code = Ok out.
Proof.
  unfold inlineOptimization. apply replace_try_ok; [reflexivity|].
  intros prev t i n cs E.
  assert (H : get_cap 2 cs <> None).
  { apply (CaptureFacts.match_here_definite rx_inline prev t n cs 2);
      [reflexivity | cbn; tauto | exact E]. }
  rewrite (CaptureFacts.grp_cap_list i (Str.take n t) (ngroups rx_inline) cs 2)
    by (cbn; lia).
  destruct (get_cap 2 cs) as [v|]; [|contradiction]. cbn [deref bind].
  destruct (Str.len v <? 50)%Z; eauto.
Qed.

(** The callback of [deadCodeElimination] looks for the [return]
    statement in the match; the expression it searched with begins
    with the one it looks for, so that the search never yields
    [null]. *)
Lemma deadCodeElimination_ok (code : string) :
  exists out, deadCodeElimination code = Ok out.
Proof.
  unfold deadCodeElimination. apply replace_try_ok; [reflexivity|].
  intros prev t i n cs E. cbn [whole].
  apply LangFacts.match_here_lang in E.
  apply LangFacts.lang_chain_iff in E.
  change (LangFacts.chain (ast rx_dead))
    with (LangFacts.chain (ast rx_return)
          ++ List.skipn (List.length (LangFacts.chain (ast rx_return)))
               (LangFacts.chain (ast rx_dead)))%list in E.
  apply LangFacts.lang_chain_app in E as (u & v & -> & Lu & _).
  apply LangFacts.lang_chain_iff in Lu.
  destruct (LangFacts.exec_complete rx_return u v eq_refl Lu) as [mr ->].
  eauto.
Qed.

Lemma apply_optimization_ok (optimization code : string) :
  exists out, apply_optimization optimization code = Ok out.
Proof.
  unfold apply_optimization.
  destruct (String.eqb optimization "inline"); [apply inlineOptimization_ok|].
  destruct (String.eqb optimization "const-fold"); [eauto|].
  destruct (String.eqb optimization "dead-code"); [apply deadCodeElimination_ok|].
  destruct (String.eqb optimization "loop-opt"); [eauto|].
  destruct (String.eqb optimization "vectorize"); eauto.
Qed.

Lemma apply_all_ok (optimizations : list string) :
  forall code, exists out, apply_all optimizations code = Ok out.
Proof.
  induction optimizations as [|o r IH]; intros code; cbn [apply_all]; [eauto|].
  destruct (apply_optimization_ok o code) as [code' ->]. cbn [bind]. apply IH.
Qed.

Lemma optimize_ok (code level : string) :
  In level (JS.keys optimizationLevels) ->
  exists out, optimize code level = Ok out.
Proof.
  intros H. unfold optimize, optimizations_of.
  apply JSFacts.assoc_in in H as [opts E]. unfold JS.get. rewrite E.
  cbn [bind]. apply apply_all_ok.
Qed.

(** [optimize] returns a code for every input at each of the levels
    [O0] to [O3]: no pass throws, whatever the code.  The callback of
    the dead-code pass, which reads element 0 of a search that could
    yield [null], and the callback of the inlining pass, which reads
    the length of a capture, always find what they read. *)
Theorem optimize_never_throws (code level : string) :
  In level ["O0"; "O1"; "O2"; "O3"] ->
  (exists out, optimize code level = Ok out)
  /\ (exists out, inlineOptimization code = Ok out)
  /\ (exists out, deadCodeElimination code = Ok out).
Proof.
  intros H. split; [now apply optimize_ok|].
  split; [apply inlineOptimization_ok | apply deadCodeElimination_ok].
Qed.

Lemma optimize_never_throws_witness :
  In "O3" ["O0"; "O1"; "O2"; "O3"]
  /\ exists out,
      optimize "function f() { return 1; } f(); return 2; dead();" "O3" = Ok out.
Proof.
  assert (H : In "O3" ["O0"; "O1"; "O2"; "O3"]) by (cbn; tauto).
  split; [exact H|].
  exact (proj1 (optimize_never_throws
                  "function f() { return 1; } f(); return 2; dead();" "O3" H)).
Defined.

(** With one of the levels [O0] to [O3], [compile] fails only where
    the virtual machine refuses the code: when the code does not
    parse, or when the script built from the optimized code does not
    load, throws or runs out of time.  The failure is not stored, and
    the engine is left as it was. *)
Theorem compile_fails_only_in_vm (vm : VM.t) (elapsed : Z * Z) (e e1 : Engine)
  (code : string) (options : Options) (err : string) :
  In (default "O2" (optimizationLevel options)) ["O0"; "O1"; "O2"; "O3"] ->
  compile vm elapsed e code options = (Throw err, e1) ->
  e1 = e
  /\ ((exists msg,
         VM.syntax_error vm code = Some msg
         /\ err = "JIT Compilation failed: Code parsing failed: " ++ msg)
      \/ (exists msg,
            VM.syntax_error vm code = None
            /\ err = "JIT Compilation failed: V8 compilation failed: " ++ msg)).
Proof.
  intros Hl. unfold compile.
  destruct (if default true (cache options) then _ else _) as [hit|];
    [discriminate|].
  destruct (rethrow _ _) as [res|msg] eqn:E; [discriminate|].
  intros H. injection H as <- <-. split; [reflexivity|].
  unfold compile_body, parseCode in E.
  destruct (VM.syntax_error vm code) as [m0|] eqn:Es.
  - left. exists m0. split; [reflexivity|]. cbn [bind rethrow] in E.
    now injection E as <-.
  - right. cbn [bind] in E.
    destruct (optimize_ok code (default "O2" (optimizationLevel options)) Hl)
      as [optimizedCode Eo].
    rewrite Eo in E. cbn [bind] in E.
    unfold compileWithV8 in E.
    destruct (rethrow "V8 compilation failed: " _) as [c|m1] eqn:Ev.
    + exfalso. cbn [bind] in E.
      apply (JSFacts.assoc_in _ optimizationLevels) in Hl as [opts Ea].
      unfold optimizations_of, JS.get in E. rewrite Ea in E. discriminate E.
    + cbn [bind rethrow] in E. injection E as <-.
      unfold rethrow in Ev.
      destruct (match VM.syntax_error vm _ with Some _ => _ | None => _ end)
        as [c|m2]; [discriminate|].
      injection Ev as <-. exists m2. split; [reflexivity|]. reflexivity.
Qed.

Lemma compile_fails_only_in_vm_witness :
  exists err,
    compile JITEngineProps.hanging_vm (0, 0)%Z new "while (true) {}"
      (mkOptions (Some "O1") None None None) = (Throw err, new)
    /\ Str.startsWith err "JIT Compilation failed: " = true.
Proof.
  destruct (compile JITEngineProps.hanging_vm (0, 0)%Z new "while (true) {}"
              (mkOptions (Some "O1") None None None)) as [[r|err] e1] eqn:E;
    [vm_compute in E; discriminate E|].
  assert (Hl : In (default "O2" (optimizationLevel (mkOptions (Some "O1") None None None)))
                 ["O0"; "O1"; "O2"; "O3"]) by (cbn; tauto).
  destruct (compile_fails_only_in_vm _ _ _ _ _ _ _ Hl E) as [-> [(m & _ & ->) | (m & _ & ->)]];
    eexists; (split; [reflexivity|]); reflexivity.
Defined.

(** A replacement of every match by itself gives the text back. *)
Lemma scan_whole (rx : RegExp) (s : string) :
  forall prev i skip,
    (skip <= String.length s)%nat ->
    Str.concat (scan rx (fun mr => whole mr) (fun c => String c "") prev s i skip)
    = Str.drop skip s.
Proof.
  induction s as [|c r IH]; intros prev i skip Hs.
  - destruct skip; [|cbn in Hs; lia]. cbn [scan Str.drop].
    destruct (match_here rx prev "") as [[n cs]|]; [|reflexivity].
    cbn [Str.concat whole]. now destruct n.
  - destruct skip as [|k]; cbn [scan Str.drop].
    + destruct (match_here rx prev (String c r)) as [[n cs]|] eqn:E.
      * destruct (RunFacts.match_here_run (fun _ => true) _ _ _ _ _ E) as [Hn _].
        destruct n as [|n']; cbn [Str.concat whole Str.take].
        -- rewrite (IH (Some c) (S i) 0%nat) by lia. reflexivity.
        -- rewrite (IH (Some c) (S i) n') by (cbn in Hn; lia).
           rewrite StrFacts.append_cons. now rewrite StrFacts.take_drop.
      * cbn [Str.concat]. rewrite (IH (Some c) (S i) 0%nat) by lia. reflexivity.
    + apply IH. cbn in Hs. lia.
Qed.

Lemma replace_fn_whole (rx : RegExp) (s : string) :
  replace_fn rx (fun mr => whole mr) s = s.
Proof.
  unfold replace_fn. destruct (global rx).
  - unfold replace_global. now rewrite scan_whole by lia.
  - unfold replace_first. destruct (exec rx s) as [mr|] eqn:E; [|reflexivity].
    unfold exec in E.
    assert (Hs : forall t prev i mr a,
               search rx prev t i = Some mr ->
               String.length a = i ->
               Str.take (index mr) (a ++ t) ++ whole mr
               ++ Str.drop (index mr + String.length (whole mr)) (a ++ t)
               = a ++ t).
    { induction t as [|c t IHt]; intros prev i mr0 a Hm Ha; cbn [search] in Hm;
        destruct (match_here rx prev _) as [[n cs]|] eqn:Em; try discriminate Hm.
      - injection Hm as <-. cbn [index whole].
        rewrite <- Ha. rewrite RunFacts.take_append.
        destruct n; cbn [Str.take String.length]; rewrite Nat.add_0_r;
          now rewrite WordFacts.drop_append.
      - injection Hm as <-. cbn [index whole].
        destruct (RunFacts.match_here_run (fun _ => true) _ _ _ _ _ Em) as [Hn _].
        rewrite <- Ha. rewrite RunFacts.take_append.
        rewrite StrFacts.length_take, Nat.min_l by exact Hn.
        rewrite LangFacts.drop_add_length.
        now rewrite StrFacts.take_drop.
      - specialize (IHt (Some c) (S i) mr0 (a ++ String c "") Hm).
        rewrite StrFacts.append_assoc in IHt. apply IHt.
        rewrite StrFacts.length_append. cbn. lia. }
    apply (Hs s None 0%nat mr "" E eq_refl).
Qed.

(** [loopOptimization] hands every loop it finds back as it found it:
    the pass returns its input, whatever the code. *)
Theorem loopOptimization_is_identity (code : string) :
  loopOptimization code = code.
Proof. unfold loopOptimization. apply replace_fn_whole. Qed.

(** *** The levels, one on top of the other *)

Lemma optimize_O1 (code : string) :
  optimize code "O1"
  = let! inlined := inlineOptimization code in Ok (constantFolding inlined).
Proof.
  change (optimize code "O1") with (apply_all ["inline"; "const-fold"] code).
  cbn [apply_all].
  change (apply_optimization "inline" code) with (inlineOptimization code).
  destruct (inlineOptimization code) as [inlined|e]; reflexivity.
Qed.

Lemma optimize_O2 (code : string) :
  optimize code "O2"
  = let! c1 := optimize code "O1" in deadCodeElimination c1.
Proof.
  rewrite optimize_O1.
  change (optimize code "O2")
    with (apply_all ["inline"; "const-fold"; "dead-code"; "loop-opt"] code).
  cbn [apply_all].
  change (apply_optimization "inline" code) with (inlineOptimization code).
  destruct (inlineOptimization code) as [inlined|e]; [|reflexivity].
  cbn [bind].
  change (apply_optimization "const-fold" inlined) with (Ok (constantFolding inlined)).
  cbn [bind].
  change (apply_optimization "dead-code" (constantFolding inlined))
    with (deadCodeElimination (constantFolding inlined)).
  destruct (deadCodeElimination (constantFolding inlined)) as [c2|e]; [|reflexivity].
  cbn [bind].
  change (apply_optimization "loop-opt" c2) with (Ok (loopOptimization c2)).
  cbn [bind]. unfold loopOptimization. now rewrite replace_fn_whole.
Qed.

Lemma optimize_O3 (code : string) :
  optimize code "O3"
  = let! c2 := optimize code "O2" in Ok (vectorization c2).
Proof.
  rewrite optimize_O2, optimize_O1.
  change (optimize code "O3")
    with (apply_all ["inline"; "const-fold"; "dead-code"; "loop-opt"; "vectorize"]
            code).
  cbn [apply_all].
  change (apply_optimization "inline" code) with (inlineOptimization code).
  destruct (inlineOptimization code) as [inlined|e]; [|reflexivity].
  cbn [bind].
  change (apply_optimization "const-fold" inlined) with (Ok (constantFolding inlined)).
  cbn [bind].
  change (apply_optimization "dead-code" (constantFolding inlined))
    with (deadCodeElimination (constantFolding inlined)).
  destruct (deadCodeElimination (constantFolding inlined)) as [c2|e]; [|reflexivity].
  cbn [bind].
  change (apply_optimization "loop-opt" c2) with (Ok (loopOptimization c2)).
  cbn [bind]. unfold loopOptimization. rewrite replace_fn_whole.
  change (apply_optimization "vectorize" c2) with (Ok (vectorization c2)).
  reflexivity.
Qed.

(** Each level goes on from the result of the level below.  O1 is
    inlining followed by constant folding.  O2 is dead code elimination
    applied to the result of O1, and nothing more, the loop pass
    changing nothing.  O3 is vectorization applied to the result of O2.
    All of them return. *)
Theorem levels_build_on_each_other (code : string) :
  exists inlined c2,
    inlineOptimization code = Ok inlined
    /\ optimize code "O1" = Ok (constantFolding inlined)
    /\ deadCodeElimination (constantFolding inlined) = Ok c2
    /\ optimize code "O2" = Ok c2
    /\ optimize code "O3" = Ok (vectorization c2).
Proof.
  destruct (inlineOptimization_ok code) as [inlined Hi].
  destruct (deadCodeElimination_ok (constantFolding inlined)) as [c2 H2].
  exists inlined, c2.
  assert (E1 : optimize code "O1" = Ok (constantFolding inlined))
    by (now rewrite optimize_O1, Hi).
  assert (E2 : optimize code "O2" = Ok c2)
    by (rewrite optimize_O2, E1; exact H2).
  repeat split; try assumption.
  now rewrite optimize_O3, E2.
Qed.

End EngineTotalProps.

(** ** Runs of white space *)

Module SpaceFacts.
Import Regex RegexFacts.

(** The number of characters of the kind [q] that [s] begins with. *)
Fixpoint run (q : ascii -> bool) (s : string) : nat :=
  match s with
  | String c r => if q c then S (run q r) else O
  | "" => O
  end.

(** [s] with every run of white space replaced by one space. *)
Fixpoint collapse_go (inrun : bool) (s : string) : string :=
  match s with
  | "" => ""
  | String c r =>
      if Str.is_space c then
        if inrun then collapse_go true r else String " " (collapse_go true r)
      else String c (collapse_go false r)
  end.

Definition collapse (s : string) : string := collapse_go false s.

Definition starts_space (s : string) : bool :=
  match s with
  | String c _ => Str.is_space c
  | "" => false
  end.

(** Every white space character of [s] is a space, and none follows
    another. *)
Fixpoint single_spaced (s : string) : bool :=
  match s with
  | "" => true
  | String c r =>
      ((if Str.is_space c then Ascii.eqb c " " && negb (starts_space r) else true)
       && single_spaced r)%bool
  end.

(** The greedy iteration of a class runs to the end of the run. *)
Lemma star_class_greedy (q : ascii -> bool) (fuel : string) :
  forall st,
    (String.length (m_rest st) <= String.length fuel)%nat ->
    exists st',
      star_loop (fun k' st' => step_char q k' (reset [] st')) true accept fuel st
      = Some st'
      /\ m_pos st' = (m_pos st + run q (m_rest st))%nat
      /\ m_caps st' = m_caps st.
Proof.
  induction fuel as [|y fuel IH]; intros st Hl.
  - destruct (m_rest st) as [|c rest] eqn:E; [|cbn in Hl; lia].
    exists st. cbn [star_loop accept run]. split; [reflexivity|]. split; [lia | reflexivity].
  - simpl star_loop. unfold step_char at 1. cbn [reset with_caps m_rest m_pos m_caps].
    destruct (m_rest st) as [|c rest] eqn:E.
    + exists st. cbn [orelse accept run]. split; [reflexivity|]. split; [lia | reflexivity].
    + cbn [run]. destruct (q c) eqn:Ec.
      * destruct (Nat.eqb_spec (S (m_pos st)) (m_pos st)) as [Hx|_]; [lia|].
        destruct (IH (MSt (Some c) rest (S (m_pos st)) (clear_caps [] (m_caps st))))
          as (st' & -> & Hp & Hc).
        { cbn [m_rest]. cbn in Hl. lia. }
        exists st'. cbn [orelse]. split; [reflexivity|].
        cbn [m_pos m_rest m_caps clear_caps] in Hp, Hc. split; [lia | exact Hc].
      * exists st. cbn [orelse accept]. split; [reflexivity|]. split; [lia | reflexivity].
Qed.

(** A match of [q+] at the current position takes the whole run. *)
Lemma match_here_run_of (rx : RegExp) (q : ascii -> bool) (neg : bool)
  (items : list citem) (prev : option ascii) (s : string) :
  ast rx = Plus true (Cls neg items) ->
  (forall c, cls_match neg items c = q c) ->
  match_here rx prev s
  = match run q s with
    | O => None
    | n => Some (n, [])
    end.
Proof.
  intros Ha Hq. unfold match_here. rewrite Ha. cbn [m groups].
  unfold step_char at 1. cbn [reset with_caps m_rest m_pos m_caps clear_caps].
  destruct s as [|c rest]; [reflexivity|]. cbn [run]. rewrite Hq.
  destruct (q c); [|reflexivity].
  destruct (star_class_greedy (cls_match neg items) rest (MSt (Some c) rest 1 []))
    as (st' & E & Hp & Hc); [cbn; lia|].
  cbn [m_rest] in E. rewrite E. cbn [m_rest m_pos m_caps] in Hp, Hc.
  rewrite Hp, Hc. f_equal. f_equal.
  assert (Hr : forall t, run (cls_match neg items) t = run q t).
  { induction t as [|d t IHt]; [reflexivity|]. cbn [run]. now rewrite Hq, IHt. }
  now rewrite Hr.
Qed.

Lemma collapse_go_other (s : string) :
  starts_space s = false -> collapse_go true s = collapse_go false s.
Proof.
  destruct s as [|c r]; [reflexivity|]. cbn [starts_space collapse_go].
  now intros ->.
Qed.

Section Collapse.
Variable rx : RegExp.
Variable f : replacer.
Hypothesis rx_spaces : forall prev s,
  match_here rx prev s
  = match run Str.is_space s with
    | O => None
    | n => Some (n, [])
    end.
Hypothesis f_space : forall mr, f mr = " ".

Lemma scan_collapse (s : string) :
  forall prev i,
    Str.concat (scan rx f (fun c => String c "") prev s i 0) = collapse_go false s
    /\ Str.concat (scan rx f (fun c => String c "") prev s i (run Str.is_space s))
       = collapse_go true s.
Proof.
  induction s as [|c r IH]; intros prev i.
  - cbn [run scan]. rewrite rx_spaces. cbn [run]. now split.
  - assert (H0 : Str.concat (scan rx f (fun c => String c "") prev (String c r) i 0)
                 = collapse_go false (String c r)).
    { cbn [scan]. rewrite rx_spaces. cbn [run collapse_go].
      destruct (Str.is_space c).
      - cbn [Str.concat]. rewrite f_space.
        now rewrite (proj2 (IH (Some c) (S i))).
      - cbn [Str.concat]. now rewrite (proj1 (IH (Some c) (S i))). }
    split; [exact H0|].
    cbn [run]. destruct (Str.is_space c) eqn:Ec.
    + cbn [scan collapse_go]. rewrite Ec. apply (proj2 (IH (Some c) (S i))).
    + rewrite H0. cbn [collapse_go]. now rewrite Ec.
Qed.

Lemma replace_global_collapse (s : string) : replace_global rx f s = collapse s.
Proof. apply (proj1 (scan_collapse s None 0%nat)). Qed.
End Collapse.

Lemma collapse_go_spaced (s : string) :
  forall inrun,
    single_spaced (collapse_go inrun s) = true
    /\ (inrun = true -> starts_space (collapse_go inrun s) = false).
Proof.
  induction s as [|c r IH]; intros inrun; [now split|].
  cbn [collapse_go]. destruct (Str.is_space c) eqn:Ec.
  - destruct (IH true) as [Hs Hn]. destruct inrun.
    + split; [exact Hs | auto].
    + split; [|discriminate]. cbn [single_spaced].
      change (Str.is_space " ") with true. cbv iota.
      rewrite Hn by reflexivity. now rewrite Hs.
  - destruct (IH false) as [Hs _]. split.
    + cbn [single_spaced]. now rewrite Ec, Hs.
    + intros _. cbn [starts_space]. exact Ec.
Qed.

Lemma collapse_go_length (s : string) :
  forall inrun,
    (String.length (collapse_go inrun s) <= String.length s)%nat.
Proof.
  induction s as [|c r IH]; intros inrun; [cbn; lia|].
  cbn [collapse_go]. destruct (Str.is_space c); [destruct inrun|];
    cbn [String.length]; pose proof (IH true); pose proof (IH false); lia.
Qed.

(** A global replacement by the empty text never lengthens. *)
Lemma scan_erase_length (rx : RegExp) (f : replacer) :
  (forall mr, f mr = "") ->
  forall s prev i skip,
    (String.length (Str.concat (scan rx f (fun c => String c "") prev s i skip))
     <= String.length s)%nat.
Proof.
  intros Hf. induction s as [|c r IH]; intros prev i skip.
  - destruct skip; cbn [scan]; [|cbn [Str.concat String.length]; lia].
    destruct (match_here rx prev "") as [[n cs]|]; cbn [Str.concat];
      rewrite ?Hf, ?StrFacts.length_append; cbn [String.length]; lia.
  - destruct skip as [|k]; cbn [scan].
    + destruct (match_here rx prev (String c r)) as [[n cs]|].
      * destruct n as [|n']; cbn [Str.concat];
          rewrite Hf, !StrFacts.length_append; cbn [String.length].
        -- specialize (IH (Some c) (S i) 0%nat). lia.
        -- specialize (IH (Some c) (S i) n'). lia.
      * cbn [Str.concat]. rewrite StrFacts.length_append. cbn [String.length].
        specialize (IH (Some c) (S i) 0%nat). lia.
    + specialize (IH (Some c) (S i) k). cbn [String.length]. lia.
Qed.

Lemma replace_erase_length (rx : RegExp) (s : string) :
  global rx = true ->
  (String.length (replace rx "" s) <= String.length s)%nat.
Proof.
  intros Hg. unfold replace, replace_fn. rewrite Hg. unfold replace_global.
  apply scan_erase_length. reflexivity.
Qed.

End SpaceFacts.

(** ** IOSTranslator: the size optimization *)

Module MinifyProps.
Import IOSTranslator SpaceFacts.

Lemma replace_spaces (s : string) : Regex.replace rx_spaces " " s = collapse s.
Proof.
  unfold Regex.replace, Regex.replace_fn. cbn [Regex.global rx_spaces].
  apply replace_global_collapse; [|reflexivity].
  intros prev t.
  apply (match_here_run_of rx_spaces Str.is_space false [Regex.CSpace]);
    [reflexivity|].
  intros c. unfold Regex.cls_match. cbn [existsb Regex.citem_match xorb].
  now rewrite orb_false_r.
Qed.

(** The three replacements that [optimizeForIOS] makes under
    [optimizeForSize] end with the collapse of white space: in their
    result every white space character is a space and no space
    follows another, line breaks included; and the result is never
    longer than the code. *)
Theorem minify_collapses_white_space (code : string) :
  minify code
  = collapse (Regex.replace rx_line_comment ""
                (Regex.replace rx_block_comment "" code))
  /\ single_spaced (minify code) = true
  /\ (Str.len (minify code) <= Str.len code)%Z.
Proof.
  unfold minify. rewrite replace_spaces. split; [reflexivity|]. split.
  - apply (collapse_go_spaced _ false).
  - unfold Str.len. apply inj_le.
    etransitivity; [apply collapse_go_length|].
    etransitivity; [apply replace_erase_length; reflexivity|].
    apply replace_erase_length. reflexivity.
Qed.

End MinifyProps.

(** ** Lines of a text *)

Module LineFacts.

Definition is_nl (c : ascii) : bool := Ascii.eqb (ascii_of_N 10) c.

(** The lines of a text: the pieces between its line feeds. *)
Fixpoint split_lines (s : string) : list string :=
  match s with
  | "" => [""]
  | String c r =>
      if is_nl c then "" :: split_lines r
      else match split_lines r with
           | l :: ls => String c l :: ls
           | [] => [String c ""]
           end
  end.

Definition prepend (p : string) (ls : list string) : list string :=
  match ls with
  | l :: r => (p ++ l) :: r
  | [] => [p]
  end.

Lemma rev_to_app (s : string) :
  forall acc, Str.rev_to acc s = Str.rev_to "" s ++ acc.
Proof.
  induction s as [|c s IH]; intros acc; [reflexivity|].
  cbn [Str.rev_to]. rewrite (IH (String c acc)), (IH (String c "")).
  now rewrite StrFacts.append_assoc.
Qed.

Lemma rev_cons (c : ascii) (s : string) :
  Str.rev (String c s) = Str.rev s ++ String c "".
Proof. unfold Str.rev. cbn [Str.rev_to]. apply rev_to_app. Qed.

Lemma split_lines_cons (s : string) : exists l ls, split_lines s = l :: ls.
Proof.
  destruct s as [|c r]; [now exists "", []|]. cbn [split_lines].
  destruct (is_nl c); [eauto|]. destruct (split_lines r); eauto.
Qed.

Lemma split_go_lines (s : string) :
  forall cur,
    Str.split_go Str.nl s cur 0 = prepend (Str.rev cur) (split_lines s).
Proof.
  induction s as [|c r IH]; intros cur.
  - cbn. now rewrite StrFacts.append_nil_r.
  - cbn [Str.split_go split_lines]. unfold Str.nl at 1. cbn [Str.starts].
    fold (is_nl c). destruct (is_nl c).
    + change (String.length Str.nl - 1)%nat with 0%nat. rewrite (IH "").
      cbn [prepend]. rewrite StrFacts.append_nil_r.
      destruct (split_lines_cons r) as (l & ls & ->). reflexivity.
    + rewrite (IH (String c cur)), rev_cons.
      destruct (split_lines_cons r) as (l & ls & ->). cbn [prepend].
      now rewrite StrFacts.append_assoc.
Qed.

(** [s.split('\n')] *)
Lemma split_nl (s : string) : Str.split s Str.nl = split_lines s.
Proof.
  unfold Str.split. rewrite split_go_lines.
  destruct (split_lines_cons s) as (l & ls & ->). reflexivity.
Qed.

Lemma join_cons_char (sep : string) (c : ascii) (l : string) (ls : list string) :
  Str.join sep (String c l :: ls) = String c (Str.join sep (l :: ls)).
Proof. destruct ls; reflexivity. Qed.

(** Joining the lines of a text gives the text back. *)
Lemma join_split_lines (s : string) : Str.join Str.nl (split_lines s) = s.
Proof.
  induction s as [|c r IH]; [reflexivity|]. cbn [split_lines].
  destruct (is_nl c) eqn:Ec.
  - unfold is_nl in Ec. apply Ascii.eqb_eq in Ec. subst c.
    destruct (split_lines_cons r) as (l & ls & E). rewrite E in *.
    change (Str.join Str.nl ("" :: l :: ls))
      with ("" ++ Str.nl ++ Str.join Str.nl (l :: ls)).
    rewrite IH. reflexivity.
  - destruct (split_lines_cons r) as (l & ls & E). rewrite E in *.
    now rewrite join_cons_char, IH.
Qed.

(** A text without line feed. *)
Definition one_line (s : string) : bool :=
  ReplaceFacts.all (fun c => negb (is_nl c)) s.

Lemma split_lines_one (x : string) : one_line x = true -> split_lines x = [x].
Proof.
  induction x as [|c x IH]; [reflexivity|]. unfold one_line. cbn [ReplaceFacts.all].
  intros H. apply andb_prop in H as [Hc Hx]. apply negb_true_iff in Hc.
  cbn [split_lines]. rewrite Hc. now rewrite (IH Hx).
Qed.

Lemma split_lines_app (x rest : string) :
  one_line x = true ->
  split_lines (x ++ Str.nl ++ rest) = x :: split_lines rest.
Proof.
  induction x as [|c x IH]; [reflexivity|]. unfold one_line. cbn [ReplaceFacts.all].
  intros H. apply andb_prop in H as [Hc Hx]. apply negb_true_iff in Hc.
  rewrite StrFacts.append_cons. cbn [split_lines]. rewrite Hc.
  now rewrite (IH Hx).
Qed.

(** The lines of joined lines are the lines that were joined. *)
Lemma split_lines_join (ls : list string) :
  ls <> [] -> Forall (fun l => one_line l = true) ls ->
  split_lines (Str.join Str.nl ls) = ls.
Proof.
  intros Hne H. induction H as [|x ls Hx Hls IH]; [contradiction|].
  destruct ls as [|y ls]; [now apply split_lines_one|].
  change (Str.join Str.nl (x :: y :: ls))
    with (x ++ Str.nl ++ Str.join Str.nl (y :: ls)).
  rewrite (split_lines_app _ _ Hx). f_equal. apply IH. discriminate.
Qed.

Lemma split_lines_one_line (s : string) :
  Forall (fun l => one_line l = true) (split_lines s).
Proof.
  induction s as [|c r IH]; [repeat constructor|]. cbn [split_lines].
  destruct (is_nl c) eqn:Ec; [now constructor|].
  destruct (split_lines r) as [|l ls].
  - constructor; [|constructor]. unfold one_line. cbn [ReplaceFacts.all].
    now rewrite Ec.
  - inversion IH; subst. constructor; [|assumption].
    unfold one_line in *. cbn [ReplaceFacts.all]. now rewrite Ec.
Qed.

End LineFacts.

(** ** The converters: indentation *)

Module IndentProps.
Import LineFacts.

(** What [indentCode] does to a line. *)
Definition indent_line (spaces : nat) (line : string) : string :=
  if String.eqb line "" then line else Str.repeat " " spaces ++ line.

Lemma indentCode_lines (code : string) (spaces : nat) :
  SwiftConverter.indentCode code spaces
  = Str.join Str.nl (map (indent_line spaces) (split_lines code)).
Proof. unfold SwiftConverter.indentCode. now rewrite split_nl. Qed.

Lemma repeat_one_line (n : nat) : one_line (Str.repeat " " n) = true.
Proof. induction n as [|n IH]; [reflexivity|]. cbn [Str.repeat]. exact IH. Qed.

Lemma indent_line_one_line (spaces : nat) (line : string) :
  one_line line = true -> one_line (indent_line spaces line) = true.
Proof.
  intros H. unfold indent_line. destruct (String.eqb line ""); [exact H|].
  unfold one_line. rewrite ReplaceFacts.all_append.
  fold (one_line (Str.repeat " " spaces)). fold (one_line line).
  now rewrite repeat_one_line, H.
Qed.

Lemma repeat_add (a b : nat) :
  Str.repeat " " (a + b) = Str.repeat " " a ++ Str.repeat " " b.
Proof.
  induction a as [|a IH]; [reflexivity|]. cbn [Nat.add Str.repeat].
  rewrite IH. now rewrite StrFacts.append_assoc.
Qed.

Lemma indent_line_twice (a b : nat) (line : string) :
  indent_line b (indent_line a line) = indent_line (b + a) line.
Proof.
  unfold indent_line. destruct (String.eqb_spec line "") as [->|Hne].
  - reflexivity.
  - destruct (String.eqb_spec (Str.repeat " " a ++ line) "") as [E|_].
    + exfalso. apply Hne. destruct (Str.repeat " " a); [exact E | discriminate E].
    + now rewrite repeat_add, StrFacts.append_assoc.
Qed.

Lemma lines_of_indented (code : string) (spaces : nat) :
  split_lines (SwiftConverter.indentCode code spaces)
  = map (indent_line spaces) (split_lines code).
Proof.
  rewrite indentCode_lines. apply split_lines_join.
  - destruct (split_lines_cons code) as (l & ls & ->). discriminate.
  - apply Forall_map. generalize (split_lines_one_line code).
    apply List.Forall_impl. intros l. apply indent_line_one_line.
Qed.

(** [indentCode] works line by line.  With no space it gives the code
    back; indenting twice is indenting once by the sum; the lines of
    the result are the lines of the code, each one that is not empty
    behind the spaces, so that their number is kept and an empty line
    stays empty.  The converters of Swift and of Objective-C indent in
    the same way. *)
Theorem indentCode_by_line (code : string) (a b : nat) :
  SwiftConverter.indentCode code 0 = code
  /\ SwiftConverter.indentCode (SwiftConverter.indentCode code a) b
     = SwiftConverter.indentCode code (b + a)
  /\ Str.split (SwiftConverter.indentCode code a) Str.nl
     = map (indent_line a) (Str.split code Str.nl)
  /\ ObjectiveCConverter.indentCode code a = SwiftConverter.indentCode code a.
Proof.
  split; [|split; [|split]].
  - rewrite indentCode_lines.
    rewrite (map_ext (indent_line 0) (fun l => l)).
    + rewrite map_id. apply join_split_lines.
    + intros l. unfold indent_line. now destruct (String.eqb l "").
  - rewrite (indentCode_lines (SwiftConverter.indentCode code a) b).
    rewrite lines_of_indented, map_map, indentCode_lines.
    f_equal. apply map_ext. intros l. apply indent_line_twice.
  - rewrite !split_nl. apply lines_of_indented.
  - reflexivity.
Qed.

End IndentProps.

(** ** SwiftConverter: default values *)

Module DefaultValueProps.
Import SwiftConverter Regex.

(** The optional markers of a type. *)
Definition is_marker (c : ascii) : bool := (Ascii.eqb c "?" || Ascii.eqb c "!")%bool.

(** [s] without the characters of the kind [q]. *)
Fixpoint strip (q : ascii -> bool) (s : string) : string :=
  match s with
  | "" => ""
  | String c r => if q c then strip q r else String c (strip q r)
  end.

Lemma match_here_class (rx : RegExp) (neg : bool) (items : list citem)
  (prev : option ascii) (s : string) :
  ast rx = Cls neg items ->
  match_here rx prev s
  = match s with
    | String c _ => if cls_match neg items c then Some (1%nat, []) else None
    | "" => None
    end.
Proof.
  intros Ha. unfold match_here. rewrite Ha. cbn [m]. unfold step_char.
  cbn [m_rest]. destruct s as [|c r]; [reflexivity|].
  now destruct (cls_match neg items c).
Qed.

Lemma scan_strip (rx : RegExp) (neg : bool) (items : list citem) (f : replacer) :
  ast rx = Cls neg items -> (forall mr, f mr = "") ->
  forall s prev i,
    Str.concat (scan rx f (fun c => String c "") prev s i 0)
    = strip (cls_match neg items) s.
Proof.
  intros Ha Hf. induction s as [|c r IH]; intros prev i; cbn [scan];
    rewrite (match_here_class rx neg items _ _ Ha); [reflexivity|].
  cbn [strip]. destruct (cls_match neg items c); cbn [Str.concat].
  - rewrite Hf, IH. reflexivity.
  - rewrite IH. reflexivity.
Qed.

Lemma strip_ext (p q : ascii -> bool) (s : string) :
  (forall c, p c = q c) -> strip p s = strip q s.
Proof.
  intros H. induction s as [|c r IH]; [reflexivity|]. cbn [strip].
  now rewrite H, IH.
Qed.

Lemma replace_optional (t : string) :
  Regex.replace rx_optional "" t = strip is_marker t.
Proof.
  unfold Regex.replace, replace_fn. cbn [global rx_optional]. unfold replace_global.
  rewrite (scan_strip rx_optional false [CChr "?"; CChr "!"]);
    [|reflexivity | reflexivity].
  apply strip_ext. intros c. unfold cls_match, is_marker.
  cbn [existsb citem_match xorb]. now rewrite orb_false_r.
Qed.

Lemma strip_app (q : ascii -> bool) (a b : string) :
  strip q (a ++ b) = strip q a ++ strip q b.
Proof.
  induction a as [|c a IH]; [reflexivity|].
  rewrite StrFacts.append_cons. cbn [strip]. rewrite IH.
  now destruct (q c).
Qed.

Lemma strip_strip (q : ascii -> bool) (s : string) : strip q (strip q s) = strip q s.
Proof.
  induction s as [|c r IH]; [reflexivity|]. cbn [strip].
  destruct (q c) eqn:E; [exact IH|]. cbn [strip]. now rewrite E, IH.
Qed.

Lemma getDefaultValue_clean (t : string) :
  getDefaultValue (Some t)
  = let cleanType := strip is_marker t in
    if String.eqb cleanType "String" then "''"
    else if (String.eqb cleanType "Int" || String.eqb cleanType "Double"
             || String.eqb cleanType "Float")%bool then "0"
    else if String.eqb cleanType "Bool" then "false"
    else if String.eqb cleanType "Array" then "[]"
    else if String.eqb cleanType "Dictionary" then "{}"
    else if String.eqb cleanType "Set" then "new Set()"
    else "null".
Proof.
  destruct t as [|c t]; [reflexivity|].
  unfold getDefaultValue. now rewrite replace_optional.
Qed.

(** [getDefaultValue] looks at the type without its optional markers,
    wherever they stand: a [?] or [!] in the type changes nothing, so
    that an optional [String] defaults to the empty string and not to
    [null].  The value is one of seven texts, [null] for a type that is
    missing, empty or not in the table. *)
Theorem default_value_ignores_markers :
  (forall t, getDefaultValue (Some t) = getDefaultValue (Some (strip is_marker t)))
  /\ (forall a b,
         getDefaultValue (Some (a ++ "?" ++ b)) = getDefaultValue (Some (a ++ b))
         /\ getDefaultValue (Some (a ++ "!" ++ b)) = getDefaultValue (Some (a ++ b)))
  /\ (forall type,
         In (getDefaultValue type) ["null"; "''"; "0"; "false"; "[]"; "{}"; "new Set()"]).
Proof.
  split; [|split].
  - intros t. rewrite !getDefaultValue_clean. cbv zeta. now rewrite strip_strip.
  - intros a b. rewrite !getDefaultValue_clean. cbv zeta.
    rewrite !strip_app. split; reflexivity.
  - intros [t|]; [|cbn; tauto]. rewrite getDefaultValue_clean. cbv zeta.
    repeat match goal with
           | |- context [String.eqb ?x ?k] => destruct (String.eqb x k)
           end; cbn; tauto.
Qed.

End DefaultValueProps.

(** ** SwiftConverter: the parameters of a function *)

Module SwiftParameterProps.
Import SwiftConverter.

(** A parameter with both of its names. *)
Definition named (p : ParameterDecl) : Prop :=
  (exists e, externalName p = Some e /\ e <> "")
  /\ (exists i, internalName p = Some i /\ i <> "").

Definition any_char : ascii -> bool := fun _ => true.

Lemma cap_some (mr : Regex.MatchResult) (j : nat) (v : string) :
  Forall (RunFacts.cap_in any_char) (Regex.caps mr) ->
  Regex.grp mr j = Some v -> v <> "".
Proof.
  intros H E. unfold Regex.grp in E.
  assert (Hc : RunFacts.cap_in any_char (nth (j - 1) (Regex.caps mr) None)).
  { destruct (nth_in_or_default (j - 1) (Regex.caps mr) None) as [Hin | ->];
      [|exact I].
    apply (proj1 (List.Forall_forall _ _) H _ Hin). }
  rewrite E in Hc. cbn in Hc. intros ->. exact Hc.
Qed.

Lemma parseParameter_named (part : string) :
  exists ps,
    parseParameter part = Ok ps /\ (List.length ps <= 1)%nat /\ Forall named ps.
Proof.
  unfold parseParameter.
  destruct (Regex.exec rx_parameter (Str.trim part)) as [mt|] eqn:E.
  - assert (Hc : Forall (RunFacts.cap_in any_char) (Regex.caps mt)).
    { apply (RunFacts.exec_caps any_char _ _ _) in E; [exact E|].
      cbn. repeat split; auto. }
    destruct (CaptureFacts.exec_definite rx_parameter 3 (Str.trim part) mt) as [v3 H3];
      [reflexivity | cbn; tauto | cbn; lia | exact E |].
    destruct (CaptureFacts.exec_definite rx_parameter 2 (Str.trim part) mt) as [v2 H2];
      [reflexivity | cbn; tauto | cbn; lia | exact E |].
    rewrite H3. cbn [deref bind]. eexists. split; [reflexivity|].
    split; [cbn; lia|]. constructor; [|constructor]. split; cbn [externalName internalName].
    + rewrite H2. unfold or_else, if_truthy.
      destruct (Regex.grp mt 1) as [[|c v1]|].
      * exists v2. split; [reflexivity | exact (cap_some _ _ _ Hc H2)].
      * exists (String c v1). split; [reflexivity | discriminate].
      * exists v2. split; [reflexivity | exact (cap_some _ _ _ Hc H2)].
    + exists v2. split; [exact H2 | exact (cap_some _ _ _ Hc H2)].
  - destruct (Regex.exec rx_simple (Str.trim part)) as [simple|] eqn:Es.
    + assert (Hc : Forall (RunFacts.cap_in any_char) (Regex.caps simple)).
      { apply (RunFacts.exec_caps any_char _ _ _) in Es; [exact Es|].
        cbn. repeat split; auto. }
      destruct (CaptureFacts.exec_definite rx_simple 1 (Str.trim part) simple)
        as [v1 H1]; [reflexivity | cbn; tauto | cbn; lia | exact Es |].
      eexists. split; [reflexivity|]. split; [cbn; lia|].
      constructor; [|constructor].
      split; cbn [externalName internalName]; exists v1;
        (split; [exact H1 | exact (cap_some _ _ _ Hc H1)]).
    + exists []. split; [reflexivity|]. split; [cbn; lia | constructor].
Qed.

Lemma sequence_named (parts : list string) :
  exists l,
    sequence (map parseParameter parts) = Ok l
    /\ (List.length (List.concat l) <= List.length parts)%nat
    /\ Forall named (List.concat l).
Proof.
  induction parts as [|part parts (l & E & Hl & Hn)].
  - exists []. split; [reflexivity|]. split; [cbn; lia | constructor].
  - destruct (parseParameter_named part) as (ps & Ep & Hp & Hnp).
    exists (ps :: l). cbn [map sequence]. rewrite Ep, E.
    split; [reflexivity|]. cbn [List.concat].
    split; [rewrite List.length_app; cbn [List.length]; lia|].
    apply Forall_app. now split.
Qed.

(** [parseParameters] returns for every text: at most one parameter
    for each piece between commas, each with an external and an
    internal name that are not empty. *)
Theorem parameters_have_names (paramString : string) :
  exists ps,
    parseParameters (Some paramString) = Ok ps
    /\ (List.length ps <= List.length (Str.split paramString ","))%nat
    /\ Forall named ps.
Proof.
  unfold parseParameters. cbn [deref bind].
  destruct (String.eqb (Str.trim paramString) "").
  - exists []. split; [reflexivity|]. split; [cbn; lia | constructor].
  - destruct (sequence_named (Str.split paramString ",")) as (l & E & Hl & Hn).
    rewrite E. cbn [bind]. eauto.
Qed.

End SwiftParameterProps.

(** ** ObjectiveCConverter: the parameters of a method *)

Module MethodParameterProps.
Import ObjectiveCConverter Regex RegexFacts.

(** [s] begins with word characters followed by a colon. *)
Fixpoint colon_after (s : string) : bool :=
  match s with
  | String c r => if Str.is_word c then colon_after r else Ascii.eqb c ":"
  | "" => false
  end.

Definition colon_word (s : string) : bool :=
  match s with
  | String c r => (Str.is_word c && colon_after r)%bool
  | "" => false
  end.

Definition word_plus : regex := Plus true (Cls false [CWord]).

Lemma cls_word (c : ascii) : cls_match false [CWord] c = Str.is_word c.
Proof. unfold cls_match. cbn [existsb citem_match xorb]. now rewrite orb_false_r. Qed.

Lemma concat_words (ws : list string) :
  Forall (fun x => LangFacts.lang (Cls false [CWord]) x /\ x <> "") ws ->
  ReplaceFacts.all Str.is_word (Str.concat ws) = true.
Proof.
  induction 1 as [|x ws [(c & -> & Hc) _] _ IH]; [reflexivity|].
  cbn [Str.concat]. change (String c "" ++ Str.concat ws) with (String c (Str.concat ws)).
  cbn [ReplaceFacts.all]. rewrite cls_word in Hc. now rewrite Hc, IH.
Qed.

Lemma word_plus_inv (w : string) :
  LangFacts.lang word_plus w ->
  exists c w', w = String c w' /\ Str.is_word c = true
               /\ ReplaceFacts.all Str.is_word w' = true.
Proof.
  intros (w1 & ws & -> & (c & -> & Hc) & Hws). rewrite cls_word in Hc.
  exists c, (Str.concat ws). split; [reflexivity|]. split; [exact Hc|].
  now apply concat_words.
Qed.

Lemma word_plus_intro (c : ascii) (w' : string) :
  Str.is_word c = true -> ReplaceFacts.all Str.is_word w' = true ->
  LangFacts.lang word_plus (String c w').
Proof.
  intros Hc Hw. exists (String c ""), (ReplaceFacts.chars (fun x => String x "") w').
  split; [|split].
  - now rewrite ReplaceFacts.concat_chars.
  - exists c. split; [reflexivity|]. now rewrite cls_word.
  - clear c Hc. induction w' as [|d w' IH]; [constructor|].
    cbn [ReplaceFacts.all] in Hw. apply andb_prop in Hw as [Hd Hw].
    cbn [ReplaceFacts.chars]. constructor; [|now apply IH].
    split; [|discriminate]. exists d. split; [reflexivity|]. now rewrite cls_word.
Qed.

Lemma colon_after_intro (w rest : string) :
  ReplaceFacts.all Str.is_word w = true -> colon_after (w ++ ":" ++ rest) = true.
Proof.
  induction w as [|c w IH]; [reflexivity|]. cbn [ReplaceFacts.all].
  intros H. apply andb_prop in H as [Hc Hw].
  rewrite StrFacts.append_cons. cbn [colon_after]. rewrite Hc. now apply IH.
Qed.

Lemma colon_word_intro (c : ascii) (w rest : string) :
  Str.is_word c = true -> ReplaceFacts.all Str.is_word w = true ->
  colon_word (String c w ++ ":" ++ rest) = true.
Proof.
  intros Hc Hw. rewrite StrFacts.append_cons. cbn [colon_word].
  now rewrite Hc, colon_after_intro.
Qed.

Lemma colon_after_inv (s : string) :
  colon_after s = true ->
  exists w rest, s = w ++ ":" ++ rest /\ ReplaceFacts.all Str.is_word w = true.
Proof.
  induction s as [|c r IH]; [discriminate|]. cbn [colon_after].
  destruct (Str.is_word c) eqn:Hc.
  - intros H. destruct (IH H) as (w & rest & -> & Hw).
    exists (String c w), rest. split; [reflexivity|]. cbn [ReplaceFacts.all].
    now rewrite Hc, Hw.
  - intros H. apply Ascii.eqb_eq in H. subst c. now exists "", r.
Qed.

Lemma colon_word_inv (s : string) :
  colon_word s = true ->
  exists c w rest,
    s = String c w ++ ":" ++ rest /\ Str.is_word c = true
    /\ ReplaceFacts.all Str.is_word w = true.
Proof.
  destruct s as [|c r]; [discriminate|]. cbn [colon_word].
  intros H. apply andb_prop in H as [Hc H].
  destruct (colon_after_inv r H) as (w & rest & -> & Hw).
  now exists c, w, rest.
Qed.

(** A text that has a word and a colon in front still has them when
    more text follows. *)
Lemma colon_after_app (s t : string) :
  colon_after s = true -> colon_after (s ++ t) = true.
Proof.
  induction s as [|c r IH]; [discriminate|]. rewrite StrFacts.append_cons.
  cbn [colon_after]. destruct (Str.is_word c); auto.
Qed.

Lemma colon_word_app (s t : string) :
  colon_word s = true -> colon_word (s ++ t) = true.
Proof.
  destruct s as [|c r]; [discriminate|]. rewrite StrFacts.append_cons.
  cbn [colon_word]. intros H. apply andb_prop in H as [-> H].
  now rewrite colon_after_app.
Qed.

(** *** Where [/(?=\w+:)/] matches *)

Lemma m_look (ml : bool) (r1 : regex) (k : cont) (st : mst) :
  m ml (Look false r1) k st
  = match m ml r1 accept st with
    | Some st' => k (with_caps (m_caps st') st)
    | None => None
    end.
Proof. reflexivity. Qed.

Lemma parts_here (prev : option ascii) (s : string) :
  (colon_word s = true -> exists cs, match_here rx_parts prev s = Some (0%nat, cs))
  /\ (colon_word s = false -> match_here rx_parts prev s = None).
Proof.
  unfold match_here. cbn [rx_parts ast multiline]. rewrite m_look.
  destruct (m false (Seq (Plus true (Cls false [CWord])) (Chr ":")) accept
              (MSt prev s 0 [])) as [st'|] eqn:E.
  - split; [intros _; eexists; reflexivity|].
    intros Hs. exfalso.
    apply LangFacts.m_sound in E as (st1 & w & Ha & [R _] & L).
    cbn [m_rest] in R. destruct L as (w1 & w2 & -> & L1 & ->).
    apply word_plus_inv in L1 as (c & w' & -> & Hc & Hw).
    rewrite R, StrFacts.append_assoc, (colon_word_intro c w' _ Hc Hw) in Hs.
    discriminate Hs.
  - split; [|reflexivity]. intros Hs. exfalso.
    apply colon_word_inv in Hs as (c & w & rest & -> & Hc & Hw).
    revert E.
    apply (LangFacts.m_complete false (Seq (Plus true (Cls false [CWord])) (Chr ":"))
             eq_refl (String c w ++ ":") accept _ rest).
    + exists (String c w), ":". split; [reflexivity|].
      split; [now apply word_plus_intro | reflexivity].
    + cbn [m_rest]. now rewrite StrFacts.append_assoc.
    + intros st' _ _. discriminate.
Qed.

(** *** The pieces of [signature.split(/(?=\w+:)/)] *)

(** No text that follows a character of [t] begins, with [rest] behind
    it, with a word and a colon. *)
Fixpoint quiet_inside (t rest : string) : bool :=
  match t with
  | "" => true
  | String d t' => (negb (colon_word (t ++ rest)) && quiet_inside t' rest)%bool
  end.

(** Nowhere behind its first character does the piece begin with a
    word and a colon. *)
Definition inner_ok (part : string) : bool :=
  match part with
  | "" => true
  | String c t => quiet_inside t ""
  end.

Lemma quiet_inside_snoc (t : string) (c : ascii) (r : string) :
  quiet_inside (t ++ String c "") r
  = (quiet_inside t (String c r) && negb (colon_word (String c r)))%bool.
Proof.
  induction t as [|d t IH].
  - cbn [append quiet_inside]. simpl. now rewrite andb_true_r.
  - rewrite StrFacts.append_cons. cbn [quiet_inside]. rewrite IH.
    rewrite <- StrFacts.append_cons, StrFacts.append_assoc.
    change (String c "" ++ r) with (String c r).
    now rewrite andb_assoc.
Qed.

Lemma quiet_inside_weaken (t rest : string) :
  quiet_inside t rest = true -> quiet_inside t "" = true.
Proof.
  induction t as [|d t IH]; [reflexivity|]. cbn [quiet_inside].
  intros H. apply andb_prop in H as [Hd Ht]. rewrite (IH Ht), andb_true_r.
  apply negb_true_iff in Hd. apply negb_true_iff. apply not_true_is_false.
  intros E. rewrite StrFacts.append_nil_r in E.
  now rewrite (colon_word_app _ rest E) in Hd.
Qed.

(** The piece being read, with the input still to come. *)
Definition reading (cur s : string) : Prop :=
  match cur with
  | "" => True
  | String c t => quiet_inside t s = true
  end.

Lemma reading_inner (cur s : string) : reading cur s -> inner_ok cur = true.
Proof.
  destruct cur as [|c t]; [reflexivity|]. cbn [reading inner_ok].
  apply quiet_inside_weaken.
Qed.

Lemma split_go_inner (s : string) :
  forall prev cur,
    reading cur s ->
    Forall (fun part => inner_ok part = true) (split_go rx_parts prev s cur 0).
Proof.
  induction s as [|c r IH]; intros prev cur Hcur.
  - cbn [split_go]. constructor; [|constructor]. now apply (reading_inner cur "").
  - cbn [split_go]. destruct (parts_here prev (String c r)) as [Hyes Hno].
    destruct (colon_word (String c r)) eqn:Hs.
    + destruct (Hyes eq_refl) as [cs ->].
      assert (Hnew : reading (String c "") r) by reflexivity.
      destruct (String.eqb cur ""); [now apply IH|].
      constructor; [now apply (reading_inner cur (String c r)) | now apply IH].
    + rewrite (Hno eq_refl). apply IH.
      destruct cur as [|d t]; [reflexivity|].
      rewrite StrFacts.append_cons. cbn [reading] in *.
      now rewrite quiet_inside_snoc, Hcur, Hs.
Qed.

Lemma split_inner (signature : string) :
  Forall (fun part => inner_ok part = true) (Regex.split rx_parts signature).
Proof.
  unfold Regex.split. destruct signature as [|c r].
  - destruct (match_here rx_parts None ""); repeat constructor.
  - now apply split_go_inner.
Qed.

(** Behind the first character of a piece nothing begins with a word
    and a colon. *)
Lemma quiet_inside_suffix (u y : string) :
  quiet_inside (u ++ y) "" = true -> colon_word y = false.
Proof.
  induction u as [|d u IH].
  - destruct y as [|e y]; [reflexivity|]. cbn [append quiet_inside].
    simpl. rewrite StrFacts.append_nil_r. intros H.
    apply andb_prop in H as [H _]. now apply negb_true_iff in H.
  - rewrite StrFacts.append_cons. cbn [quiet_inside]. intros H.
    apply andb_prop in H as [_ H]. now apply IH.
Qed.

Lemma inner_suffix (x y : string) :
  inner_ok (x ++ y) = true -> x <> "" -> colon_word y = false.
Proof.
  destruct x as [|c u]; [contradiction|]. intros H _.
  rewrite StrFacts.append_cons in H. cbn [inner_ok] in H.
  now apply quiet_inside_suffix in H.
Qed.

(** *** The label of a parameter *)

Lemma trimStart_parts (s : string) : exists x, s = x ++ Str.trimStart s.
Proof.
  induction s as [|c r [x IH]]; [now exists ""|]. cbn [Str.trimStart].
  destruct (Str.is_space c); [|now exists ""].
  exists (String c x). rewrite StrFacts.append_cons. now rewrite <- IH.
Qed.

Lemma trimEnd_parts (s : string) : exists y, s = Str.trimEnd s ++ y.
Proof.
  induction s as [|c r [y IH]]; [now exists ""|]. cbn [Str.trimEnd].
  destruct (Str.trimEnd r) as [|d r'] eqn:E.
  - destruct (Str.is_space c); [now exists (String c r)|].
    exists y. cbn [append] in IH. rewrite StrFacts.append_cons. simpl.
    now rewrite IH at 1.
  - exists y. rewrite StrFacts.append_cons. now rewrite <- IH.
Qed.

Lemma trim_parts (s : string) : exists x y, s = x ++ Str.trim s ++ y.
Proof.
  unfold Str.trim. destruct (trimStart_parts s) as [x Hx].
  destruct (trimEnd_parts (Str.trimStart s)) as [y Hy].
  exists x, y. now rewrite <- Hy.
Qed.

Lemma search_inv (rx : RegExp) (s : string) :
  forall prev i mr,
    search rx prev s i = Some mr ->
    exists a b prev' n cs,
      s = a ++ b /\ match_here rx prev' b = Some (n, cs)
      /\ mr = mkMatch (i + String.length a) (Str.take n b) (cap_list (ngroups rx) cs).
Proof.
  induction s as [|c r IH]; intros prev i mr; cbn [search];
    destruct (match_here rx prev _) as [[n cs]|] eqn:E; intros H;
    try discriminate H.
  - injection H as <-. exists "", "", prev, n, cs. cbn [String.length].
    rewrite Nat.add_0_r. auto.
  - injection H as <-. exists "", (String c r), prev, n, cs. cbn [String.length].
    rewrite Nat.add_0_r. auto.
  - apply IH in H as (a & b & prev' & n & cs & -> & Hm & ->).
    exists (String c a), b, prev', n, cs. cbn [String.length].
    rewrite Nat.add_succ_r. auto.
Qed.

Lemma m_seq_group (ml : bool) (n : nat) (r1 r2 : regex) (k : cont) (st : mst) :
  m ml (Seq (Group n r1) r2) k st
  = m ml r1
      (fun st' =>
         m ml r2 k
           (with_caps ((n, Str.take (m_pos st' - m_pos st) (m_rest st)) :: m_caps st')
              st'))
      st.
Proof. reflexivity. Qed.

(** A match of an expression that begins with [(\w+):] captures the
    word in front of the colon. *)
Lemma label_match (rx : RegExp) (tail : regex) (prev : option ascii) (b : string)
  (n : nat) (cs : captures) :
  ast rx = Seq (Group 1 word_plus) (Seq (Chr ":") tail) ->
  distinct (groups (Seq (Chr ":") tail)) = true ->
  ~ In 1%nat (groups (Seq (Chr ":") tail)) ->
  match_here rx prev b = Some (n, cs) ->
  exists c w rest,
    b = String c w ++ ":" ++ rest /\ get_cap 1 cs = Some (String c w)
    /\ Str.is_word c = true /\ ReplaceFacts.all Str.is_word w = true.
Proof.
  intros Ha Hd Hout. unfold match_here. rewrite Ha, m_seq_group.
  match goal with |- context [m ?ml word_plus ?k ?st] =>
    destruct (m ml word_plus k st) as [res|] eqn:E end; [|discriminate].
  intros H. injection H as <- <-.
  apply LangFacts.m_sound in E as (st1 & w1 & Hk & [R1 P1] & L1).
  cbn [m_rest m_pos] in R1, P1, Hk.
  apply word_plus_inv in L1 as (c & w & -> & Hc & Hw).
  pose proof Hk as Hk2.
  apply LangFacts.m_sound in Hk as (st2 & w2 & Hacc & [R2 _] & L2).
  cbn [m_rest with_caps] in R2. destruct L2 as (wc & w2' & -> & -> & _).
  apply (CaptureFacts.m_sets _ _ Hd) in Hk2 as (st3 & Hacc3 & _ & F).
  injection Hacc3 as ->.
  exists c, w, (w2' ++ m_rest st2). split; [|split; [|auto]].
  - rewrite R1, R2. now rewrite !StrFacts.append_assoc.
  - rewrite (F 1%nat Hout). cbn [m_caps with_caps get_cap Nat.eqb].
    rewrite P1, R1. cbn [Nat.add]. rewrite Nat.sub_0_r.
    now rewrite RunFacts.take_append.
Qed.

(** A parameter whose label is one word character. *)
Definition single_label (p : MethodParameter) : Prop :=
  exists c, label p = Some (String c "") /\ Str.is_word c = true.

Lemma label_of_piece (rx : RegExp) (tail : regex) (part : string) (mt : MatchResult) :
  ast rx = Seq (Group 1 word_plus) (Seq (Chr ":") tail) ->
  distinct (groups (Seq (Chr ":") tail)) = true ->
  ~ In 1%nat (groups (Seq (Chr ":") tail)) ->
  (1 <= ngroups rx)%nat ->
  inner_ok part = true ->
  exec rx (Str.trim part) = Some mt ->
  exists c, grp mt 1 = Some (String c "") /\ Str.is_word c = true.
Proof.
  intros Ha Hd Hout Hn Hin E.
  apply search_inv in E as (a & b & prev' & n & cs & Et & Hm & ->).
  rewrite (CaptureFacts.grp_cap_list _ _ _ cs 1) by lia.
  destruct (label_match rx tail prev' b n cs Ha Hd Hout Hm)
    as (c & w & rest & -> & -> & Hc & Hw).
  destruct (trim_parts part) as (x & y & Hp). rewrite Et in Hp.
  assert (Hcw : forall z, colon_word ((String c w ++ ":" ++ rest) ++ z) = true).
  { intros z. apply colon_word_app. now apply colon_word_intro. }
  assert (Hxa : x ++ a = "").
  { destruct (x ++ a) as [|e xa] eqn:Exa; [reflexivity|]. exfalso.
    assert (Hp' : part = (x ++ a) ++ (String c w ++ ":" ++ rest) ++ y)
      by (rewrite Hp; now rewrite !StrFacts.append_assoc).
    rewrite Hp' in Hin. apply inner_suffix in Hin; [|rewrite Exa; discriminate].
    now rewrite Hcw in Hin. }
  exists c. split; [|exact Hc]. destruct w as [|d w]; [reflexivity|]. exfalso.
  assert (Hp' : part = String c "" ++ (String d w ++ ":" ++ rest) ++ y).
  { rewrite Hp.
    replace (x ++ (a ++ String c (String d w) ++ ":" ++ rest) ++ y)
      with ((x ++ a) ++ (String c (String d w) ++ ":" ++ rest) ++ y)
      by (now rewrite !StrFacts.append_assoc).
    now rewrite Hxa. }
  rewrite Hp' in Hin. apply inner_suffix in Hin; [|discriminate].
  cbn [ReplaceFacts.all] in Hw. apply andb_prop in Hw as [Hd' Hw].
  assert (E : colon_word ((String d w ++ ":" ++ rest) ++ y) = true).
  { apply colon_word_app. now apply colon_word_intro. }
  now rewrite E in Hin.
Qed.

Lemma parseMethodParameter_label (part : string) :
  inner_ok part = true -> Forall single_label (parseMethodParameter part).
Proof.
  intros Hin. unfold parseMethodParameter.
  destruct (exec rx_labelled (Str.trim part)) as [mt|] eqn:E1.
  - constructor; [|constructor]. unfold single_label. cbn [label].
    eapply (label_of_piece rx_labelled); [reflexivity | reflexivity | | | exact Hin | exact E1].
    + cbn. intros H. repeat (destruct H as [H | H]; [discriminate H|]). destruct H.
    + cbn. lia.
  - destruct (exec rx_unlabelled (Str.trim part)) as [simpleMatch|] eqn:E2;
      [|constructor].
    constructor; [|constructor]. unfold single_label. cbn [label].
    eapply (label_of_piece rx_unlabelled); [reflexivity | reflexivity | | | exact Hin | exact E2].
    + cbn. intros H. repeat (destruct H as [H | H]; [discriminate H|]). destruct H.
    + cbn. lia.
Qed.

(** The split in front of every word that a colon follows cuts inside
    the labels: behind the first character of a piece no word with a
    colon begins.  So every label that [parseMethodParameters] records
    is one character, the last one of the label in the signature, and
    the first piece, which the loop passes over, is never read.  For
    the selector [setAge:(int)age height:(int)h] the labels recorded
    are [e] and [t]; for [x:(int)a] no parameter is recorded. *)
Theorem labels_are_single_characters :
  (forall signature,
      Forall (fun p => exists c, label p = Some (String c "")
                                 /\ Str.is_word c = true)
        (parseMethodParameters signature))
  /\ map label (parseMethodParameters "setAge:(int)age height:(int)h")
     = [Some "e"; Some "t"]
  /\ parseMethodParameters "x:(int)a" = [].
Proof.
  split; [|split; vm_compute; reflexivity].
  intros signature. unfold parseMethodParameters.
  destruct (negb (Str.includes signature ":")); [constructor|].
  assert (H : Forall (fun part => inner_ok part = true)
                (List.tl (Regex.split rx_parts signature))).
  { pose proof (split_inner signature) as H.
    destruct (Regex.split rx_parts signature); [constructor|].
    now inversion H. }
  induction H as [|part parts Hp _ IH]; [constructor|].
  cbn [flat_map]. apply Forall_app. split; [|exact IH].
  now apply parseMethodParameter_label.
Qed.

End MethodParameterProps.

(** ** Replacement of the words of a choice *)

Module WordSetFacts.
Import Regex ReplaceFacts WordFacts WordMapFacts.

(** The characters of a word, one after the other. *)
Fixpoint lit_ast (w : string) : regex :=
  match w with
  | "" => Eps
  | String c "" => Chr c
  | String c r => Seq (Chr c) (lit_ast r)
  end.

(** [\b(w1|w2)\b] *)
Definition choice_ast (w1 w2 : string) : regex :=
  Seq (WordB false)
    (Seq (Group 1 (Alt (lit_ast w1) (lit_ast w2))) (WordB false)).

Lemma lit_ast_cons (c d : ascii) (r : string) :
  lit_ast (String c (String d r)) = Seq (Chr c) (lit_ast (String d r)).
Proof. reflexivity. Qed.

Lemma lit_ast_literal (w : string) : literal (lit_ast w) = true.
Proof.
  induction w as [|c w IH]; [reflexivity|].
  destruct w as [|d w]; [reflexivity|]. rewrite lit_ast_cons. cbn [literal].
  now rewrite IH.
Qed.

Lemma lit_ast_text (w : string) : text (lit_ast w) = w.
Proof.
  induction w as [|c w IH]; [reflexivity|].
  destruct w as [|d w]; [reflexivity|]. rewrite lit_ast_cons. cbn [text].
  now rewrite IH.
Qed.

Lemma lit_ast_ok (w : string) :
  forall prev s, lit_ok (lit_ast w) prev s = Str.starts w s.
Proof.
  induction w as [|c w IH]; intros prev s; [reflexivity|].
  destruct w as [|d w].
  - cbn [lit_ast lit_ok Str.starts]. destruct s as [|e s]; [reflexivity|].
    now destruct (Ascii.eqb c e).
  - rewrite lit_ast_cons. cbn [lit_ok text String.length before_end].
    destruct s as [|e s]; [reflexivity|]. cbn [Str.starts].
    destruct (Ascii.eqb c e); [|reflexivity]. cbn [andb].
    change (Str.drop 1 (String e s)) with s. apply IH.
Qed.

Lemma before_end_word (w : string) (prev : option ascii) :
  is_wordtok w = true -> is_word_opt (before_end w prev) = true.
Proof.
  intros Hw. destruct (is_wordtok_cons w Hw) as (c & r & -> & Hc & Hr).
  cbn [before_end]. clear Hw. revert c Hc.
  induction r as [|d r IH]; intros c Hc; [exact Hc|].
  cbn [all] in Hr. apply andb_prop in Hr as [Hd Hr]. cbn [before_end].
  now apply IH.
Qed.

Lemma next_starts (st : mst) : is_word_opt (next_char st) = starts_word (m_rest st).
Proof. unfold next_char. now destruct (m_rest st). Qed.

Lemma match_here_choice (rx : RegExp) (w1 w2 : string) (prev : option ascii)
  (s : string) :
  ast rx = choice_ast w1 w2 ->
  is_wordtok w1 = true -> is_wordtok w2 = true ->
  match_here rx prev s
  = if (negb (is_word_opt prev)
        && (String.eqb (word_prefix s) w1 || String.eqb (word_prefix s) w2))%bool
    then Some (String.length (word_prefix s), [(1, word_prefix s)])
    else None.
Proof.
  intros Ha H1 H2. unfold match_here. rewrite Ha. unfold choice_ast.
  cbn [m].
  rewrite !m_lit by apply lit_ast_literal.
  cbn [m_prev m_rest]. rewrite !lit_ast_ok.
  unfold lit_next. rewrite !lit_ast_text.
  unfold with_caps, at_word_boundary, accept.
  cbn [m_prev m_rest m_pos m_caps xorb]. rewrite !next_starts.
  cbn [m_rest].
  rewrite !before_end_word by assumption.
  apply andb_prop in H1 as [N1 W1]. apply andb_prop in H2 as [N2 W2].
  apply negb_true_iff, String.eqb_neq in N1, N2.
  pose proof (word_prefix_is w1 W1 s) as B1.
  pose proof (word_prefix_is w2 W2 s) as B2.
  replace (0 + String.length w1 - 0)%nat with (String.length w1) by lia.
  replace (0 + String.length w2 - 0)%nat with (String.length w2) by lia.
  assert (Hs : forall w, w <> "" -> word_prefix s = w -> starts_word s = true).
  { intros w Hn E. destruct s as [|c r]; [now symmetry in E|].
    cbn [word_prefix] in E. cbn [starts_word].
    destruct (Str.is_word c); [reflexivity | now symmetry in E]. }
  destruct (String.eqb_spec (word_prefix s) w1) as [E1|E1].
  - rewrite (Hs w1 N1 E1). apply andb_prop in B1 as [-> B1].
    apply negb_true_iff in B1. rewrite B1. cbn [orb andb orelse].
    rewrite <- E1, take_word_prefix.
    destruct (is_word_opt prev); reflexivity.
  - cbn [orb].
    assert (F1 : (Str.starts w1 s
                  && negb (starts_word (Str.drop (String.length w1) s)))%bool
                 = false) by exact B1.
    clear B1.
    destruct (String.eqb_spec (word_prefix s) w2) as [E2|E2].
    + rewrite (Hs w2 N2 E2). apply andb_prop in B2 as [-> B2].
      apply negb_true_iff in B2. rewrite B2. cbn [andb].
      rewrite <- E2, take_word_prefix.
      destruct (is_word_opt prev); cbn [negb xorb andb]; try reflexivity.
      destruct (Str.starts w1 s); [|reflexivity].
      destruct (starts_word (Str.drop (String.length w1) s));
        [reflexivity | discriminate F1].
    + rewrite andb_false_r.
      destruct (xorb (is_word_opt prev) (starts_word s)); [|reflexivity].
      destruct (Str.starts w1 s);
        [destruct (starts_word (Str.drop (String.length w1) s));
         [|discriminate F1]|];
        (destruct (Str.starts w2 s); [|reflexivity]);
        (destruct (starts_word (Str.drop (String.length w2) s));
         [reflexivity | discriminate B2]).
Qed.

(** *** A global replacement of the words a test accepts *)

Definition rename_in (P : string -> bool) (y t : string) : string :=
  if P t then y else t.

Definition renamed_in (P : string -> bool) (y s : string) : string :=
  map_words (rename_in P y) s.
Definition resumed_in (P : string -> bool) (y s : string) : string :=
  word_prefix s ++ renamed_in P y (after_word s).

Section RenameIn.
Variable rx : RegExp.
Variable f : replacer.
Variable P : string -> bool.
Variable cs : string -> captures.
Variable y : string.
Hypothesis rx_match : forall prev s,
  match_here rx prev s
  = if (negb (is_word_opt prev) && P (word_prefix s))%bool
    then Some (String.length (word_prefix s), cs (word_prefix s))
    else None.
Hypothesis P_word : forall t, P t = true -> is_wordtok t = true.
Hypothesis f_y : forall mr, f mr = y.

Lemma P_empty : P "" = false.
Proof.
  destruct (P "") eqn:E; [|reflexivity]. apply P_word in E. discriminate E.
Qed.

Lemma P_other (c : ascii) : Str.is_word c = false -> P (String c "") = false.
Proof.
  intros Hc. destruct (P (String c "")) eqn:E; [|reflexivity].
  apply P_word in E. unfold is_wordtok in E. cbn in E. rewrite Hc in E.
  discriminate E.
Qed.

Lemma outer_word_in (c : ascii) (r : string) :
  Str.is_word c = true ->
  renamed_in P y (String c r)
  = rename_in P y (word_prefix (String c r))
    ++ renamed_in P y (after_word (String c r)).
Proof. intros Hc. apply (map_words_word _ c r Hc). Qed.

Lemma outer_other_in (c : ascii) (r : string) :
  Str.is_word c = false ->
  renamed_in P y (String c r) = String c (renamed_in P y r).
Proof.
  intros Hc. unfold renamed_in, map_words. rewrite (tokens_other c r Hc).
  cbn [map Str.concat]. unfold rename_in at 1. now rewrite (P_other c Hc).
Qed.

Lemma inner_word_in (c : ascii) (r : string) :
  Str.is_word c = true ->
  resumed_in P y (String c r) = String c (resumed_in P y r).
Proof.
  intros Hc. unfold resumed_in. cbn [word_prefix after_word]. now rewrite Hc.
Qed.

Lemma inner_other_in (s : string) :
  starts_word s = false -> resumed_in P y s = renamed_in P y s.
Proof.
  intros Hs. unfold resumed_in. destruct s as [|c s]; [reflexivity|].
  cbn [starts_word] in Hs. cbn [word_prefix after_word]. now rewrite Hs.
Qed.

Lemma scan_word_set (s : string) :
  forall prev i k,
    all Str.is_word (Str.take k s) = true ->
    (k <= String.length s)%nat ->
    Str.concat (scan rx f (fun c => String c "") prev s i k)
    = match k with
      | O => if is_word_opt prev then resumed_in P y s else renamed_in P y s
      | S _ => resumed_in P y (Str.drop k s)
      end.
Proof.
  induction s as [|c r IH]; intros prev i k Hk Hl.
  - destruct k as [|k]; [|cbn in Hl; lia]. cbn [scan].
    rewrite rx_match. cbn [word_prefix]. rewrite P_empty, andb_false_r.
    now destruct (is_word_opt prev).
  - destruct k as [|k].
    + cbn [scan]. rewrite rx_match.
      destruct (is_word_opt prev) eqn:Ep; cbn [negb andb].
      * cbn [Str.concat]. rewrite (IH (Some c) (S i) 0%nat) by (cbn; auto; lia).
        cbn [is_word_opt]. destruct (Str.is_word c) eqn:Ec.
        -- now rewrite inner_word_in.
        -- rewrite inner_other_in by (cbn; exact Ec). now rewrite outer_other_in.
      * destruct (P (word_prefix (String c r))) eqn:E.
        -- assert (Hc : Str.is_word c = true).
           { cbn [word_prefix] in E. destruct (Str.is_word c); [reflexivity|].
             now rewrite P_empty in E. }
           rewrite (outer_word_in c r Hc). unfold rename_in. rewrite E.
           cbn [word_prefix after_word]. rewrite Hc. cbn [String.length].
           cbn [Str.concat].
           assert (H1 : all Str.is_word
                          (Str.take (String.length (word_prefix r)) r) = true)
             by (rewrite take_word_prefix; apply word_prefix_word).
           rewrite (IH (Some c) (S i) _ H1 (length_word_prefix r)).
           rewrite f_y. f_equal.
           destruct (String.length (word_prefix r)) eqn:El.
           ++ cbn [is_word_opt]. rewrite Hc.
              rewrite <- (drop_word_prefix r), El. cbn [Str.drop].
              apply inner_other_in.
              rewrite <- (after_word_starts r), <- (drop_word_prefix r), El.
              reflexivity.
           ++ rewrite <- El, drop_word_prefix.
              apply inner_other_in, after_word_starts.
        -- cbn [Str.concat]. rewrite (IH (Some c) (S i) 0%nat) by (cbn; auto; lia).
           cbn [is_word_opt]. destruct (Str.is_word c) eqn:Ec.
           ++ rewrite (outer_word_in c r Ec). unfold rename_in. rewrite E.
              change (String c "" ++ resumed_in P y r)
                with (String c (resumed_in P y r)).
              rewrite <- (inner_word_in c r Ec). reflexivity.
           ++ now rewrite outer_other_in.
    + cbn [scan]. cbn [Str.take all] in Hk. apply andb_prop in Hk as [Hc Hk].
      rewrite (IH (Some c) (S i) k Hk) by (cbn in Hl; lia).
      cbn [Str.drop]. destruct k as [|k]; [|reflexivity].
      cbn [is_word_opt]. now rewrite Hc.
Qed.

Lemma replace_global_word_set (s : string) :
  replace_global rx f s = map_words (rename_in P y) s.
Proof.
  unfold replace_global.
  now rewrite (scan_word_set s None 0%nat 0%nat) by (cbn; auto; lia).
Qed.
End RenameIn.

(** [s.replace(/\b(w1|w2)\b/g, y)] replaces the tokens of [s] that are
    the word [w1] or the word [w2] by [y], and no other. *)
Lemma replace_choice (rx : RegExp) (w1 w2 y s : string) :
  ast rx = choice_ast w1 w2 -> global rx = true ->
  is_wordtok w1 = true -> is_wordtok w2 = true ->
  all (fun c => negb (Ascii.eqb c "$")) y = true ->
  replace rx y s
  = map_words (rename_in (fun t => String.eqb t w1 || String.eqb t w2)%bool y) s.
Proof.
  intros Ha Hg H1 H2 Hy. unfold replace, replace_fn. rewrite Hg.
  apply (replace_global_word_set rx _ _ (fun t => [(1%nat, t)]) y).
  - intros prev s'. apply match_here_choice; assumption.
  - intros t Ht. apply orb_prop in Ht as [E|E]; apply String.eqb_eq in E;
      now subst t.
  - intros mr. now apply substitute_plain.
Qed.

End WordSetFacts.

(** ** IOSTranslator: block scoped declarations *)

Module BlockScopeProps.
Import IOSTranslator WordMapFacts WordSetFacts.

(** The keyword a token is given by [transpileBlockScope]. *)
Definition var_keyword (t : string) : string :=
  if (String.eqb t "let" || String.eqb t "const")%bool then "var" else t.

Lemma var_keyword_word_map : word_map var_keyword.
Proof.
  split.
  - intros t Ht. unfold var_keyword.
    now destruct (String.eqb t "let" || String.eqb t "const")%bool.
  - intros c Hc. unfold var_keyword.
    destruct (String.eqb_spec (String c "") "let") as [E|_]; [discriminate E|].
    destruct (String.eqb_spec (String c "") "const") as [E|_]; [discriminate E|].
    reflexivity.
Qed.

Lemma var_keyword_twice (t : string) : var_keyword (var_keyword t) = var_keyword t.
Proof.
  unfold var_keyword.
  destruct (String.eqb t "let" || String.eqb t "const")%bool eqn:E;
    [reflexivity | now rewrite E].
Qed.

Lemma var_keyword_length (t : string) :
  (String.length (var_keyword t) <= String.length t)%nat.
Proof.
  unfold var_keyword.
  destruct (String.eqb_spec t "let") as [->|_]; [cbn; lia|].
  destruct (String.eqb_spec t "const") as [->|_]; [cbn; lia|].
  cbn [orb]. lia.
Qed.

Lemma map_words_length (g : string -> string) (s : string) :
  (forall t, String.length (g t) <= String.length t)%nat ->
  (String.length (map_words g s) <= String.length s)%nat.
Proof.
  intros Hg. rewrite <- (map_words_id s) at 2. unfold map_words.
  induction (tokens s) as [|t l IH]; [reflexivity|].
  cbn [map Str.concat]. rewrite !StrFacts.length_append.
  specialize (Hg t). lia.
Qed.

Lemma transpileBlockScope_words (code : string) :
  transpileBlockScope code = map_words var_keyword code.
Proof.
  unfold transpileBlockScope.
  apply (replace_choice rx_block "let" "const" "var" code); reflexivity.
Qed.

(** [transpileBlockScope] rewrites the code token by token: a maximal
    run of word characters that is [let] or [const] becomes [var],
    wherever it stands, and every other token is left as it is.  Neither
    [let] nor [const] stands as a word in the result, the result is never
    longer than the code, and a second pass changes nothing. *)
Theorem block_scope_by_token (code : string) :
  transpileBlockScope code = map_words var_keyword code
  /\ Forall (fun t => t <> "let" /\ t <> "const")
       (tokens (transpileBlockScope code))
  /\ (String.length (transpileBlockScope code) <= String.length code)%nat
  /\ transpileBlockScope (transpileBlockScope code) = transpileBlockScope code.
Proof.
  split; [apply transpileBlockScope_words|]. split; [|split].
  - rewrite transpileBlockScope_words, (tokens_map_words _ var_keyword_word_map).
    apply List.Forall_forall. intros t Ht.
    apply in_map_iff in Ht as (u & <- & _). unfold var_keyword.
    destruct (String.eqb_spec u "let") as [E|N1]; [split; discriminate|].
    destruct (String.eqb_spec u "const") as [E|N2]; [split; discriminate|].
    now split.
  - rewrite transpileBlockScope_words.
    apply map_words_length, var_keyword_length.
  - rewrite !transpileBlockScope_words,
      (map_words_compose _ _ _ var_keyword_word_map).
    unfold map_words. f_equal. apply map_ext, var_keyword_twice.
Qed.

End BlockScopeProps.

(** ** IOSTranslator: what the translation cache tells apart *)

Module TranslateCacheProps.
Import IOSTranslator.

(** The result of [translate_body] depends on [jitEnabled] in its
    [expectedSlowdown] only. *)
Lemma translate_body_jitEnabled (optimizedCode : string) (jitEnabled : bool)
  (options : Options) (t : Translation) :
  translate_body optimizedCode jitEnabled options = Ok t ->
  expectedSlowdown (performance t) = calculatePerformanceImpact jitEnabled (code t)
  /\ forall jitEnabled',
       exists t',
         translate_body optimizedCode jitEnabled' options = Ok t'
         /\ code t' = code t
         /\ expectedSlowdown (performance t')
            = calculatePerformanceImpact jitEnabled' (code t).
Proof.
  unfold translate_body.
  destruct (adaptForTarget _ _) as [a|e]; cbn [bind]; [|discriminate].
  destruct (optimize_adapted _ _) as [x|e]; cbn [bind]; [|discriminate].
  intros H. injection H as <-. cbn [performance expectedSlowdown code].
  split; [reflexivity|]. intros b. eexists. split; [reflexivity|].
  cbn [performance expectedSlowdown code]. now split.
Qed.

Lemma slower_with_jit (translatedCode : string) :
  (calculatePerformanceImpact false translatedCode
   < calculatePerformanceImpact true translatedCode)%Q.
Proof.
  unfold calculatePerformanceImpact.
  destruct (Str.includes translatedCode "Polyfills"); vm_compute; reflexivity.
Qed.

(** The key of the translation cache is made of the optimized code, the
    options and the hour: nothing else of the compilation result takes
    part.  Within the hour, the translation returned for one result is
    returned again for every result with the same optimized code.  When
    the first result was compiled without the JIT and the second with
    it, the [expectedSlowdown] handed to the second is that of the
    first, which is smaller than the one its own translation has. *)
Theorem translation_served_to_other_result
  (now1 now2 : Z) (cache cache1 : gmap string Translation)
  (r1 r2 : JITEngine.CompileResult) (options : Options) (t1 : Translation) :
  (now1 / (1000 * 60 * 60) = now2 / (1000 * 60 * 60))%Z ->
  JITEngine.optimizedCode r2 = JITEngine.optimizedCode r1 ->
  translate now1 cache r1 options = (Ok t1, cache1) ->
  translate now2 cache1 r2 options = (Ok t1, cache1)
  /\ (cache !! generateCacheKey now1 (JITEngine.optimizedCode r1) options = None ->
      JITEngine.jitEnabled r1 = false -> JITEngine.jitEnabled r2 = true ->
      exists t2,
        translate_body (JITEngine.optimizedCode r2) (JITEngine.jitEnabled r2)
          options = Ok t2
        /\ code t2 = code t1
        /\ (expectedSlowdown (performance t1)
            < expectedSlowdown (performance t2))%Q).
Proof.
  intros Hh Ho H. split.
  - unfold translate in *. rewrite Ho.
    rewrite <- (IOSTranslatorProps.cache_key_same_hour now1 now2 _ _ Hh).
    destruct (cache !! _) as [hit|] eqn:Hl.
    + injection H as <- <-. now rewrite Hl.
    + destruct (translate_body _ _ _) as [res|]; cbn [rethrow] in H;
        [|discriminate H].
      injection H as <- <-. now rewrite lookup_insert_eq.
  - intros Hl H1 H2. unfold translate in H. rewrite Hl, H1 in H.
    destruct (translate_body _ false options) as [res|] eqn:Hb;
      cbn [rethrow] in H; [|discriminate H].
    injection H as <- _.
    destruct (translate_body_jitEnabled _ _ _ _ Hb) as [E1 Hall].
    destruct (Hall true) as (t2 & Ht2 & Hc & E2).
    exists t2. rewrite Ho, H2. split; [exact Ht2|]. split; [exact Hc|].
    rewrite E1, E2. apply slower_with_jit.
Qed.

Definition plain_result (jitEnabled : bool) : JITEngine.CompileResult :=
  JITEngine.mkResult "var a = 1;" "var a = 1;" "" [] jitEnabled 0
    (JITEngine.mkMetadata 10 10 "O0" []).

(** A result compiled without the JIT, and one with it a second later. *)
Lemma translation_served_to_other_result_witness :
  exists t1 cache1 t2,
    translate 0 ∅ (plain_result false) (mkOptions None None (Some false) None)
    = (Ok t1, cache1)
    /\ translate 1000 cache1 (plain_result true)
         (mkOptions None None (Some false) None)
       = (Ok t1, cache1)
    /\ translate_body "var a = 1;" true (mkOptions None None (Some false) None)
       = Ok t2
    /\ (expectedSlowdown (performance t1) < expectedSlowdown (performance t2))%Q.
Proof.
  destruct (translate 0 ∅ (plain_result false)
              (mkOptions None None (Some false) None)) as [[t1|e] cache1] eqn:E.
  - destruct (translation_served_to_other_result 0 1000 ∅ cache1
                (plain_result false) (plain_result true)
                (mkOptions None None (Some false) None) t1
                eq_refl eq_refl E) as [H1 H2].
    destruct (H2 (lookup_empty _) eq_refl eq_refl) as (t2 & Ht2 & _ & Hlt).
    exists t1, cache1, t2. repeat split; assumption.
  - exfalso. unfold translate in E. rewrite lookup_empty in E.
    destruct (translate_body _ _ _) as [res|] eqn:Hb;
      [discriminate E | vm_compute in Hb; discriminate Hb].
Defined.

End TranslateCacheProps.

(** ** ObjectiveCConverter: the name of a method *)

Module MethodNameProps.
Import ObjectiveCConverter.

Definition is_colon (c : ascii) : bool := Ascii.eqb ":" c.

(** The text in front of the first colon; the whole text when there is
    none. *)
Fixpoint before_colon (s : string) : string :=
  match s with
  | "" => ""
  | String c r => if is_colon c then "" else String c (before_colon r)
  end.

Lemma includes_colon (c : ascii) (r : string) :
  Str.includes (String c r) ":" = (is_colon c || Str.includes r ":")%bool.
Proof.
  cbn [Str.includes Str.starts]. fold (is_colon c). now destruct (is_colon c).
Qed.

Lemma split_go_colon (s : string) :
  forall cur,
    exists rest,
      Str.split_go ":" s cur 0 = (Str.rev cur ++ before_colon s) :: rest.
Proof.
  induction s as [|c r IH]; intros cur.
  - exists []. cbn. now rewrite StrFacts.append_nil_r.
  - cbn [Str.split_go before_colon Str.starts]. fold (is_colon c).
    destruct (is_colon c).
    + eexists. now rewrite StrFacts.append_nil_r.
    + destruct (IH (String c cur)) as [rest ->]. exists rest.
      now rewrite LineFacts.rev_cons, StrFacts.append_assoc.
Qed.

Lemma before_colon_all (s : string) :
  Str.includes s ":" = false -> before_colon s = s.
Proof.
  induction s as [|c r IH]; [reflexivity|]. rewrite includes_colon.
  intros H. apply orb_false_elim in H as [Hc Hr]. cbn [before_colon].
  now rewrite Hc, (IH Hr).
Qed.

Lemma before_colon_free (s : string) : Str.includes (before_colon s) ":" = false.
Proof.
  induction s as [|c r IH]; [reflexivity|]. cbn [before_colon].
  destruct (is_colon c) eqn:Ec; [reflexivity|].
  now rewrite includes_colon, Ec, IH.
Qed.

Lemma trimStart_free (s : string) :
  Str.includes s ":" = false -> Str.includes (Str.trimStart s) ":" = false.
Proof.
  induction s as [|c r IH]; [reflexivity|]. intros H. cbn [Str.trimStart].
  destruct (Str.is_space c); [|exact H].
  rewrite includes_colon in H. apply orb_false_elim in H as [_ Hr]. now apply IH.
Qed.

Lemma trimEnd_free (s : string) :
  Str.includes s ":" = false -> Str.includes (Str.trimEnd s) ":" = false.
Proof.
  induction s as [|c r IH]; [reflexivity|]. rewrite includes_colon.
  intros H. apply orb_false_elim in H as [Hc Hr]. cbn [Str.trimEnd].
  specialize (IH Hr). destruct (Str.trimEnd r) as [|d r'].
  - destruct (Str.is_space c); [reflexivity|]. now rewrite includes_colon, Hc.
  - now rewrite includes_colon, Hc, IH.
Qed.

Lemma trimEnd_twice (s : string) : Str.trimEnd (Str.trimEnd s) = Str.trimEnd s.
Proof.
  induction s as [|c r IH]; [reflexivity|]. cbn [Str.trimEnd].
  destruct (Str.trimEnd r) as [|d r'] eqn:E.
  - destruct (Str.is_space c) eqn:Ec; [reflexivity|]. cbn [Str.trimEnd].
    now rewrite Ec.
  - cbn [Str.trimEnd] in *. now rewrite IH.
Qed.

(** A text that does not begin with white space. *)
Definition begins_black (s : string) : bool :=
  match s with
  | "" => true
  | String c _ => negb (Str.is_space c)
  end.

Lemma trimStart_black (s : string) : begins_black (Str.trimStart s) = true.
Proof.
  induction s as [|c r IH]; [reflexivity|]. cbn [Str.trimStart].
  destruct (Str.is_space c) eqn:Ec; [exact IH|]. cbn [begins_black].
  now rewrite Ec.
Qed.

Lemma trimStart_of_black (s : string) :
  begins_black s = true -> Str.trimStart s = s.
Proof.
  destruct s as [|c r]; [reflexivity|]. cbn [begins_black Str.trimStart].
  intros H. apply negb_true_iff in H. now rewrite H.
Qed.

Lemma trimEnd_black (s : string) :
  begins_black s = true -> begins_black (Str.trimEnd s) = true.
Proof.
  destruct s as [|c r]; [reflexivity|]. cbn [begins_black Str.trimEnd].
  intros H. destruct (Str.trimEnd r).
  - apply negb_true_iff in H. rewrite H. cbn [begins_black]. now rewrite H.
  - exact H.
Qed.

Lemma trim_twice (s : string) : Str.trim (Str.trim s) = Str.trim s.
Proof.
  unfold Str.trim.
  rewrite (trimStart_of_black (Str.trimEnd (Str.trimStart s)))
    by apply trimEnd_black, trimStart_black.
  apply trimEnd_twice.
Qed.

Lemma trim_free (s : string) :
  Str.includes s ":" = false -> Str.includes (Str.trim s) ":" = false.
Proof. intros H. now apply trimEnd_free, trimStart_free. Qed.

Lemma extractMethodName_before (signature : string) :
  extractMethodName signature = Str.trim (before_colon signature).
Proof.
  unfold extractMethodName.
  destruct (Str.includes signature ":") eqn:E; cbn [negb].
  - unfold Str.split. destruct (split_go_colon signature "") as [rest ->].
    reflexivity.
  - now rewrite before_colon_all.
Qed.

(** [extractMethodName] returns what stands in front of the first colon
    of the signature (all of it when there is no colon) without the
    white space around it.  The name has no colon, no white space at
    either end, and is its own name. *)
Theorem method_name_is_first_label (signature : string) :
  extractMethodName signature = Str.trim (before_colon signature)
  /\ Str.includes (extractMethodName signature) ":" = false
  /\ Str.trim (extractMethodName signature) = extractMethodName signature
  /\ extractMethodName (extractMethodName signature) = extractMethodName signature.
Proof.
  assert (Hf : Str.includes (extractMethodName signature) ":" = false).
  { rewrite extractMethodName_before. apply trim_free, before_colon_free. }
  split; [apply extractMethodName_before|]. split; [exact Hf|].
  assert (Ht : Str.trim (extractMethodName signature) = extractMethodName signature).
  { rewrite extractMethodName_before. apply trim_twice. }
  split; [exact Ht|].
  rewrite (extractMethodName_before (extractMethodName signature)).
  now rewrite (before_colon_all _ Hf).
Qed.

End MethodNameProps.

(** ** ObjectiveCConverter: camel case *)

Module CamelCaseProps.
Import Regex ObjectiveCConverter.

Definition is_lower (c : ascii) : bool := cls_match false [CRng "a" "z"] c.
Definition is_underscore (c : ascii) : bool := Ascii.eqb "_" c.

Definition starts_lower (s : string) : bool :=
  match s with
  | String c _ => is_lower c
  | "" => false
  end.

Lemma match_here_camel (prev : option ascii) (s : string) :
  match_here rx_camel prev s
  = match s with
    | String c r =>
        if (match prev with None => true | Some _ => false end && is_lower c)%bool
        then Some (1%nat, [(1%nat, String c "")])
        else if (is_underscore c && starts_lower r)%bool
             then Some (2%nat, [(1%nat, Str.take 1 r)])
             else None
    | "" => None
    end.
Proof.
  unfold match_here. cbn [ast rx_camel multiline m].
  unfold step_char, at_bol, orelse, accept, with_caps.
  cbn [m_prev m_rest m_pos m_caps].
  unfold is_underscore, is_lower.
  destruct s as [|c r]; [now destruct prev|].
  destruct r as [|d r'].
  - destruct prev as [p|]; cbn [andb starts_lower];
      destruct (cls_match false [CRng "a" "z"] c);
      destruct (Ascii.eqb "_" c); reflexivity.
  - unfold starts_lower, is_lower.
    destruct prev as [p|]; cbn [andb];
      destruct (cls_match false [CRng "a" "z"] c);
      destruct (Ascii.eqb "_" c);
      destruct (cls_match false [CRng "a" "z"] d); reflexivity.
Qed.

(** The text that [toCamelCase] gives behind the first character: an
    underscore in front of a letter from [a] to [z] goes, and the letter
    is written as a capital. *)
Fixpoint camel (s : string) : string :=
  match s with
  | "" => ""
  | String c r =>
      if is_underscore c then
        match r with
        | String d r' =>
            if is_lower d then String (upper_char d) (camel r')
            else String c (camel r)
        | "" => String c ""
        end
      else String c (camel r)
  end.

(** At the beginning of the text the letter stays as it is. *)
Definition camel_start (s : string) : string :=
  match s with
  | String c r =>
      if is_lower c then String c (camel r)
      else if is_underscore c then
        match r with
        | String d r' =>
            if is_lower d then String d (camel r') else String c (camel r)
        | "" => String c ""
        end
      else String c (camel r)
  | "" => ""
  end.

(** The callback of [toCamelCase]. *)
Definition letter_case (mr : MatchResult) : Result string :=
  if Nat.eqb (index mr) 0
  then let! letter := deref (grp mr 1) "toLowerCase" in Ok (toLowerCase letter)
  else let! letter := deref (grp mr 1) "toUpperCase" in Ok (toUpperCase letter).

Lemma lower_char_lower (c : ascii) : is_lower c = true -> lower_char c = c.
Proof.
  destruct c as [[] [] [] [] [] [] [] []]; intros H;
    try discriminate H; reflexivity.
Qed.

Lemma upper_char_not_lower (c : ascii) :
  is_lower c = true ->
  is_lower (upper_char c) = false /\ is_underscore (upper_char c) = false.
Proof.
  destruct c as [[] [] [] [] [] [] [] []]; intros H;
    try discriminate H; split; reflexivity.
Qed.

Lemma lower_not_underscore (c : ascii) :
  is_lower c = true -> is_underscore c = false.
Proof.
  destruct c as [[] [] [] [] [] [] [] []]; intros H;
    try discriminate H; reflexivity.
Qed.

Lemma camel_cons (c : ascii) (r : string) :
  (is_underscore c && starts_lower r)%bool = false ->
  camel (String c r) = String c (camel r).
Proof.
  cbn [camel]. destruct (is_underscore c); [|reflexivity]. cbn [andb].
  destruct r as [|d r']; [reflexivity|]. cbn [starts_lower]. now intros ->.
Qed.

(** The pieces of the replacement behind the first character. *)
Lemma scan_camel (s : string) :
  forall p i skip,
    (skip <= String.length s)%nat ->
    exists pieces,
      sequence (scan rx_camel letter_case (fun c => Ok (String c "")) (Some p) s
                  (S i) skip) = Ok pieces
      /\ Str.concat pieces = camel (Str.drop skip s).
Proof.
  induction s as [|c r IH]; intros p i skip Hs.
  - destruct skip; [|cbn in Hs; lia]. cbn [scan]. rewrite match_here_camel.
    exists []. now split.
  - destruct skip as [|k].
    + cbn [scan Str.drop]. rewrite match_here_camel. cbn [andb].
      destruct (is_underscore c && starts_lower r)%bool eqn:E.
      * apply andb_prop in E as [Ec Er].
        destruct r as [|d r']; [discriminate Er|]. cbn [starts_lower] in Er.
        destruct (IH c (S i) 1%nat) as (pieces & Hp & Hc); [cbn; lia|].
        cbn [Str.take]. unfold letter_case at 1.
        cbn [index Nat.eqb grp caps cap_list seq map get_cap Nat.sub nth deref bind
             toUpperCase].
        cbn [sequence]. rewrite Hp. eexists. split; [reflexivity|].
        cbn [Str.concat]. rewrite Hc. cbn [Str.drop camel]. now rewrite Ec, Er.
      * destruct (IH c (S i) 0%nat) as (pieces & Hp & Hc); [lia|].
        cbn [sequence]. rewrite Hp. eexists. split; [reflexivity|].
        cbn [Str.concat]. rewrite Hc. cbn [Str.drop].
        now rewrite (camel_cons c r E).
    + cbn [scan Str.drop]. apply IH. cbn in Hs. lia.
Qed.

Lemma toCamelCase_start (str : string) : toCamelCase str = Ok (camel_start str).
Proof.
  change (toCamelCase str) with (replace_try rx_camel letter_case str).
  unfold replace_try. change (global rx_camel) with true. cbv iota.
  destruct str as [|c r]; [reflexivity|].
  cbn [scan]. rewrite match_here_camel. cbn [andb camel_start].
  change (ngroups rx_camel) with 1%nat.
  destruct (is_lower c) eqn:Ec.
  - destruct (scan_camel r c 0%nat 0%nat) as (pieces & Hp & Hc); [lia|].
    unfold letter_case at 1.
    cbn [index Nat.eqb grp caps cap_list seq map get_cap Nat.sub nth deref bind
         toLowerCase].
    cbn [sequence]. rewrite Hp. cbn [Str.concat]. rewrite Hc.
    cbn [Str.drop]. now rewrite (lower_char_lower c Ec).
  - destruct (is_underscore c && starts_lower r)%bool eqn:E.
    + apply andb_prop in E as [Eu Er]. rewrite Eu.
      destruct r as [|d r']; [discriminate Er|]. cbn [starts_lower] in Er.
      destruct (scan_camel (String d r') c 0%nat 1%nat) as (pieces & Hp & Hc);
        [cbn; lia|].
      cbn [Str.take]. unfold letter_case at 1.
      cbn [index Nat.eqb grp caps cap_list seq map get_cap Nat.sub nth deref bind
           toLowerCase].
      cbn [sequence]. rewrite Hp. cbn [Str.concat]. rewrite Hc.
      cbn [Str.drop]. now rewrite Er, (lower_char_lower d Er).
    + destruct (scan_camel r c 0%nat 0%nat) as (pieces & Hp & Hc); [lia|].
      cbn [sequence]. rewrite Hp. cbn [Str.concat]. rewrite Hc. cbn [Str.drop].
      destruct (is_underscore c); [|reflexivity]. cbn [andb] in E.
      destruct r as [|d r']; [reflexivity|]. cbn [starts_lower] in E.
      now rewrite E.
Qed.

(** No underscore stands in front of a letter from [a] to [z]. *)
Fixpoint no_snake (s : string) : bool :=
  match s with
  | "" => true
  | String c r => (negb (is_underscore c && starts_lower r) && no_snake r)%bool
  end.

Lemma camel_facts (n : nat) :
  forall s,
    (String.length s <= n)%nat ->
    no_snake (camel s) = true
    /\ (starts_lower (camel s) = true -> starts_lower s = true)
    /\ (String.length (camel s) <= String.length s)%nat.
Proof.
  induction n as [|n IH]; intros s Hl.
  - destruct s; [cbn; auto | cbn in Hl; lia].
  - destruct s as [|c r]; [cbn; auto|]. cbn [String.length] in Hl.
    destruct (is_underscore c && starts_lower r)%bool eqn:E.
    + apply andb_prop in E as [Eu Er].
      destruct r as [|d r']; [discriminate Er|]. cbn [starts_lower] in Er.
      cbn [camel]. rewrite Eu, Er.
      destruct (IH r') as (N & S & L); [cbn in Hl; lia|].
      destruct (upper_char_not_lower d Er) as [U1 U2].
      cbn [no_snake starts_lower String.length]. rewrite U1, U2, N.
      repeat split; [discriminate | lia].
    + rewrite (camel_cons c r E).
      destruct (IH r) as (N & S & L); [lia|].
      cbn [no_snake starts_lower String.length]. rewrite N.
      repeat split; [|auto | lia].
      rewrite andb_true_r. apply negb_true_iff.
      destruct (is_underscore c); [|reflexivity]. cbn [andb] in *.
      destruct (starts_lower (camel r)) eqn:Es; [|reflexivity].
      now rewrite (S eq_refl) in E.
Qed.

Lemma camel_fixed (s : string) : no_snake s = true -> camel s = s.
Proof.
  induction s as [|c r IH]; [reflexivity|]. cbn [no_snake]. intros H.
  apply andb_prop in H as [Hc Hr]. apply negb_true_iff in Hc.
  now rewrite (camel_cons c r Hc), (IH Hr).
Qed.

Lemma camel_start_fixed (s : string) : no_snake s = true -> camel_start s = s.
Proof.
  destruct s as [|c r]; [reflexivity|]. cbn [no_snake camel_start]. intros H.
  apply andb_prop in H as [Hc Hr]. apply negb_true_iff in Hc.
  rewrite (camel_fixed r Hr).
  destruct (is_lower c); [reflexivity|].
  destruct (is_underscore c); [|reflexivity]. cbn [andb] in Hc.
  destruct r as [|d r']; [reflexivity|]. cbn [starts_lower] in Hc.
  now rewrite Hc.
Qed.

Lemma camel_start_facts (s : string) :
  no_snake (camel_start s) = true
  /\ (String.length (camel_start s) <= String.length s)%nat.
Proof.
  destruct s as [|c r]; [cbn; auto|]. cbn [camel_start].
  destruct (camel_facts (String.length r) r (le_n _)) as (N & S & L).
  assert (Hcopy : (is_underscore c && starts_lower r)%bool = false ->
                  no_snake (String c (camel r)) = true
                  /\ (String.length (String c (camel r))
                      <= String.length (String c r))%nat).
  { intros E. cbn [no_snake String.length]. rewrite N, andb_true_r.
    split; [|lia]. apply negb_true_iff.
    destruct (is_underscore c); [|reflexivity]. cbn [andb] in *.
    destruct (starts_lower (camel r)) eqn:Es; [|reflexivity].
    now rewrite (S eq_refl) in E. }
  destruct (is_lower c) eqn:Ec.
  - apply Hcopy. now rewrite (lower_not_underscore c Ec).
  - destruct (is_underscore c) eqn:Eu; [|now apply Hcopy].
    destruct r as [|d r'];
      [cbn [no_snake starts_lower String.length]; rewrite andb_false_r;
       split; [reflexivity | lia]|].
    destruct (is_lower d) eqn:Ed; [|apply Hcopy; cbn [starts_lower andb]; exact Ed].
    destruct (camel_facts (String.length r') r' (le_n _)) as (N' & S' & L').
    cbn [no_snake String.length]. rewrite N', (lower_not_underscore d Ed).
    split; [reflexivity | lia].
Qed.

(** [toCamelCase] returns for every text.  Behind the first character
    of the text, an underscore in front of a letter from [a] to [z] is
    dropped and the letter written as a capital; at the very beginning
    the underscore is dropped and the letter kept as it is.  In the
    result no underscore stands in front of such a letter, the result is
    never longer than the text, and it is its own camel case. *)
Theorem camel_case_leaves_no_snake (str : string) :
  toCamelCase str = Ok (camel_start str)
  /\ no_snake (camel_start str) = true
  /\ (String.length (camel_start str) <= String.length str)%nat
  /\ toCamelCase (camel_start str) = Ok (camel_start str).
Proof.
  destruct (camel_start_facts str) as [N L].
  split; [apply toCamelCase_start|]. split; [exact N|]. split; [exact L|].
  rewrite toCamelCase_start. now rewrite (camel_start_fixed _ N).
Qed.

End CamelCaseProps.

